(** * ralph-task: the reconciliation planner and its identity machinery

    A shallow embedding of the TypeScript sources
    [story-id.ts], [sync-state.ts], [sync-engine.ts], [sync-with-state.ts]
    and [sync-state-store.ts], followed by the properties of the planner.

    Conventions of the embedding.
    - A JavaScript string is a [string]; each [ascii] stands for one UTF-16
      code unit in the range 0..255.
    - A thrown exception is the [Throw] case of [Result].
    - Host facilities that are not part of the repository
      ([String.prototype.localeCompare], [Date.parse], SHA-256, the clock)
      are the fields of a [Host] record.
    - Calls to the optional logger only write to the output streams and are
      left out. *)

From Stdlib Require Import List String Ascii Bool Arith ZArith Lia.
From Stdlib Require Import Permutation Sorted Decimal DecimalString OrderedTypeEx.
Import ListNotations.
Open Scope string_scope.
Set Implicit Arguments.

(* ------------------------------------------------------------------ *)
(** * Exceptions *)

Inductive Error : Type :=
| StoryIdFormatError (message : string)
| SyntaxError (message : string)
| AdapterError (message : string).

Inductive Result (A : Type) : Type :=
| Ok (value : A)
| Throw (error : Error).
Arguments Ok {A} value.
Arguments Throw {A} error.

Definition bind {A B : Type} (r : Result A) (k : A -> Result B) : Result B :=
  match r with
  | Ok a => k a
  | Throw e => Throw e
  end.

Notation "'let*' x ':=' r 'in' k" := (bind r (fun x => k))
  (at level 10, x pattern, r at level 100, k at level 200).

(* ------------------------------------------------------------------ *)
(** * The JavaScript built-ins the sources rely on *)

Module Js.

(** Truthiness of a string, and of a possibly [undefined] string. *)
Definition truthy (s : string) : bool := negb (s =? "").

Definition truthyOpt (o : option string) : bool :=
match o with
| Some s => truthy s
| None => false
end.

(** [value ?? fallback] *)
Definition orElse {A : Type} (o : option A) (fallback : A) : A :=
match o with
| Some a => a
| None => fallback
end.

Definition isSome {A : Type} (o : option A) : bool :=
match o with
| Some _ => true
| None => false
end.

Definition code (c : ascii) : nat := nat_of_ascii c.

Definition isDigit (c : ascii) : bool :=
Nat.leb 48 (code c) && Nat.leb (code c) 57.

(** Line terminators among the code units below 256: LF and CR. *)
Definition isLineTerminator (c : ascii) : bool :=
Nat.eqb (code c) 10 || Nat.eqb (code c) 13.

(** White space as [String.prototype.trim] understands it, among the code
  units below 256: TAB, LF, VT, FF, CR, SPACE and NBSP. *)
Definition isWhiteSpace (c : ascii) : bool :=
(Nat.leb 9 (code c) && Nat.leb (code c) 13)
|| Nat.eqb (code c) 32 || Nat.eqb (code c) 160.

Fixpoint trimStart (s : string) : string :=
match s with
| EmptyString => EmptyString
| String c rest => if isWhiteSpace c then trimStart rest else s
end.

Fixpoint trimEnd (s : string) : string :=
match s with
| EmptyString => EmptyString
| String c rest =>
    let rest' := trimEnd rest in
    if isWhiteSpace c && (rest' =? "") then EmptyString else String c rest'
end.

Definition trim (s : string) : string := trimEnd (trimStart s).

(** [s.startsWith(p)] *)
Definition startsWith (s p : string) : bool := prefix p s.

(** [s.slice(n)] for [0 <= n] *)
Fixpoint slice (n : nat) (s : string) : string :=
match n, s with
| O, _ => s
| S n', String _ rest => slice n' rest
| S _, EmptyString => EmptyString
end.

Definition snoc (s : string) (c : ascii) : string := s ++ String c EmptyString.

(** [s.split(sep)] for a non-empty separator: [skip] counts the code units
  of a separator occurrence still to be passed over, [acc] is the piece
  being collected. *)
Fixpoint splitFrom (sep s : string) (skip : nat) (acc : string) : list string :=
match skip with
| S skip' =>
    match s with
    | String _ rest => splitFrom sep rest skip' acc
    | EmptyString => [acc]
    end
| O =>
    match s with
    | EmptyString => [acc]
    | String c rest =>
        if prefix sep s
        then acc :: splitFrom sep rest (length sep - 1) EmptyString
        else splitFrom sep rest 0 (snoc acc c)
    end
end.

Fixpoint chars (s : string) : list string :=
match s with
| EmptyString => []
| String c rest => String c EmptyString :: chars rest
end.

Definition split (s sep : string) : list string :=
match sep with
| EmptyString => chars s
| _ => splitFrom sep s 0 EmptyString
end.

(** [pieces.join(sep)] *)
Definition join (pieces : list string) (sep : string) : string :=
String.concat sep pieces.

(** [String(n)] for a non-negative integer below 10^21 *)
Definition showNat (n : nat) : string :=
NilEmpty.string_of_uint (Nat.to_uint n).

(** [Number.parseInt(digits, 10)] on a run of decimal digits *)
Definition parseDigits (digits : string) : nat :=
(fix go (s : string) (acc : nat) : nat :=
   match s with
   | EmptyString => acc
   | String c rest => go rest (10 * acc + (code c - 48))
   end) digits 0.

(** [raw.padStart(width, "0")] *)
Definition padStart0 (raw : string) (width : nat) : string :=
string_of_list_ascii (repeat "0"%char (width - length raw)) ++ raw.

(** The longest run of decimal digits at the start of [s], and the rest. *)
Fixpoint spanDigits (s : string) : string * string :=
match s with
| String c rest =>
    if isDigit c
    then let '(ds, tl) := spanDigits rest in (String c ds, tl)
    else (EmptyString, s)
| EmptyString => (EmptyString, EmptyString)
end.

(** The matches of a global scan ([matchAll] with the [g] flag): [matchAt]
  gives, for the text starting at a position, the length of the match
  found there and what is reported for it.  After a match the scan
  resumes behind it, and one code unit further on an empty match. *)
Fixpoint scanFrom {A : Type} (matchAt : nat -> string -> option (nat * A))
  (pos : nat) (s : string) (skip : nat) : list A :=
match skip with
| S skip' =>
    match s with
    | String _ rest => scanFrom matchAt (S pos) rest skip'
    | EmptyString => []
    end
| O =>
    match matchAt pos s with
    | Some (len, a) =>
        a :: match s with
             | String _ rest => scanFrom matchAt (S pos) rest (len - 1)
             | EmptyString => []
             end
    | None =>
        match s with
        | String _ rest => scanFrom matchAt (S pos) rest 0
        | EmptyString => []
        end
    end
end.

(** A stable sort by a three-way comparator: what [Array.prototype.sort]
  computes for a consistent comparator.  An element goes in front of the
  first element it does not exceed, so equal elements keep their order. *)
Section Sort.
Variable A : Type.
Variable compare : A -> A -> Z.

Fixpoint insertSorted (x : A) (sorted : list A) : list A :=
match sorted with
| [] => [x]
| y :: rest =>
    if (compare x y <=? 0)%Z then x :: sorted else y :: insertSorted x rest
end.

Definition sort (values : list A) : list A :=
fold_right insertSorted [] values.
End Sort.

(** [array.push(x)] *)
Definition push {A : Type} (l : list A) (x : A) : list A := (l ++ [x])%list.

Definition head {A : Type} (l : list A) : option A :=
match l with
| x :: _ => Some x
| [] => None
end.

End Js.

(* ------------------------------------------------------------------ *)
(** * The fragment of [RegExp] that [story-id.ts] builds

    The sources assemble their patterns from escaped literal text and the
    pieces [\d+], [\d{n}], [(?<name>], [)], [.*?], [^] and [$]. *)

Module Regex.

Inductive atom : Type :=
| Lit (c : ascii)              (* a character, escaped or plain *)
| DigitsPlus                   (* \d+ , greedy *)
| DigitsN (n : nat)            (* \d{n} *)
| AnyLazy                      (* .*? *)
| GroupOpen (name : string)    (* (?<name> *)
| GroupClose                   (* ) *)
| Bol                          (* ^ *)
| Eol.                         (* $ *)

Definition regex : Type := list atom.

Definition lits (s : string) : regex := map Lit (list_ascii_of_string s).

(** The backslash, written by its code. *)
Definition backslash : ascii := "092"%char.

(** The characters [escapeRegExp] puts a backslash in front of. *)
Definition isSyntaxChar (c : ascii) : bool :=
existsb (Ascii.eqb c) (backslash :: list_ascii_of_string ".*+?^${}()|[]").

Fixpoint spanUntil (stop : ascii) (s : string) : option (string * string) :=
match s with
| EmptyString => None
| String c rest =>
    if Ascii.eqb c stop then Some (EmptyString, rest)
    else match spanUntil stop rest with
         | Some (before, after) => Some (String c before, after)
         | None => None
         end
end.

(** [new RegExp(source)]: [fuel] bounds the number of atoms and is the
  length of the source. *)
Fixpoint parse (fuel : nat) (source : string) : option regex :=
match fuel with
| O => match source with EmptyString => Some [] | _ => None end
| S fuel' =>
    match source with
    | EmptyString => Some []
    | String "092" (String "d" (String "+" rest)) =>
        option_map (cons DigitsPlus) (parse fuel' rest)
    | String "092" (String "d" (String "{" rest)) =>
        match spanUntil "}" rest with
        | Some (count, rest') =>
            if forallb Js.isDigit (list_ascii_of_string count)
               && negb (count =? "")
            then option_map (cons (DigitsN (Js.parseDigits count)))
                   (parse fuel' rest')
            else None
        | None => None
        end
    | String "092" (String c rest) =>
        if isSyntaxChar c then option_map (cons (Lit c)) (parse fuel' rest)
        else None
    | String "(" (String "?" (String "<" rest)) =>
        match spanUntil ">" rest with
        | Some (name, rest') =>
            option_map (cons (GroupOpen name)) (parse fuel' rest')
        | None => None
        end
    | String ")" rest => option_map (cons GroupClose) (parse fuel' rest)
    | String "." (String "*" (String "?" rest)) =>
        option_map (cons AnyLazy) (parse fuel' rest)
    | String "^" rest => option_map (cons Bol) (parse fuel' rest)
    | String "$" rest => option_map (cons Eol) (parse fuel' rest)
    | String c rest =>
        if isSyntaxChar c then None
        else option_map (cons (Lit c)) (parse fuel' rest)
    end
end.

Definition compile (source : string) : Result regex :=
match parse (length source) source with
| Some r => Ok r
| None => Throw (SyntaxError source)
end.

(** Named groups: the positions where the groups now open began, and the
  spans of the groups already closed. *)
Record captures : Type := {
opened : list (string * nat);
closed : list (string * (nat * nat))
}.

Definition noCaptures : captures := {| opened := []; closed := [] |}.

Definition openGroup (name : string) (pos : nat) (st : captures) : captures :=
{| opened := (name, pos) :: opened st; closed := closed st |}.

Definition closeGroup (pos : nat) (st : captures) : captures :=
match opened st with
| (name, start) :: outer =>
    {| opened := outer; closed := (name, (start, pos)) :: closed st |}
| [] => st
end.

(** The backtracking matcher: the end position and the groups of the first
  way, in the engine's order of trial, in which [atoms] match the text
  [s] that starts at position [pos] of the input. *)
Fixpoint run (atoms : regex) (pos : nat) (s : string) (st : captures)
  : option (nat * captures) :=
match atoms with
| [] => Some (pos, st)
| Lit c :: k =>
    match s with
    | String c' rest => if Ascii.eqb c' c then run k (S pos) rest st else None
    | EmptyString => None
    end
| DigitsN n :: k =>
    (fix exactly (n : nat) (pos : nat) (s : string) : option (nat * captures) :=
       match n with
       | O => run k pos s st
       | S n' =>
           match s with
           | String c rest =>
               if Js.isDigit c then exactly n' (S pos) rest else None
           | EmptyString => None
           end
       end) n pos s
| DigitsPlus :: k =>
    (fix greedy (pos : nat) (s : string) : option (nat * captures) :=
       match s with
       | String c rest =>
           if Js.isDigit c
           then match greedy (S pos) rest with
                | Some found => Some found
                | None => run k (S pos) rest st
                end
           else None
       | EmptyString => None
       end) pos s
| AnyLazy :: k =>
    (fix lazy (pos : nat) (s : string) : option (nat * captures) :=
       match run k pos s st with
       | Some found => Some found
       | None =>
           match s with
           | String c rest =>
               if Js.isLineTerminator c then None else lazy (S pos) rest
           | EmptyString => None
           end
       end) pos s
| GroupOpen name :: k => run k pos s (openGroup name pos st)
| GroupClose :: k => run k pos s (closeGroup pos st)
| Bol :: k => if Nat.eqb pos 0 then run k pos s st else None
| Eol :: k => match s with EmptyString => run k pos s st | _ => None end
end.

(** The first position from [pos] on at which the pattern matches. *)
Fixpoint searchFrom (r : regex) (pos : nat) (s : string)
  : option (nat * nat * captures) :=
match run r pos s noCaptures with
| Some (stop, st) => Some (pos, stop, st)
| None =>
    match s with
    | String _ rest => searchFrom r (S pos) rest
    | EmptyString => None
    end
end.

(** [regex.exec(input)] without flags: the whole match and the named
  groups that took part in it. *)
Record execResult : Type := {
matched : string;
groups : list (string * string)
}.

Definition exec (r : regex) (input : string) : option execResult :=
match searchFrom r 0 input with
| Some (start, stop, st) =>
    Some {| matched := substring start (stop - start) input;
            groups := map (fun '(name, (from, to)) =>
                             (name, substring from (to - from) input))
                          (closed st) |}
| None => None
end.

Definition group (name : string) (res : execResult) : option string :=
option_map snd (find (fun entry => fst entry =? name) (groups res)).

(** [regex.test(input)] without flags *)
Definition test (r : regex) (input : string) : bool :=
Js.isSome (searchFrom r 0 input).

(** [Array.from(input.matchAll(regex), m => m[0])] for a [g] regex whose
  [lastIndex] is 0 *)
Definition matchAll (r : regex) (input : string) : list string :=
Js.scanFrom
  (fun pos s =>
     match run r pos s noCaptures with
     | Some (stop, _) => Some (stop - pos, substring pos (stop - pos) input)
     | None => None
     end)
  0 input 0.

End Regex.

(* ------------------------------------------------------------------ *)
(** * story-id.ts: the identifier codec *)

Module StoryId.

Record StoryIdMapping : Type := {
storyPrefix : string;
idPattern : string;
cardTitleFormat : string
}.

Inductive StoryIdParseResult : Type :=
| ParseOk (id title : string)
| ParseMissing (reason : string) (matches : list string) (title : string)
| ParseAmbiguous (reason : string) (matches : list string) (title : string).

Record IdPatternSpec : Type := {
template : string;
prefix : string;
numberToken : string;
padding : option nat;
regexSource : string
}.

Record CardTitleSpec : Type := {
titleTemplate : string;
regex : Regex.regex;
idToken : string;
titleToken : string
}.

Definition PREFIX_TOKEN : string := "{prefix}".
Definition CARD_ID_TOKEN : string := "{id}".
Definition CARD_TITLE_TOKEN : string := "{title}".

Fixpoint dropPrefix (p s : string) : option string :=
match p, s with
| EmptyString, _ => Some s
| String a p', String b s' => if Ascii.eqb a b then dropPrefix p' s' else None
| String _ _, EmptyString => None
end.

(** One match of [NUMBER_TOKEN_REGEX = /\{number(?::(\d+))?\}/g] at the
  start of [s]: its length, the whole match and the first group. *)
Definition numberTokenAt (s : string) : option (nat * (string * option string)) :=
match dropPrefix "{number" s with
| Some (String "}" _) => Some (8, ("{number}", None))
| Some (String ":" rest) =>
    match Js.spanDigits rest with
    | (EmptyString, _) => None
    | (digits, String "}" _) =>
        Some (9 + length digits, ("{number:" ++ digits ++ "}", Some digits))
    | _ => None
    end
| _ => None
end.

(** [[...pattern.matchAll(NUMBER_TOKEN_REGEX)]] *)
Definition numberMatches (pattern : string) : list (string * option string) :=
Js.scanFrom (fun _ s => numberTokenAt s) 0 pattern 0.

(** [value.replace(/[.*+?^${}()|[\]\\]/g, "\\$&")] *)
Fixpoint escapeRegExp (value : string) : string :=
match value with
| EmptyString => EmptyString
| String c rest =>
    if Regex.isSyntaxChar c
    then String Regex.backslash (String c (escapeRegExp rest))
    else String c (escapeRegExp rest)
end.

Definition replaceAll (value search replacement : string) : string :=
Js.join (Js.split value search) replacement.

Definition includes (value search : string) : bool :=
Nat.ltb 1 (List.length (Js.split value search)).

Definition parseIdPattern (pattern prefix : string) : Result IdPatternSpec :=
match numberMatches pattern with
| [] => Throw (StoryIdFormatError "idPattern must include a {number} token")
| _ :: _ :: _ =>
    Throw (StoryIdFormatError "idPattern must include only one {number} token")
| [(numberToken, paddingRaw)] =>
    if negb (includes pattern PREFIX_TOKEN)
    then Throw (StoryIdFormatError "idPattern must include a {prefix} token")
    else
      let padding := option_map Js.parseDigits paddingRaw in
      match padding with
      | Some O =>
          Throw (StoryIdFormatError "idPattern padding must be a positive integer")
      | _ =>
          let placeholderPrefix := "__STORY_PREFIX__" in
          let placeholderNumber := "__STORY_NUMBER__" in
          let tokenized :=
            replaceAll (replaceAll pattern PREFIX_TOKEN placeholderPrefix)
              numberToken placeholderNumber in
          let escaped := escapeRegExp tokenized in
          let regexSource :=
            replaceAll
              (replaceAll escaped placeholderPrefix (escapeRegExp prefix))
              placeholderNumber
              (match padding with
               | None => String Regex.backslash "d+"
               | Some n => String Regex.backslash ("d{" ++ Js.showNat n ++ "}")
               end) in
          Ok {| template := pattern;
                prefix := prefix;
                numberToken := numberToken;
                padding := padding;
                regexSource := regexSource |}
      end
end.

Definition parseCardTitleFormat (format idRegexSource : string)
  : Result CardTitleSpec :=
let idCount := List.length (Js.split format CARD_ID_TOKEN) - 1 in
let titleCount := List.length (Js.split format CARD_TITLE_TOKEN) - 1 in
if negb (Nat.eqb idCount 1) || negb (Nat.eqb titleCount 1)
then Throw (StoryIdFormatError
              "cardTitleFormat must include exactly one {id} and one {title} token")
else
  let placeholderId := "__CARD_ID__" in
  let placeholderTitle := "__CARD_TITLE__" in
  let tokenized :=
    replaceAll (replaceAll format CARD_ID_TOKEN placeholderId)
      CARD_TITLE_TOKEN placeholderTitle in
  let escaped := escapeRegExp tokenized in
  let regexSource :=
    replaceAll
      (replaceAll escaped placeholderId ("(?<id>" ++ idRegexSource ++ ")"))
      placeholderTitle
      "(?<title>.*?)" in
  let* regex := Regex.compile ("^" ++ regexSource ++ "$") in
  Ok {| titleTemplate := format;
        regex := regex;
        idToken := CARD_ID_TOKEN;
        titleToken := CARD_TITLE_TOKEN |}.

(** What the closures of [createStoryIdCodec] share. *)
Record StoryIdCodec : Type := {
idPatternSpec : IdPatternSpec;
idRegex : Regex.regex;
idSearchRegex : Regex.regex;
cardTitleSpec : CardTitleSpec
}.

Definition createStoryIdCodec (mapping : StoryIdMapping) : Result StoryIdCodec :=
let* idPattern := parseIdPattern (idPattern mapping) (storyPrefix mapping) in
let* idRegex := Regex.compile ("^" ++ regexSource idPattern ++ "$") in
let* idSearchRegex := Regex.compile (regexSource idPattern) in
let* cardTitleSpec :=
  parseCardTitleFormat (cardTitleFormat mapping) (regexSource idPattern) in
Ok {| idPatternSpec := idPattern;
      idRegex := idRegex;
      idSearchRegex := idSearchRegex;
      cardTitleSpec := cardTitleSpec |}.

(** [formatId]; the argument is a non-negative integer, for which the
  guard of the source lets every value through. *)
Definition formatId (codec : StoryIdCodec) (value : nat) : Result string :=
let spec := idPatternSpec codec in
let rawNumber := Js.showNat value in
match padding spec with
| Some width =>
    if Nat.ltb width (length rawNumber)
    then Throw (StoryIdFormatError
                  ("Story number " ++ rawNumber ++ " exceeds padding length "
                     ++ Js.showNat width))
    else Ok (replaceAll (replaceAll (template spec) PREFIX_TOKEN (prefix spec))
               (numberToken spec) (Js.padStart0 rawNumber width))
| None =>
    Ok (replaceAll (replaceAll (template spec) PREFIX_TOKEN (prefix spec))
          (numberToken spec) rawNumber)
end.

Definition formatCardTitle (codec : StoryIdCodec) (id title : string)
  : Result string :=
if negb (Regex.test (idRegex codec) id)
then Throw (StoryIdFormatError
              ("Story ID '" ++ id ++ "' does not match idPattern"))
else
  let spec := cardTitleSpec codec in
  Ok (replaceAll (replaceAll (titleTemplate spec) (idToken spec) id)
        (titleToken spec) title).

Definition parseCardTitle (codec : StoryIdCodec) (cardTitle : string)
  : StoryIdParseResult :=
let matches := Regex.matchAll (idSearchRegex codec) cardTitle in
match matches with
| [] => ParseMissing "No story ID found in card title" matches cardTitle
| _ :: _ :: _ =>
    ParseAmbiguous "Multiple story IDs found in card title" matches cardTitle
| [_] =>
    let found := Regex.exec (regex (cardTitleSpec codec)) cardTitle in
    let id := match found with
              | Some m => Regex.group "id" m
              | None => None
              end in
    let title := match found with
                 | Some m => Regex.group "title" m
                 | None => None
                 end in
    if negb (Js.truthyOpt id)
    then ParseMissing "Story ID not in canonical card title format"
           matches cardTitle
    else ParseOk (Js.orElse id "") (Js.trim (Js.orElse title ""))
end.

End StoryId.

(* ------------------------------------------------------------------ *)
(** * Maps and sets in insertion order *)

(** Keys with a decidable equality ([===] on strings and on the members of
    a string union). *)
Class Key (K : Type) : Type := { keyEqb : K -> K -> bool }.

Class KeyLaws (K : Type) `{Key K} : Prop := {
  keyEqb_eq : forall a b : K, keyEqb a b = true <-> a = b
}.
Arguments KeyLaws K {_}.

#[export] Instance stringKey : Key string := {| keyEqb := String.eqb |}.

(** [Map<K, V>]: the entries in the order in which their keys were first
    set, which is the order [forEach] and [keys] follow. *)
Module JsMap.
Section Ops.
Context {K V : Type} `{Key K}.

Definition t : Type := list (K * V).

Definition empty : t := [].

Fixpoint get (m : t) (k : K) : option V :=
match m with
| [] => None
| (k', v) :: rest => if keyEqb k' k then Some v else get rest k
end.

Definition has (m : t) (k : K) : bool := Js.isSome (get m k).

Fixpoint set (m : t) (k : K) (v : V) : t :=
match m with
| [] => [(k, v)]
| (k', v') :: rest =>
    if keyEqb k' k then (k', v) :: rest else (k', v') :: set rest k v
end.

Definition keys (m : t) : list K := map fst m.
End Ops.
Arguments t K V : clear implicits.
End JsMap.

(** [Set<string>] *)
Module JsSet.
Definition t : Type := list string.

Definition has (s : t) (x : string) : bool := existsb (String.eqb x) s.

Definition add (s : t) (x : string) : t := if has s x then s else Js.push s x.

(** [new Set(values)] *)
Definition ofList (values : list string) : t := fold_left add values [].
End JsSet.

(* ------------------------------------------------------------------ *)
(** * The host *)

Record Host : Type := {
  (** [left.localeCompare(right)] *)
  localeCompare : string -> string -> Z;
  (** [Date.parse(text)]; [None] is [NaN] *)
  DateParse : string -> option Z;
  (** [createHash("sha256").update(value).digest("hex")] *)
  sha256Hex : string -> string;
  (** [new Date().toISOString()] *)
  nowIso : string
}.

(* ------------------------------------------------------------------ *)
(** * adapters.ts: the records exchanged with the two stores *)

Definition IsoTimestamp : Type := string.

Inductive StoryStatus : Type := open | in_progress | done.

Definition statusEqb (a b : StoryStatus) : bool :=
  match a, b with
  | open, open | in_progress, in_progress | done, done => true
  | _, _ => false
  end.

#[export] Instance statusKey : Key StoryStatus := {| keyEqb := statusEqb |}.

(** The string a status is at run time. *)
Definition statusText (s : StoryStatus) : string :=
  match s with
  | open => "open"
  | in_progress => "in_progress"
  | done => "done"
  end.

Module PrdStory.
Record t : Type := {
  id : string;
  title : string;
  status : StoryStatus;
  dependsOn : list string;
  description : string;
  acceptanceCriteria : list string
}.
End PrdStory.

Module FormatReadResult.
Record t : Type := {
  stories : list PrdStory.t;
  lastModifiedAt : IsoTimestamp
}.
End FormatReadResult.

Module BoardList.
Record t : Type := { id : string; name : string; closed : bool }.
End BoardList.

Module BoardLabel.
Record t : Type := { id : string; name : string; color : option string }.
End BoardLabel.

Module BoardLabelInput.
Record t : Type := { name : string; color : option string }.
End BoardLabelInput.

Module BoardCard.
Record t : Type := {
  id : string;
  name : string;
  description : string;
  listId : string;
  labelIds : list string;
  closed : bool;
  lastActivityAt : IsoTimestamp
}.
End BoardCard.

Module BoardChecklistItem.
Record t : Type := { id : string; name : string; checked : bool }.
End BoardChecklistItem.

Module BoardChecklist.
Record t : Type := {
  id : string;
  name : string;
  items : list BoardChecklistItem.t
}.
End BoardChecklist.

Module BoardCardInput.
Record t : Type := {
  name : string;
  description : string;
  listId : string;
  labelIds : list string
}.
End BoardCardInput.

(** Every field is optional; a field that is [None] is an absent key. *)
Module BoardCardUpdate.
Record t : Type := {
  name : option string;
  description : option string;
  listId : option string;
  labelIds : option (list string);
  closed : option bool
}.

Definition empty : t :=
  {| name := None; description := None; listId := None;
     labelIds := None; closed := None |}.
End BoardCardUpdate.

Module BoardChecklistItemInput.
Record t : Type := { name : string; checked : bool }.
End BoardChecklistItemInput.

Module BoardChecklistInput.
Record t : Type := {
  name : string;
  items : list BoardChecklistItemInput.t
}.
End BoardChecklistInput.

(** [RalphtaskConfig["mapping"]] and the option types of [config.ts], as
    the sources use them. *)
Module StatusToList.
Record t : Type := { open : string; in_progress : string; done : string }.
End StatusToList.

Module Mapping.
Record t : Type := {
  storyPrefix : string;
  idPattern : string;
  cardTitleFormat : string;
  dependsOnLabelPrefix : string;
  statusToList : StatusToList.t;
  acceptanceCriteriaChecklistName : string
}.
End Mapping.

Inductive ConflictPrefer : Type := PreferNone | PreferTrello | PreferPrd.

Inductive SyncDirection : Type := TwoWay | TrelloToPrd | PrdToTrello.

Module ConflictOptions.
Record t : Type := {
  prefer : option ConflictPrefer;
  defaultPrefer : option ConflictPrefer;
  blockWrites : option bool;
  createMissingLabels : option bool
}.
End ConflictOptions.

(* ------------------------------------------------------------------ *)
(** * [JSON.stringify] on the values the sources serialise *)

Module Json.

Definition hexDigit (n : nat) : ascii :=
match n with
| 0 => "0" | 1 => "1" | 2 => "2" | 3 => "3" | 4 => "4" | 5 => "5"
| 6 => "6" | 7 => "7" | 8 => "8" | 9 => "9" | 10 => "a" | 11 => "b"
| 12 => "c" | 13 => "d" | 14 => "e" | _ => "f"
end%char.

Definition escapeChar (c : ascii) : string :=
let n := Js.code c in
if Nat.eqb n 34 then String Regex.backslash (String c EmptyString)
else if Nat.eqb n 92 then String Regex.backslash (String c EmptyString)
else if Nat.eqb n 8 then String Regex.backslash "b"
else if Nat.eqb n 9 then String Regex.backslash "t"
else if Nat.eqb n 10 then String Regex.backslash "n"
else if Nat.eqb n 12 then String Regex.backslash "f"
else if Nat.eqb n 13 then String Regex.backslash "r"
else if Nat.ltb n 32
     then String Regex.backslash
            ("u00" ++ String (hexDigit (n / 16)) (String (hexDigit (n mod 16)) ""))
     else String c EmptyString.

Fixpoint escape (s : string) : string :=
match s with
| EmptyString => EmptyString
| String c rest => escapeChar c ++ escape rest
end.

Definition quote : string := String "034"%char EmptyString.

Definition str (s : string) : string := quote ++ escape s ++ quote.

Definition arr (items : list string) : string :=
"[" ++ String.concat "," items ++ "]".

Definition member (key value : string) : string := str key ++ ":" ++ value.

Definition obj (members : list string) : string :=
"{" ++ String.concat "," members ++ "}".

End Json.

(* ------------------------------------------------------------------ *)
(** * sync-state.ts: fingerprints and the incremental state *)

Module SyncStateStoryEntry.
Record t : Type := { fingerprint : string }.
End SyncStateStoryEntry.

Module SyncStateCardEntry.
Record t : Type := { cardId : string; lastActivityAt : IsoTimestamp }.
End SyncStateCardEntry.

(** [storyIndex] and [cardIndex] are plain objects used as maps; their keys
    are taken not to name members of [Object.prototype]. *)
Module SyncState.
Record t : Type := {
  version : nat;
  lastRunAt : IsoTimestamp;
  boardId : string;
  prdPath : string;
  mappingSignature : string;
  lastSeenTrelloActivity : IsoTimestamp;
  storyIndex : JsMap.t string SyncStateStoryEntry.t;
  cardIndex : JsMap.t string SyncStateCardEntry.t
}.
End SyncState.

Module SyncStateCardRecord.
Record t : Type := { storyId : string; card : BoardCard.t }.
End SyncStateCardRecord.

Section SyncStateFunctions.
Variable host : Host.

Definition hashText (value : string) : string := sha256Hex host value.

(** The sign of the result is all its callers look at; [0] when either
    side is not a date. *)
Definition compareIsoTimestamps (left right : IsoTimestamp) : Z :=
  match DateParse host left, DateParse host right with
  | Some leftTime, Some rightTime => (leftTime - rightTime)%Z
  | _, _ => 0%Z
  end.

Definition sortStrings (values : list string) : list string :=
  Js.sort (localeCompare host) values.

Definition createStoryFingerprint (story : PrdStory.t) : string :=
  let normalized :=
    Json.obj
      [ Json.member "id" (Json.str (PrdStory.id story));
        Json.member "title" (Json.str (PrdStory.title story));
        Json.member "status" (Json.str (statusText (PrdStory.status story)));
        Json.member "description" (Json.str (PrdStory.description story));
        Json.member "dependsOn"
          (Json.arr (map Json.str (sortStrings (PrdStory.dependsOn story))));
        Json.member "acceptanceCriteria"
          (Json.arr (map Json.str (PrdStory.acceptanceCriteria story))) ] in
  hashText normalized.

Definition createMappingSignature (mapping : Mapping.t) : string :=
  let normalized :=
    Json.obj
      [ Json.member "storyPrefix" (Json.str (Mapping.storyPrefix mapping));
        Json.member "idPattern" (Json.str (Mapping.idPattern mapping));
        Json.member "cardTitleFormat"
          (Json.str (Mapping.cardTitleFormat mapping));
        Json.member "dependsOnLabelPrefix"
          (Json.str (Mapping.dependsOnLabelPrefix mapping));
        Json.member "statusToList"
          (Json.obj
             [ Json.member "open"
                 (Json.str (StatusToList.open (Mapping.statusToList mapping)));
               Json.member "in_progress"
                 (Json.str (StatusToList.in_progress (Mapping.statusToList mapping)));
               Json.member "done"
                 (Json.str (StatusToList.done (Mapping.statusToList mapping))) ]);
        Json.member "acceptanceCriteriaChecklistName"
          (Json.str (Mapping.acceptanceCriteriaChecklistName mapping)) ] in
  hashText normalized.

(** The loop shared by [resolveLastSeenActivity] and
    [resolveLatestActivity]. *)
Definition latestActivity (start : IsoTimestamp)
    (cards : list SyncStateCardRecord.t) : IsoTimestamp :=
  fold_left
    (fun latest record =>
       let activity := BoardCard.lastActivityAt (SyncStateCardRecord.card record) in
       if (latest =? "") || (0 <? compareIsoTimestamps activity latest)%Z
       then activity else latest)
    cards start.

Definition resolveLastSeenActivity (cards : list SyncStateCardRecord.t)
    (fallback : option IsoTimestamp) : IsoTimestamp :=
  let latest := latestActivity (Js.orElse fallback "") cards in
  if latest =? "" then nowIso host else latest.

Definition createSyncState (boardId prdPath : string) (mapping : Mapping.t)
    (stories : list PrdStory.t) (cards : list SyncStateCardRecord.t)
    (lastSeenTrelloActivity lastRunAt : option IsoTimestamp) : SyncState.t :=
  let storyIndex :=
    fold_left
      (fun index story =>
         JsMap.set index (PrdStory.id story)
           {| SyncStateStoryEntry.fingerprint := createStoryFingerprint story |})
      stories JsMap.empty in
  let cardIndex :=
    fold_left
      (fun index record =>
         JsMap.set index (SyncStateCardRecord.storyId record)
           {| SyncStateCardEntry.cardId :=
                BoardCard.id (SyncStateCardRecord.card record);
              SyncStateCardEntry.lastActivityAt :=
                BoardCard.lastActivityAt (SyncStateCardRecord.card record) |})
      cards JsMap.empty in
  {| SyncState.version := 1;
     SyncState.lastRunAt := Js.orElse lastRunAt (nowIso host);
     SyncState.boardId := boardId;
     SyncState.prdPath := prdPath;
     SyncState.mappingSignature := createMappingSignature mapping;
     SyncState.lastSeenTrelloActivity :=
       resolveLastSeenActivity cards lastSeenTrelloActivity;
     SyncState.storyIndex := storyIndex;
     SyncState.cardIndex := cardIndex |}.
End SyncStateFunctions.

(* ------------------------------------------------------------------ *)
(** * sync-engine.ts: the plan and the helpers of the planner *)

Module SyncPlanOptions.
Record t : Type := {
  prdPath : string;
  mapping : Mapping.t;
  direction : option SyncDirection;
  incremental : option bool;
  dryRun : option bool;
  state : option SyncState.t;
  conflict : option ConflictOptions.t
}.
End SyncPlanOptions.

Module SyncListMove.
Record t : Type := {
  fromId : string;
  toId : string;
  fromName : option string;
  toName : option string
}.
End SyncListMove.

Inductive SyncTarget : Type := TargetTrello | TargetPrd.

Module SyncCreate.
Inductive t : Type :=
| Trello (id reason : string) (story : PrdStory.t)
    (cardInput : BoardCardInput.t) (checklist : BoardChecklistInput.t)
| Prd (id reason : string) (story : PrdStory.t) (card : BoardCard.t).

Definition id (c : t) : string :=
  match c with
  | Trello id _ _ _ _ => id
  | Prd id _ _ _ => id
  end.

Definition target (c : t) : SyncTarget :=
  match c with
  | Trello _ _ _ _ _ => TargetTrello
  | Prd _ _ _ _ => TargetPrd
  end.
End SyncCreate.

Module SyncUpdate.
Inductive t : Type :=
| Trello (id reason : string) (story : PrdStory.t) (card : BoardCard.t)
    (cardUpdate : BoardCardUpdate.t) (checklist : BoardChecklistInput.t)
    (checklistNeedsUpdate : bool) (listMove : option SyncListMove.t)
| Prd (id reason : string) (story : PrdStory.t) (card : BoardCard.t).

Definition id (u : t) : string :=
  match u with
  | Trello id _ _ _ _ _ _ _ => id
  | Prd id _ _ _ => id
  end.

Definition target (u : t) : SyncTarget :=
  match u with
  | Trello _ _ _ _ _ _ _ _ => TargetTrello
  | Prd _ _ _ _ => TargetPrd
  end.
End SyncUpdate.

Module SyncConflict.
Record t : Type := {
  id : option string;
  reason : string;
  cards : option (list BoardCard.t);
  story : option PrdStory.t
}.
End SyncConflict.

Module SyncNoop.
Record t : Type := { id : string; reason : string }.
End SyncNoop.

Module SyncPlan.
Record t : Type := {
  creates : list SyncCreate.t;
  updates : list SyncUpdate.t;
  conflicts : list SyncConflict.t;
  noop : list SyncNoop.t
}.
End SyncPlan.

Module CardRecord.
Record t : Type := {
  card : BoardCard.t;
  storyId : string;
  storyTitle : string
}.
End CardRecord.

Module SyncContext.
Record t : Type := {
  prdStories : list PrdStory.t;
  cardRecords : list CardRecord.t
}.
End SyncContext.

Module StatusMappingResult.
Record t : Type := {
  statusToListId : JsMap.t StoryStatus string;
  listIdToStatus : JsMap.t string StoryStatus;
  issues : list string
}.
End StatusMappingResult.

Module ChecklistSelection.
Record t : Type := {
  checklist : option BoardChecklist.t;
  issue : option string
}.
End ChecklistSelection.

Module CardMappingResult.
Record t : Type := {
  cardInput : BoardCardInput.t;
  cardUpdate : BoardCardUpdate.t;
  checklist : BoardChecklistInput.t;
  checklistNeedsUpdate : bool;
  issues : list string;
  missingLabels : list string
}.
End CardMappingResult.

Module StoryMappingResult.
Record t : Type := { story : PrdStory.t; issues : list string }.
End StoryMappingResult.

(** [left.length === right.length && left.every((v, i) => matcher(v, right[i]))] *)
Fixpoint areArraysEqual {T : Type} (matcher : T -> T -> bool)
    (left right : list T) : bool :=
  match left, right with
  | [], [] => true
  | l :: ls, r :: rs => matcher l r && areArraysEqual matcher ls rs
  | _, _ => false
  end.

Definition areChecklistItemsEqual
    (left right : list BoardChecklistItemInput.t) : bool :=
  areArraysEqual
    (fun leftItem rightItem =>
       (BoardChecklistItemInput.name leftItem
          =? BoardChecklistItemInput.name rightItem)
       && Bool.eqb (BoardChecklistItemInput.checked leftItem)
            (BoardChecklistItemInput.checked rightItem))
    left right.

Definition resolveConflictPrefer (conflict : option ConflictOptions.t)
    : ConflictPrefer :=
  match conflict with
  | Some c =>
      match ConflictOptions.prefer c with
      | Some p => p
      | None => Js.orElse (ConflictOptions.defaultPrefer c) PreferNone
      end
  | None => PreferNone
  end.

Definition resolveCreateMissingLabels (conflict : option ConflictOptions.t)
    : bool :=
  match conflict with
  | Some c => Js.orElse (ConflictOptions.createMissingLabels c) true
  | None => true
  end.

Definition resolveTimestampComparison (comparison : Z) (prefer : ConflictPrefer)
    : Z :=
  if negb (comparison =? 0)%Z then comparison
  else match prefer with
       | PreferPrd => 1%Z
       | PreferTrello => (-1)%Z
       | PreferNone => 0%Z
       end.

Definition selectChecklist (checklists : list BoardChecklist.t) (name : string)
    : ChecklistSelection.t :=
  let matches := filter (fun checklist => BoardChecklist.name checklist =? name)
                   checklists in
  if Nat.ltb 1 (List.length matches)
  then {| ChecklistSelection.checklist := None;
          ChecklistSelection.issue :=
            Some ("Multiple checklists named '" ++ name ++ "' found") |}
  else {| ChecklistSelection.checklist := Js.head matches;
          ChecklistSelection.issue := None |}.

Definition buildChecklistInput (story : PrdStory.t) (checklistName : string)
    : BoardChecklistInput.t :=
  {| BoardChecklistInput.name := checklistName;
     BoardChecklistInput.items :=
       map (fun criteria =>
              {| BoardChecklistItemInput.name := criteria;
                 BoardChecklistItemInput.checked :=
                   statusEqb (PrdStory.status story) done |})
           (PrdStory.acceptanceCriteria story) |}.

Definition hasUpdateFields (update : BoardCardUpdate.t) : bool :=
  Js.isSome (BoardCardUpdate.name update)
  || Js.isSome (BoardCardUpdate.description update)
  || Js.isSome (BoardCardUpdate.listId update)
  || Js.isSome (BoardCardUpdate.labelIds update)
  || Js.isSome (BoardCardUpdate.closed update).

Section Engine.
Variable host : Host.

Definition areSetsEqual (left right : list string) : bool :=
  areArraysEqual String.eqb (sortStrings host left) (sortStrings host right).

Definition statusEntries (statusToList : StatusToList.t)
    : list (StoryStatus * string) :=
  [ (open, StatusToList.open statusToList);
    (in_progress, StatusToList.in_progress statusToList);
    (done, StatusToList.done statusToList) ].

(** One turn of the loop of [createStatusMapping]. *)
Definition mapStatus (lists : list BoardList.t)
    (acc : StatusMappingResult.t) (entry : StoryStatus * string)
    : StatusMappingResult.t :=
  let '(status, listName) := entry in
  let openMatches :=
    filter (fun list => (BoardList.name list =? listName)
                        && negb (BoardList.closed list)) lists in
  let matches :=
    if Nat.ltb 0 (List.length openMatches) then openMatches
    else filter (fun list => BoardList.name list =? listName) lists in
  if Nat.eqb (List.length matches) 0
  then {| StatusMappingResult.statusToListId :=
            StatusMappingResult.statusToListId acc;
          StatusMappingResult.listIdToStatus :=
            StatusMappingResult.listIdToStatus acc;
          StatusMappingResult.issues :=
            Js.push (StatusMappingResult.issues acc)
              ("No Trello list found for status '" ++ statusText status
                 ++ "' (" ++ listName ++ ")") |}
  else
    let chosen := Js.head (sortStrings host (map BoardList.id matches)) in
    let chosenList :=
      match chosen with
      | Some chosenId =>
          find (fun list => BoardList.id list =? chosenId) matches
      | None => None
      end in
    let issues :=
      if Nat.ltb 1 (List.length matches)
      then Js.push (StatusMappingResult.issues acc)
             ("Multiple Trello lists found for status '"
                ++ statusText status ++ "' (" ++ listName ++ ")")
      else StatusMappingResult.issues acc in
    match chosenList with
    | Some list =>
        {| StatusMappingResult.statusToListId :=
             JsMap.set (StatusMappingResult.statusToListId acc) status
               (BoardList.id list);
           StatusMappingResult.listIdToStatus :=
             JsMap.set (StatusMappingResult.listIdToStatus acc)
               (BoardList.id list) status;
           StatusMappingResult.issues := issues |}
    | None =>
        {| StatusMappingResult.statusToListId :=
             StatusMappingResult.statusToListId acc;
           StatusMappingResult.listIdToStatus :=
             StatusMappingResult.listIdToStatus acc;
           StatusMappingResult.issues := issues |}
    end.

Definition createStatusMapping (lists : list BoardList.t)
    (statusToList : StatusToList.t) : StatusMappingResult.t :=
  fold_left (mapStatus lists) (statusEntries statusToList)
    {| StatusMappingResult.statusToListId := JsMap.empty;
       StatusMappingResult.listIdToStatus := JsMap.empty;
       StatusMappingResult.issues := [] |}.

(** One turn of the loop over [story.dependsOn] in [resolveLabelIds]. *)
Definition addDependency (labelPrefix : string)
    (labelNameToId : JsMap.t string string)
    (acc : list string * JsSet.t) (dependency : string)
    : list string * JsSet.t :=
  let '(desiredLabelIds, missingLabels) := acc in
  let labelName := labelPrefix ++ dependency in
  let labelId := JsMap.get labelNameToId labelName in
  if negb (Js.truthyOpt labelId)
  then (desiredLabelIds, JsSet.add missingLabels labelName)
  else (Js.push desiredLabelIds (Js.orElse labelId ""), missingLabels).

(** The label ids wanted for the dependencies of a story, and the names
    of the labels the board lacks, in the order of [story.dependsOn]. *)
Definition dependencyLabels (dependsOn : list string) (labelPrefix : string)
    (labelNameToId : JsMap.t string string) : list string * JsSet.t :=
  fold_left (addDependency labelPrefix labelNameToId) dependsOn ([], []).

Definition resolveLabelIds (story : PrdStory.t) (mapping : Mapping.t)
    (labelNameToId labelIdToName : JsMap.t string string)
    (card : option BoardCard.t) : list string * list string :=
  let '(desiredLabelIds, missingLabels) :=
    dependencyLabels (PrdStory.dependsOn story)
      (Mapping.dependsOnLabelPrefix mapping) labelNameToId in
  let keepLabelIds :=
    match card with
    | Some card =>
        filter
          (fun labelId =>
             let labelName := JsMap.get labelIdToName labelId in
             negb (Js.truthyOpt labelName)
             || negb (Js.startsWith (Js.orElse labelName "")
                        (Mapping.dependsOnLabelPrefix mapping)))
          (BoardCard.labelIds card)
    | None => []
    end in
  let mergedLabelIds := sortStrings host (keepLabelIds ++ desiredLabelIds)%list in
  (mergedLabelIds, sortStrings host missingLabels).
End Engine.

Section Mappings.
Variable host : Host.

Definition buildCardMapping (story : PrdStory.t) (mapping : Mapping.t)
    (statusMapping : StatusMappingResult.t)
    (labelNameToId labelIdToName : JsMap.t string string)
    (storyIdCodec : StoryId.StoryIdCodec)
    (card : option BoardCard.t) (checklists : option (list BoardChecklist.t))
    : Result CardMappingResult.t :=
  let listId :=
    JsMap.get (StatusMappingResult.statusToListId statusMapping)
      (PrdStory.status story) in
  let issues :=
    if negb (Js.truthyOpt listId)
    then ["No Trello list mapped for status '"
            ++ statusText (PrdStory.status story) ++ "'"]
    else [] in
  let '(mergedLabelIds, missingLabels) :=
    resolveLabelIds host story mapping labelNameToId labelIdToName card in
  let* name :=
    StoryId.formatCardTitle storyIdCodec (PrdStory.id story)
      (PrdStory.title story) in
  let cardInput :=
    {| BoardCardInput.name := name;
       BoardCardInput.description := PrdStory.description story;
       BoardCardInput.listId := Js.orElse listId "";
       BoardCardInput.labelIds := mergedLabelIds |} in
  let cardUpdate :=
    match card with
    | Some card =>
        {| BoardCardUpdate.name :=
             if negb (BoardCard.name card =? BoardCardInput.name cardInput)
             then Some (BoardCardInput.name cardInput) else None;
           BoardCardUpdate.description :=
             if negb (BoardCard.description card
                        =? BoardCardInput.description cardInput)
             then Some (BoardCardInput.description cardInput) else None;
           BoardCardUpdate.listId :=
             if Js.truthyOpt listId
                && negb (BoardCard.listId card =? Js.orElse listId "")
             then listId else None;
           BoardCardUpdate.labelIds :=
             if negb (areSetsEqual host (BoardCard.labelIds card) mergedLabelIds)
             then Some mergedLabelIds else None;
           BoardCardUpdate.closed := None |}
    | None => BoardCardUpdate.empty
    end in
  let checklist :=
    buildChecklistInput story (Mapping.acceptanceCriteriaChecklistName mapping) in
  let '(checklistNeedsUpdate, issues) :=
    match checklists with
    | Some checklists =>
        let selection :=
          selectChecklist checklists
            (Mapping.acceptanceCriteriaChecklistName mapping) in
        if Js.truthyOpt (ChecklistSelection.issue selection)
        then (false, Js.push issues (Js.orElse (ChecklistSelection.issue selection) ""))
        else
          let existingItems :=
            map (fun item =>
                   {| BoardChecklistItemInput.name := BoardChecklistItem.name item;
                      BoardChecklistItemInput.checked :=
                        BoardChecklistItem.checked item |})
                (match ChecklistSelection.checklist selection with
                 | Some existing => BoardChecklist.items existing
                 | None => []
                 end) in
          if Nat.eqb (List.length existingItems) 0
             && Nat.eqb (List.length (BoardChecklistInput.items checklist)) 0
             && negb (Js.isSome (ChecklistSelection.checklist selection))
          then (false, issues)
          else (negb (areChecklistItemsEqual existingItems
                        (BoardChecklistInput.items checklist)), issues)
    | None =>
        (Nat.ltb 0 (List.length (BoardChecklistInput.items checklist)), issues)
    end in
  Ok {| CardMappingResult.cardInput := cardInput;
        CardMappingResult.cardUpdate := cardUpdate;
        CardMappingResult.checklist := checklist;
        CardMappingResult.checklistNeedsUpdate := checklistNeedsUpdate;
        CardMappingResult.issues := issues;
        CardMappingResult.missingLabels := missingLabels |}.

Definition buildStoryMapping (record : CardRecord.t) (mapping : Mapping.t)
    (statusMapping : StatusMappingResult.t)
    (labelIdToName : JsMap.t string string)
    (checklists : option (list BoardChecklist.t)) : StoryMappingResult.t :=
  let status :=
    JsMap.get (StatusMappingResult.listIdToStatus statusMapping)
      (BoardCard.listId (CardRecord.card record)) in
  let issues :=
    if negb (Js.isSome status)
    then ["No PRD status mapped for Trello list '"
            ++ BoardCard.listId (CardRecord.card record) ++ "'"]
    else [] in
  let labelPrefix := Mapping.dependsOnLabelPrefix mapping in
  let dependsOn :=
    sortStrings host
      (JsSet.ofList
         (filter (fun name => negb (Js.trim name =? ""))
            (map (fun name => Js.slice (length labelPrefix) (Js.orElse name ""))
               (filter
                  (fun name => Js.truthyOpt name
                               && Js.startsWith (Js.orElse name "") labelPrefix)
                  (map (fun labelId => JsMap.get labelIdToName labelId)
                     (BoardCard.labelIds (CardRecord.card record))))))) in
  let '(acceptanceCriteria, issues) :=
    match checklists with
    | Some checklists =>
        let selection :=
          selectChecklist checklists
            (Mapping.acceptanceCriteriaChecklistName mapping) in
        if Js.truthyOpt (ChecklistSelection.issue selection)
        then ([], Js.push issues (Js.orElse (ChecklistSelection.issue selection) ""))
        else (map BoardChecklistItem.name
                (match ChecklistSelection.checklist selection with
                 | Some existing => BoardChecklist.items existing
                 | None => []
                 end), issues)
    | None => ([], issues)
    end in
  {| StoryMappingResult.story :=
       {| PrdStory.id := CardRecord.storyId record;
          PrdStory.title := CardRecord.storyTitle record;
          PrdStory.status := Js.orElse status open;
          PrdStory.dependsOn := dependsOn;
          PrdStory.description := BoardCard.description (CardRecord.card record);
          PrdStory.acceptanceCriteria := acceptanceCriteria |};
     StoryMappingResult.issues := issues |}.

Definition storiesEquivalent (left right : PrdStory.t) : bool :=
  (PrdStory.id left =? PrdStory.id right)
  && (PrdStory.title left =? PrdStory.title right)
  && statusEqb (PrdStory.status left) (PrdStory.status right)
  && (PrdStory.description left =? PrdStory.description right)
  && areSetsEqual host (PrdStory.dependsOn left) (PrdStory.dependsOn right)
  && areArraysEqual String.eqb (PrdStory.acceptanceCriteria left)
       (PrdStory.acceptanceCriteria right).
End Mappings.

(* ------------------------------------------------------------------ *)
(** * sync-engine.ts: [SyncEngine.buildPlan]

    [buildPlan] reads both stores, prepares its local tables, fetches the
    checklists of the cards that need them and classifies every identifier.
    The tables are collected in [PlanLocals.t]; the reads are passed in. *)

Module PlanLocals.
Record t : Type := {
  direction : SyncDirection;
  mapping : Mapping.t;
  storyIdCodec : StoryId.StoryIdCodec;
  conflictPrefer : ConflictPrefer;
  createMissingLabels : bool;
  incrementalState : option SyncState.t;
  prdResult : FormatReadResult.t;
  statusMapping : StatusMappingResult.t;
  listIdToName : JsMap.t string string;
  labelNameToId : JsMap.t string string;
  labelIdToName : JsMap.t string string;
  (** [conflicts] as it stands when the loop over the identifiers begins *)
  conflicts : list SyncConflict.t;
  prdById : JsMap.t string PrdStory.t;
  storyFingerprints : JsMap.t string string;
  duplicateStoryIds : JsSet.t;
  cardRecords : list CardRecord.t;
  cardRecordsById : JsMap.t string (list CardRecord.t);
  conflictedIds : JsSet.t;
  uniqueCardRecords : list CardRecord.t
}.
End PlanLocals.

(** What one turn of the loop over [sortedIds] pushes onto the plan. *)
Inductive PlanEntry : Type :=
| PushCreate (entry : SyncCreate.t)
| PushUpdate (entry : SyncUpdate.t)
| PushConflict (entry : SyncConflict.t)
| PushNoop (entry : SyncNoop.t).

Definition pushEntry (plan : SyncPlan.t) (entry : PlanEntry) : SyncPlan.t :=
  match entry with
  | PushCreate c =>
      {| SyncPlan.creates := Js.push (SyncPlan.creates plan) c;
         SyncPlan.updates := SyncPlan.updates plan;
         SyncPlan.conflicts := SyncPlan.conflicts plan;
         SyncPlan.noop := SyncPlan.noop plan |}
  | PushUpdate u =>
      {| SyncPlan.creates := SyncPlan.creates plan;
         SyncPlan.updates := Js.push (SyncPlan.updates plan) u;
         SyncPlan.conflicts := SyncPlan.conflicts plan;
         SyncPlan.noop := SyncPlan.noop plan |}
  | PushConflict c =>
      {| SyncPlan.creates := SyncPlan.creates plan;
         SyncPlan.updates := SyncPlan.updates plan;
         SyncPlan.conflicts := Js.push (SyncPlan.conflicts plan) c;
         SyncPlan.noop := SyncPlan.noop plan |}
  | PushNoop n =>
      {| SyncPlan.creates := SyncPlan.creates plan;
         SyncPlan.updates := SyncPlan.updates plan;
         SyncPlan.conflicts := SyncPlan.conflicts plan;
         SyncPlan.noop := Js.push (SyncPlan.noop plan) n |}
  end.

Definition conflictOf (id : option string) (reason : string)
    (cards : option (list BoardCard.t)) (story : option PrdStory.t)
    : SyncConflict.t :=
  {| SyncConflict.id := id; SyncConflict.reason := reason;
     SyncConflict.cards := cards; SyncConflict.story := story |}.

Definition noopOf (id reason : string) : PlanEntry :=
  PushNoop {| SyncNoop.id := id; SyncNoop.reason := reason |}.

(** The identifier an entry is keyed by. *)
Definition entryId (entry : PlanEntry) : option string :=
  match entry with
  | PushCreate c => Some (SyncCreate.id c)
  | PushUpdate u => Some (SyncUpdate.id u)
  | PushConflict c => SyncConflict.id c
  | PushNoop n => Some (SyncNoop.id n)
  end.

Section BuildPlan.
Variable host : Host.

(** One turn of [prdResult.stories.forEach]: [prdById],
    [storyFingerprints] and [duplicateStoryIds]. *)
Definition indexStory
    (acc : JsMap.t string PrdStory.t * JsMap.t string string * JsSet.t)
    (story : PrdStory.t)
    : JsMap.t string PrdStory.t * JsMap.t string string * JsSet.t :=
  let '(prdById, storyFingerprints, duplicateStoryIds) := acc in
  let storyFingerprints :=
    JsMap.set storyFingerprints (PrdStory.id story)
      (createStoryFingerprint host story) in
  if JsMap.has prdById (PrdStory.id story)
  then (prdById, storyFingerprints,
        JsSet.add duplicateStoryIds (PrdStory.id story))
  else (JsMap.set prdById (PrdStory.id story) story,
        storyFingerprints, duplicateStoryIds).

Definition indexStories (stories : list PrdStory.t)
    : JsMap.t string PrdStory.t * JsMap.t string string * JsSet.t :=
  fold_left indexStory stories (JsMap.empty, JsMap.empty, []).

(** One turn of [cards.forEach]: [cardRecords], and the conflict of a
    card whose title does not parse. *)
Definition parseCard (storyIdCodec : StoryId.StoryIdCodec)
    (acc : list CardRecord.t * list SyncConflict.t) (card : BoardCard.t)
    : list CardRecord.t * list SyncConflict.t :=
  let '(cardRecords, conflicts) := acc in
  match StoryId.parseCardTitle storyIdCodec (BoardCard.name card) with
  | StoryId.ParseOk id title =>
      (Js.push cardRecords
         {| CardRecord.card := card; CardRecord.storyId := id;
            CardRecord.storyTitle := title |},
       conflicts)
  | StoryId.ParseMissing reason _ _
  | StoryId.ParseAmbiguous reason _ _ =>
      (cardRecords,
       Js.push conflicts (conflictOf None reason (Some [card]) None))
  end.

Definition parseCards (storyIdCodec : StoryId.StoryIdCodec)
    (cards : list BoardCard.t) (conflicts : list SyncConflict.t)
    : list CardRecord.t * list SyncConflict.t :=
  fold_left (parseCard storyIdCodec) cards ([], conflicts).

(** One turn of [cardRecords.forEach]: [cardRecordsById]. *)
Definition groupCardRecord
    (cardRecordsById : JsMap.t string (list CardRecord.t))
    (record : CardRecord.t) : JsMap.t string (list CardRecord.t) :=
  let bucket :=
    Js.orElse (JsMap.get cardRecordsById (CardRecord.storyId record)) [] in
  JsMap.set cardRecordsById (CardRecord.storyId record) (Js.push bucket record).

Definition groupCardRecords (cardRecords : list CardRecord.t)
    : JsMap.t string (list CardRecord.t) :=
  fold_left groupCardRecord cardRecords JsMap.empty.

(** One turn of [cardRecordsById.forEach]: [conflictedIds],
    [uniqueCardRecords] and the conflict of an identifier that several
    cards carry.  A bucket always holds a record. *)
Definition splitBucket
    (acc : JsSet.t * list CardRecord.t * list SyncConflict.t)
    (entry : string * list CardRecord.t)
    : JsSet.t * list CardRecord.t * list SyncConflict.t :=
  let '(conflictedIds, uniqueCardRecords, conflicts) := acc in
  let '(id, records) := entry in
  if Nat.ltb 1 (List.length records)
  then (JsSet.add conflictedIds id, uniqueCardRecords,
        Js.push conflicts
          (conflictOf (Some id) "Duplicate story ID across Trello cards"
             (Some (map CardRecord.card records)) None))
  else match records with
       | first :: _ =>
           (conflictedIds, Js.push uniqueCardRecords first, conflicts)
       | [] => (conflictedIds, uniqueCardRecords, conflicts)
       end.

Definition splitDuplicateCards
    (cardRecordsById : JsMap.t string (list CardRecord.t))
    (duplicateStoryIds : JsSet.t) (conflicts : list SyncConflict.t)
    : JsSet.t * list CardRecord.t * list SyncConflict.t :=
  fold_left splitBucket cardRecordsById
    (JsSet.ofList duplicateStoryIds, [], conflicts).

Definition prepare (options : SyncPlanOptions.t)
    (storyIdCodec : StoryId.StoryIdCodec)
    (prdResult : FormatReadResult.t) (lists : list BoardList.t)
    (cards : list BoardCard.t) (labels : list BoardLabel.t) : PlanLocals.t :=
  let mapping := SyncPlanOptions.mapping options in
  let incrementalState :=
    match SyncPlanOptions.state options, SyncPlanOptions.incremental options with
    | Some state, Some false => None
    | Some state, _ => Some state
    | None, _ => None
    end in
  let statusMapping :=
    createStatusMapping host lists (Mapping.statusToList mapping) in
  let listIdToName :=
    fold_left (fun m list => JsMap.set m (BoardList.id list) (BoardList.name list))
      lists JsMap.empty in
  let labelNameToId :=
    fold_left (fun m label => JsMap.set m (BoardLabel.name label) (BoardLabel.id label))
      labels JsMap.empty in
  let labelIdToName :=
    fold_left (fun m label => JsMap.set m (BoardLabel.id label) (BoardLabel.name label))
      labels JsMap.empty in
  let conflicts :=
    map (fun issue => conflictOf None issue None None)
      (StatusMappingResult.issues statusMapping) in
  let '(prdById, storyFingerprints, duplicateStoryIds) :=
    indexStories (FormatReadResult.stories prdResult) in
  let conflicts :=
    (conflicts
       ++ map (fun id => conflictOf (Some id) "Duplicate story ID in PRD stories"
                           None None)
            duplicateStoryIds)%list in
  let '(cardRecords, conflicts) := parseCards storyIdCodec cards conflicts in
  let cardRecordsById := groupCardRecords cardRecords in
  let '(conflictedIds, uniqueCardRecords, conflicts) :=
    splitDuplicateCards cardRecordsById duplicateStoryIds conflicts in
  {| PlanLocals.direction := Js.orElse (SyncPlanOptions.direction options) TwoWay;
     PlanLocals.mapping := mapping;
     PlanLocals.storyIdCodec := storyIdCodec;
     PlanLocals.conflictPrefer :=
       resolveConflictPrefer (SyncPlanOptions.conflict options);
     PlanLocals.createMissingLabels :=
       resolveCreateMissingLabels (SyncPlanOptions.conflict options);
     PlanLocals.incrementalState := incrementalState;
     PlanLocals.prdResult := prdResult;
     PlanLocals.statusMapping := statusMapping;
     PlanLocals.listIdToName := listIdToName;
     PlanLocals.labelNameToId := labelNameToId;
     PlanLocals.labelIdToName := labelIdToName;
     PlanLocals.conflicts := conflicts;
     PlanLocals.prdById := prdById;
     PlanLocals.storyFingerprints := storyFingerprints;
     PlanLocals.duplicateStoryIds := duplicateStoryIds;
     PlanLocals.cardRecords := cardRecords;
     PlanLocals.cardRecordsById := cardRecordsById;
     PlanLocals.conflictedIds := conflictedIds;
     PlanLocals.uniqueCardRecords := uniqueCardRecords |}.

Definition isStoryUnchanged (locals : PlanLocals.t) (story : PrdStory.t) : bool :=
  match PlanLocals.incrementalState locals with
  | None => false
  | Some incrementalState =>
      match JsMap.get (SyncState.storyIndex incrementalState) (PrdStory.id story) with
      | None => false
      | Some previous =>
          match JsMap.get (PlanLocals.storyFingerprints locals) (PrdStory.id story) with
          | Some current => SyncStateStoryEntry.fingerprint previous =? current
          | None => false
          end
      end
  end.

Definition isCardUnchanged (locals : PlanLocals.t) (record : CardRecord.t) : bool :=
  match PlanLocals.incrementalState locals with
  | None => false
  | Some incrementalState =>
      match JsMap.get (SyncState.cardIndex incrementalState)
              (CardRecord.storyId record) with
      | None => false
      | Some previous =>
          (SyncStateCardEntry.cardId previous
             =? BoardCard.id (CardRecord.card record))
          && (SyncStateCardEntry.lastActivityAt previous
                =? BoardCard.lastActivityAt (CardRecord.card record))
      end
  end.

(** The records whose checklists [buildPlan] fetches. *)
Definition checklistTargets (locals : PlanLocals.t) : list CardRecord.t :=
  filter
    (fun record =>
       match JsMap.get (PlanLocals.prdById locals) (CardRecord.storyId record) with
       | None =>
           match PlanLocals.direction locals with
           | PrdToTrello => false
           | _ => true
           end
       | Some story =>
           if negb (Js.isSome (PlanLocals.incrementalState locals)) then true
           else
             let storyUnchanged := isStoryUnchanged locals story in
             let cardUnchanged := isCardUnchanged locals record in
             negb (storyUnchanged && cardUnchanged)
       end)
    (PlanLocals.uniqueCardRecords locals).

(** [checklistByCardId], from the answers to the fetches in the order of
    [checklistTargets] *)
Definition indexChecklists (targets : list CardRecord.t)
    (checklistResults : list (list BoardChecklist.t))
    : JsMap.t string (list BoardChecklist.t) :=
  fold_left
    (fun m '(record, result) =>
       JsMap.set m (BoardCard.id (CardRecord.card record)) result)
    (combine targets checklistResults) JsMap.empty.

Definition sortedIds (locals : PlanLocals.t) : list string :=
  sortStrings host
    (JsSet.ofList
       (JsMap.keys (PlanLocals.prdById locals)
          ++ map CardRecord.storyId (PlanLocals.uniqueCardRecords locals))%list).

Definition recordById (locals : PlanLocals.t) : JsMap.t string CardRecord.t :=
  fold_left (fun m record => JsMap.set m (CardRecord.storyId record) record)
    (PlanLocals.uniqueCardRecords locals) JsMap.empty.

Definition resolveListMove (locals : PlanLocals.t) (record : CardRecord.t)
    (cardUpdate : BoardCardUpdate.t) : option SyncListMove.t :=
  if negb (Js.truthyOpt (BoardCardUpdate.listId cardUpdate)) then None
  else
    let toId := Js.orElse (BoardCardUpdate.listId cardUpdate) "" in
    Some {| SyncListMove.fromId := BoardCard.listId (CardRecord.card record);
            SyncListMove.toId := toId;
            SyncListMove.fromName :=
              JsMap.get (PlanLocals.listIdToName locals)
                (BoardCard.listId (CardRecord.card record));
            SyncListMove.toName :=
              JsMap.get (PlanLocals.listIdToName locals) toId |}.

Definition applyMissingLabelIssues (locals : PlanLocals.t)
    (mappingResult : CardMappingResult.t) : CardMappingResult.t :=
  if negb (PlanLocals.createMissingLabels locals)
     && Nat.ltb 0 (List.length (CardMappingResult.missingLabels mappingResult))
  then
    {| CardMappingResult.cardInput := CardMappingResult.cardInput mappingResult;
       CardMappingResult.cardUpdate := CardMappingResult.cardUpdate mappingResult;
       CardMappingResult.checklist := CardMappingResult.checklist mappingResult;
       CardMappingResult.checklistNeedsUpdate :=
         CardMappingResult.checklistNeedsUpdate mappingResult;
       CardMappingResult.issues :=
         Js.push (CardMappingResult.issues mappingResult)
           ("Missing Trello labels: "
              ++ Js.join (CardMappingResult.missingLabels mappingResult) ", ");
       CardMappingResult.missingLabels :=
         CardMappingResult.missingLabels mappingResult |}
  else mappingResult.
End BuildPlan.

Section Classify.
Variable host : Host.

Definition trelloUpdate (locals : PlanLocals.t) (id reason : string)
    (story : PrdStory.t) (record : CardRecord.t)
    (cardMapping : CardMappingResult.t) : PlanEntry :=
  PushUpdate
    (SyncUpdate.Trello id reason story (CardRecord.card record)
       (CardMappingResult.cardUpdate cardMapping)
       (CardMappingResult.checklist cardMapping)
       (CardMappingResult.checklistNeedsUpdate cardMapping)
       (resolveListMove locals record (CardMappingResult.cardUpdate cardMapping))).

Definition prdUpdate (id reason : string) (storyMapping : StoryMappingResult.t)
    (record : CardRecord.t) : PlanEntry :=
  PushUpdate
    (SyncUpdate.Prd id reason (StoryMappingResult.story storyMapping)
       (CardRecord.card record)).

(** A story without a card. *)
Definition classifyStoryOnly (locals : PlanLocals.t) (id : string)
    (story : PrdStory.t) : Result PlanEntry :=
  match PlanLocals.direction locals with
  | TrelloToPrd => Ok (noopOf id "PRD-only story ignored")
  | _ =>
      let* mappingResult :=
        buildCardMapping host story (PlanLocals.mapping locals)
          (PlanLocals.statusMapping locals) (PlanLocals.labelNameToId locals)
          (PlanLocals.labelIdToName locals) (PlanLocals.storyIdCodec locals)
          None None in
      let mappingResult := applyMissingLabelIssues locals mappingResult in
      if Nat.ltb 0 (List.length (CardMappingResult.issues mappingResult))
      then Ok (PushConflict
                 (conflictOf (Some id)
                    (Js.join (CardMappingResult.issues mappingResult) "; ")
                    None (Some story)))
      else Ok (PushCreate
                 (SyncCreate.Trello id "PRD story missing in Trello" story
                    (CardMappingResult.cardInput mappingResult)
                    (CardMappingResult.checklist mappingResult)))
  end.

(** A card without a story. *)
Definition classifyCardOnly (locals : PlanLocals.t)
    (checklistByCardId : JsMap.t string (list BoardChecklist.t))
    (id : string) (record : CardRecord.t) : PlanEntry :=
  match PlanLocals.direction locals with
  | PrdToTrello => noopOf id "Trello-only card ignored"
  | _ =>
      let checklists :=
        JsMap.get checklistByCardId (BoardCard.id (CardRecord.card record)) in
      let mappingResult :=
        buildStoryMapping host record (PlanLocals.mapping locals)
          (PlanLocals.statusMapping locals) (PlanLocals.labelIdToName locals)
          checklists in
      if Nat.ltb 0 (List.length (StoryMappingResult.issues mappingResult))
      then PushConflict
             (conflictOf (Some id)
                (Js.join (StoryMappingResult.issues mappingResult) "; ")
                (Some [CardRecord.card record]) None)
      else PushCreate
             (SyncCreate.Prd id "Trello card missing in PRD"
                (StoryMappingResult.story mappingResult)
                (CardRecord.card record))
  end.

(** The two mappings of a pair that is present on both sides, with the
    label update forced when missing labels are to be created. *)
Definition pairMappings (locals : PlanLocals.t)
    (checklistByCardId : JsMap.t string (list BoardChecklist.t))
    (story : PrdStory.t) (record : CardRecord.t)
    : Result (CardMappingResult.t * StoryMappingResult.t * bool) :=
  let checklists :=
    JsMap.get checklistByCardId (BoardCard.id (CardRecord.card record)) in
  let* cardMapping :=
    buildCardMapping host story (PlanLocals.mapping locals)
      (PlanLocals.statusMapping locals) (PlanLocals.labelNameToId locals)
      (PlanLocals.labelIdToName locals) (PlanLocals.storyIdCodec locals)
      (Some (CardRecord.card record)) checklists in
  let cardMapping := applyMissingLabelIssues locals cardMapping in
  let storyMapping :=
    buildStoryMapping host record (PlanLocals.mapping locals)
      (PlanLocals.statusMapping locals) (PlanLocals.labelIdToName locals)
      checklists in
  let shouldCreateMissingLabels :=
    PlanLocals.createMissingLabels locals
    && Nat.ltb 0 (List.length (CardMappingResult.missingLabels cardMapping)) in
  let cardMapping :=
    if shouldCreateMissingLabels
       && negb (Js.isSome (BoardCardUpdate.labelIds
                             (CardMappingResult.cardUpdate cardMapping)))
    then
      let update := CardMappingResult.cardUpdate cardMapping in
      {| CardMappingResult.cardInput := CardMappingResult.cardInput cardMapping;
         CardMappingResult.cardUpdate :=
           {| BoardCardUpdate.name := BoardCardUpdate.name update;
              BoardCardUpdate.description := BoardCardUpdate.description update;
              BoardCardUpdate.listId := BoardCardUpdate.listId update;
              BoardCardUpdate.labelIds :=
                Some (BoardCardInput.labelIds
                        (CardMappingResult.cardInput cardMapping));
              BoardCardUpdate.closed := BoardCardUpdate.closed update |};
         CardMappingResult.checklist := CardMappingResult.checklist cardMapping;
         CardMappingResult.checklistNeedsUpdate :=
           CardMappingResult.checklistNeedsUpdate cardMapping;
         CardMappingResult.issues := CardMappingResult.issues cardMapping;
         CardMappingResult.missingLabels :=
           CardMappingResult.missingLabels cardMapping |}
    else cardMapping in
  Ok (cardMapping, storyMapping, shouldCreateMissingLabels).

Definition canUpdateCard (cardMapping : CardMappingResult.t) : bool :=
  Nat.eqb (List.length (CardMappingResult.issues cardMapping)) 0.

Definition canUpdateStory (storyMapping : StoryMappingResult.t) : bool :=
  Nat.eqb (List.length (StoryMappingResult.issues storyMapping)) 0.

Definition needsCardUpdate (cardMapping : CardMappingResult.t)
    (shouldCreateMissingLabels : bool) : bool :=
  canUpdateCard cardMapping
  && (hasUpdateFields (CardMappingResult.cardUpdate cardMapping)
      || CardMappingResult.checklistNeedsUpdate cardMapping
      || shouldCreateMissingLabels).

Definition needsStoryUpdate (story : PrdStory.t)
    (storyMapping : StoryMappingResult.t) : bool :=
  canUpdateStory storyMapping
  && negb (storiesEquivalent host story (StoryMappingResult.story storyMapping)).

(** Both sides changed in a two-way run: the timestamps and the
    preference decide. *)
Definition resolveBothChanged (locals : PlanLocals.t) (id : string)
    (story : PrdStory.t) (record : CardRecord.t)
    (cardMapping : CardMappingResult.t) (storyMapping : StoryMappingResult.t)
    : PlanEntry :=
  let timestampComparison :=
    compareIsoTimestamps host
      (FormatReadResult.lastModifiedAt (PlanLocals.prdResult locals))
      (BoardCard.lastActivityAt (CardRecord.card record)) in
  let resolvedComparison :=
    resolveTimestampComparison timestampComparison
      (PlanLocals.conflictPrefer locals) in
  if (resolvedComparison =? 0)%Z
  then PushConflict
         (conflictOf (Some id)
            "PRD and Trello updates conflict (equal timestamps)"
            (Some [CardRecord.card record]) (Some story))
  else
    let preferPrd := (0 <? resolvedComparison)%Z in
    let reason :=
      if (timestampComparison =? 0)%Z
      then if preferPrd
           then "PRD preferred over Trello (equal timestamps)"
           else "Trello preferred over PRD (equal timestamps)"
      else if preferPrd then "PRD newer than Trello"
           else "Trello newer than PRD" in
    if preferPrd
    then if negb (canUpdateCard cardMapping)
         then PushConflict
                (conflictOf (Some id)
                   (Js.join (CardMappingResult.issues cardMapping) "; ")
                   None (Some story))
         else trelloUpdate locals id reason story record cardMapping
    else if negb (canUpdateStory storyMapping)
         then PushConflict
                (conflictOf (Some id)
                   (Js.join (StoryMappingResult.issues storyMapping) "; ")
                   (Some [CardRecord.card record]) None)
         else prdUpdate id reason storyMapping record.

(** A story and its card. *)
Definition classifyPair (locals : PlanLocals.t)
    (checklistByCardId : JsMap.t string (list BoardChecklist.t))
    (id : string) (story : PrdStory.t) (record : CardRecord.t)
    : Result PlanEntry :=
  if Js.isSome (PlanLocals.incrementalState locals)
     && (isStoryUnchanged locals story && isCardUnchanged locals record)
  then Ok (noopOf id "Unchanged since last sync")
  else
    let* (cardMapping, storyMapping, shouldCreateMissingLabels) :=
      pairMappings locals checklistByCardId story record in
    let needsCard := needsCardUpdate cardMapping shouldCreateMissingLabels in
    let needsStory := needsStoryUpdate story storyMapping in
    if negb needsCard && negb needsStory
    then Ok (noopOf id "Story and card in sync")
    else
      match PlanLocals.direction locals with
      | PrdToTrello =>
          if negb (canUpdateCard cardMapping)
          then Ok (PushConflict
                     (conflictOf (Some id)
                        (Js.join (CardMappingResult.issues cardMapping) "; ")
                        None (Some story)))
          else if needsCard
          then Ok (trelloUpdate locals id "PRD update required" story record
                     cardMapping)
          else Ok (noopOf id "No PRD-to-Trello change needed")
      | TrelloToPrd =>
          if negb (canUpdateStory storyMapping)
          then Ok (PushConflict
                     (conflictOf (Some id)
                        (Js.join (StoryMappingResult.issues storyMapping) "; ")
                        (Some [CardRecord.card record]) None))
          else if needsStory
          then Ok (prdUpdate id "Trello update required" storyMapping record)
          else Ok (noopOf id "No Trello-to-PRD change needed")
      | TwoWay =>
          if needsCard && negb needsStory
          then Ok (trelloUpdate locals id "PRD update required" story record
                     cardMapping)
          else if needsStory && negb needsCard
          then Ok (prdUpdate id "Trello update required" storyMapping record)
          else Ok (resolveBothChanged locals id story record cardMapping
                     storyMapping)
      end.

(** The body of [for (const id of sortedIds)]: every path through it
    pushes at most one entry onto the plan and goes on to the next
    identifier. *)
Definition loopBody (locals : PlanLocals.t)
    (checklistByCardId : JsMap.t string (list BoardChecklist.t))
    (id : string) : Result (option PlanEntry) :=
  if JsSet.has (PlanLocals.conflictedIds locals) id then Ok None
  else
    let story := JsMap.get (PlanLocals.prdById locals) id in
    let record := JsMap.get (recordById locals) id in
    match story, record with
    | Some story, None =>
        let* entry := classifyStoryOnly locals id story in Ok (Some entry)
    | None, Some record =>
        Ok (Some (classifyCardOnly locals checklistByCardId id record))
    | None, None => Ok None
    | Some story, Some record =>
        let* entry := classifyPair locals checklistByCardId id story record in
        Ok (Some entry)
    end.

Definition runLoop (locals : PlanLocals.t)
    (checklistByCardId : JsMap.t string (list BoardChecklist.t))
    (ids : list string) (plan : SyncPlan.t) : Result SyncPlan.t :=
  fold_left
    (fun acc id =>
       let* plan := acc in
       let* entry := loopBody locals checklistByCardId id in
       Ok (match entry with
           | Some entry => pushEntry plan entry
           | None => plan
           end))
    ids (Ok plan).

Definition conflictKey (conflict : SyncConflict.t) : string :=
  Js.orElse (SyncConflict.id conflict) (SyncConflict.reason conflict).

Definition sortPlan (plan : SyncPlan.t) : SyncPlan.t :=
  {| SyncPlan.creates :=
       Js.sort (fun left right =>
                  localeCompare host (SyncCreate.id left) (SyncCreate.id right))
         (SyncPlan.creates plan);
     SyncPlan.updates :=
       Js.sort (fun left right =>
                  localeCompare host (SyncUpdate.id left) (SyncUpdate.id right))
         (SyncPlan.updates plan);
     SyncPlan.conflicts :=
       Js.sort (fun left right =>
                  localeCompare host (conflictKey left) (conflictKey right))
         (SyncPlan.conflicts plan);
     SyncPlan.noop :=
       Js.sort (fun left right =>
                  localeCompare host (SyncNoop.id left) (SyncNoop.id right))
         (SyncPlan.noop plan) |}.

(** [buildPlan] from the moment the checklists have been fetched. *)
Definition classifyAll (locals : PlanLocals.t)
    (checklistResults : list (list BoardChecklist.t))
    : Result (SyncPlan.t * SyncContext.t) :=
  let checklistByCardId :=
    indexChecklists (checklistTargets locals) checklistResults in
  let plan :=
    {| SyncPlan.creates := []; SyncPlan.updates := [];
       SyncPlan.conflicts := PlanLocals.conflicts locals;
       SyncPlan.noop := [] |} in
  let* plan := runLoop locals checklistByCardId (sortedIds host locals) plan in
  Ok (sortPlan plan,
      {| SyncContext.prdStories :=
           FormatReadResult.stories (PlanLocals.prdResult locals);
         SyncContext.cardRecords := PlanLocals.uniqueCardRecords locals |}).

(** [buildPlan] on the data read from the two stores; [getCardChecklists]
    answers the fetches. *)
Definition buildPlanOn (options : SyncPlanOptions.t)
    (prdResult : FormatReadResult.t) (lists : list BoardList.t)
    (cards : list BoardCard.t) (labels : list BoardLabel.t)
    (getCardChecklists : string -> list BoardChecklist.t)
    : Result (SyncPlan.t * SyncContext.t) :=
  let mapping := SyncPlanOptions.mapping options in
  let* storyIdCodec :=
    StoryId.createStoryIdCodec
      {| StoryId.storyPrefix := Mapping.storyPrefix mapping;
         StoryId.idPattern := Mapping.idPattern mapping;
         StoryId.cardTitleFormat := Mapping.cardTitleFormat mapping |} in
  let locals := prepare host options storyIdCodec prdResult lists cards labels in
  classifyAll locals
    (map (fun record => getCardChecklists (BoardCard.id (CardRecord.card record)))
       (checklistTargets locals)).
End Classify.

(* ------------------------------------------------------------------ *)
(** * A host and a board to run the planner on

    [Fixture.host] orders strings by their code units, reads a timestamp
    of the form [YYYY-MM-DDTHH:MM:SSZ] as the number its digits spell (an
    order-preserving stand-in for the milliseconds [Date.parse] returns,
    any other text being not a date) and hashes a text to itself. *)

Module Fixture.

Definition compareCodeUnits (left right : string) : Z :=
match String.compare left right with
| Eq => 0%Z
| Lt => (-1)%Z
| Gt => 1%Z
end.

Fixpoint matchesShape (shape text : string) : bool :=
match shape, text with
| EmptyString, EmptyString => true
| String "d" shape', String c text' => Js.isDigit c && matchesShape shape' text'
| String a shape', String c text' => Ascii.eqb a c && matchesShape shape' text'
| _, _ => false
end.

Fixpoint digitsValue (text : string) (acc : Z) : Z :=
match text with
| EmptyString => acc
| String c rest =>
    if Js.isDigit c
    then digitsValue rest (10 * acc + Z.of_nat (Js.code c - 48))%Z
    else digitsValue rest acc
end.

Definition parseTimestamp (text : string) : option Z :=
if matchesShape "dddd-dd-ddTdd:dd:ddZ" text then Some (digitsValue text 0%Z)
else None.

Definition host : Host :=
{| localeCompare := compareCodeUnits;
   DateParse := parseTimestamp;
   sha256Hex := fun value => value;
   nowIso := "2026-01-21T00:00:00Z" |}.

Definition mapping : Mapping.t :=
{| Mapping.storyPrefix := "US";
   Mapping.idPattern := "{prefix}-{number:3}";
   Mapping.cardTitleFormat := "[{id}] {title}";
   Mapping.dependsOnLabelPrefix := "s:";
   Mapping.statusToList :=
     {| StatusToList.open := "To Do";
        StatusToList.in_progress := "In Progress";
        StatusToList.done := "Done" |};
   Mapping.acceptanceCriteriaChecklistName := "Acceptance Criteria" |}.

Definition idMapping : StoryId.StoryIdMapping :=
{| StoryId.storyPrefix := "US";
   StoryId.idPattern := "{prefix}-{number:3}";
   StoryId.cardTitleFormat := "[{id}] {title}" |}.

(** The codec of [idMapping]. *)
Definition idAtoms : Regex.regex :=
(Regex.lits "US-" ++ Regex.DigitsN 3 :: Regex.lits "")%list.

Definition codec : StoryId.StoryIdCodec :=
{| StoryId.idPatternSpec :=
     {| StoryId.template := "{prefix}-{number:3}";
        StoryId.prefix := "US";
        StoryId.numberToken := "{number:3}";
        StoryId.padding := Some 3;
        StoryId.regexSource := "US-" ++ String Regex.backslash "d{3}" |};
   StoryId.idRegex := (Regex.Bol :: idAtoms ++ [Regex.Eol])%list;
   StoryId.idSearchRegex := idAtoms;
   StoryId.cardTitleSpec :=
     {| StoryId.titleTemplate := "[{id}] {title}";
        StoryId.regex :=
          (Regex.Bol :: Regex.lits "["
             ++ Regex.GroupOpen "id" :: idAtoms
             ++ Regex.GroupClose :: Regex.lits "] "
             ++ Regex.GroupOpen "title" :: Regex.AnyLazy :: Regex.GroupClose
             :: Regex.lits "" ++ [Regex.Eol])%list;
        StoryId.idToken := "{id}";
        StoryId.titleToken := "{title}" |} |}.

Definition lists : list BoardList.t :=
[ {| BoardList.id := "list-open"; BoardList.name := "To Do";
     BoardList.closed := false |};
  {| BoardList.id := "list-progress"; BoardList.name := "In Progress";
     BoardList.closed := false |};
  {| BoardList.id := "list-done"; BoardList.name := "Done";
     BoardList.closed := false |} ].

(** A board with two open lists named "To Do" and no list named "Done". *)
Definition ambiguousLists : list BoardList.t :=
[ {| BoardList.id := "list-b"; BoardList.name := "To Do";
     BoardList.closed := false |};
  {| BoardList.id := "list-a"; BoardList.name := "To Do";
     BoardList.closed := false |};
  {| BoardList.id := "list-0"; BoardList.name := "To Do";
     BoardList.closed := true |};
  {| BoardList.id := "list-progress"; BoardList.name := "In Progress";
     BoardList.closed := false |} ].

Definition story (id title description : string) : PrdStory.t :=
{| PrdStory.id := id; PrdStory.title := title; PrdStory.status := open;
   PrdStory.dependsOn := []; PrdStory.description := description;
   PrdStory.acceptanceCriteria := [] |}.

Definition card (id name description lastActivityAt : string) : BoardCard.t :=
{| BoardCard.id := id; BoardCard.name := name;
   BoardCard.description := description; BoardCard.listId := "list-open";
   BoardCard.labelIds := []; BoardCard.closed := false;
   BoardCard.lastActivityAt := lastActivityAt |}.

Definition emptyDocument : FormatReadResult.t :=
{| FormatReadResult.stories := [];
   FormatReadResult.lastModifiedAt := "2026-01-20T00:00:00Z" |}.

(** The cards of the test "flags duplicate story IDs across cards as
  conflicts". *)
Definition duplicateCards : list BoardCard.t :=
[ card "card-1" "[US-001] First" "" "2026-01-19T00:00:00Z";
  card "card-2" "[US-001] Second" "" "2026-01-19T00:00:00Z" ].

Definition noChecklists : string -> list BoardChecklist.t := fun _ => [].

(** The document and the card of the tests on equal timestamps: both the
  title and the description differ. *)
Definition tiedStory : PrdStory.t := story "US-001" "PRD Title" "PRD description".

Definition tiedCard : BoardCard.t :=
card "card-1" "[US-001] Trello Title" "Trello description"
  "2026-01-20T00:00:00Z".

Definition tiedDocument : FormatReadResult.t :=
{| FormatReadResult.stories := [tiedStory];
   FormatReadResult.lastModifiedAt := "2026-01-20T00:00:00Z" |}.

(** The same document with a modification time that is not a date. *)
Definition undatedDocument : FormatReadResult.t :=
{| FormatReadResult.stories := [tiedStory];
   FormatReadResult.lastModifiedAt := "yesterday" |}.

(** A story and its card in agreement, and the state a run records for
  them. *)
Definition syncedStory : PrdStory.t := story "US-001" "Title" "Text".

Definition syncedCard : BoardCard.t :=
card "card-1" "[US-001] Title" "Text" "2026-01-19T00:00:00Z".

Definition syncedDocument : FormatReadResult.t :=
{| FormatReadResult.stories := [syncedStory];
   FormatReadResult.lastModifiedAt := "2026-01-20T00:00:00Z" |}.

Definition syncedState : SyncState.t :=
createSyncState host "board" "prd.json" mapping [syncedStory]
  [ {| SyncStateCardRecord.storyId := "US-001";
       SyncStateCardRecord.card := syncedCard |} ]
  None None.

Definition incrementalOptions : SyncPlanOptions.t :=
{| SyncPlanOptions.prdPath := "prd.json";
   SyncPlanOptions.mapping := mapping;
   SyncPlanOptions.direction := Some TwoWay;
   SyncPlanOptions.incremental := Some true;
   SyncPlanOptions.dryRun := None;
   SyncPlanOptions.state := Some syncedState;
   SyncPlanOptions.conflict := None |}.

Definition options (prefer : option ConflictPrefer) (blockWrites : option bool)
  (dryRun : option bool) : SyncPlanOptions.t :=
{| SyncPlanOptions.prdPath := "prd.json";
   SyncPlanOptions.mapping := mapping;
   SyncPlanOptions.direction := Some TwoWay;
   SyncPlanOptions.incremental := None;
   SyncPlanOptions.dryRun := dryRun;
   SyncPlanOptions.state := None;
   SyncPlanOptions.conflict :=
     Some {| ConflictOptions.prefer := prefer;
             ConflictOptions.defaultPrefer := None;
             ConflictOptions.blockWrites := blockWrites;
             ConflictOptions.createMissingLabels := None |} |}.

(** The example of the specification: the stale dependency label goes, the
  other label of the card stays, the two wanted labels come in. *)
Definition labelExampleStory : PrdStory.t :=
{| PrdStory.id := "US-003"; PrdStory.title := "Title"; PrdStory.status := open;
   PrdStory.dependsOn := ["US-001"; "US-002"]; PrdStory.description := "";
   PrdStory.acceptanceCriteria := [] |}.

Definition labelExampleCard : BoardCard.t :=
{| BoardCard.id := "card-3"; BoardCard.name := "[US-003] Title";
   BoardCard.description := ""; BoardCard.listId := "list-open";
   BoardCard.labelIds := ["label-keep"; "label-old-dep"];
   BoardCard.closed := false;
   BoardCard.lastActivityAt := "2026-01-19T00:00:00Z" |}.

Definition labelExampleNameToId : JsMap.t string string :=
[ ("s:US-001", "label-001"); ("s:US-002", "label-002");
  ("urgent", "label-keep"); ("s:US-009", "label-old-dep") ].

Definition labelExampleIdToName : JsMap.t string string :=
[ ("label-001", "s:US-001"); ("label-002", "s:US-002");
  ("label-keep", "urgent"); ("label-old-dep", "s:US-009") ].


End Fixture.

(* ------------------------------------------------------------------ *)
(** * The two stores and the file system

    The adapters and [node:fs] act on a world [W] that the planner does
    not look into.  A computation threads the world and a log of the calls
    made so far, and ends in a value or in an exception.  Reads that the
    source issues through [Promise.all] are performed in the order in
    which they are listed. *)

Inductive Call : Type :=
| CallReadStories (path : string)
| CallWriteStories (path : string) (stories : list PrdStory.t)
| CallGetLists
| CallGetCards
| CallGetLabels
| CallGetCardChecklists (cardId : string)
| CallCreateLabel (input : BoardLabelInput.t)
| CallCreateCard (input : BoardCardInput.t)
| CallUpdateCard (cardId : string) (update : BoardCardUpdate.t)
| CallUpsertChecklist (cardId : string) (checklist : BoardChecklistInput.t)
| CallReadFile (path : string)
| CallMkdir (path : string)
| CallWriteFile (path content : string)
| CallWarn (message : string).

(** What [readFile] ends in. *)
Inductive FileRead : Type :=
| FileText (raw : string)
| FileMissing                      (* rejected with code ENOENT *)
| FileError (message : string).    (* rejected otherwise *)

(** [JSON.parse] followed by [parseSyncState], on the text of a state file. *)
Inductive StateDecoding : Type :=
| InvalidJson (message : string)
| InvalidState (message : string)
| DecodedState (state : SyncState.t).

Definition M (W A : Type) : Type := W * list Call -> (W * list Call) * Result A.

Definition ret {W A : Type} (a : A) : M W A := fun s => (s, Ok a).

Definition bindM {W A B : Type} (m : M W A) (k : A -> M W B) : M W B :=
  fun s =>
    match m s with
    | (s', Ok a) => k a s'
    | (s', Throw e) => (s', Throw e)
    end.

Notation "'await' x ':=' m 'in' k" := (bindM m (fun x => k))
  (at level 10, x pattern, m at level 100, k at level 200).

Definition liftResult {W A : Type} (r : Result A) : M W A := fun s => (s, r).

(** One call: it is logged, then it acts on the world. *)
Definition perform {W A : Type} (call : Call) (op : W -> W * Result A) : M W A :=
  fun '(w, log) => let '(w', r) := op w in ((w', Js.push log call), r).

Fixpoint mapM {W A B : Type} (f : A -> M W B) (items : list A) : M W (list B) :=
  match items with
  | [] => ret []
  | item :: rest =>
      await b := f item in
      await bs := mapM f rest in
      ret (b :: bs)
  end.

Fixpoint foldM {W A S : Type} (f : S -> A -> M W S) (items : list A) (s : S)
    : M W S :=
  match items with
  | [] => ret s
  | item :: rest => await s' := f s item in foldM f rest s'
  end.

Module Adapters.
Record t (W : Type) : Type := {
  readStories : string -> W -> W * Result FormatReadResult.t;
  writeStories : string -> list PrdStory.t -> W -> W * Result unit;
  getLists : W -> W * Result (list BoardList.t);
  getCards : W -> W * Result (list BoardCard.t);
  getLabels : W -> W * Result (list BoardLabel.t);
  getCardChecklists : string -> W -> W * Result (list BoardChecklist.t);
  createLabel : BoardLabelInput.t -> W -> W * Result BoardLabel.t;
  createCard : BoardCardInput.t -> W -> W * Result BoardCard.t;
  updateCard : string -> BoardCardUpdate.t -> W -> W * Result BoardCard.t;
  upsertChecklist :
    string -> BoardChecklistInput.t -> W -> W * Result BoardChecklist.t;
  (** [node:fs/promises] and [node:path] *)
  readFile : string -> W -> W * FileRead;
  mkdir : string -> W -> W * Result unit;
  writeFile : string -> string -> W -> W * Result unit;
  dirname : string -> string;
  (** [JSON.stringify(state, null, 2)] and its inverse *)
  encodeState : SyncState.t -> string;
  decodeState : string -> StateDecoding
}.
End Adapters.

Module SyncApplyResult.
Record t : Type := {
  updatedStories : list PrdStory.t;
  updatedCardsByStoryId : JsMap.t string BoardCard.t;
  checklistTouchedCardIds : JsSet.t
}.
End SyncApplyResult.

Module SyncSnapshot.
Record t : Type := {
  stories : list PrdStory.t;
  cards : list SyncStateCardRecord.t;
  lastSeenTrelloActivity : IsoTimestamp
}.
End SyncSnapshot.

Definition isTrelloCreate (c : SyncCreate.t) : bool :=
  match c with SyncCreate.Trello _ _ _ _ _ => true | _ => false end.

Definition isTrelloUpdate (u : SyncUpdate.t) : bool :=
  match u with SyncUpdate.Trello _ _ _ _ _ _ _ _ => true | _ => false end.

Definition createStory (c : SyncCreate.t) : PrdStory.t :=
  match c with
  | SyncCreate.Trello _ _ story _ _ => story
  | SyncCreate.Prd _ _ story _ => story
  end.

Definition updateStory (u : SyncUpdate.t) : PrdStory.t :=
  match u with
  | SyncUpdate.Trello _ _ story _ _ _ _ _ => story
  | SyncUpdate.Prd _ _ story _ => story
  end.

Section Apply.
Variable host : Host.
Variable W : Type.
Variable adapters : Adapters.t W.

Definition resolveLatestActivity (records : list SyncStateCardRecord.t)
    : IsoTimestamp :=
  let latest := latestActivity host "" records in
  if latest =? "" then nowIso host else latest.

(** [SyncEngine.buildPlan] *)
Definition buildPlan (options : SyncPlanOptions.t)
    : M W (SyncPlan.t * SyncContext.t) :=
  let mapping := SyncPlanOptions.mapping options in
  await storyIdCodec :=
    liftResult
      (StoryId.createStoryIdCodec
         {| StoryId.storyPrefix := Mapping.storyPrefix mapping;
            StoryId.idPattern := Mapping.idPattern mapping;
            StoryId.cardTitleFormat := Mapping.cardTitleFormat mapping |}) in
  await prdResult :=
    perform (CallReadStories (SyncPlanOptions.prdPath options))
      (Adapters.readStories adapters (SyncPlanOptions.prdPath options)) in
  await lists := perform CallGetLists (Adapters.getLists adapters) in
  await cards := perform CallGetCards (Adapters.getCards adapters) in
  await labels := perform CallGetLabels (Adapters.getLabels adapters) in
  let locals := prepare host options storyIdCodec prdResult lists cards labels in
  await checklistResults :=
    mapM (fun record =>
            let cardId := BoardCard.id (CardRecord.card record) in
            perform (CallGetCardChecklists cardId)
              (Adapters.getCardChecklists adapters cardId))
      (checklistTargets locals) in
  liftResult (classifyAll host locals checklistResults).

Definition applyPrdChanges (stories changes : list PrdStory.t)
    : list PrdStory.t :=
  let existingIds := JsSet.ofList (map PrdStory.id stories) in
  let '(updatedById, created) :=
    fold_left
      (fun '(updatedById, created) story =>
         (JsMap.set updatedById (PrdStory.id story) story,
          if negb (JsSet.has existingIds (PrdStory.id story))
          then JsSet.add created (PrdStory.id story) else created))
      changes (JsMap.empty, []) in
  let updatedStories :=
    map (fun story => Js.orElse (JsMap.get updatedById (PrdStory.id story)) story)
      stories in
  let createdStories :=
    flat_map (fun id => match JsMap.get updatedById id with
                        | Some story => [story]
                        | None => []
                        end)
      (sortStrings host created) in
  (updatedStories ++ createdStories)%list.

(** The label pass of [applyPlan]: the labels the board lacks are
    created, and the label sets of the pending creates and updates are
    computed anew.  The entries of the plan are changed in place. *)
Definition refreshLabels (plan : SyncPlan.t) (options : SyncPlanOptions.t)
    : M W SyncPlan.t :=
  let mapping := SyncPlanOptions.mapping options in
  await labels := perform CallGetLabels (Adapters.getLabels adapters) in
  let labelNameToId :=
    fold_left (fun m label => JsMap.set m (BoardLabel.name label) (BoardLabel.id label))
      labels JsMap.empty in
  let labelIdToName :=
    fold_left (fun m label => JsMap.set m (BoardLabel.id label) (BoardLabel.name label))
      labels JsMap.empty in
  let collect (names : JsSet.t) (story : PrdStory.t) : JsSet.t :=
    fold_left
      (fun names dependency =>
         JsSet.add names (Mapping.dependsOnLabelPrefix mapping ++ dependency))
      (PrdStory.dependsOn story) names in
  let desiredLabelNames :=
    fold_left collect
      (map updateStory (filter isTrelloUpdate (SyncPlan.updates plan)))
      (fold_left collect
         (map createStory (filter isTrelloCreate (SyncPlan.creates plan))) []) in
  let missingLabelNames :=
    filter (fun name => negb (JsMap.has labelNameToId name))
      (sortStrings host desiredLabelNames) in
  await maps :=
    foldM
      (fun '(labelNameToId, labelIdToName) labelName =>
         let input := {| BoardLabelInput.name := labelName;
                         BoardLabelInput.color := None |} in
         await created :=
           perform (CallCreateLabel input) (Adapters.createLabel adapters input) in
         ret (JsMap.set labelNameToId (BoardLabel.name created) (BoardLabel.id created),
              JsMap.set labelIdToName (BoardLabel.id created) (BoardLabel.name created)))
      missingLabelNames (labelNameToId, labelIdToName) in
  let '(labelNameToId, labelIdToName) := maps in
  ret {| SyncPlan.creates :=
           map (fun create =>
                  match create with
                  | SyncCreate.Trello id reason story cardInput checklist =>
                      SyncCreate.Trello id reason story
                        {| BoardCardInput.name := BoardCardInput.name cardInput;
                           BoardCardInput.description :=
                             BoardCardInput.description cardInput;
                           BoardCardInput.listId := BoardCardInput.listId cardInput;
                           BoardCardInput.labelIds :=
                             fst (resolveLabelIds host story mapping
                                    labelNameToId labelIdToName None) |}
                        checklist
                  | SyncCreate.Prd _ _ _ _ => create
                  end)
               (SyncPlan.creates plan);
         SyncPlan.updates :=
           map (fun update =>
                  match update with
                  | SyncUpdate.Trello id reason story card cardUpdate checklist
                      checklistNeedsUpdate listMove =>
                      let labelIds :=
                        fst (resolveLabelIds host story mapping
                               labelNameToId labelIdToName (Some card)) in
                      if negb (areSetsEqual host (BoardCard.labelIds card) labelIds)
                      then SyncUpdate.Trello id reason story card
                             {| BoardCardUpdate.name := BoardCardUpdate.name cardUpdate;
                                BoardCardUpdate.description :=
                                  BoardCardUpdate.description cardUpdate;
                                BoardCardUpdate.listId :=
                                  BoardCardUpdate.listId cardUpdate;
                                BoardCardUpdate.labelIds := Some labelIds;
                                BoardCardUpdate.closed :=
                                  BoardCardUpdate.closed cardUpdate |}
                             checklist checklistNeedsUpdate listMove
                      else update
                  | SyncUpdate.Prd _ _ _ _ => update
                  end)
               (SyncPlan.updates plan);
         SyncPlan.conflicts := SyncPlan.conflicts plan;
         SyncPlan.noop := SyncPlan.noop plan |}.

(** [SyncEngine.applyPlan]; the plan comes back with the changes made to
    its entries. *)
Definition applyPlan (plan : SyncPlan.t) (context : SyncContext.t)
    (options : SyncPlanOptions.t) : M W (SyncApplyResult.t * SyncPlan.t) :=
  let createMissingLabels :=
    resolveCreateMissingLabels (SyncPlanOptions.conflict options) in
  await plan :=
    (if createMissingLabels
        && (Nat.ltb 0 (List.length (filter isTrelloCreate (SyncPlan.creates plan)))
            || Nat.ltb 0 (List.length (filter isTrelloUpdate (SyncPlan.updates plan))))
     then refreshLabels plan options
     else ret plan) in
  await afterCreates :=
    foldM
      (fun '(updatedCardsByStoryId, checklistTouchedCardIds) create =>
         match create with
         | SyncCreate.Trello id _ _ cardInput checklist =>
             await card :=
               perform (CallCreateCard cardInput)
                 (Adapters.createCard adapters cardInput) in
             let updatedCardsByStoryId :=
               JsMap.set updatedCardsByStoryId id card in
             if Nat.ltb 0 (List.length (BoardChecklistInput.items checklist))
             then
               await _ :=
                 perform (CallUpsertChecklist (BoardCard.id card) checklist)
                   (Adapters.upsertChecklist adapters (BoardCard.id card) checklist) in
               ret (updatedCardsByStoryId,
                    JsSet.add checklistTouchedCardIds (BoardCard.id card))
             else ret (updatedCardsByStoryId, checklistTouchedCardIds)
         | SyncCreate.Prd _ _ _ _ =>
             ret (updatedCardsByStoryId, checklistTouchedCardIds)
         end)
      (SyncPlan.creates plan) (JsMap.empty, []) in
  await afterUpdates :=
    foldM
      (fun '(updatedCardsByStoryId, checklistTouchedCardIds) update =>
         match update with
         | SyncUpdate.Trello id _ _ card cardUpdate checklist
             checklistNeedsUpdate _ =>
             await updatedCardsByStoryId :=
               (if hasUpdateFields cardUpdate
                then
                  await updated :=
                    perform (CallUpdateCard (BoardCard.id card) cardUpdate)
                      (Adapters.updateCard adapters (BoardCard.id card) cardUpdate) in
                  ret (JsMap.set updatedCardsByStoryId id updated)
                else ret updatedCardsByStoryId) in
             if checklistNeedsUpdate
             then
               await _ :=
                 perform (CallUpsertChecklist (BoardCard.id card) checklist)
                   (Adapters.upsertChecklist adapters (BoardCard.id card) checklist) in
               ret (updatedCardsByStoryId,
                    JsSet.add checklistTouchedCardIds (BoardCard.id card))
             else ret (updatedCardsByStoryId, checklistTouchedCardIds)
         | SyncUpdate.Prd _ _ _ _ =>
             ret (updatedCardsByStoryId, checklistTouchedCardIds)
         end)
      (SyncPlan.updates plan) afterCreates in
  let '(updatedCardsByStoryId, checklistTouchedCardIds) := afterUpdates in
  let prdChanges :=
    (map createStory (filter (fun c => negb (isTrelloCreate c)) (SyncPlan.creates plan))
       ++ map updateStory
            (filter (fun u => negb (isTrelloUpdate u)) (SyncPlan.updates plan)))%list in
  await updatedStories :=
    (if Nat.ltb 0 (List.length prdChanges)
     then
       let updatedStories :=
         applyPrdChanges (SyncContext.prdStories context) prdChanges in
       await _ :=
         perform (CallWriteStories (SyncPlanOptions.prdPath options) updatedStories)
           (Adapters.writeStories adapters (SyncPlanOptions.prdPath options)
              updatedStories) in
       ret updatedStories
     else ret (SyncContext.prdStories context)) in
  ret ({| SyncApplyResult.updatedStories := updatedStories;
          SyncApplyResult.updatedCardsByStoryId := updatedCardsByStoryId;
          SyncApplyResult.checklistTouchedCardIds := checklistTouchedCardIds |},
       plan).
End Apply.

Section Sync.
Variable host : Host.
Variable W : Type.
Variable adapters : Adapters.t W.

(** [SyncEngine.buildSnapshot] *)
Definition buildSnapshot (context : SyncContext.t)
    (applyResult : SyncApplyResult.t) : M W SyncSnapshot.t :=
  let updated := SyncApplyResult.updatedCardsByStoryId applyResult in
  let cards :=
    map (fun record =>
           {| SyncStateCardRecord.storyId := CardRecord.storyId record;
              SyncStateCardRecord.card :=
                Js.orElse (JsMap.get updated (CardRecord.storyId record))
                  (CardRecord.card record) |})
        (SyncContext.cardRecords context) in
  let existingStoryIds := JsSet.ofList (map SyncStateCardRecord.storyId cards) in
  let cards :=
    fold_left
      (fun cards '(storyId, card) =>
         if negb (JsSet.has existingStoryIds storyId)
         then Js.push cards {| SyncStateCardRecord.storyId := storyId;
                               SyncStateCardRecord.card := card |}
         else cards)
      updated cards in
  await cards :=
    (if Nat.ltb 0 (List.length (SyncApplyResult.checklistTouchedCardIds applyResult))
     then
       await refreshedCards := perform CallGetCards (Adapters.getCards adapters) in
       let refreshedById :=
         fold_left (fun m card => JsMap.set m (BoardCard.id card) card)
           refreshedCards JsMap.empty in
       ret (map (fun record =>
                   {| SyncStateCardRecord.storyId :=
                        SyncStateCardRecord.storyId record;
                      SyncStateCardRecord.card :=
                        Js.orElse
                          (JsMap.get refreshedById
                             (BoardCard.id (SyncStateCardRecord.card record)))
                          (SyncStateCardRecord.card record) |})
                cards)
     else ret cards) in
  ret {| SyncSnapshot.stories := SyncApplyResult.updatedStories applyResult;
         SyncSnapshot.cards := cards;
         SyncSnapshot.lastSeenTrelloActivity := resolveLatestActivity host cards |}.

(** [options.conflict?.blockWrites && plan.conflicts.length > 0] *)
Definition writesBlocked (options : SyncPlanOptions.t) (plan : SyncPlan.t) : bool :=
  match SyncPlanOptions.conflict options with
  | Some conflict =>
      Js.orElse (ConflictOptions.blockWrites conflict) false
      && Nat.ltb 0 (List.length (SyncPlan.conflicts plan))
  | None => false
  end.

(** [SyncEngine.createPlan] *)
Definition createPlan (options : SyncPlanOptions.t) : M W SyncPlan.t :=
  await built := buildPlan host adapters options in
  ret (fst built).

(** [SyncEngine.sync] *)
Definition sync (options : SyncPlanOptions.t) : M W SyncPlan.t :=
  await built := buildPlan host adapters options in
  let '(plan, context) := built in
  if Js.orElse (SyncPlanOptions.dryRun options) false then ret plan
  else if writesBlocked options plan then ret plan
  else
    await applied := applyPlan host adapters plan context options in
    ret (snd applied).

(** [SyncEngine.syncWithState] *)
Definition syncWithState (options : SyncPlanOptions.t)
    : M W (SyncPlan.t * SyncSnapshot.t) :=
  await built := buildPlan host adapters options in
  let '(plan, context) := built in
  let shouldSkipApply :=
    Js.orElse (SyncPlanOptions.dryRun options) false
    || writesBlocked options plan in
  if shouldSkipApply
  then
    await snapshot :=
      buildSnapshot context
        {| SyncApplyResult.updatedStories := SyncContext.prdStories context;
           SyncApplyResult.updatedCardsByStoryId := JsMap.empty;
           SyncApplyResult.checklistTouchedCardIds := [] |} in
    ret (plan, snapshot)
  else
    await applied := applyPlan host adapters plan context options in
    let '(applyResult, plan) := applied in
    await snapshot := buildSnapshot context applyResult in
    ret (plan, snapshot).

(* ---------------------------------------------------------------- *)
(** ** sync-state-store.ts *)

(** [validateSyncState]: the message of the error it throws, if any.
    Every expectation is a non-empty string here. *)
Definition validateSyncState (state : SyncState.t)
    (boardId prdPath mappingSignature : string) : option string :=
  if Js.truthy boardId && negb (SyncState.boardId state =? boardId)
  then Some ("state.boardId mismatch (expected '" ++ boardId ++ "', got '"
               ++ SyncState.boardId state ++ "')")
  else if Js.truthy prdPath && negb (SyncState.prdPath state =? prdPath)
  then Some ("state.prdPath mismatch (expected '" ++ prdPath ++ "', got '"
               ++ SyncState.prdPath state ++ "')")
  else if Js.truthy mappingSignature
          && negb (SyncState.mappingSignature state =? mappingSignature)
  then Some "state.mappingSignature mismatch (mapping changed)"
  else None.

Definition warn (message : string) : M W unit :=
  perform (CallWarn message) (fun w => (w, Ok tt)).

(** [loadSyncState] *)
Definition loadSyncState (statePath boardId prdPath mappingSignature : string)
    : M W (option SyncState.t) :=
  await read :=
    perform (CallReadFile statePath)
      (fun w => let '(w', r) := Adapters.readFile adapters statePath w in
                (w', Ok r)) in
  match read with
  | FileMissing => ret None
  | FileError message =>
      await _ := warn ("Ignoring sync state at " ++ statePath
                         ++ ": failed to read (" ++ message ++ ")") in
      ret None
  | FileText raw =>
      match Adapters.decodeState adapters raw with
      | InvalidJson message =>
          await _ := warn ("Ignoring sync state at " ++ statePath
                             ++ ": invalid JSON (" ++ message ++ ")") in
          ret None
      | InvalidState message =>
          await _ := warn ("Ignoring sync state at " ++ statePath
                             ++ ": " ++ message) in
          ret None
      | DecodedState state =>
          match validateSyncState state boardId prdPath mappingSignature with
          | Some message =>
              await _ := warn ("Ignoring sync state at " ++ statePath
                                 ++ ": " ++ message) in
              ret None
          | None => ret (Some state)
          end
      end
  end.

(** [saveSyncState] *)
Definition saveSyncState (statePath : string) (state : SyncState.t) : M W unit :=
  await _ :=
    perform (CallMkdir (Adapters.dirname adapters statePath))
      (Adapters.mkdir adapters (Adapters.dirname adapters statePath)) in
  let serialized := Adapters.encodeState adapters state ++ String "010"%char "" in
  perform (CallWriteFile statePath serialized)
    (Adapters.writeFile adapters statePath serialized).

(* ---------------------------------------------------------------- *)
(** ** sync-with-state.ts *)

Definition syncWithStateFile (statePath boardId : string)
    (incremental : option bool) (syncOptions : SyncPlanOptions.t)
    : M W (SyncPlan.t * SyncState.t) :=
  let shouldUseIncremental := Js.orElse incremental true in
  let mappingSignature :=
    createMappingSignature host (SyncPlanOptions.mapping syncOptions) in
  await priorState :=
    (if shouldUseIncremental
     then loadSyncState statePath boardId (SyncPlanOptions.prdPath syncOptions)
            mappingSignature
     else ret None) in
  await synced :=
    syncWithState
      {| SyncPlanOptions.prdPath := SyncPlanOptions.prdPath syncOptions;
         SyncPlanOptions.mapping := SyncPlanOptions.mapping syncOptions;
         SyncPlanOptions.direction := SyncPlanOptions.direction syncOptions;
         SyncPlanOptions.incremental := Some shouldUseIncremental;
         SyncPlanOptions.dryRun := SyncPlanOptions.dryRun syncOptions;
         SyncPlanOptions.state := priorState;
         SyncPlanOptions.conflict := SyncPlanOptions.conflict syncOptions |} in
  let '(plan, snapshot) := synced in
  let nextState :=
    createSyncState host boardId (SyncPlanOptions.prdPath syncOptions)
      (SyncPlanOptions.mapping syncOptions) (SyncSnapshot.stories snapshot)
      (SyncSnapshot.cards snapshot)
      (Some (SyncSnapshot.lastSeenTrelloActivity snapshot)) None in
  await _ :=
    (if negb (Js.orElse (SyncPlanOptions.dryRun syncOptions) false)
     then saveSyncState statePath nextState
     else ret tt) in
  ret (plan, nextState).
End Sync.

(* ------------------------------------------------------------------ *)
(** * Stores held in memory, to run whole synchronisations on *)

Module Memory.

Record t : Type := {
document : FormatReadResult.t;
boardLists : list BoardList.t;
boardCards : list BoardCard.t;
boardLabels : list BoardLabel.t;
boardChecklists : JsMap.t string (list BoardChecklist.t);
files : JsMap.t string string
}.

Definition withDocument (w : t) (stories : list PrdStory.t) : t :=
{| document :=
     {| FormatReadResult.stories := stories;
        FormatReadResult.lastModifiedAt :=
          FormatReadResult.lastModifiedAt (document w) |};
   boardLists := boardLists w; boardCards := boardCards w;
   boardLabels := boardLabels w; boardChecklists := boardChecklists w;
   files := files w |}.

Definition withCards (w : t) (cards : list BoardCard.t) : t :=
{| document := document w; boardLists := boardLists w; boardCards := cards;
   boardLabels := boardLabels w; boardChecklists := boardChecklists w;
   files := files w |}.

Definition withLabels (w : t) (labels : list BoardLabel.t) : t :=
{| document := document w; boardLists := boardLists w;
   boardCards := boardCards w; boardLabels := labels;
   boardChecklists := boardChecklists w; files := files w |}.

Definition withChecklists (w : t)
  (checklists : JsMap.t string (list BoardChecklist.t)) : t :=
{| document := document w; boardLists := boardLists w;
   boardCards := boardCards w; boardLabels := boardLabels w;
   boardChecklists := checklists; files := files w |}.

Definition withFiles (w : t) (files : JsMap.t string string) : t :=
{| document := document w; boardLists := boardLists w;
   boardCards := boardCards w; boardLabels := boardLabels w;
   boardChecklists := boardChecklists w; files := files |}.

Definition applyUpdate (card : BoardCard.t) (update : BoardCardUpdate.t)
  : BoardCard.t :=
{| BoardCard.id := BoardCard.id card;
   BoardCard.name := Js.orElse (BoardCardUpdate.name update) (BoardCard.name card);
   BoardCard.description :=
     Js.orElse (BoardCardUpdate.description update) (BoardCard.description card);
   BoardCard.listId :=
     Js.orElse (BoardCardUpdate.listId update) (BoardCard.listId card);
   BoardCard.labelIds :=
     Js.orElse (BoardCardUpdate.labelIds update) (BoardCard.labelIds card);
   BoardCard.closed :=
     Js.orElse (BoardCardUpdate.closed update) (BoardCard.closed card);
   BoardCard.lastActivityAt := BoardCard.lastActivityAt card |}.

Definition checklistOf (cardId : string) (input : BoardChecklistInput.t)
  : BoardChecklist.t :=
{| BoardChecklist.id := "checklist-" ++ cardId;
   BoardChecklist.name := BoardChecklistInput.name input;
   BoardChecklist.items :=
     map (fun item =>
            {| BoardChecklistItem.id := "item-" ++ BoardChecklistItemInput.name item;
               BoardChecklistItem.name := BoardChecklistItemInput.name item;
               BoardChecklistItem.checked := BoardChecklistItemInput.checked item |})
         (BoardChecklistInput.items input) |}.

(** The text written for a state: what it is of, and its two indices. *)
Definition encodeState (state : SyncState.t) : string :=
Json.obj
  [ Json.member "boardId" (Json.str (SyncState.boardId state));
    Json.member "prdPath" (Json.str (SyncState.prdPath state));
    Json.member "storyIndex"
      (Json.obj
         (map (fun '(id, entry) =>
                 Json.member id (Json.str (SyncStateStoryEntry.fingerprint entry)))
            (SyncState.storyIndex state)));
    Json.member "cardIndex"
      (Json.obj
         (map (fun '(id, entry) =>
                 Json.member id
                   (Json.arr [ Json.str (SyncStateCardEntry.cardId entry);
                               Json.str (SyncStateCardEntry.lastActivityAt entry) ]))
            (SyncState.cardIndex state))) ].

(** The stores in memory, given how the text of a state file is decoded. *)
Definition adaptersWith (decode : string -> StateDecoding) : Adapters.t t :=
{| Adapters.readStories := fun _ w => (w, Ok (document w));
   Adapters.writeStories := fun _ stories w => (withDocument w stories, Ok tt);
   Adapters.getLists := fun w => (w, Ok (boardLists w));
   Adapters.getCards := fun w => (w, Ok (boardCards w));
   Adapters.getLabels := fun w => (w, Ok (boardLabels w));
   Adapters.getCardChecklists :=
     fun cardId w => (w, Ok (Js.orElse (JsMap.get (boardChecklists w) cardId) []));
   Adapters.createLabel :=
     fun input w =>
       let label := {| BoardLabel.id := "label-" ++ BoardLabelInput.name input;
                       BoardLabel.name := BoardLabelInput.name input;
                       BoardLabel.color := BoardLabelInput.color input |} in
       (withLabels w (Js.push (boardLabels w) label), Ok label);
   Adapters.createCard :=
     fun input w =>
       let card := {| BoardCard.id := "card-" ++ BoardCardInput.name input;
                      BoardCard.name := BoardCardInput.name input;
                      BoardCard.description := BoardCardInput.description input;
                      BoardCard.listId := BoardCardInput.listId input;
                      BoardCard.labelIds := BoardCardInput.labelIds input;
                      BoardCard.closed := false;
                      BoardCard.lastActivityAt := "2026-01-21T00:00:00Z" |} in
       (withCards w (Js.push (boardCards w) card), Ok card);
   Adapters.updateCard :=
     fun cardId update w =>
       match find (fun card => BoardCard.id card =? cardId) (boardCards w) with
       | Some card =>
           let updated := applyUpdate card update in
           (withCards w
              (map (fun c => if BoardCard.id c =? cardId then updated else c)
                 (boardCards w)),
            Ok updated)
       | None => (w, Throw (AdapterError "card not found"))
       end;
   Adapters.upsertChecklist :=
     fun cardId input w =>
       let checklist := checklistOf cardId input in
       (withChecklists w (JsMap.set (boardChecklists w) cardId [checklist]),
        Ok checklist);
   Adapters.readFile :=
     fun path w =>
       match JsMap.get (files w) path with
       | Some raw => (w, FileText raw)
       | None => (w, FileMissing)
       end;
   Adapters.mkdir := fun _ w => (w, Ok tt);
   Adapters.writeFile :=
     fun path content w => (withFiles w (JsMap.set (files w) path content), Ok tt);
   Adapters.dirname := fun _ => ".ralph-task";
   Adapters.encodeState := encodeState;
   Adapters.decodeState := decode |}.

(** Stores on which no text decodes to a state. *)
Definition adapters : Adapters.t t :=
adaptersWith (fun _ => InvalidJson "not decoded in memory").

(** Stores on which the text written for [saved] decodes to [saved].  *)
Definition adaptersReading (saved : SyncState.t) : Adapters.t t :=
adaptersWith
  (fun raw =>
     if raw =? encodeState saved ++ String "010"%char EmptyString
     then DecodedState saved
     else InvalidJson "Unexpected token").

(** The board and the document of the test "blocks writes when conflicts
  exist and blockWrites is set". *)
Definition blocked : t :=
{| document :=
     {| FormatReadResult.stories :=
          [ Fixture.story "US-001" "PRD Title" "PRD description";
            Fixture.story "US-002" "PRD Two" "PRD two description" ];
        FormatReadResult.lastModifiedAt := "2026-01-20T00:00:00Z" |};
   boardLists := Fixture.lists;
   boardCards :=
     [ Fixture.card "card-1" "[US-001] Trello Title" "Trello description"
         "2026-01-20T00:00:00Z";
       Fixture.card "card-2" "[US-002] Old Title" "Old description"
         "2026-01-19T00:00:00Z" ];
   boardLabels := [];
   boardChecklists := JsMap.empty;
   files := JsMap.empty |}.

Definition statePath : string := ".ralph-task/state.json".

(** The calls of a run that write to the board, the document or a file. *)
Definition isStoreWrite (call : Call) : bool :=
match call with
| CallWriteStories _ _ | CallCreateLabel _ | CallCreateCard _
| CallUpdateCard _ _ | CallUpsertChecklist _ _ => true
| _ => false
end.

Definition isStateWrite (path : string) (call : Call) : bool :=
match call with
| CallWriteFile path' _ => path' =? path
| _ => false
end.

End Memory.

(* ------------------------------------------------------------------ *)
(** * Notions the properties are stated with *)

(** The entries of each kind among the entries pushed by the loop. *)
Definition pushedCreates (pushed : list PlanEntry) : list SyncCreate.t :=
  flat_map (fun e => match e with PushCreate c => [c] | _ => [] end) pushed.

Definition pushedUpdates (pushed : list PlanEntry) : list SyncUpdate.t :=
  flat_map (fun e => match e with PushUpdate u => [u] | _ => [] end) pushed.

Definition pushedConflicts (pushed : list PlanEntry) : list SyncConflict.t :=
  flat_map (fun e => match e with PushConflict c => [c] | _ => [] end) pushed.

Definition pushedNoops (pushed : list PlanEntry) : list SyncNoop.t :=
  flat_map (fun e => match e with PushNoop n => [n] | _ => [] end) pushed.

(** The calls that write nowhere: reads of the stores and of files, and
    warnings. *)
Definition readsOnly (call : Call) : bool :=
  match call with
  | CallReadStories _ | CallGetLists | CallGetCards | CallGetLabels
  | CallGetCardChecklists _ | CallReadFile _ | CallWarn _ => true
  | _ => false
  end.

(** Whatever the world and the log it starts from, the computation [m] only
    adds calls that are [allowed] to the log. *)
Definition logsOnly {W A : Type} (allowed : Call -> bool) (m : M W A) : Prop :=
  forall (w : W) (log : list Call),
    exists added,
      snd (fst (m (w, log))) = (log ++ added)%list
      /\ forallb allowed added = true.

(** The pattern [r] matches the text [input] from its position [pos] on. *)
Definition matchesAt (r : Regex.regex) (input : string) (pos : nat) : bool :=
  Js.isSome (Regex.run r pos (Js.slice pos input) Regex.noCaptures).

(** No code unit of [s] is [c]. *)
Definition lacks (c : ascii) (s : string) : bool :=
  forallb (fun c' => negb (Ascii.eqb c' c)) (list_ascii_of_string s).

(** Every code unit of [s] is a decimal digit. *)
Definition allDigits (s : string) : bool :=
  forallb Js.isDigit (list_ascii_of_string s).

(** No code unit of [s] ends a line. *)
Definition singleLine (s : string) : bool :=
  forallb (fun c => negb (Js.isLineTerminator c)) (list_ascii_of_string s).

(** The codecs of the mappings whose [idPattern] is text around a number
    of fixed width, the text in front of the number not being empty, and
    whose [cardTitleFormat] has the identifier in front of the title: what
    stands in front of the number and behind it, the width of the number,
    and what stands in front of the identifier, between the identifier and
    the title, and behind the title. *)
Module TitleShape.
Record t : Type := {
  idStart : ascii;
  idHead : string;
  width : nat;
  idTail : string;
  before : string;
  between : string;
  after : string
}.

Definition idText (shape : t) : string := String (idStart shape) (idHead shape).

Definition idAtoms (shape : t) : Regex.regex :=
  (Regex.lits (idText shape)
     ++ Regex.DigitsN (width shape) :: Regex.lits (idTail shape))%list.

(** The codec has the shape. *)
Definition fits (codec : StoryId.StoryIdCodec) (shape : t) : Prop :=
  StoryId.idSearchRegex codec = idAtoms shape
  /\ StoryId.idRegex codec = (Regex.Bol :: idAtoms shape ++ [Regex.Eol])%list
  /\ StoryId.regex (StoryId.cardTitleSpec codec)
     = (Regex.Bol :: Regex.lits (before shape)
          ++ Regex.GroupOpen "id" :: idAtoms shape
          ++ Regex.GroupClose :: Regex.lits (between shape)
          ++ Regex.GroupOpen "title" :: Regex.AnyLazy :: Regex.GroupClose
          :: Regex.lits (after shape) ++ [Regex.Eol])%list
  /\ StoryId.titleTemplate (StoryId.cardTitleSpec codec)
     = before shape ++ "{id}" ++ between shape ++ "{title}" ++ after shape
  /\ StoryId.idToken (StoryId.cardTitleSpec codec) = "{id}"
  /\ StoryId.titleToken (StoryId.cardTitleSpec codec) = "{title}".

(** No brace in the texts of the shape, and the first code unit of an
    identifier neither in front of the identifier nor between it and the
    title. *)
Definition plain (shape : t) : bool :=
  lacks "{" (idText shape) && lacks "{" (idTail shape)
  && lacks "{" (before shape) && lacks "{" (between shape)
  && lacks "{" (after shape)
  && lacks (idStart shape) (before shape)
  && lacks (idStart shape) (between shape).

(** The shape of the codec of [Fixture.idMapping]. *)
Definition default : t :=
  {| idStart := "U"; idHead := "S-"; width := 3; idTail := "";
     before := "["; between := "] "; after := "" |}.
End TitleShape.

(** A conflict keyed by [id]. *)
Definition keyedBy (id : string) (conflict : SyncConflict.t) : bool :=
  match SyncConflict.id conflict with
  | Some id' => id' =? id
  | None => false
  end.

(** A conflict keyed by [id] that gives [reason]. *)
Definition keyedFor (id reason : string) (conflict : SyncConflict.t) : bool :=
  keyedBy id conflict && (SyncConflict.reason conflict =? reason).

(** The cards whose title parses to the identifier [id]. *)
Definition parsesTo (codec : StoryId.StoryIdCodec) (id : string)
    (card : BoardCard.t) : bool :=
  match StoryId.parseCardTitle codec (BoardCard.name card) with
  | StoryId.ParseOk id' _ => id' =? id
  | _ => false
  end.

(** The record [cards.forEach] pushes for a card, if its title parses. *)
Definition recordOfCard (codec : StoryId.StoryIdCodec) (card : BoardCard.t)
    : list CardRecord.t :=
  match StoryId.parseCardTitle codec (BoardCard.name card) with
  | StoryId.ParseOk id title =>
      [ {| CardRecord.card := card; CardRecord.storyId := id;
           CardRecord.storyTitle := title |} ]
  | _ => []
  end.

(** The conflict [cards.forEach] pushes for a card, if its title does not
    parse. *)
Definition conflictOfCard (codec : StoryId.StoryIdCodec) (card : BoardCard.t)
    : list SyncConflict.t :=
  match StoryId.parseCardTitle codec (BoardCard.name card) with
  | StoryId.ParseOk _ _ => []
  | StoryId.ParseMissing reason _ _
  | StoryId.ParseAmbiguous reason _ _ =>
      [ conflictOf None reason (Some [card]) None ]
  end.

(** The buckets of [cardRecordsById] that hold several records. *)
Definition crowded (entry : string * list CardRecord.t) : bool :=
  Nat.ltb 1 (List.length (snd entry)).

Definition duplicateCardConflict (entry : string * list CardRecord.t)
    : SyncConflict.t :=
  conflictOf (Some (fst entry)) "Duplicate story ID across Trello cards"
    (Some (map CardRecord.card (snd entry))) None.

Definition duplicateStoryConflict (id : string) : SyncConflict.t :=
  conflictOf (Some id) "Duplicate story ID in PRD stories" None None.

(** [checklistByCardId] of a run whose fetches [getCardChecklists] answers. *)
Definition fetchedChecklists (locals : PlanLocals.t)
    (getCardChecklists : string -> list BoardChecklist.t)
    : JsMap.t string (list BoardChecklist.t) :=
  indexChecklists (checklistTargets locals)
    (map (fun record => getCardChecklists (BoardCard.id (CardRecord.card record)))
       (checklistTargets locals)).

(** The stories that carry the identifier [id]. *)
Definition hasId (id : string) (story : PrdStory.t) : bool :=
  PrdStory.id story =? id.

(** The card records of the identifier [id]. *)
Definition recordOf (id : string) (record : CardRecord.t) : bool :=
  CardRecord.storyId record =? id.

(** The codec mapping of a run. *)
Definition codecMapping (mapping : Mapping.t) : StoryId.StoryIdMapping :=
  {| StoryId.storyPrefix := Mapping.storyPrefix mapping;
     StoryId.idPattern := Mapping.idPattern mapping;
     StoryId.cardTitleFormat := Mapping.cardTitleFormat mapping |}.

(* ------------------------------------------------------------------ *)
(** * What the properties ask of the host's collation *)

(** [a] sorts no later than [b]. *)
Definition precedes (host : Host) (a b : string) : Prop :=
  (localeCompare host a b <= 0)%Z.

(** The comparator is consistent: it orders any two strings, transitively. *)
Record Consistent (host : Host) : Prop := {
  precedes_total : forall a b, precedes host a b \/ precedes host b a;
  precedes_trans :
    forall a b c, precedes host a b -> precedes host b c -> precedes host a c
}.

(** The comparator tells different strings apart. *)
Definition Discerning (host : Host) : Prop :=
  forall a b, precedes host a b -> precedes host b a -> a = b.

From Stdlib Require DecimalNat QArith.

(* ------------------------------------------------------------------ *)
(** * Mappings of the common form

    An [idPattern] that is text around the prefix token and a number token
    with a width, in this order, and a [cardTitleFormat] that is text around
    the identifier token and the title token, in this order. *)

Module MappingParts.
Record t : Type := {
  storyPrefix : string;
  front : string;     (* in front of {prefix} *)
  middle : string;    (* between {prefix} and the number token *)
  width : nat;
  back : string;      (* behind the number token *)
  before : string;    (* in front of {id} *)
  between : string;   (* between {id} and {title} *)
  after : string      (* behind {title} *)
}.

Definition numberToken (parts : t) : string :=
  "{number:" ++ Js.showNat (width parts) ++ "}".

Definition idPattern (parts : t) : string :=
  front parts ++ "{prefix}" ++ middle parts ++ numberToken parts ++ back parts.

Definition cardTitleFormat (parts : t) : string :=
  before parts ++ "{id}" ++ between parts ++ "{title}" ++ after parts.

Definition mapping (parts : t) : StoryId.StoryIdMapping :=
  {| StoryId.storyPrefix := storyPrefix parts;
     StoryId.idPattern := idPattern parts;
     StoryId.cardTitleFormat := cardTitleFormat parts |}.

(** Text without a brace and without an underscore: no token starts in it,
    and none of the placeholders of [parseIdPattern] and
    [parseCardTitleFormat]. *)
Definition plainText (text : string) : bool :=
  lacks "{" text && lacks "_" text.

Definition plain (parts : t) : bool :=
  plainText (storyPrefix parts) && plainText (front parts)
  && plainText (middle parts) && plainText (back parts)
  && plainText (before parts) && plainText (between parts)
  && plainText (after parts)
  && Nat.ltb 0 (width parts).

(** What stands in front of the number in an identifier. *)
Definition idText (parts : t) : string :=
  front parts ++ storyPrefix parts ++ middle parts.

Definition idAtoms (parts : t) : Regex.regex :=
  (Regex.lits (idText parts)
     ++ Regex.DigitsN (width parts) :: Regex.lits (back parts))%list.

Definition regexSource (parts : t) : string :=
  StoryId.escapeRegExp (front parts)
    ++ StoryId.escapeRegExp (storyPrefix parts)
    ++ StoryId.escapeRegExp (middle parts)
    ++ String Regex.backslash ("d{" ++ Js.showNat (width parts) ++ "}")
    ++ StoryId.escapeRegExp (back parts).

(** The codec of such a mapping, as [createStoryIdCodec_parts] shows. *)
Definition codec (parts : t) : StoryId.StoryIdCodec :=
  {| StoryId.idPatternSpec :=
       {| StoryId.template := idPattern parts;
          StoryId.prefix := storyPrefix parts;
          StoryId.numberToken := numberToken parts;
          StoryId.padding := Some (width parts);
          StoryId.regexSource := regexSource parts |};
     StoryId.idRegex := (Regex.Bol :: idAtoms parts ++ [Regex.Eol])%list;
     StoryId.idSearchRegex := idAtoms parts;
     StoryId.cardTitleSpec :=
       {| StoryId.titleTemplate := cardTitleFormat parts;
          StoryId.regex :=
            (Regex.Bol :: Regex.lits (before parts)
               ++ Regex.GroupOpen "id" :: idAtoms parts
               ++ Regex.GroupClose :: Regex.lits (between parts)
               ++ Regex.GroupOpen "title" :: Regex.AnyLazy :: Regex.GroupClose
               :: Regex.lits (after parts) ++ [Regex.Eol])%list;
          StoryId.idToken := "{id}";
          StoryId.titleToken := "{title}" |} |}.

(** The identifier of the number [value]. *)
Definition idOf (parts : t) (value : nat) : string :=
  idText parts ++ Js.padStart0 (Js.showNat value) (width parts) ++ back parts.

(** The shape of the codec, given the first code unit of the identifiers
    and what follows it in front of the number. *)
Definition shape (parts : t) (idStart : ascii) (idHead : string)
    : TitleShape.t :=
  {| TitleShape.idStart := idStart; TitleShape.idHead := idHead;
     TitleShape.width := width parts; TitleShape.idTail := back parts;
     TitleShape.before := before parts; TitleShape.between := between parts;
     TitleShape.after := after parts |}.

(** The default mapping. *)
Definition default : t :=
  {| storyPrefix := "US"; front := ""; middle := "-"; width := 3; back := "";
     before := "["; between := "] "; after := "" |}.
End MappingParts.

(* ------------------------------------------------------------------ *)
(** * Notions for the state of the last run *)

(** The time of the last activity of the card of a record, as written. *)
Definition activityOf (record : SyncStateCardRecord.t) : IsoTimestamp :=
  BoardCard.lastActivityAt (SyncStateCardRecord.card record).

(** The records [buildSnapshot] starts from: the card records of the run,
    each with the card as it was read. *)
Definition snapshotCards (records : list CardRecord.t)
    : list SyncStateCardRecord.t :=
  map (fun record =>
         {| SyncStateCardRecord.storyId := CardRecord.storyId record;
            SyncStateCardRecord.card := CardRecord.card record |})
    records.

(** The entries [createSyncState] records for a story and for a card. *)
Definition storyEntryOf (host : Host) (story : PrdStory.t)
    : SyncStateStoryEntry.t :=
  {| SyncStateStoryEntry.fingerprint := createStoryFingerprint host story |}.

Definition cardEntryOf (record : SyncStateCardRecord.t) : SyncStateCardEntry.t :=
  {| SyncStateCardEntry.cardId := BoardCard.id (SyncStateCardRecord.card record);
     SyncStateCardEntry.lastActivityAt :=
       BoardCard.lastActivityAt (SyncStateCardRecord.card record) |}.

(** The state records of the identifier [id]. *)
Definition stateRecordOf (id : string) (record : SyncStateCardRecord.t) : bool :=
  SyncStateCardRecord.storyId record =? id.

(* ------------------------------------------------------------------ *)
(** * Notions for the plan as a whole *)

(** The entries pushed by the turns of the loop, from what each turn
    came to. *)
Definition pushedBy (outcomes : list (option PlanEntry)) : list PlanEntry :=
  flat_map (fun outcome => match outcome with
                           | Some entry => [entry]
                           | None => []
                           end)
    outcomes.

(** The store an entry of the plan is to be written to, for the entries
    that write. *)
Definition entryTarget (entry : PlanEntry) : option SyncTarget :=
  match entry with
  | PushCreate c => Some (SyncCreate.target c)
  | PushUpdate u => Some (SyncUpdate.target u)
  | PushConflict _ | PushNoop _ => None
  end.

(** The store a one-way run leaves alone. *)
Definition sparedTarget (direction : SyncDirection) : option SyncTarget :=
  match direction with
  | PrdToTrello => Some TargetPrd
  | TrelloToPrd => Some TargetTrello
  | TwoWay => None
  end.

(** The plan before the loop over the identifiers. *)
Definition initialPlan (locals : PlanLocals.t) : SyncPlan.t :=
  {| SyncPlan.creates := []; SyncPlan.updates := [];
     SyncPlan.conflicts := PlanLocals.conflicts locals;
     SyncPlan.noop := [] |}.

(** The identifiers of the creates, updates and no-ops of a plan. *)
Definition plannedIds (plan : SyncPlan.t) : list string :=
  (map SyncCreate.id (SyncPlan.creates plan)
     ++ map SyncUpdate.id (SyncPlan.updates plan)
     ++ map SyncNoop.id (SyncPlan.noop plan))%list.

(** The identifiers of the conflicts of a plan that carry one. *)
Definition conflictIds (plan : SyncPlan.t) : list string :=
  flat_map (fun conflict => match SyncConflict.id conflict with
                            | Some id => [id]
                            | None => []
                            end)
    (SyncPlan.conflicts plan).

(* ------------------------------------------------------------------ *)
(** * Runs to try the properties on *)

Module Runs.

(** The options of a run in a given direction. *)
Definition options (direction : SyncDirection) (dryRun blockWrites : option bool)
    : SyncPlanOptions.t :=
  {| SyncPlanOptions.prdPath := "prd.json";
     SyncPlanOptions.mapping := Fixture.mapping;
     SyncPlanOptions.direction := Some direction;
     SyncPlanOptions.incremental := None;
     SyncPlanOptions.dryRun := dryRun;
     SyncPlanOptions.state := None;
     SyncPlanOptions.conflict :=
       Some {| ConflictOptions.prefer := None;
               ConflictOptions.defaultPrefer := None;
               ConflictOptions.blockWrites := blockWrites;
               ConflictOptions.createMissingLabels := None |} |}.

(** A document of two stories and a board of three cards: the first story
    has a card that differs from it, the second has none, one card has no
    story and one has a title that does not parse. *)
Definition document : FormatReadResult.t :=
  {| FormatReadResult.stories :=
       [ Fixture.story "US-001" "PRD Title" "PRD description";
         Fixture.story "US-002" "Second" "Second description" ];
     FormatReadResult.lastModifiedAt := "2026-01-20T00:00:00Z" |}.

Definition cards : list BoardCard.t :=
  [ Fixture.card "card-1" "[US-001] Trello Title" "Trello description"
      "2026-01-19T00:00:00Z";
    Fixture.card "card-3" "[US-003] Third" "Third description"
      "2026-01-19T00:00:00Z";
    Fixture.card "card-x" "Untitled" "" "2026-01-19T00:00:00Z" ].

(** A story with a dependency, the labels of the board, and the card that
    carries the story next to a label of its own. *)
Definition dependentStory : PrdStory.t :=
  {| PrdStory.id := "US-004"; PrdStory.title := "Fourth";
     PrdStory.status := open; PrdStory.dependsOn := ["US-001"];
     PrdStory.description := "Fourth description";
     PrdStory.acceptanceCriteria := [] |}.

Definition labels : list BoardLabel.t :=
  [ {| BoardLabel.id := "label-001"; BoardLabel.name := "s:US-001";
       BoardLabel.color := None |};
    {| BoardLabel.id := "label-keep"; BoardLabel.name := "urgent";
       BoardLabel.color := None |} ].

Definition dependentCard : BoardCard.t :=
  {| BoardCard.id := "card-4"; BoardCard.name := "[US-004] Fourth";
     BoardCard.description := "Fourth description";
     BoardCard.listId := "list-open";
     BoardCard.labelIds := ["label-keep"; "label-001"];
     BoardCard.closed := false;
     BoardCard.lastActivityAt := "2026-01-19T00:00:00Z" |}.

Definition dependentLocals : PlanLocals.t :=
  prepare Fixture.host (options TwoWay None None) Fixture.codec
    {| FormatReadResult.stories := [dependentStory];
       FormatReadResult.lastModifiedAt := "2026-01-20T00:00:00Z" |}
    Fixture.lists [dependentCard] labels.

End Runs.

(* ------------------------------------------------------------------ *)
(** * Notions for what a run does to the stores *)

(** Whenever the computation [m] returns a value, the value satisfies [Q]. *)
Definition yields {W A : Type} (m : M W A) (Q : A -> Prop) : Prop :=
  forall s s' a, m s = (s', Ok a) -> Q a.

(** The calls that leave the document as it is. *)
Definition sparesDocument (call : Call) : bool :=
  match call with
  | CallWriteStories _ _ => false
  | _ => true
  end.

(** The calls that leave the board as it is. *)
Definition sparesBoard (call : Call) : bool :=
  match call with
  | CallCreateLabel _ | CallCreateCard _ | CallUpdateCard _ _
  | CallUpsertChecklist _ _ => false
  | _ => true
  end.

(** Every create and every update of the plan is for [target]. *)
Definition plansOnlyFor (target : SyncTarget) (plan : SyncPlan.t) : Prop :=
  Forall (fun create => SyncCreate.target create = target) (SyncPlan.creates plan)
  /\ Forall (fun update => SyncUpdate.target update = target)
       (SyncPlan.updates plan).

(* ------------------------------------------------------------------ *)
(** * sync-state-store.ts: reading a state back

    [parseSyncState] and what it calls, on the value [JSON.parse]
    returned. *)

Module StateStore.

(** A value as [JSON.parse] returns it.  The members of an object come in
    the order in which [Object.entries] lists them, each key once; the keys
    are taken not to name members of [Object.prototype]. *)
#[warnings="-register-all"] Inductive Value : Type :=
| Null
| Boolean (b : bool)
| Number (q : QArith_base.Q)
| Text (s : string)
| Items (items : list Value)
| Members (members : list (string * Value)).

Definition PlainObject : Type := list (string * Value).

(** [object[key]]; [None] is [undefined]. *)
Definition member (object : PlainObject) (key : string) : option Value :=
  JsMap.get object key.

(** What a function of the store comes to: the value it returns, or the
    message of the [Error] it throws. *)
Inductive Checked (A : Type) : Type :=
| Valid (value : A)
| Invalid (message : string).
Arguments Valid {A} value.
Arguments Invalid {A} message.

Definition andThen {A B : Type} (c : Checked A) (k : A -> Checked B)
    : Checked B :=
  match c with
  | Valid a => k a
  | Invalid message => Invalid message
  end.

Notation "'check' x ':=' c 'in' k" := (andThen c (fun x => k))
  (at level 10, x pattern, c at level 100, k at level 200).

Definition isPlainObject (value : option Value) : bool :=
  match value with
  | Some (Members _) => true
  | _ => false
  end.

Definition requireString (value : option Value) (label : string)
    : Checked string :=
  match value with
  | Some (Text s) => Valid s
  | _ => Invalid (label ++ " must be a string")
  end.

Definition requirePlainObject (value : option Value) (label : string)
    : Checked PlainObject :=
  match value with
  | Some (Members members) => Valid members
  | _ => Invalid (label ++ " must be an object")
  end.

(** [entries.forEach] with a body that may throw. *)
Fixpoint forEach {A S : Type} (body : S -> A -> Checked S) (items : list A)
    (s : S) : Checked S :=
  match items with
  | [] => Valid s
  | item :: rest => check s' := body s item in forEach body rest s'
  end.

(** One turn of the loop of [parseStoryIndex]. *)
Definition parseStoryEntry (parsed : JsMap.t string SyncStateStoryEntry.t)
    (entry : string * Value) : Checked (JsMap.t string SyncStateStoryEntry.t) :=
  let '(id, entry) := entry in
  check item := requirePlainObject (Some entry) ("state.storyIndex." ++ id) in
  check fingerprint :=
    requireString (member item "fingerprint")
      ("state.storyIndex." ++ id ++ ".fingerprint") in
  Valid (JsMap.set parsed id
           {| SyncStateStoryEntry.fingerprint := fingerprint |}).

Definition parseStoryIndex (value : option Value)
    : Checked (JsMap.t string SyncStateStoryEntry.t) :=
  check root := requirePlainObject value "state.storyIndex" in
  forEach parseStoryEntry root JsMap.empty.

(** One turn of the loop of [parseCardIndex]. *)
Definition parseCardEntry (parsed : JsMap.t string SyncStateCardEntry.t)
    (entry : string * Value) : Checked (JsMap.t string SyncStateCardEntry.t) :=
  let '(id, entry) := entry in
  check item := requirePlainObject (Some entry) ("state.cardIndex." ++ id) in
  check cardId :=
    requireString (member item "cardId")
      ("state.cardIndex." ++ id ++ ".cardId") in
  check lastActivityAt :=
    requireString (member item "lastActivityAt")
      ("state.cardIndex." ++ id ++ ".lastActivityAt") in
  Valid (JsMap.set parsed id
           {| SyncStateCardEntry.cardId := cardId;
              SyncStateCardEntry.lastActivityAt := lastActivityAt |}).

Definition parseCardIndex (value : option Value)
    : Checked (JsMap.t string SyncStateCardEntry.t) :=
  check root := requirePlainObject value "state.cardIndex" in
  forEach parseCardEntry root JsMap.empty.

(** [version === 1] *)
Definition isOne (version : option Value) : bool :=
  match version with
  | Some (Number q) => QArith_base.Qeq_bool q (QArith_base.Qmake 1 1)
  | _ => false
  end.

Definition parseSyncState (value : Value) : Checked SyncState.t :=
  check root := requirePlainObject (Some value) "state" in
  let version := member root "version" in
  if negb (isOne version) then Invalid "state.version must be 1"
  else
    check lastRunAt := requireString (member root "lastRunAt") "state.lastRunAt" in
    check boardId := requireString (member root "boardId") "state.boardId" in
    check prdPath := requireString (member root "prdPath") "state.prdPath" in
    check mappingSignature :=
      requireString (member root "mappingSignature") "state.mappingSignature" in
    check lastSeenTrelloActivity :=
      requireString (member root "lastSeenTrelloActivity")
        "state.lastSeenTrelloActivity" in
    check storyIndex := parseStoryIndex (member root "storyIndex") in
    check cardIndex := parseCardIndex (member root "cardIndex") in
    Valid {| SyncState.version := 1;
             SyncState.lastRunAt := lastRunAt;
             SyncState.boardId := boardId;
             SyncState.prdPath := prdPath;
             SyncState.mappingSignature := mappingSignature;
             SyncState.lastSeenTrelloActivity := lastSeenTrelloActivity;
             SyncState.storyIndex := storyIndex;
             SyncState.cardIndex := cardIndex |}.

(** What [loadSyncState] makes of the text of a state file, before
    [validateSyncState]: [parseJson] is [JSON.parse], with the message of
    the error it throws. *)
Definition decodeState (parseJson : string -> Checked Value) (raw : string)
    : StateDecoding :=
  match parseJson raw with
  | Invalid message => InvalidJson message
  | Valid parsed =>
      match parseSyncState parsed with
      | Invalid message => InvalidState message
      | Valid state => DecodedState state
      end
  end.

(** The value [JSON.parse] returns for the text [JSON.stringify] writes
    for a state. *)
Definition valueOf (state : SyncState.t) : Value :=
  Members
    [ ("version",
       Number (QArith_base.Qmake (Z.of_nat (SyncState.version state)) 1));
      ("lastRunAt", Text (SyncState.lastRunAt state));
      ("boardId", Text (SyncState.boardId state));
      ("prdPath", Text (SyncState.prdPath state));
      ("mappingSignature", Text (SyncState.mappingSignature state));
      ("lastSeenTrelloActivity", Text (SyncState.lastSeenTrelloActivity state));
      ("storyIndex",
       Members
         (map (fun '(id, entry) =>
                 (id, Members
                        [ ("fingerprint",
                           Text (SyncStateStoryEntry.fingerprint entry)) ]))
            (SyncState.storyIndex state)));
      ("cardIndex",
       Members
         (map (fun '(id, entry) =>
                 (id, Members
                        [ ("cardId", Text (SyncStateCardEntry.cardId entry));
                          ("lastActivityAt",
                           Text (SyncStateCardEntry.lastActivityAt entry)) ]))
            (SyncState.cardIndex state))) ].

End StateStore.

(* ------------------------------------------------------------------ *)
(** * Notions for a story and the card that carries it *)

(** The label id the board knows under the name of a dependency. *)
Definition labelIdOf (labelPrefix : string)
    (labelNameToId : JsMap.t string string) (dependency : string) : string :=
  Js.orElse (JsMap.get labelNameToId (labelPrefix ++ dependency)) "".

(** The board knows a label for every dependency, and knows the label
    under the name of the dependency. *)
Definition labelsKnown (labelPrefix : string)
    (labelNameToId labelIdToName : JsMap.t string string)
    (dependsOn : list string) : Prop :=
  forall dependency,
    In dependency dependsOn ->
    exists labelId,
      JsMap.get labelNameToId (labelPrefix ++ dependency) = Some labelId
      /\ labelId <> ""
      /\ JsMap.get labelIdToName labelId = Some (labelPrefix ++ dependency).

(** A label that does not stand for a dependency: the board knows no name
    for it, or a name that does not start with the prefix. *)
Definition otherLabel (labelPrefix : string)
    (labelIdToName : JsMap.t string string) (labelId : string) : bool :=
  negb (Js.truthyOpt (JsMap.get labelIdToName labelId))
  || negb (Js.startsWith (Js.orElse (JsMap.get labelIdToName labelId) "")
             labelPrefix).

(** What a checklist item says. *)
Definition itemText (item : BoardChecklistItem.t) : string * bool :=
  (BoardChecklistItem.name item, BoardChecklistItem.checked item).

(** The checklists of a card say what the acceptance criteria of a story
    say: one checklist of the name holds the criteria in their order,
    checked when the story is done; or the story has no criteria and the
    card has no checklist of the name, or its checklists were not fetched. *)
Definition checklistsCarry (story : PrdStory.t) (checklistName : string)
    (checklists : option (list BoardChecklist.t)) : Prop :=
  match checklists with
  | None => PrdStory.acceptanceCriteria story = []
  | Some checklists =>
      match filter (fun checklist => BoardChecklist.name checklist =? checklistName)
              checklists with
      | [] => PrdStory.acceptanceCriteria story = []
      | [checklist] =>
          map itemText (BoardChecklist.items checklist)
          = map (fun criteria =>
                   (criteria, statusEqb (PrdStory.status story) done))
              (PrdStory.acceptanceCriteria story)
      | _ => False
      end
  end.

(* ------------------------------------------------------------------ *)
(** * Notions for what [applyPlan] writes *)

(** Whenever [m] returns a value, the calls it added to the log and the
    value satisfy [P]. *)
Definition traces {W A : Type} (m : M W A) (P : A -> list Call -> Prop) : Prop :=
  forall w log s' a,
    m (w, log) = (s', Ok a) ->
    exists added, snd s' = (log ++ added)%list /\ P a added.

(** What a call writes; the card a checklist is written to is left out. *)
Inductive Written : Type :=
| WroteLabel (input : BoardLabelInput.t)
| WroteCard (input : BoardCardInput.t)
| WroteUpdate (cardId : string) (update : BoardCardUpdate.t)
| WroteChecklist (checklist : BoardChecklistInput.t)
| WroteStories (path : string) (stories : list PrdStory.t).

Definition written (call : Call) : list Written :=
  match call with
  | CallCreateLabel input => [WroteLabel input]
  | CallCreateCard input => [WroteCard input]
  | CallUpdateCard cardId update => [WroteUpdate cardId update]
  | CallUpsertChecklist _ checklist => [WroteChecklist checklist]
  | CallWriteStories path stories => [WroteStories path stories]
  | _ => []
  end.

(** What a create of the plan asks to write to the board. *)
Definition createWrites (create : SyncCreate.t) : list Written :=
  match create with
  | SyncCreate.Trello _ _ _ cardInput checklist =>
      WroteCard cardInput
        :: (if Nat.ltb 0 (List.length (BoardChecklistInput.items checklist))
            then [WroteChecklist checklist] else [])
  | SyncCreate.Prd _ _ _ _ => []
  end.

(** What an update of the plan asks to write to the board. *)
Definition updateWrites (update : SyncUpdate.t) : list Written :=
  match update with
  | SyncUpdate.Trello _ _ _ card cardUpdate checklist checklistNeedsUpdate _ =>
      ((if hasUpdateFields cardUpdate
        then [WroteUpdate (BoardCard.id card) cardUpdate] else [])
         ++ (if checklistNeedsUpdate then [WroteChecklist checklist] else []))%list
  | SyncUpdate.Prd _ _ _ _ => []
  end.

(** The stories a plan asks to write to the document. *)
Definition prdChangesOf (plan : SyncPlan.t) : list PrdStory.t :=
  (map createStory
     (filter (fun c => negb (isTrelloCreate c)) (SyncPlan.creates plan))
     ++ map updateStory
          (filter (fun u => negb (isTrelloUpdate u)) (SyncPlan.updates plan)))%list.

(** The stories of the entries of a plan that are for the board. *)
Definition boardStories (plan : SyncPlan.t) : list PrdStory.t :=
  (map createStory (filter isTrelloCreate (SyncPlan.creates plan))
     ++ map updateStory (filter isTrelloUpdate (SyncPlan.updates plan)))%list.

Definition labelInput (name : string) : BoardLabelInput.t :=
  {| BoardLabelInput.name := name; BoardLabelInput.color := None |}.

Module Plans.

(** The stores of a run over [Runs.document] and [Runs.cards]. *)
Definition world : Memory.t :=
  {| Memory.document := Runs.document;
     Memory.boardLists := Fixture.lists;
     Memory.boardCards := Runs.cards;
     Memory.boardLabels := [];
     Memory.boardChecklists := JsMap.empty;
     Memory.files := JsMap.empty |}.

(** The plan of a two-way run over these stores. *)
Definition planned
    : (Memory.t * list Call) * Result (SyncPlan.t * SyncContext.t) :=
  buildPlan Fixture.host Memory.adapters (Runs.options TwoWay None None)
    (world, []).

End Plans.

(** The labels the calls of a log ask the board to create. *)
Definition createdLabels (log : list Call) : list BoardLabelInput.t :=
  flat_map (fun call => match call with
                        | CallCreateLabel input => [input]
                        | _ => []
                        end) log.

(** The calls that create no label. *)
Definition sparesLabels (call : Call) : bool :=
  match call with
  | CallCreateLabel _ => false
  | _ => true
  end.

(** [name] is the label of a dependency of a story that the plan sends to
    the board. *)
Definition wantedLabel (mapping : Mapping.t) (plan : SyncPlan.t)
    (name : string) : Prop :=
  exists story dependency,
    In story (boardStories plan)
    /\ In dependency (PrdStory.dependsOn story)
    /\ name = Mapping.dependsOnLabelPrefix mapping ++ dependency.

Module LabelRun.

(** The stores of a run over a document whose only story has a dependency,
    and a board with no card and no label for it. *)
Definition world : Memory.t :=
  {| Memory.document :=
       {| FormatReadResult.stories := [Runs.dependentStory];
          FormatReadResult.lastModifiedAt := "2026-01-20T00:00:00Z" |};
     Memory.boardLists := Fixture.lists;
     Memory.boardCards := [];
     Memory.boardLabels :=
       [ {| BoardLabel.id := "label-keep"; BoardLabel.name := "urgent";
            BoardLabel.color := None |} ];
     Memory.boardChecklists := JsMap.empty;
     Memory.files := JsMap.empty |}.

(** The plan of a two-way run over these stores. *)
Definition planned
    : (Memory.t * list Call) * Result (SyncPlan.t * SyncContext.t) :=
  buildPlan Fixture.host Memory.adapters (Runs.options TwoWay None None)
    (world, []).

End LabelRun.

(* ================================================================== *)
(** * Properties *)

Arguments Js.push : simpl never.

(** ** Strings *)

Lemma append_nil_r (s : string) : s ++ "" = s.
Proof. induction s as [|c s IH]; simpl; [reflexivity | now rewrite IH]. Qed.

Lemma append_assoc (a b c : string) : (a ++ b) ++ c = a ++ (b ++ c).
Proof. induction a as [|x a IH]; simpl; [reflexivity | now rewrite IH]. Qed.

Lemma length_append (a b : string) : length (a ++ b) = length a + length b.
Proof. induction a as [|x a IH]; simpl; [reflexivity | now rewrite IH]. Qed.

Lemma append_inj_l (a b c : string) : a ++ b = a ++ c -> b = c.
Proof. induction a as [|x a IH]; simpl; intros H; [exact H | injection H; auto]. Qed.

(** ** Sorting *)

Section SortFacts.
Variable A : Type.
Variable compare : A -> A -> Z.

Let le (a b : A) : Prop := (compare a b <= 0)%Z.

Lemma insertSorted_perm (x : A) (l : list A) :
  Permutation (Js.insertSorted compare x l) (x :: l).
Proof.
  induction l as [|y l IH]; simpl; [reflexivity|].
  destruct (compare x y <=? 0)%Z; [reflexivity|].
  rewrite IH. apply perm_swap.
Qed.

Lemma sort_perm (l : list A) : Permutation (Js.sort compare l) l.
Proof.
  induction l as [|x l IH]; simpl; [reflexivity|].
  rewrite insertSorted_perm. now constructor.
Qed.

Lemma sort_In (x : A) (l : list A) : In x (Js.sort compare l) <-> In x l.
Proof.
  split; apply Permutation_in; [apply sort_perm | symmetry; apply sort_perm].
Qed.

Lemma sort_length (l : list A) :
  List.length (Js.sort compare l) = List.length l.
Proof. apply Permutation_length, sort_perm. Qed.

Lemma sort_filter_length (p : A -> bool) (l : list A) :
  List.length (filter p (Js.sort compare l)) = List.length (filter p l).
Proof.
  apply Permutation_length.
  generalize (sort_perm l). generalize (Js.sort compare l).
  intros l' H. induction H; simpl.
  - reflexivity.
  - destruct (p x); [now constructor | assumption].
  - destruct (p x), (p y); try reflexivity. apply perm_swap.
  - etransitivity; eassumption.
Qed.

Hypothesis le_total : forall a b, le a b \/ le b a.
Hypothesis le_trans : forall a b c, le a b -> le b c -> le a c.

Lemma insertSorted_sorted (x : A) (l : list A) :
  StronglySorted le l -> StronglySorted le (Js.insertSorted compare x l).
Proof.
  induction 1 as [|y l Hs IH Hy]; simpl.
  - repeat constructor.
  - destruct (compare x y <=? 0)%Z eqn:E.
    + apply Z.leb_le in E. constructor; [now constructor|].
      constructor; [exact E|].
      eapply Forall_impl; [|exact Hy]. intros z Hz. now apply le_trans with y.
    + apply Z.leb_gt in E. constructor; [exact IH|].
      assert (Hyx : le y x).
      { destruct (le_total x y) as [H|H]; [unfold le in H; lia | exact H]. }
      rewrite Forall_forall in *. intros z Hz.
      apply (Permutation_in _ (insertSorted_perm x l)) in Hz.
      destruct Hz as [->|Hz]; auto.
Qed.

Lemma sort_sorted (l : list A) : StronglySorted le (Js.sort compare l).
Proof.
  induction l as [|x l IH]; simpl; [constructor | now apply insertSorted_sorted].
Qed.

(** The first element of a sorted list precedes every element. *)
Lemma sort_head_least (l : list A) (first : A) :
  Js.head (Js.sort compare l) = Some first ->
  forall x, In x l -> le first x.
Proof.
  intros Hhead x Hx. apply sort_In in Hx.
  pose proof (sort_sorted l) as Hs.
  destruct (Js.sort compare l) as [|y l']; [discriminate|].
  injection Hhead as ->. destruct Hx as [->|Hx].
  - destruct (le_total x x); assumption.
  - apply StronglySorted_inv in Hs. destruct Hs as [_ Hall].
    rewrite Forall_forall in Hall. auto.
Qed.

Hypothesis le_antisym : forall a b, le a b -> le b a -> a = b.

Lemma sorted_perm_eq (l1 l2 : list A) :
  StronglySorted le l1 -> StronglySorted le l2 -> Permutation l1 l2 -> l1 = l2.
Proof.
  revert l2. induction l1 as [|x l1 IH]; intros l2 H1 H2 HP.
  - apply Permutation_nil in HP. now subst.
  - destruct l2 as [|y l2].
    + symmetry in HP. apply Permutation_nil in HP. discriminate.
    + apply StronglySorted_inv in H1. destruct H1 as [H1 Hx].
      apply StronglySorted_inv in H2. destruct H2 as [H2 Hy].
      rewrite Forall_forall in Hx, Hy.
      assert (x = y) as ->.
      { assert (In y (x :: l1)) as Hin1
          by (eapply Permutation_in; [symmetry; exact HP | now left]).
        assert (In x (y :: l2)) as Hin2
          by (eapply Permutation_in; [exact HP | now left]).
        destruct Hin1 as [E|Hin1]; [exact E|].
        destruct Hin2 as [E|Hin2]; [now symmetry|].
        apply le_antisym; auto. }
      f_equal. apply IH; auto. now apply Permutation_cons_inv with y.
Qed.

Lemma sort_perm_eq (l1 l2 : list A) :
  Permutation l1 l2 -> Js.sort compare l1 = Js.sort compare l2.
Proof.
  intros HP. apply sorted_perm_eq; try apply sort_sorted.
  rewrite (sort_perm l1), (sort_perm l2). exact HP.
Qed.
End SortFacts.

(** The collation of the fixture host is consistent and discerning. *)
Lemma compareCodeUnits_le (a b : string) :
  (Fixture.compareCodeUnits a b <= 0)%Z <-> String.compare a b <> Gt.
Proof.
  unfold Fixture.compareCodeUnits.
  destruct (String.compare a b); split; intros H; try lia; try congruence.
Qed.

Lemma fixture_consistent : Consistent Fixture.host.
Proof.
  split; unfold precedes; simpl.
  - intros a b. rewrite !compareCodeUnits_le.
    rewrite (String.compare_antisym a b).
    destruct (String.compare b a); simpl; intuition congruence.
  - intros a b c. rewrite !compareCodeUnits_le. intros Hab Hbc Hac.
    assert (Hca : OrderedTypeEx.String_as_OT.lt c a).
    { apply OrderedTypeEx.String_as_OT.cmp_lt.
      unfold OrderedTypeEx.String_as_OT.cmp.
      rewrite String.compare_antisym, Hac. reflexivity. }
    destruct (String.compare a b) eqn:Eab; [| |congruence].
    + apply String.compare_eq_iff in Eab. subst b.
      rewrite String.compare_antisym in Hbc.
      apply OrderedTypeEx.String_as_OT.cmp_lt in Hca.
      unfold OrderedTypeEx.String_as_OT.cmp in Hca. rewrite Hca in Hbc.
      simpl in Hbc. congruence.
    + assert (Hcb : OrderedTypeEx.String_as_OT.lt c b).
      { eapply OrderedTypeEx.String_as_OT.lt_trans; [exact Hca|].
        now apply OrderedTypeEx.String_as_OT.cmp_lt. }
      apply OrderedTypeEx.String_as_OT.cmp_lt in Hcb.
      unfold OrderedTypeEx.String_as_OT.cmp in Hcb.
      rewrite String.compare_antisym, Hcb in Hbc. simpl in Hbc. congruence.
Qed.

Lemma fixture_discerning : Discerning Fixture.host.
Proof.
  intros a b. unfold precedes; simpl. rewrite !compareCodeUnits_le.
  intros Hab Hba. rewrite String.compare_antisym in Hba.
  destruct (String.compare a b) eqn:E; simpl in *; try congruence.
  now apply String.compare_eq_iff.
Qed.

(** ** Fingerprints *)



(** ** Dependency labels *)

Lemma JsSet_add_In (s : JsSet.t) (x y : string) :
  In y (JsSet.add s x) <-> In y s \/ y = x.
Proof.
  unfold JsSet.add, Js.push. destruct (JsSet.has s x) eqn:E.
  - split; [now left|]. intros [H| ->]; [exact H|].
    unfold JsSet.has in E. apply existsb_exists in E.
    destruct E as [z [Hz Ez]]. apply String.eqb_eq in Ez. now subst.
  - rewrite in_app_iff. simpl. intuition.
Qed.

Lemma push_In (A : Type) (l : list A) (x y : A) :
  In y (Js.push l x) <-> In y l \/ y = x.
Proof. unfold Js.push. rewrite in_app_iff. simpl. intuition. Qed.

Lemma truthy_true (s : string) : Js.truthy s = true <-> s <> "".
Proof.
  unfold Js.truthy. rewrite negb_true_iff. apply String.eqb_neq.
Qed.

Lemma truthyOpt_true (o : option string) :
  Js.truthyOpt o = true <-> exists s, o = Some s /\ s <> "".
Proof.
  destruct o as [s|]; simpl.
  - rewrite truthy_true. split; [eauto | now intros [s' [[= ->] H]]].
  - split; [discriminate | now intros [s [H _]]].
Qed.

Lemma addDependency_fold (labelPrefix : string)
    (labelNameToId : JsMap.t string string) (dependsOn : list string) :
  forall desired missing desired' missing',
    fold_left (addDependency labelPrefix labelNameToId) dependsOn (desired, missing)
      = (desired', missing') ->
    (forall labelId,
        In labelId desired' <->
        In labelId desired
        \/ exists dependency,
             In dependency dependsOn
             /\ JsMap.get labelNameToId (labelPrefix ++ dependency) = Some labelId
             /\ labelId <> "")
    /\ (forall labelName,
          In labelName missing' <->
          In labelName missing
          \/ exists dependency,
               In dependency dependsOn
               /\ labelName = labelPrefix ++ dependency
               /\ Js.truthyOpt (JsMap.get labelNameToId labelName) = false).
Proof.
  induction dependsOn as [|dependency rest IH]; intros desired missing desired' missing'.
  - simpl. intros [= <- <-]. split; intros x; split; auto.
    + intros [H|[d [[] _]]]; exact H.
    + intros [H|[d [[] _]]]; exact H.
  - simpl fold_left.
    destruct (Js.truthyOpt (JsMap.get labelNameToId (labelPrefix ++ dependency)))
      eqn:Etruthy; simpl; intros Hfold; apply IH in Hfold;
      destruct Hfold as [Hdesired Hmissing]; split; intros x.
    + rewrite Hdesired, push_In.
      apply truthyOpt_true in Etruthy. destruct Etruthy as [labelId [Eget Hne]].
      rewrite Eget. simpl. split.
      * intros [[H| ->]|[d [Hd H]]]; eauto 6.
      * intros [H|[d [[<-|Hd] [Hget Hx]]]]; eauto 6.
        left. right. congruence.
    + rewrite Hmissing. split.
      * intros [H|[d [Hd H]]]; eauto 6.
      * intros [H|[d [[<-|Hd] [-> Hx]]]]; eauto 6. congruence.
    + rewrite Hdesired. split.
      * intros [H|[d [Hd H]]]; eauto 6.
      * intros [H|[d [[<-|Hd] [Hget Hx]]]]; eauto 6.
        rewrite Hget in Etruthy. simpl in Etruthy.
        apply truthy_true in Hx. congruence.
    + rewrite Hmissing, JsSet_add_In. split.
      * intros [[H| ->]|[d [Hd H]]]; eauto 6.
      * intros [H|[d [[<-|Hd] [-> Hx]]]]; eauto 6.
Qed.

(** C7. The label set wanted for a card is sorted and holds exactly the
    labels of the card that do not carry the dependency prefix (a label
    carries it when the board knows a non-empty name for it that starts
    with the prefix) together with the labels the board knows under the
    name of a dependency of the story; the missing-labels list is sorted
    and holds exactly the label names of the dependencies for which the
    board knows no label. *)
Theorem resolveLabelIds_merges (host : Host) (story : PrdStory.t)
    (mapping : Mapping.t) (labelNameToId labelIdToName : JsMap.t string string)
    (card : BoardCard.t) :
  Consistent host ->
  let labelPrefix := Mapping.dependsOnLabelPrefix mapping in
  let result :=
    resolveLabelIds host story mapping labelNameToId labelIdToName (Some card) in
  StronglySorted (precedes host) (fst result)
  /\ (forall labelId,
        In labelId (fst result) <->
        (In labelId (BoardCard.labelIds card)
         /\ ~ (exists name, JsMap.get labelIdToName labelId = Some name
                            /\ name <> ""
                            /\ Js.startsWith name labelPrefix = true))
        \/ (exists dependency,
               In dependency (PrdStory.dependsOn story)
               /\ JsMap.get labelNameToId (labelPrefix ++ dependency) = Some labelId
               /\ labelId <> ""))
  /\ StronglySorted (precedes host) (snd result)
  /\ (forall labelName,
        In labelName (snd result) <->
        exists dependency,
          In dependency (PrdStory.dependsOn story)
          /\ labelName = labelPrefix ++ dependency
          /\ Js.truthyOpt (JsMap.get labelNameToId labelName) = false).
Proof.
  intros [Htotal Htrans] labelPrefix result. subst result.
  unfold resolveLabelIds, dependencyLabels.
  destruct (fold_left (addDependency (Mapping.dependsOnLabelPrefix mapping) labelNameToId)
              (PrdStory.dependsOn story) ([], [])) as [desired missing] eqn:Efold.
  apply addDependency_fold in Efold. destruct Efold as [Hdesired Hmissing].
  simpl. unfold sortStrings. repeat split.
  - apply sort_sorted; assumption.
  - rewrite sort_In, in_app_iff, filter_In, Hdesired. intros [[Hin Hkeep]|[[]|H]].
    + left. split; [exact Hin|]. intros [name [Eget [Hne Hstarts]]].
      rewrite Eget in Hkeep. simpl in Hkeep.
      apply truthy_true in Hne. fold labelPrefix in Hkeep.
      rewrite Hne, Hstarts in Hkeep. discriminate.
    + right. exact H.
  - rewrite sort_In, in_app_iff, filter_In, Hdesired. intros [[Hin Hnot]|H].
    + left. split; [exact Hin|].
      destruct (JsMap.get labelIdToName labelId) as [name|] eqn:Eget; simpl; auto.
      destruct (Js.truthy name) eqn:Etruthy; simpl; auto.
      apply negb_true_iff.
      destruct (Js.startsWith name (Mapping.dependsOnLabelPrefix mapping)) eqn:Es; auto.
      exfalso. apply Hnot. exists name. apply truthy_true in Etruthy. auto.
    + right. right. exact H.
  - apply sort_sorted; assumption.
  - rewrite sort_In, Hmissing. intros [[]|H]. exact H.
  - rewrite sort_In, Hmissing. intros H. right. exact H.
Qed.

(** The example of the specification. *)
Example resolveLabelIds_example :
  resolveLabelIds Fixture.host Fixture.labelExampleStory Fixture.mapping
    Fixture.labelExampleNameToId Fixture.labelExampleIdToName (Some Fixture.labelExampleCard)
  = (["label-001"; "label-002"; "label-keep"], []).
Proof. reflexivity. Qed.

Lemma resolveLabelIds_merges_witness :
  StronglySorted (precedes Fixture.host) ["label-001"; "label-002"; "label-keep"]
  /\ (forall labelId,
        In labelId ["label-001"; "label-002"; "label-keep"] <->
        (In labelId ["label-keep"; "label-old-dep"]
         /\ ~ (exists name, JsMap.get Fixture.labelExampleIdToName labelId = Some name
                            /\ name <> ""
                            /\ Js.startsWith name "s:" = true))
        \/ (exists dependency,
               In dependency ["US-001"; "US-002"]
               /\ JsMap.get Fixture.labelExampleNameToId ("s:" ++ dependency) = Some labelId
               /\ labelId <> "")).
Proof.
  pose proof (resolveLabelIds_merges Fixture.labelExampleStory Fixture.mapping
                Fixture.labelExampleNameToId Fixture.labelExampleIdToName Fixture.labelExampleCard
                fixture_consistent) as H.
  rewrite resolveLabelIds_example in H. simpl in H.
  destruct H as [Hsorted [Hmembers _]]. split; [exact Hsorted | exact Hmembers].
Defined.

(** ** Maps and sets in insertion order *)

#[export] Instance stringKeyLaws : KeyLaws string.
Proof. split. exact String.eqb_eq. Qed.

#[export] Instance statusKeyLaws : KeyLaws StoryStatus.
Proof. split. intros a b. destruct a, b; simpl; split; congruence. Qed.

Section MapFacts.
Context {K V : Type} `{KeyLaws K}.

Lemma keyEqb_refl (k : K) : keyEqb k k = true.
Proof. now apply keyEqb_eq. Qed.

Lemma keyEqb_neq (a b : K) : a <> b -> keyEqb a b = false.
Proof.
  intros Hne. destruct (keyEqb a b) eqn:E; [|reflexivity].
  apply keyEqb_eq in E. contradiction.
Qed.

Lemma get_set_same (m : JsMap.t K V) (k : K) (v : V) :
  JsMap.get (JsMap.set m k v) k = Some v.
Proof.
  induction m as [|[k' v'] m IH]; simpl.
  - now rewrite keyEqb_refl.
  - destruct (keyEqb k' k) eqn:E; simpl; rewrite E; auto.
Qed.

Lemma get_set_other (m : JsMap.t K V) (k k' : K) (v : V) :
  k <> k' -> JsMap.get (JsMap.set m k v) k' = JsMap.get m k'.
Proof.
  intros Hne. induction m as [|[k0 v0] m IH]; simpl.
  - now rewrite keyEqb_neq.
  - destruct (keyEqb k0 k) eqn:E; simpl.
    + apply keyEqb_eq in E. subst k0. now rewrite keyEqb_neq.
    + now rewrite IH.
Qed.

Lemma get_Some_In (m : JsMap.t K V) (k : K) (v : V) :
  JsMap.get m k = Some v -> In (k, v) m.
Proof.
  induction m as [|[k' v'] m IH]; simpl; [discriminate|].
  destruct (keyEqb k' k) eqn:E.
  - apply keyEqb_eq in E. intros [= ->]. subst. now left.
  - intros Hget. right. auto.
Qed.

Lemma get_None_keys (m : JsMap.t K V) (k : K) :
  JsMap.get m k = None <-> ~ In k (JsMap.keys m).
Proof.
  induction m as [|[k' v'] m IH]; simpl; [tauto|].
  destruct (keyEqb k' k) eqn:E.
  - apply keyEqb_eq in E. split; [discriminate | intros Hn; exfalso; auto].
  - rewrite IH. split.
    + intros Hn [->|Hin]; [|auto]. rewrite keyEqb_refl in E. discriminate.
    + intros Hn Hin. auto.
Qed.

Lemma In_get (m : JsMap.t K V) (k : K) (v : V) :
  NoDup (JsMap.keys m) -> In (k, v) m -> JsMap.get m k = Some v.
Proof.
  induction m as [|[k' v'] m IH]; simpl; [tauto|].
  intros Hnd [[= -> ->]|Hin].
  - now rewrite keyEqb_refl.
  - inversion Hnd as [|? ? Hnotin Hnd']; subst.
    destruct (keyEqb k' k) eqn:E; [|auto].
    apply keyEqb_eq in E. subst k'. exfalso. apply Hnotin.
    change k with (fst (k, v)). now apply in_map.
Qed.

Lemma keys_set (m : JsMap.t K V) (k : K) (v : V) :
  JsMap.keys (JsMap.set m k v)
  = if JsMap.has m k then JsMap.keys m else (JsMap.keys m ++ [k])%list.
Proof.
  unfold JsMap.has, JsMap.keys.
  induction m as [|[k' v'] m IH]; simpl; [reflexivity|].
  destruct (keyEqb k' k) eqn:E; simpl; [reflexivity|].
  rewrite IH. destruct (JsMap.get m k); reflexivity.
Qed.

Lemma has_true (m : JsMap.t K V) (k : K) :
  JsMap.has m k = true <-> In k (JsMap.keys m).
Proof.
  unfold JsMap.has. destruct (JsMap.get m k) eqn:E; simpl.
  - split; [intros _ | reflexivity].
    apply get_Some_In in E. change k with (fst (k, v)). now apply in_map.
  - apply get_None_keys in E. split; [discriminate | contradiction].
Qed.

Lemma keys_set_NoDup (m : JsMap.t K V) (k : K) (v : V) :
  NoDup (JsMap.keys m) -> NoDup (JsMap.keys (JsMap.set m k v)).
Proof.
  intros Hnd. rewrite keys_set. destruct (JsMap.has m k) eqn:E; [exact Hnd|].
  apply NoDup_app; [exact Hnd | repeat constructor; simpl; tauto |].
  intros x Hx [<-|[]]. apply has_true in Hx. congruence.
Qed.

Lemma keys_set_In (m : JsMap.t K V) (k k' : K) (v : V) :
  In k' (JsMap.keys (JsMap.set m k v)) <-> In k' (JsMap.keys m) \/ k' = k.
Proof.
  rewrite keys_set. destruct (JsMap.has m k) eqn:E.
  - apply has_true in E. split; [tauto | intros [Hin| ->]; assumption].
  - rewrite in_app_iff. simpl. intuition.
Qed.
End MapFacts.

Lemma JsSet_has_true (s : JsSet.t) (x : string) :
  JsSet.has s x = true <-> In x s.
Proof.
  unfold JsSet.has. rewrite existsb_exists. split.
  - intros [y [Hy E]]. apply String.eqb_eq in E. now subst.
  - intros Hin. exists x. split; [exact Hin | apply String.eqb_refl].
Qed.

Lemma JsSet_add_NoDup (s : JsSet.t) (x : string) :
  NoDup s -> NoDup (JsSet.add s x).
Proof.
  intros Hnd. unfold JsSet.add, Js.push. destruct (JsSet.has s x) eqn:E; [exact Hnd|].
  apply NoDup_app; [exact Hnd | repeat constructor; simpl; tauto |].
  intros y Hy [<-|[]]. apply JsSet_has_true in Hy. congruence.
Qed.

Lemma JsSet_ofList_spec (values : list string) :
  forall start,
    NoDup start ->
    NoDup (fold_left JsSet.add values start)
    /\ forall x, In x (fold_left JsSet.add values start) <-> In x start \/ In x values.
Proof.
  induction values as [|v values IH]; intros start Hnd; simpl.
  - split; [exact Hnd | intros x; tauto].
  - destruct (IH (JsSet.add start v) (JsSet_add_NoDup v Hnd)) as [Hnd' Hin].
    split; [exact Hnd'|]. intros x. rewrite Hin, JsSet_add_In. intuition.
Qed.

Lemma JsSet_ofList_In (values : list string) (x : string) :
  In x (JsSet.ofList values) <-> In x values.
Proof.
  unfold JsSet.ofList.
  destruct (JsSet_ofList_spec values (NoDup_nil string)) as [_ Hin].
  rewrite Hin. simpl. tauto.
Qed.

Lemma JsSet_ofList_NoDup (values : list string) : NoDup (JsSet.ofList values).
Proof.
  unfold JsSet.ofList. now destruct (JsSet_ofList_spec values (NoDup_nil string)).
Qed.

Lemma JsSet_ofList_id (s : list string) : NoDup s -> JsSet.ofList s = s.
Proof.
  unfold JsSet.ofList.
  enough (Hgen : forall start, NoDup (start ++ s)%list ->
                   fold_left JsSet.add s start = (start ++ s)%list).
  { intros Hnd. now rewrite (Hgen []). }
  induction s as [|x s IH]; intros start Hnd; simpl.
  - now rewrite app_nil_r.
  - unfold JsSet.add at 2.
    destruct (JsSet.has start x) eqn:E.
    + apply JsSet_has_true in E. apply NoDup_remove_2 in Hnd.
      exfalso. apply Hnd. apply in_or_app. now left.
    + unfold Js.push. rewrite IH; rewrite <- app_assoc; simpl; auto.
Qed.

(** ** The status-to-list mapping *)

Lemma find_exists (A : Type) (p : A -> bool) (l : list A) (x : A) :
  In x l -> p x = true -> exists y, find p l = Some y.
Proof.
  induction l as [|a l IH]; simpl; [tauto|].
  intros [->|Hin] Hp.
  - rewrite Hp. eauto.
  - destruct (p a); eauto.
Qed.

Section StatusMapping.
Variable host : Host.
Hypothesis consistent : Consistent host.
Variable lists : list BoardList.t.

Let opened (listName : string) : list BoardList.t :=
  filter (fun list => (BoardList.name list =? listName)
                      && negb (BoardList.closed list)) lists.
Let named (listName : string) : list BoardList.t :=
  filter (fun list => BoardList.name list =? listName) lists.
Let candidates (listName : string) : list BoardList.t :=
  if Nat.ltb 0 (List.length (opened listName)) then opened listName
  else named listName.

Lemma candidates_spec (listName : string) (list : BoardList.t) :
  In list (candidates listName) ->
  In list lists /\ BoardList.name list = listName
  /\ (opened listName <> [] -> BoardList.closed list = false).
Proof.
  unfold candidates. destruct (opened listName) as [|o rest] eqn:Eo.
  - simpl. unfold named. intros H. apply filter_In in H. destruct H as [Hin Hname].
    apply String.eqb_eq in Hname. repeat split; auto. congruence.
  - replace (Nat.ltb 0 (List.length (o :: rest))) with true by reflexivity.
    rewrite <- Eo. unfold opened. intros H. apply filter_In in H.
    destruct H as [Hin Hboth]. apply andb_true_iff in Hboth. destruct Hboth as [Hname Hopen].
    apply String.eqb_eq in Hname. apply negb_true_iff in Hopen. auto.
Qed.

Lemma mapStatus_other (acc : StatusMappingResult.t)
    (status status' : StoryStatus) (listName : string) :
  status <> status' ->
  JsMap.get (StatusMappingResult.statusToListId
               (mapStatus host lists acc (status, listName))) status'
  = JsMap.get (StatusMappingResult.statusToListId acc) status'.
Proof.
  intros Hne. unfold mapStatus.
  repeat match goal with
         | |- context [if ?c then _ else _] => destruct c
         | |- context [match ?c with Some _ => _ | None => _ end] => destruct c
         end; simpl; try reflexivity; now apply get_set_other.
Qed.

Lemma mapStatus_issues (acc : StatusMappingResult.t)
    (entry : StoryStatus * string) (issue : string) :
  In issue (StatusMappingResult.issues acc) ->
  In issue (StatusMappingResult.issues (mapStatus host lists acc entry)).
Proof.
  intros Hin. destruct entry as [status listName]. unfold mapStatus.
  repeat match goal with
         | |- context [if ?c then _ else _] => destruct c
         | |- context [match ?c with Some _ => _ | None => _ end] => destruct c
         end; simpl; auto; apply push_In; auto.
Qed.

Lemma mapStatus_this (acc : StatusMappingResult.t)
    (status : StoryStatus) (listName : string) :
  let result := mapStatus host lists acc (status, listName) in
  let chosen := JsMap.get (StatusMappingResult.statusToListId result) status in
  (named listName = [] ->
     chosen = JsMap.get (StatusMappingResult.statusToListId acc) status
     /\ In ("No Trello list found for status '" ++ statusText status
              ++ "' (" ++ listName ++ ")")
           (StatusMappingResult.issues result))
  /\ (named listName <> [] ->
        exists list,
          In list (candidates listName)
          /\ chosen = Some (BoardList.id list)
          /\ forall other, In other (candidates listName) ->
               precedes host (BoardList.id list) (BoardList.id other))
  /\ (1 < List.length (candidates listName) ->
        In ("Multiple Trello lists found for status '" ++ statusText status
              ++ "' (" ++ listName ++ ")")
           (StatusMappingResult.issues result)).
Proof.
  intros result chosen. subst result chosen. unfold mapStatus.
  fold (opened listName). fold (named listName). fold (candidates listName).
  assert (Hempty : candidates listName = [] <-> named listName = []).
  { unfold candidates. destruct (opened listName) as [|o rest] eqn:Eo; simpl.
    - tauto.
    - split; [discriminate|]. intros Hnamed. exfalso.
      assert (Hin : In o (opened listName)) by (rewrite Eo; now left).
      unfold opened in Hin. apply filter_In in Hin. destruct Hin as [Hin Hboth].
      apply andb_true_iff in Hboth. destruct Hboth as [Hname _].
      assert (Hin' : In o (named listName))
        by (unfold named; apply filter_In; auto).
      rewrite Hnamed in Hin'. exact Hin'. }
  destruct (candidates listName) as [|first more] eqn:Ec.
  - simpl. split; [|split].
    + intros _. split; [reflexivity | apply push_In; now right].
    + intros Hne. exfalso. apply Hne. now apply Hempty.
    + lia.
  - assert (Hne : named listName <> []).
    { intros Hnamed. apply Hempty in Hnamed. discriminate. }
    change (Nat.eqb (List.length (first :: more)) 0) with false. cbv iota.
    destruct (Js.head (sortStrings host (map BoardList.id (first :: more))))
      as [chosenId|] eqn:Ehead.
    2:{ exfalso. unfold sortStrings in Ehead.
        pose proof (sort_length (localeCompare host)
                      (map BoardList.id (first :: more))) as Hlen.
        destruct (Js.sort (localeCompare host) (map BoardList.id (first :: more)));
          simpl in *; [discriminate Hlen | discriminate Ehead]. }
    assert (Hin : In chosenId (map BoardList.id (first :: more))).
    { apply (sort_In (localeCompare host)). unfold sortStrings in Ehead.
      destruct (Js.sort (localeCompare host) (map BoardList.id (first :: more)));
        [discriminate|]. injection Ehead as ->. now left. }
    apply in_map_iff in Hin. destruct Hin as [witness [Hid Hwitness]].
    destruct (find_exists (fun list => BoardList.id list =? chosenId)
                (first :: more) witness Hwitness) as [list Hfind].
    { apply String.eqb_eq. exact Hid. }
    rewrite Hfind. apply find_some in Hfind. destruct Hfind as [Hlist Heq].
    apply String.eqb_eq in Heq.
    split; [intros Hnamed; contradiction | split].
    + intros _. exists list. split; [exact Hlist|]. split.
      * simpl. now rewrite get_set_same.
      * intros other Hother. rewrite Heq.
        destruct consistent as [Htotal Htrans].
        apply (sort_head_least (localeCompare host) Htotal Htrans
                 (map BoardList.id (first :: more)) Ehead).
        now apply in_map.
    + intros Hmany. cbn [StatusMappingResult.issues].
      destruct (Nat.ltb 1 (List.length (first :: more))) eqn:Elt.
      * apply push_In. now right.
      * apply Nat.ltb_ge in Elt. lia.
Qed.

Lemma createStatusMapping_issues_none (statusToList : StatusToList.t)
    (status : StoryStatus) (listName : string) :
  In (status, listName) (statusEntries statusToList) ->
  let result := createStatusMapping host lists statusToList in
  let chosen := JsMap.get (StatusMappingResult.statusToListId result) status in
  (named listName = [] ->
     chosen = None
     /\ In ("No Trello list found for status '" ++ statusText status
              ++ "' (" ++ listName ++ ")")
           (StatusMappingResult.issues result))
  /\ (named listName <> [] ->
        exists list,
          In list (candidates listName)
          /\ chosen = Some (BoardList.id list)
          /\ forall other, In other (candidates listName) ->
               precedes host (BoardList.id list) (BoardList.id other))
  /\ (1 < List.length (candidates listName) ->
        In ("Multiple Trello lists found for status '" ++ statusText status
              ++ "' (" ++ listName ++ ")")
           (StatusMappingResult.issues result)).
Proof.
  intros Hentry result chosen. subst result chosen.
  unfold createStatusMapping, statusEntries in *. cbn [fold_left].
  set (init := {| StatusMappingResult.statusToListId := JsMap.empty;
                  StatusMappingResult.listIdToStatus := JsMap.empty;
                  StatusMappingResult.issues := [] |}).
  destruct Hentry as [[= <- <-]|[[= <- <-]|[[= <- <-]|[]]]].
  - rewrite !mapStatus_other by discriminate.
    destruct (mapStatus_this init open (StatusToList.open statusToList))
      as [Hnone [Hsome Hmany]].
    split; [|split].
    + intros Hnamed. destruct (Hnone Hnamed) as [Hget Hissue]. split.
      * rewrite Hget. reflexivity.
      * do 2 apply mapStatus_issues. exact Hissue.
    + exact Hsome.
    + intros Hlen. do 2 apply mapStatus_issues. now apply Hmany.
  - rewrite !mapStatus_other by discriminate.
    destruct (mapStatus_this
                (mapStatus host lists init (open, StatusToList.open statusToList))
                in_progress (StatusToList.in_progress statusToList))
      as [Hnone [Hsome Hmany]].
    split; [|split].
    + intros Hnamed. destruct (Hnone Hnamed) as [Hget Hissue]. split.
      * rewrite Hget. rewrite mapStatus_other by discriminate. reflexivity.
      * apply mapStatus_issues. exact Hissue.
    + exact Hsome.
    + intros Hlen. apply mapStatus_issues. now apply Hmany.
  - destruct (mapStatus_this
                (mapStatus host lists
                   (mapStatus host lists init
                      (open, StatusToList.open statusToList))
                   (in_progress, StatusToList.in_progress statusToList))
                done (StatusToList.done statusToList))
      as [Hnone [Hsome Hmany]].
    split; [|split].
    + intros Hnamed. destruct (Hnone Hnamed) as [Hget Hissue]. split.
      * rewrite Hget. rewrite !mapStatus_other by discriminate. reflexivity.
      * exact Hissue.
    + exact Hsome.
    + exact Hmany.
Qed.
End StatusMapping.

(** ** The loop over the identifiers *)

Lemma fold_pushEntry_buckets (pushed : list PlanEntry) :
  forall plan,
    SyncPlan.creates (fold_left pushEntry pushed plan)
      = (SyncPlan.creates plan ++ pushedCreates pushed)%list
    /\ SyncPlan.updates (fold_left pushEntry pushed plan)
       = (SyncPlan.updates plan ++ pushedUpdates pushed)%list
    /\ SyncPlan.conflicts (fold_left pushEntry pushed plan)
       = (SyncPlan.conflicts plan ++ pushedConflicts pushed)%list
    /\ SyncPlan.noop (fold_left pushEntry pushed plan)
       = (SyncPlan.noop plan ++ pushedNoops pushed)%list.
Proof.
  induction pushed as [|e pushed IH]; intros plan; simpl.
  - now rewrite !app_nil_r.
  - destruct (IH (pushEntry plan e)) as [Hc [Hu [Hk Hn]]].
    rewrite Hc, Hu, Hk, Hn.
    destruct e; simpl; unfold Js.push; rewrite <- ?app_assoc; auto.
Qed.

Lemma pushedCreates_In (pushed : list PlanEntry) (c : SyncCreate.t) :
  In c (pushedCreates pushed) <-> In (PushCreate c) pushed.
Proof.
  unfold pushedCreates. rewrite in_flat_map. split.
  - intros [e [He Hin]]. destruct e; simpl in Hin; try tauto.
    destruct Hin as [->|[]]. exact He.
  - intros Hin. exists (PushCreate c). simpl. auto.
Qed.

Lemma pushedUpdates_In (pushed : list PlanEntry) (u : SyncUpdate.t) :
  In u (pushedUpdates pushed) <-> In (PushUpdate u) pushed.
Proof.
  unfold pushedUpdates. rewrite in_flat_map. split.
  - intros [e [He Hin]]. destruct e; simpl in Hin; try tauto.
    destruct Hin as [->|[]]. exact He.
  - intros Hin. exists (PushUpdate u). simpl. auto.
Qed.

Lemma pushedConflicts_In (pushed : list PlanEntry) (c : SyncConflict.t) :
  In c (pushedConflicts pushed) <-> In (PushConflict c) pushed.
Proof.
  unfold pushedConflicts. rewrite in_flat_map. split.
  - intros [e [He Hin]]. destruct e; simpl in Hin; try tauto.
    destruct Hin as [->|[]]. exact He.
  - intros Hin. exists (PushConflict c). simpl. auto.
Qed.

Lemma pushedNoops_In (pushed : list PlanEntry) (n : SyncNoop.t) :
  In n (pushedNoops pushed) <-> In (PushNoop n) pushed.
Proof.
  unfold pushedNoops. rewrite in_flat_map. split.
  - intros [e [He Hin]]. destruct e; simpl in Hin; try tauto.
    destruct Hin as [->|[]]. exact He.
  - intros Hin. exists (PushNoop n). simpl. auto.
Qed.

Section LoopFacts.
Variable host : Host.
Variable locals : PlanLocals.t.
Variable checklistByCardId : JsMap.t string (list BoardChecklist.t).

Lemma resolveBothChanged_entryId (id : string) (story : PrdStory.t)
    (record : CardRecord.t) (cardMapping : CardMappingResult.t)
    (storyMapping : StoryMappingResult.t) :
  entryId (resolveBothChanged host locals id story record cardMapping storyMapping)
  = Some id.
Proof.
  unfold resolveBothChanged.
  repeat match goal with
         | |- context [if ?c then _ else _] => destruct c
         end; reflexivity.
Qed.

Lemma classifyPair_entryId (id : string) (story : PrdStory.t)
    (record : CardRecord.t) (entry : PlanEntry) :
  classifyPair host locals checklistByCardId id story record = Ok entry ->
  entryId entry = Some id.
Proof.
  unfold classifyPair, bind.
  destruct (Js.isSome (PlanLocals.incrementalState locals)
            && (isStoryUnchanged locals story && isCardUnchanged locals record)).
  - intros [= <-]. reflexivity.
  - destruct (pairMappings host locals checklistByCardId story record)
      as [[[cardMapping storyMapping] shouldCreate]|]; [|discriminate].
    repeat match goal with
           | |- context [if ?c then _ else _] => destruct c
           | |- context [match PlanLocals.direction locals with _ => _ end] =>
               destruct (PlanLocals.direction locals)
           end; intros [= <-]; try reflexivity;
      apply resolveBothChanged_entryId.
Qed.

Lemma classifyStoryOnly_entryId (id : string) (story : PrdStory.t)
    (entry : PlanEntry) :
  classifyStoryOnly host locals id story = Ok entry -> entryId entry = Some id.
Proof.
  unfold classifyStoryOnly, bind.
  destruct (PlanLocals.direction locals);
    try (intros [= <-]; reflexivity);
    destruct (buildCardMapping _ _ _ _ _ _ _ _ _); try discriminate;
    match goal with
    | |- context [if ?c then _ else _] => destruct c
    end; intros [= <-]; reflexivity.
Qed.

Lemma classifyCardOnly_entryId (id : string) (record : CardRecord.t) :
  entryId (classifyCardOnly host locals checklistByCardId id record) = Some id.
Proof.
  unfold classifyCardOnly.
  destruct (PlanLocals.direction locals); try reflexivity;
    match goal with
    | |- context [if ?c then _ else _] => destruct c
    end; reflexivity.
Qed.

(** An entry pushed for an identifier is keyed by it, and nothing is
    pushed for a conflicted identifier. *)
Lemma loopBody_entryId (id : string) (entry : PlanEntry) :
  loopBody host locals checklistByCardId id = Ok (Some entry) ->
  entryId entry = Some id
  /\ JsSet.has (PlanLocals.conflictedIds locals) id = false.
Proof.
  unfold loopBody, bind.
  destruct (JsSet.has (PlanLocals.conflictedIds locals) id); [discriminate|].
  destruct (JsMap.get (PlanLocals.prdById locals) id) as [story|];
    destruct (JsMap.get (recordById locals) id) as [record|].
  - destruct (classifyPair host locals checklistByCardId id story record)
      eqn:E; [|discriminate].
    intros [= <-]. split; [|reflexivity]. now apply classifyPair_entryId in E.
  - destruct (classifyStoryOnly host locals id story) eqn:E; [|discriminate].
    intros [= <-]. split; [|reflexivity]. now apply classifyStoryOnly_entryId in E.
  - intros [= <-]. split; [|reflexivity]. apply classifyCardOnly_entryId.
  - discriminate.
Qed.

Lemma runLoop_throw (ids : list string) (e : Error) :
  fold_left
    (fun acc id =>
       let* plan := acc in
       let* entry := loopBody host locals checklistByCardId id in
       Ok (match entry with
           | Some entry => pushEntry plan entry
           | None => plan
           end))
    ids (Throw e) = Throw e.
Proof. induction ids as [|id ids IH]; simpl; auto. Qed.

Lemma runLoop_cons (id : string) (ids : list string) (plan : SyncPlan.t) :
  runLoop host locals checklistByCardId (id :: ids) plan
  = match loopBody host locals checklistByCardId id with
    | Ok (Some entry) =>
        runLoop host locals checklistByCardId ids (pushEntry plan entry)
    | Ok None => runLoop host locals checklistByCardId ids plan
    | Throw e => Throw e
    end.
Proof.
  unfold runLoop. simpl.
  destruct (loopBody host locals checklistByCardId id) as [[entry|]|e]; simpl;
    auto using runLoop_throw.
Qed.

(** The plan after the loop is the plan before it with the entries
    pushed for the identifiers, in their order. *)
Lemma runLoop_pushed (ids : list string) :
  forall plan plan',
    runLoop host locals checklistByCardId ids plan = Ok plan' ->
    exists pushed,
      plan' = fold_left pushEntry pushed plan
      /\ (forall entry, In entry pushed ->
            exists id, In id ids
                       /\ loopBody host locals checklistByCardId id
                          = Ok (Some entry))
      /\ (forall id entry,
            In id ids ->
            loopBody host locals checklistByCardId id = Ok (Some entry) ->
            In entry pushed).
Proof.
  induction ids as [|id ids IH]; intros plan plan'.
  - intros [= <-]. exists []. simpl. repeat split; intros; tauto || firstorder.
  - rewrite runLoop_cons.
    destruct (loopBody host locals checklistByCardId id) as [[entry|]|e] eqn:E;
      [| |discriminate]; intros Hrun; apply IH in Hrun;
      destruct Hrun as [pushed [Hplan [Hfrom Hto]]].
    + exists (entry :: pushed). simpl. split; [exact Hplan|]. split.
      * intros e [<-|Hin]; [exists id; auto|].
        destruct (Hfrom e Hin) as [id' [Hid' Hbody]]. exists id'. auto.
      * intros id' e [<-|Hin] Hbody.
        -- left. congruence.
        -- right. eauto.
    + exists pushed. split; [exact Hplan|]. split.
      * intros e Hin. destruct (Hfrom e Hin) as [id' [Hid' Hbody]].
        exists id'. simpl. auto.
      * intros id' e [<-|Hin] Hbody; [congruence | eauto].
Qed.
End LoopFacts.

(** Sorting a plan rearranges each bucket. *)
Lemma sortPlan_perm (host : Host) (plan : SyncPlan.t) :
  Permutation (SyncPlan.creates (sortPlan host plan)) (SyncPlan.creates plan)
  /\ Permutation (SyncPlan.updates (sortPlan host plan)) (SyncPlan.updates plan)
  /\ Permutation (SyncPlan.conflicts (sortPlan host plan)) (SyncPlan.conflicts plan)
  /\ Permutation (SyncPlan.noop (sortPlan host plan)) (SyncPlan.noop plan).
Proof. unfold sortPlan; simpl. repeat split; apply sort_perm. Qed.

(** ** The tables [buildPlan] prepares *)

Lemma find_app (A : Type) (p : A -> bool) (l1 l2 : list A) :
  find p (l1 ++ l2)%list
  = match find p l1 with Some x => Some x | None => find p l2 end.
Proof.
  induction l1 as [|a l1 IH]; simpl; [reflexivity|]. destruct (p a); auto.
Qed.

Lemma find_None_filter (A : Type) (p : A -> bool) (l : list A) :
  find p l = None <-> filter p l = [].
Proof.
  induction l as [|a l IH]; simpl; [tauto|].
  destruct (p a); [split; discriminate | exact IH].
Qed.

Lemma filter_length_app (A : Type) (p : A -> bool) (l1 l2 : list A) :
  List.length (filter p (l1 ++ l2)%list)
  = List.length (filter p l1) + List.length (filter p l2).
Proof. now rewrite filter_app, length_app. Qed.

Section StoryIndex.
Variable host : Host.

Let Inv (pre : list PrdStory.t)
    (acc : JsMap.t string PrdStory.t * JsMap.t string string * JsSet.t) : Prop :=
  let '(prdById, storyFingerprints, duplicateStoryIds) := acc in
  (forall id, JsMap.get prdById id = find (hasId id) pre)
  /\ NoDup (JsMap.keys prdById)
  /\ (forall id, JsMap.get storyFingerprints id
                 = option_map (createStoryFingerprint host)
                     (find (hasId id) (List.rev pre)))
  /\ NoDup duplicateStoryIds
  /\ (forall id, In id duplicateStoryIds
                 <-> 1 < List.length (filter (hasId id) pre)).

Lemma indexStory_step (pre : list PrdStory.t)
    (acc : JsMap.t string PrdStory.t * JsMap.t string string * JsSet.t)
    (story : PrdStory.t) :
  Inv pre acc -> Inv (pre ++ [story]) (indexStory host acc story).
Proof.
  destruct acc as [[prdById fps] dups]. unfold Inv, indexStory.
  intros [Hget [Hkeys [Hfps [Hnd Hdups]]]].
  assert (Hfp : forall id,
             JsMap.get (JsMap.set fps (PrdStory.id story)
                          (createStoryFingerprint host story)) id
             = option_map (createStoryFingerprint host)
                 (find (hasId id) (List.rev (pre ++ [story])))).
  { intros id. rewrite rev_app_distr. simpl. unfold hasId at 1.
    destruct (PrdStory.id story =? id) eqn:E.
    - apply String.eqb_eq in E. subst id. now rewrite get_set_same.
    - apply String.eqb_neq in E. rewrite get_set_other by exact E. apply Hfps. }
  assert (Hcount : forall id,
             List.length (filter (hasId id) (pre ++ [story]))
             = List.length (filter (hasId id) pre)
               + (if PrdStory.id story =? id then 1 else 0)).
  { intros id. rewrite filter_length_app. simpl. unfold hasId at 2.
    destruct (PrdStory.id story =? id); reflexivity. }
  destruct (JsMap.has prdById (PrdStory.id story)) eqn:Ehas.
  - assert (Hfound : find (hasId (PrdStory.id story)) pre <> None).
    { rewrite <- Hget. unfold JsMap.has in Ehas.
      destruct (JsMap.get prdById (PrdStory.id story)); [discriminate|discriminate]. }
    split; [|split; [exact Hkeys | split; [exact Hfp | split]]].
    + intros id. rewrite find_app, Hget.
      destruct (find (hasId id) pre) eqn:Ef; [reflexivity|].
      simpl. unfold hasId at 1. destruct (PrdStory.id story =? id) eqn:E; auto.
      apply String.eqb_eq in E. subst id. contradiction.
    + now apply JsSet_add_NoDup.
    + intros id. rewrite JsSet_add_In, Hdups, Hcount.
      destruct (PrdStory.id story =? id) eqn:E.
      * apply String.eqb_eq in E. subst id.
        assert (filter (hasId (PrdStory.id story)) pre <> []).
        { intros Hnil. apply find_None_filter in Hnil. contradiction. }
        destruct (filter (hasId (PrdStory.id story)) pre); [contradiction|].
        simpl. split; [lia | auto].
      * apply String.eqb_neq in E. split; [intros [Hin|Heq]|intros Hlt].
        -- lia.
        -- congruence.
        -- left. lia.
  - assert (Hnone : find (hasId (PrdStory.id story)) pre = None).
    { rewrite <- Hget. unfold JsMap.has in Ehas.
      destruct (JsMap.get prdById (PrdStory.id story)); [discriminate|reflexivity]. }
    split; [|split; [now apply keys_set_NoDup | split; [exact Hfp | split]]].
    + intros id. rewrite find_app. simpl. unfold hasId at 2.
      destruct (PrdStory.id story =? id) eqn:E.
      * apply String.eqb_eq in E. subst id. now rewrite get_set_same, Hnone.
      * apply String.eqb_neq in E. rewrite get_set_other by exact E.
        rewrite Hget. now destruct (find (hasId id) pre).
    + exact Hnd.
    + intros id. rewrite Hdups, Hcount.
      destruct (PrdStory.id story =? id) eqn:E; [|split; lia].
      apply String.eqb_eq in E. subst id.
      apply find_None_filter in Hnone. rewrite Hnone. simpl. lia.
Qed.

Lemma indexStories_from (stories : list PrdStory.t) :
  forall pre acc,
    Inv pre acc -> Inv (pre ++ stories) (fold_left (indexStory host) stories acc).
Proof.
  induction stories as [|story stories IH]; intros pre acc Hinv; simpl.
  - now rewrite app_nil_r.
  - replace (pre ++ story :: stories)%list with ((pre ++ [story]) ++ stories)%list
      by (rewrite <- app_assoc; reflexivity).
    apply IH. now apply indexStory_step.
Qed.

(** [prdById] holds the first story of each identifier,
    [storyFingerprints] the fingerprint of the last one, and
    [duplicateStoryIds] the identifiers of several stories. *)
Lemma indexStories_spec (stories : list PrdStory.t) :
  let '(prdById, storyFingerprints, duplicateStoryIds) :=
    indexStories host stories in
  (forall id, JsMap.get prdById id = find (hasId id) stories)
  /\ NoDup (JsMap.keys prdById)
  /\ (forall id, JsMap.get storyFingerprints id
                 = option_map (createStoryFingerprint host)
                     (find (hasId id) (List.rev stories)))
  /\ NoDup duplicateStoryIds
  /\ (forall id, In id duplicateStoryIds
                 <-> 1 < List.length (filter (hasId id) stories)).
Proof.
  unfold indexStories.
  apply (indexStories_from stories [] (JsMap.empty, JsMap.empty, [])).
  unfold Inv. simpl. repeat split; try constructor; try tauto; simpl; lia.
Qed.
End StoryIndex.

Lemma parseCards_from (codec : StoryId.StoryIdCodec) (cards : list BoardCard.t) :
  forall records conflicts,
    fold_left (parseCard codec) cards (records, conflicts)
    = ((records ++ flat_map (recordOfCard codec) cards)%list,
       (conflicts ++ flat_map (conflictOfCard codec) cards)%list).
Proof.
  induction cards as [|card cards IH]; intros records conflicts.
  - simpl. now rewrite !app_nil_r.
  - cbn [fold_left flat_map].
    assert (Hstep : parseCard codec (records, conflicts) card
                    = ((records ++ recordOfCard codec card)%list,
                       (conflicts ++ conflictOfCard codec card)%list)).
    { unfold parseCard, recordOfCard, conflictOfCard.
      destruct (StoryId.parseCardTitle codec (BoardCard.name card));
        unfold Js.push; rewrite ?app_nil_r; reflexivity. }
    rewrite Hstep, IH, <- !app_assoc. reflexivity.
Qed.

Lemma recordOfCard_count (codec : StoryId.StoryIdCodec) (id : string)
    (cards : list BoardCard.t) :
  List.length (filter (recordOf id) (flat_map (recordOfCard codec) cards))
  = List.length (filter (parsesTo codec id) cards).
Proof.
  induction cards as [|card cards IH]; simpl; [reflexivity|].
  rewrite filter_length_app, IH. unfold recordOfCard, parsesTo at 2.
  destruct (StoryId.parseCardTitle codec (BoardCard.name card)); simpl; auto.
  unfold recordOf at 1. simpl. destruct (id0 =? id); reflexivity.
Qed.

Section CardGroups.
Let Inv (pre : list CardRecord.t)
    (byId : JsMap.t string (list CardRecord.t)) : Prop :=
  NoDup (JsMap.keys byId)
  /\ forall id, JsMap.get byId id
                = match filter (recordOf id) pre with
                  | [] => None
                  | bucket => Some bucket
                  end.

Lemma groupCardRecord_step (pre : list CardRecord.t)
    (byId : JsMap.t string (list CardRecord.t)) (record : CardRecord.t) :
  Inv pre byId -> Inv (pre ++ [record]) (groupCardRecord byId record).
Proof.
  intros [Hkeys Hget]. unfold groupCardRecord. split.
  - now apply keys_set_NoDup.
  - intros id. rewrite filter_app. simpl. unfold recordOf at 2.
    destruct (CardRecord.storyId record =? id) eqn:E.
    + apply String.eqb_eq in E. subst id. rewrite get_set_same, Hget.
      unfold Js.push.
      destruct (filter (recordOf (CardRecord.storyId record)) pre); reflexivity.
    + apply String.eqb_neq in E. rewrite get_set_other by exact E.
      rewrite app_nil_r. apply Hget.
Qed.

Lemma groupCardRecords_from (records : list CardRecord.t) :
  forall pre byId,
    Inv pre byId -> Inv (pre ++ records) (fold_left groupCardRecord records byId).
Proof.
  induction records as [|record records IH]; intros pre byId Hinv; simpl.
  - now rewrite app_nil_r.
  - replace (pre ++ record :: records)%list
      with ((pre ++ [record]) ++ records)%list
      by (rewrite <- app_assoc; reflexivity).
    apply IH. now apply groupCardRecord_step.
Qed.

(** The bucket of an identifier holds its records, in their order. *)
Lemma groupCardRecords_spec (records : list CardRecord.t) :
  NoDup (JsMap.keys (groupCardRecords records))
  /\ forall id, JsMap.get (groupCardRecords records) id
                = match filter (recordOf id) records with
                  | [] => None
                  | bucket => Some bucket
                  end.
Proof.
  apply (@groupCardRecords_from records [] JsMap.empty).
  split; [constructor | reflexivity].
Qed.
End CardGroups.

Lemma splitBucket_from (entries : list (string * list CardRecord.t)) :
  forall conflictedIds uniqueCardRecords conflicts,
    fold_left splitBucket entries (conflictedIds, uniqueCardRecords, conflicts)
    = (fold_left JsSet.add (map fst (filter crowded entries)) conflictedIds,
       (uniqueCardRecords
          ++ flat_map (fun entry => if crowded entry then [] else firstn 1 (snd entry))
               entries)%list,
       (conflicts ++ map duplicateCardConflict (filter crowded entries))%list).
Proof.
  induction entries as [|[id records] entries IH];
    intros conflictedIds uniqueCardRecords conflicts.
  - simpl. now rewrite !app_nil_r.
  - cbn [fold_left filter flat_map].
    destruct (crowded (id, records)) eqn:Ecrowded.
    + assert (Hstep : splitBucket (conflictedIds, uniqueCardRecords, conflicts)
                        (id, records)
                      = (JsSet.add conflictedIds id, uniqueCardRecords,
                         Js.push conflicts (duplicateCardConflict (id, records)))).
      { unfold splitBucket. unfold crowded in Ecrowded. simpl in Ecrowded.
        rewrite Ecrowded. reflexivity. }
      rewrite Hstep, IH. cbn [map fst fold_left app].
      unfold Js.push. rewrite <- !app_assoc. reflexivity.
    + assert (Hstep : splitBucket (conflictedIds, uniqueCardRecords, conflicts)
                        (id, records)
                      = (conflictedIds,
                         (uniqueCardRecords ++ firstn 1 records)%list, conflicts)).
      { unfold splitBucket. unfold crowded in Ecrowded. simpl in Ecrowded.
        rewrite Ecrowded. destruct records; simpl.
        - now rewrite app_nil_r.
        - reflexivity. }
      rewrite Hstep, IH. cbn [snd]. rewrite <- !app_assoc. reflexivity.
Qed.

Lemma find_head_filter (A : Type) (p : A -> bool) (l : list A) :
  find p l = Js.head (filter p l).
Proof.
  induction l as [|a l IH]; simpl; [reflexivity|]. destruct (p a); auto.
Qed.

Lemma find_rev_single (A : Type) (p : A -> bool) (l : list A) :
  List.length (filter p l) <= 1 -> find p (List.rev l) = find p l.
Proof.
  intros Hlen. rewrite !find_head_filter, filter_rev.
  destruct (filter p l) as [|x [|y rest]]; simpl in *; try reflexivity. lia.
Qed.

Lemma count_NoDup (l : list string) (id : string) :
  NoDup l ->
  List.length (filter (fun x => x =? id) l) = if JsSet.has l id then 1 else 0.
Proof.
  induction 1 as [|x l Hnotin Hnd IH]; simpl; [reflexivity|].
  unfold JsSet.has in *. simpl. rewrite (String.eqb_sym id x).
  destruct (x =? id) eqn:E; simpl.
  - apply String.eqb_eq in E. subst x. rewrite IH.
    destruct (existsb (String.eqb id) l) eqn:Ex; [|reflexivity].
    apply existsb_exists in Ex. destruct Ex as [y [Hy Ey]].
    apply String.eqb_eq in Ey. subst y. contradiction.
  - exact IH.
Qed.

Section PrepareFacts.
Variable host : Host.
Variable options : SyncPlanOptions.t.
Variable codec : StoryId.StoryIdCodec.
Variable prdResult : FormatReadResult.t.
Variable lists : list BoardList.t.
Variable cards : list BoardCard.t.
Variable labels : list BoardLabel.t.

Let locals : PlanLocals.t :=
  prepare host options codec prdResult lists cards labels.

Lemma prepare_fields :
  PlanLocals.statusMapping locals
    = createStatusMapping host lists
        (Mapping.statusToList (SyncPlanOptions.mapping options))
  /\ (PlanLocals.prdById locals, PlanLocals.storyFingerprints locals,
      PlanLocals.duplicateStoryIds locals)
     = indexStories host (FormatReadResult.stories prdResult)
  /\ PlanLocals.cardRecords locals = flat_map (recordOfCard codec) cards
  /\ PlanLocals.cardRecordsById locals
     = groupCardRecords (PlanLocals.cardRecords locals)
  /\ PlanLocals.conflictedIds locals
     = fold_left JsSet.add
         (map fst (filter crowded (PlanLocals.cardRecordsById locals)))
         (JsSet.ofList (PlanLocals.duplicateStoryIds locals))
  /\ PlanLocals.uniqueCardRecords locals
     = flat_map (fun entry => if crowded entry then [] else firstn 1 (snd entry))
         (PlanLocals.cardRecordsById locals)
  /\ PlanLocals.conflicts locals
     = (map (fun issue => conflictOf None issue None None)
          (StatusMappingResult.issues (PlanLocals.statusMapping locals))
        ++ map duplicateStoryConflict (PlanLocals.duplicateStoryIds locals)
        ++ flat_map (conflictOfCard codec) cards
        ++ map duplicateCardConflict
             (filter crowded (PlanLocals.cardRecordsById locals)))%list.
Proof.
  subst locals. unfold prepare.
  destruct (indexStories host (FormatReadResult.stories prdResult))
    as [[prdById fingerprints] duplicates].
  unfold parseCards, splitDuplicateCards.
  rewrite parseCards_from, splitBucket_from. cbn [app].
  cbn [PlanLocals.statusMapping PlanLocals.prdById PlanLocals.storyFingerprints
       PlanLocals.duplicateStoryIds PlanLocals.cardRecords
       PlanLocals.cardRecordsById PlanLocals.conflictedIds
       PlanLocals.uniqueCardRecords PlanLocals.conflicts].
  repeat split. rewrite <- !app_assoc. reflexivity.
Qed.

Lemma prepare_stories :
  (forall id, JsMap.get (PlanLocals.prdById locals) id
              = find (hasId id) (FormatReadResult.stories prdResult))
  /\ NoDup (JsMap.keys (PlanLocals.prdById locals))
  /\ (forall id, JsMap.get (PlanLocals.storyFingerprints locals) id
                 = option_map (createStoryFingerprint host)
                     (find (hasId id)
                        (List.rev (FormatReadResult.stories prdResult))))
  /\ NoDup (PlanLocals.duplicateStoryIds locals)
  /\ (forall id, In id (PlanLocals.duplicateStoryIds locals)
                 <-> 1 < List.length (filter (hasId id)
                                        (FormatReadResult.stories prdResult))).
Proof.
  destruct prepare_fields as [_ [Hindex _]].
  pose proof (indexStories_spec host (FormatReadResult.stories prdResult)) as Hspec.
  rewrite <- Hindex in Hspec. exact Hspec.
Qed.

Lemma prepare_buckets :
  NoDup (JsMap.keys (PlanLocals.cardRecordsById locals))
  /\ forall id, JsMap.get (PlanLocals.cardRecordsById locals) id
                = match filter (recordOf id) (flat_map (recordOfCard codec) cards) with
                  | [] => None
                  | bucket => Some bucket
                  end.
Proof.
  destruct prepare_fields as [_ [_ [Hrecords [Hgroups _]]]].
  rewrite Hgroups, Hrecords. apply groupCardRecords_spec.
Qed.

(** An identifier is crowded when several cards parse to it. *)
Lemma crowded_iff (id : string) :
  (exists records, In (id, records) (PlanLocals.cardRecordsById locals)
                   /\ crowded (id, records) = true)
  <-> 1 < List.length (filter (parsesTo codec id) cards).
Proof.
  destruct prepare_buckets as [Hkeys Hget].
  rewrite <- recordOfCard_count. split.
  - intros [records [Hin Hcrowded]].
    apply (In_get _ _ _ Hkeys) in Hin. rewrite Hget in Hin.
    unfold crowded in Hcrowded. simpl in Hcrowded.
    apply Nat.ltb_lt in Hcrowded.
    destruct (filter (recordOf id) (flat_map (recordOfCard codec) cards));
      [discriminate|]. injection Hin as <-. exact Hcrowded.
  - intros Hlen. specialize (Hget id).
    destruct (filter (recordOf id) (flat_map (recordOfCard codec) cards))
      as [|first rest] eqn:Ef; [simpl in Hlen; lia|].
    exists (first :: rest). split; [now apply get_Some_In|].
    unfold crowded. simpl snd. now apply Nat.ltb_lt.
Qed.

Lemma conflictedIds_iff (id : string) :
  In id (PlanLocals.conflictedIds locals)
  <-> 1 < List.length (filter (hasId id) (FormatReadResult.stories prdResult))
      \/ 1 < List.length (filter (parsesTo codec id) cards).
Proof.
  destruct prepare_fields as [_ [_ [_ [_ [Hconflicted _]]]]].
  destruct prepare_stories as [_ [_ [_ [Hnd Hdups]]]].
  rewrite Hconflicted.
  destruct (JsSet_ofList_spec
              (map fst (filter crowded (PlanLocals.cardRecordsById locals)))
              (JsSet_ofList_NoDup (PlanLocals.duplicateStoryIds locals)))
    as [_ Hin].
  rewrite Hin, JsSet_ofList_In, Hdups, <- crowded_iff.
  apply or_iff_compat_l. rewrite in_map_iff. split.
  - intros [[id' records] [Hfst Hentry]]. simpl in Hfst. subst id'.
    apply filter_In in Hentry. exists records. exact Hentry.
  - intros [records Hentry]. exists (id, records). split; [reflexivity|].
    now apply filter_In.
Qed.
End PrepareFacts.

(** Keeping some of the items keeps their keys distinct. *)
Lemma filter_keeps_distinct_keys (A : Type) (key : A -> string)
    (keep : A -> bool) (items : list A) :
  NoDup (map key items) -> NoDup (map key (filter keep items)).
Proof.
  induction items as [|item items IH]; intros Hdistinct; [exact Hdistinct|].
  cbn [map filter] in *. apply NoDup_cons_iff in Hdistinct.
  destruct Hdistinct as [Hfresh Hrest]. specialize (IH Hrest).
  destruct (keep item); [|exact IH].
  cbn [map]. apply NoDup_cons; [|exact IH].
  intros Hin. apply Hfresh. apply in_map_iff in Hin.
  destruct Hin as [other [Hkey Hother]]. apply filter_In in Hother.
  apply in_map_iff. exists other. tauto.
Qed.

Lemma count_by_key (A : Type) (f : A -> string) (id : string) (l : list A) :
  NoDup (map f l) ->
  List.length (filter (fun x => f x =? id) l)
  = if existsb (fun x => f x =? id) l then 1 else 0.
Proof.
  induction l as [|a l IH]; simpl; [reflexivity|].
  intros Hnd. inversion Hnd as [|? ? Hnotin Hnd']; subst.
  destruct (f a =? id) eqn:E; simpl.
  - apply String.eqb_eq in E. rewrite (IH Hnd').
    destruct (existsb (fun x => f x =? id) l) eqn:Ex; [|reflexivity].
    apply existsb_exists in Ex. destruct Ex as [x [Hx Ex]].
    apply String.eqb_eq in Ex. exfalso. apply Hnotin.
    apply in_map_iff. exists x. split; [congruence | exact Hx].
  - auto.
Qed.

Lemma filter_none (A : Type) (p : A -> bool) (l : list A) :
  (forall x, In x l -> p x = false) -> filter p l = [].
Proof.
  induction l as [|a l IH]; simpl; [reflexivity|]. intros Hall.
  rewrite (Hall a) by now left. apply IH. auto.
Qed.

Lemma conflictOfCard_unkeyed (codec : StoryId.StoryIdCodec)
    (cards : list BoardCard.t) (c : SyncConflict.t) :
  In c (flat_map (conflictOfCard codec) cards) -> SyncConflict.id c = None.
Proof.
  rewrite in_flat_map. intros [card [_ Hin]]. unfold conflictOfCard in Hin.
  destruct (StoryId.parseCardTitle codec (BoardCard.name card));
    simpl in Hin; [contradiction| |]; destruct Hin as [<-|[]]; reflexivity.
Qed.

Section ConflictCounts.
Variable host : Host.
Variable options : SyncPlanOptions.t.
Variable codec : StoryId.StoryIdCodec.
Variable prdResult : FormatReadResult.t.
Variable lists : list BoardList.t.
Variable cards : list BoardCard.t.
Variable labels : list BoardLabel.t.

Let locals : PlanLocals.t :=
  prepare host options codec prdResult lists cards labels.

Let duplicatedStory (id : string) : Prop :=
  1 < List.length (filter (hasId id) (FormatReadResult.stories prdResult)).
Let duplicatedCard (id : string) : Prop :=
  1 < List.length (filter (parsesTo codec id) cards).

(** The conflicts a duplicated identifier has before the loop: one for
    the stories, one for the cards, and nothing else is keyed by an
    identifier then. *)
Lemma prepared_conflicts (id : string) :
  (duplicatedStory id ->
     List.length (filter (keyedFor id "Duplicate story ID in PRD stories")
                    (PlanLocals.conflicts locals)) = 1)
  /\ (duplicatedCard id ->
        List.length (filter (keyedFor id "Duplicate story ID across Trello cards")
                       (PlanLocals.conflicts locals)) = 1)
  /\ (forall c, In c (PlanLocals.conflicts locals) ->
        keyedBy id c = true ->
        (SyncConflict.reason c = "Duplicate story ID in PRD stories"
         /\ duplicatedStory id)
        \/ (SyncConflict.reason c = "Duplicate story ID across Trello cards"
            /\ duplicatedCard id)).
Proof.
  destruct (prepare_fields host options codec prdResult lists cards labels)
    as [_ [_ [_ [_ [_ [_ Hconflicts]]]]]].
  destruct (prepare_stories host options codec prdResult lists cards labels)
    as [_ [_ [_ [Hnd Hdups]]]].
  destruct (prepare_buckets host options codec prdResult lists cards labels)
    as [Hkeys _].
  fold locals in Hconflicts, Hnd, Hdups, Hkeys. rewrite Hconflicts.
  set (statusConflicts :=
         map (fun issue => conflictOf None issue None None)
           (StatusMappingResult.issues (PlanLocals.statusMapping locals))).
  set (cardConflicts := flat_map (conflictOfCard codec) cards).
  assert (Hstatus : forall p, (forall c, SyncConflict.id c = None -> p c = false) ->
                      filter p statusConflicts = []).
  { intros p Hp. apply filter_none. intros c Hin. apply Hp.
    unfold statusConflicts in Hin. apply in_map_iff in Hin.
    destruct Hin as [issue [<- _]]. reflexivity. }
  assert (Hcards : forall p, (forall c, SyncConflict.id c = None -> p c = false) ->
                     filter p cardConflicts = []).
  { intros p Hp. apply filter_none. intros c Hin. apply Hp.
    now apply conflictOfCard_unkeyed in Hin. }
  assert (Hunkeyed : forall reason c,
             SyncConflict.id c = None -> keyedFor id reason c = false).
  { intros reason c Hnone. unfold keyedFor, keyedBy. now rewrite Hnone. }
  split; [|split].
  - intros Hdup. rewrite !filter_app, !length_app.
    rewrite (Hstatus _ (Hunkeyed _)), (Hcards _ (Hunkeyed _)). simpl.
    rewrite (filter_none (keyedFor id "Duplicate story ID in PRD stories")
               (map duplicateCardConflict
                  (filter crowded (PlanLocals.cardRecordsById locals)))).
    2:{ intros c Hin. apply in_map_iff in Hin. destruct Hin as [entry [<- _]].
        unfold keyedFor. simpl. apply andb_false_r. }
    simpl. rewrite Nat.add_0_r.
    assert (Hcount : List.length
                       (filter (keyedFor id "Duplicate story ID in PRD stories")
                          (map duplicateStoryConflict
                             (PlanLocals.duplicateStoryIds locals)))
                     = List.length (filter (fun x => x =? id)
                                      (PlanLocals.duplicateStoryIds locals))).
    { generalize (PlanLocals.duplicateStoryIds locals). intros l.
      induction l as [|x l IH]; simpl; [reflexivity|].
      unfold keyedFor at 1, keyedBy. simpl.
      destruct (x =? id); simpl; auto. }
    rewrite Hcount, (count_NoDup id Hnd).
    apply Hdups in Hdup. apply JsSet_has_true in Hdup. now rewrite Hdup.
  - intros Hdup. rewrite !filter_app, !length_app.
    rewrite (Hstatus _ (Hunkeyed _)), (Hcards _ (Hunkeyed _)). simpl.
    rewrite (filter_none (keyedFor id "Duplicate story ID across Trello cards")
               (map duplicateStoryConflict (PlanLocals.duplicateStoryIds locals))).
    2:{ intros c Hin. apply in_map_iff in Hin. destruct Hin as [x [<- _]].
        unfold keyedFor. simpl. apply andb_false_r. }
    simpl.
    assert (Hcount : List.length
                       (filter (keyedFor id "Duplicate story ID across Trello cards")
                          (map duplicateCardConflict
                             (filter crowded (PlanLocals.cardRecordsById locals))))
                     = List.length
                         (filter (fun entry => fst entry =? id)
                            (filter crowded (PlanLocals.cardRecordsById locals)))).
    { generalize (filter crowded (PlanLocals.cardRecordsById locals)). intros l.
      induction l as [|x l IH]; simpl; [reflexivity|].
      unfold keyedFor at 1, keyedBy. simpl.
      destruct (fst x =? id); simpl; auto. }
    rewrite Hcount, count_by_key by (apply filter_keeps_distinct_keys; exact Hkeys).
    apply (crowded_iff host options codec prdResult lists cards labels) in Hdup.
    destruct Hdup as [records [Hin Hcrowded]]. fold locals in Hin.
    assert (Hex : existsb (fun entry => fst entry =? id)
                    (filter crowded (PlanLocals.cardRecordsById locals)) = true).
    { apply existsb_exists. exists (id, records). split.
      - now apply filter_In.
      - apply String.eqb_refl. }
    now rewrite Hex.
  - intros c Hin Hkeyed. rewrite !in_app_iff in Hin.
    unfold keyedBy in Hkeyed.
    destruct Hin as [Hin|[Hin|[Hin|Hin]]].
    + unfold statusConflicts in Hin. apply in_map_iff in Hin.
      destruct Hin as [issue [<- _]]. discriminate.
    + apply in_map_iff in Hin. destruct Hin as [x [<- Hx]].
      simpl in Hkeyed. apply String.eqb_eq in Hkeyed. subst x.
      left. split; [reflexivity | now apply Hdups].
    + apply conflictOfCard_unkeyed in Hin. rewrite Hin in Hkeyed. discriminate.
    + apply in_map_iff in Hin. destruct Hin as [[id' records] [<- Hentry]].
      simpl in Hkeyed. apply String.eqb_eq in Hkeyed. subst id'.
      right. split; [reflexivity|].
      apply (crowded_iff host options codec prdResult lists cards labels).
      exists records. now apply filter_In in Hentry.
Qed.
End ConflictCounts.

(** ** A story and its card *)

Lemma recordOf_flat_map (codec : StoryId.StoryIdCodec) (id : string)
    (cards : list BoardCard.t) :
  filter (recordOf id) (flat_map (recordOfCard codec) cards)
  = flat_map (recordOfCard codec) (filter (parsesTo codec id) cards).
Proof.
  induction cards as [|card cards IH]; simpl; [reflexivity|].
  rewrite filter_app, IH. unfold parsesTo at 2, recordOfCard at 1 3.
  destruct (StoryId.parseCardTitle codec (BoardCard.name card)) eqn:E; simpl;
    try reflexivity.
  unfold recordOf at 1. simpl. destruct (id0 =? id); simpl.
  - unfold recordOfCard. now rewrite E.
  - reflexivity.
Qed.

Lemma recordById_fold (records : list CardRecord.t) :
  forall (m : JsMap.t string CardRecord.t) (id : string),
    JsMap.get
      (fold_left (fun m record => JsMap.set m (CardRecord.storyId record) record)
         records m) id
    = match find (recordOf id) (List.rev records) with
      | Some record => Some record
      | None => JsMap.get m id
      end.
Proof.
  induction records as [|record records IH]; intros m id; simpl; [reflexivity|].
  rewrite IH, find_app. simpl.
  destruct (find (recordOf id) (List.rev records)); [reflexivity|].
  unfold recordOf. destruct (CardRecord.storyId record =? id) eqn:E.
  - apply String.eqb_eq in E. subst id. apply get_set_same.
  - apply String.eqb_neq in E. now apply get_set_other.
Qed.

Section Pairs.
Variable host : Host.
Variable options : SyncPlanOptions.t.
Variable codec : StoryId.StoryIdCodec.
Variable prdResult : FormatReadResult.t.
Variable lists : list BoardList.t.
Variable cards : list BoardCard.t.
Variable labels : list BoardLabel.t.

Let locals : PlanLocals.t :=
  prepare host options codec prdResult lists cards labels.

Variable id : string.
Variable story : PrdStory.t.
Variable card : BoardCard.t.
Variable title : string.

Hypothesis one_story :
  filter (hasId id) (FormatReadResult.stories prdResult) = [story].
Hypothesis one_card : filter (parsesTo codec id) cards = [card].
Hypothesis card_title :
  StoryId.parseCardTitle codec (BoardCard.name card) = StoryId.ParseOk id title.

Let record : CardRecord.t :=
  {| CardRecord.card := card; CardRecord.storyId := id;
     CardRecord.storyTitle := title |}.

Lemma pair_not_conflicted :
  JsSet.has (PlanLocals.conflictedIds locals) id = false.
Proof.
  destruct (JsSet.has (PlanLocals.conflictedIds locals) id) eqn:E; [|reflexivity].
  apply JsSet_has_true in E. apply conflictedIds_iff in E.
  rewrite one_story, one_card in E. simpl in E. lia.
Qed.

Lemma pair_story :
  JsMap.get (PlanLocals.prdById locals) id = Some story
  /\ PrdStory.id story = id
  /\ JsMap.get (PlanLocals.storyFingerprints locals) id
     = Some (createStoryFingerprint host story).
Proof.
  destruct (prepare_stories host options codec prdResult lists cards labels)
    as [Hget [_ [Hfps _]]]. fold locals in Hget, Hfps.
  assert (Hfind : find (hasId id) (FormatReadResult.stories prdResult) = Some story)
    by (rewrite find_head_filter, one_story; reflexivity).
  split; [now rewrite Hget|]. split.
  - apply find_some in Hfind. destruct Hfind as [_ H]. now apply String.eqb_eq in H.
  - rewrite Hfps, find_rev_single, Hfind; [reflexivity|].
    rewrite one_story. simpl. lia.
Qed.

Lemma pair_bucket :
  filter (recordOf id) (flat_map (recordOfCard codec) cards) = [record].
Proof.
  rewrite recordOf_flat_map, one_card. simpl. unfold recordOfCard.
  rewrite card_title. reflexivity.
Qed.

Lemma unique_records (other : CardRecord.t) :
  In other (PlanLocals.uniqueCardRecords locals) ->
  exists recs,
    JsMap.get (PlanLocals.cardRecordsById locals) (CardRecord.storyId other)
      = Some recs
    /\ recs = [other].
Proof.
  destruct (prepare_fields host options codec prdResult lists cards labels)
    as [_ [_ [_ [_ [_ [Hunique _]]]]]].
  destruct (prepare_buckets host options codec prdResult lists cards labels)
    as [Hkeys Hget]. fold locals in Hunique, Hkeys, Hget.
  rewrite Hunique, in_flat_map. intros [[key recs] [Hentry Hin]].
  unfold crowded in Hin. simpl in Hin.
  destruct (Nat.ltb 1 (List.length recs)) eqn:E; [contradiction|].
  apply Nat.ltb_ge in E.
  destruct recs as [|first [|second rest]]; simpl in *; try tauto; try lia.
  destruct Hin as [->|[]].
  apply (In_get _ _ _ Hkeys) in Hentry. pose proof Hentry as Hbucket.
  rewrite Hget in Hbucket.
  assert (Hkey : CardRecord.storyId other = key).
  { destruct (filter (recordOf key) (flat_map (recordOfCard codec) cards))
      as [|x xs] eqn:Ef; [discriminate|].
    injection Hbucket as Hx Hxs. subst x xs.
    assert (Hin : In other (filter (recordOf key)
                              (flat_map (recordOfCard codec) cards)))
      by (rewrite Ef; now left).
    apply filter_In in Hin. destruct Hin as [_ H]. now apply String.eqb_eq in H. }
  rewrite Hkey. eauto.
Qed.

Lemma pair_record :
  In record (PlanLocals.uniqueCardRecords locals)
  /\ JsMap.get (recordById locals) id = Some record
  /\ forall other, In other (PlanLocals.uniqueCardRecords locals) ->
                   CardRecord.card other = card -> other = record.
Proof.
  destruct (prepare_fields host options codec prdResult lists cards labels)
    as [_ [_ [_ [_ [_ [Hunique _]]]]]].
  destruct (prepare_buckets host options codec prdResult lists cards labels)
    as [Hkeys Hget]. fold locals in Hunique, Hkeys, Hget.
  assert (Hbucket : JsMap.get (PlanLocals.cardRecordsById locals) id = Some [record])
    by (rewrite Hget, pair_bucket; reflexivity).
  assert (Hin : In record (PlanLocals.uniqueCardRecords locals)).
  { rewrite Hunique, in_flat_map. exists (id, [record]). split.
    - now apply get_Some_In.
    - simpl. now left. }
  assert (Hsame : forall other,
             In other (PlanLocals.uniqueCardRecords locals) ->
             CardRecord.storyId other = id -> other = record).
  { intros other Hother Hid. destruct (unique_records other Hother)
      as [recs [Hrecs ->]]. rewrite Hid, Hbucket in Hrecs. congruence. }
  split; [exact Hin|]. split.
  - unfold recordById. rewrite recordById_fold.
    destruct (find (recordOf id) (List.rev (PlanLocals.uniqueCardRecords locals)))
      as [found|] eqn:Ef.
    + apply find_some in Ef. destruct Ef as [Hfound Hid].
      apply in_rev in Hfound. apply String.eqb_eq in Hid.
      f_equal. now apply Hsame.
    + exfalso. apply find_None_filter in Ef.
      assert (Hrev : In record (filter (recordOf id)
                                  (List.rev (PlanLocals.uniqueCardRecords locals)))).
      { apply filter_In. split; [now apply in_rev in Hin|].
        unfold recordOf. simpl. apply String.eqb_refl. }
      rewrite Ef in Hrev. exact Hrev.
  - intros other Hother Hcard. apply Hsame; [exact Hother|].
    destruct (unique_records other Hother) as [recs [Hrecs ->]].
    rewrite Hget in Hrecs.
    assert (Hmember : In other (flat_map (recordOfCard codec) cards)).
    { destruct (filter (recordOf (CardRecord.storyId other))
                  (flat_map (recordOfCard codec) cards)) as [|x xs] eqn:Ef;
        [discriminate|].
      assert (Hx : In other (x :: xs)) by (injection Hrecs as -> ->; now left).
      rewrite <- Ef in Hx. now apply filter_In in Hx. }
    apply in_flat_map in Hmember. destruct Hmember as [source [_ Hsource]].
    unfold recordOfCard in Hsource.
    destruct (StoryId.parseCardTitle codec (BoardCard.name source)) eqn:Eparse;
      simpl in Hsource; try contradiction.
    destruct Hsource as [<-|[]]. simpl in Hcard. subst source.
    rewrite card_title in Eparse. injection Eparse as <- <-. reflexivity.
Qed.

Lemma pair_in_sortedIds : In id (sortedIds host locals).
Proof.
  unfold sortedIds, sortStrings. apply sort_In, JsSet_ofList_In, in_or_app.
  left. apply has_true. unfold JsMap.has.
  destruct pair_story as [-> _]. reflexivity.
Qed.

Lemma pair_loopBody
    (checklistByCardId : JsMap.t string (list BoardChecklist.t)) :
  loopBody host locals checklistByCardId id
  = let* entry :=
      classifyPair host locals checklistByCardId id story record in
    Ok (Some entry).
Proof.
  unfold loopBody. rewrite pair_not_conflicted.
  destruct pair_story as [-> _]. destruct pair_record as [_ [-> _]].
  reflexivity.
Qed.
End Pairs.

(** ** The plan as a whole *)

Lemma fixture_codec :
  StoryId.createStoryIdCodec Fixture.idMapping = Ok Fixture.codec.
Proof. reflexivity. Qed.

Lemma filter_length_perm (A : Type) (p : A -> bool) (l l' : list A) :
  Permutation l l' -> List.length (filter p l) = List.length (filter p l').
Proof.
  intros H. apply Permutation_length.
  induction H; simpl.
  - reflexivity.
  - destruct (p x); [now constructor | assumption].
  - destruct (p x), (p y); try reflexivity. apply perm_swap.
  - etransitivity; eassumption.
Qed.

(** What a plan that [buildPlan] returns is made of: the conflicts found
    while preparing, and the entries the loop pushed, each bucket in some
    order. *)
Lemma buildPlanOn_inv (host : Host) (options : SyncPlanOptions.t)
    (prdResult : FormatReadResult.t) (lists : list BoardList.t)
    (cards : list BoardCard.t) (labels : list BoardLabel.t)
    (getCardChecklists : string -> list BoardChecklist.t)
    (plan : SyncPlan.t) (context : SyncContext.t) :
  buildPlanOn host options prdResult lists cards labels getCardChecklists
    = Ok (plan, context) ->
  exists codec pushed,
    StoryId.createStoryIdCodec (codecMapping (SyncPlanOptions.mapping options))
      = Ok codec
    /\ Permutation (SyncPlan.creates plan) (pushedCreates pushed)
    /\ Permutation (SyncPlan.updates plan) (pushedUpdates pushed)
    /\ Permutation (SyncPlan.conflicts plan)
         (PlanLocals.conflicts
            (prepare host options codec prdResult lists cards labels)
          ++ pushedConflicts pushed)
    /\ Permutation (SyncPlan.noop plan) (pushedNoops pushed)
    /\ (forall entry, In entry pushed ->
          exists id,
            In id (sortedIds host
                     (prepare host options codec prdResult lists cards labels))
            /\ loopBody host
                 (prepare host options codec prdResult lists cards labels)
                 (fetchedChecklists
                    (prepare host options codec prdResult lists cards labels)
                    getCardChecklists) id
               = Ok (Some entry))
    /\ (forall id entry,
          In id (sortedIds host
                   (prepare host options codec prdResult lists cards labels)) ->
          loopBody host
            (prepare host options codec prdResult lists cards labels)
            (fetchedChecklists
               (prepare host options codec prdResult lists cards labels)
               getCardChecklists) id
          = Ok (Some entry) ->
          In entry pushed).
Proof.
  unfold buildPlanOn, bind.
  change {| StoryId.storyPrefix := Mapping.storyPrefix (SyncPlanOptions.mapping options);
            StoryId.idPattern := Mapping.idPattern (SyncPlanOptions.mapping options);
            StoryId.cardTitleFormat :=
              Mapping.cardTitleFormat (SyncPlanOptions.mapping options) |}
    with (codecMapping (SyncPlanOptions.mapping options)).
  destruct (StoryId.createStoryIdCodec (codecMapping (SyncPlanOptions.mapping options)))
    as [codec|]; [|discriminate].
  set (locals := prepare host options codec prdResult lists cards labels).
  unfold classifyAll, bind.
  change (indexChecklists (checklistTargets locals)
            (map (fun record => getCardChecklists (BoardCard.id (CardRecord.card record)))
               (checklistTargets locals)))
    with (fetchedChecklists locals getCardChecklists).
  destruct (runLoop host locals (fetchedChecklists locals getCardChecklists)
              (sortedIds host locals) _) as [looped|] eqn:Eloop; [|discriminate].
  intros [= <- <-].
  apply runLoop_pushed in Eloop. destruct Eloop as [pushed [Hplan [Hfrom Hto]]].
  exists codec, pushed. split; [reflexivity|].
  destruct (sortPlan_perm host looped) as [Hc [Hu [Hk Hn]]].
  match type of Hplan with
  | _ = fold_left pushEntry pushed ?plan0 =>
      destruct (fold_pushEntry_buckets pushed plan0) as [Hc' [Hu' [Hk' Hn']]]
  end.
  rewrite <- Hplan in Hc', Hu', Hk', Hn'. simpl in Hc', Hu', Hk', Hn'.
  rewrite Hc' in Hc. rewrite Hu' in Hu. rewrite Hk' in Hk. rewrite Hn' in Hn.
  repeat split; assumption.
Qed.

(** C2. When several cards parse to an identifier, or several stories
    carry it, the plan holds exactly one conflict keyed by the identifier
    for each of the two duplications that occur, every conflict keyed by
    the identifier is one of these, and the identifier is the key of no
    create, update or no-op. *)
Theorem duplicate_identifier_conflicts (host : Host)
    (options : SyncPlanOptions.t) (prdResult : FormatReadResult.t)
    (lists : list BoardList.t) (cards : list BoardCard.t)
    (labels : list BoardLabel.t)
    (getCardChecklists : string -> list BoardChecklist.t)
    (codec : StoryId.StoryIdCodec) (plan : SyncPlan.t) (context : SyncContext.t)
    (id : string) :
  StoryId.createStoryIdCodec (codecMapping (SyncPlanOptions.mapping options))
    = Ok codec ->
  buildPlanOn host options prdResult lists cards labels getCardChecklists
    = Ok (plan, context) ->
  1 < List.length (filter (hasId id) (FormatReadResult.stories prdResult))
  \/ 1 < List.length (filter (parsesTo codec id) cards) ->
  (1 < List.length (filter (hasId id) (FormatReadResult.stories prdResult)) ->
     List.length (filter (keyedFor id "Duplicate story ID in PRD stories")
                    (SyncPlan.conflicts plan)) = 1)
  /\ (1 < List.length (filter (parsesTo codec id) cards) ->
        List.length (filter (keyedFor id "Duplicate story ID across Trello cards")
                       (SyncPlan.conflicts plan)) = 1)
  /\ (forall c, In c (SyncPlan.conflicts plan) -> keyedBy id c = true ->
        SyncConflict.reason c = "Duplicate story ID in PRD stories"
        \/ SyncConflict.reason c = "Duplicate story ID across Trello cards")
  /\ (forall c, In c (SyncPlan.creates plan) -> SyncCreate.id c <> id)
  /\ (forall u, In u (SyncPlan.updates plan) -> SyncUpdate.id u <> id)
  /\ (forall n, In n (SyncPlan.noop plan) -> SyncNoop.id n <> id).
Proof.
  intros Hcodec Hplan Hdup.
  apply buildPlanOn_inv in Hplan.
  destruct Hplan as [codec' [pushed [Hcodec' [Hc [Hu [Hk [Hn [Hfrom _]]]]]]]].
  rewrite Hcodec in Hcodec'. injection Hcodec' as <-.
  set (locals := prepare host options codec prdResult lists cards labels) in *.
  assert (Hconflicted : In id (PlanLocals.conflictedIds locals))
    by (apply conflictedIds_iff; exact Hdup).
  assert (Hpushed : forall entry, In entry pushed -> entryId entry <> Some id).
  { intros entry Hin [= Hid]. destruct (Hfrom entry Hin) as [id' [_ Hbody]].
    apply loopBody_entryId in Hbody. destruct Hbody as [Hkey Hfree].
    rewrite Hid in Hkey. injection Hkey as <-.
    apply JsSet_has_true in Hconflicted. congruence. }
  assert (Hnone : forall reason,
             filter (keyedFor id reason) (pushedConflicts pushed) = []).
  { intros reason. apply filter_none. intros c Hin.
    apply pushedConflicts_In in Hin. apply Hpushed in Hin. simpl in Hin.
    unfold keyedFor, keyedBy. destruct (SyncConflict.id c) as [id'|]; [|reflexivity].
    destruct (id' =? id) eqn:E; [|reflexivity].
    apply String.eqb_eq in E. congruence. }
  destruct (prepared_conflicts host options codec prdResult lists cards labels id)
    as [Hstory [Hcard Hkeyed]]. fold locals in Hstory, Hcard, Hkeyed.
  split; [|split; [|split; [|split; [|split]]]].
  - intros Hs. rewrite (filter_length_perm _ Hk), filter_app, length_app, Hnone.
    simpl. rewrite Nat.add_0_r. auto.
  - intros Hs. rewrite (filter_length_perm _ Hk), filter_app, length_app, Hnone.
    simpl. rewrite Nat.add_0_r. auto.
  - intros c Hin Hkey. apply (Permutation_in _ Hk) in Hin.
    apply in_app_iff in Hin. destruct Hin as [Hin|Hin].
    + destruct (Hkeyed c Hin Hkey) as [[Hr _]|[Hr _]]; auto.
    + exfalso. apply pushedConflicts_In in Hin. apply Hpushed in Hin.
      simpl in Hin. unfold keyedBy in Hkey.
      destruct (SyncConflict.id c) as [id'|]; [|discriminate].
      apply String.eqb_eq in Hkey. congruence.
  - intros c Hin Hid. apply (Permutation_in _ Hc) in Hin.
    apply pushedCreates_In in Hin. apply Hpushed in Hin. simpl in Hin. congruence.
  - intros u Hin Hid. apply (Permutation_in _ Hu) in Hin.
    apply pushedUpdates_In in Hin. apply Hpushed in Hin. simpl in Hin. congruence.
  - intros n Hin Hid. apply (Permutation_in _ Hn) in Hin.
    apply pushedNoops_In in Hin. apply Hpushed in Hin. simpl in Hin. congruence.
Qed.

Lemma duplicate_identifier_conflicts_witness :
  exists plan context,
    buildPlanOn Fixture.host (Fixture.options None None None)
      Fixture.emptyDocument Fixture.lists Fixture.duplicateCards []
      Fixture.noChecklists = Ok (plan, context)
    /\ List.length
         (filter (keyedFor "US-001" "Duplicate story ID across Trello cards")
            (SyncPlan.conflicts plan)) = 1
    /\ (forall c, In c (SyncPlan.creates plan) -> SyncCreate.id c <> "US-001")
    /\ (forall u, In u (SyncPlan.updates plan) -> SyncUpdate.id u <> "US-001")
    /\ (forall n, In n (SyncPlan.noop plan) -> SyncNoop.id n <> "US-001").
Proof.
  assert (Hdup : 1 < List.length (filter (parsesTo Fixture.codec "US-001")
                                    Fixture.duplicateCards))
    by (vm_compute; lia).
  destruct (buildPlanOn Fixture.host (Fixture.options None None None)
              Fixture.emptyDocument Fixture.lists Fixture.duplicateCards []
              Fixture.noChecklists) as [[plan context]|] eqn:Eplan;
    [|vm_compute in Eplan; discriminate].
  exists plan, context. split; [reflexivity|].
  destruct (@duplicate_identifier_conflicts Fixture.host
              (Fixture.options None None None) Fixture.emptyDocument
              Fixture.lists Fixture.duplicateCards [] Fixture.noChecklists
              Fixture.codec plan context "US-001" fixture_codec Eplan
              (or_intror Hdup))
    as [_ [Hcard [_ [Hcreates [Hupdates Hnoop]]]]].
  split; [exact (Hcard Hdup)|]. split; [exact Hcreates|].
  split; [exact Hupdates | exact Hnoop].
Defined.

(** C6. A status is bound only to a list of the bound name, an open one
    when there is any; among the lists it may be bound to it takes the one
    whose id sorts first; several open lists of the name are reported as an
    issue, a name that no list has is reported as an issue and leaves the
    status unbound; and every issue is a conflict of the plan. *)
Theorem createStatusMapping_policy (host : Host)
    (options : SyncPlanOptions.t) (prdResult : FormatReadResult.t)
    (lists : list BoardList.t) (cards : list BoardCard.t)
    (labels : list BoardLabel.t)
    (getCardChecklists : string -> list BoardChecklist.t)
    (plan : SyncPlan.t) (context : SyncContext.t)
    (status : StoryStatus) (listName : string) :
  Consistent host ->
  In (status, listName)
     (statusEntries (Mapping.statusToList (SyncPlanOptions.mapping options))) ->
  buildPlanOn host options prdResult lists cards labels getCardChecklists
    = Ok (plan, context) ->
  let named := filter (fun list => BoardList.name list =? listName) lists in
  let opened :=
    filter (fun list => (BoardList.name list =? listName)
                        && negb (BoardList.closed list)) lists in
  let result :=
    createStatusMapping host lists
      (Mapping.statusToList (SyncPlanOptions.mapping options)) in
  let chosen := JsMap.get (StatusMappingResult.statusToListId result) status in
  (forall listId, chosen = Some listId ->
     exists list,
       In list lists /\ BoardList.id list = listId
       /\ BoardList.name list = listName
       /\ (opened <> [] ->
             BoardList.closed list = false
             /\ forall other, In other opened ->
                  precedes host listId (BoardList.id other))
       /\ (opened = [] ->
             forall other, In other named ->
               precedes host listId (BoardList.id other)))
  /\ (named <> [] -> chosen <> None)
  /\ (1 < List.length opened ->
        In ("Multiple Trello lists found for status '" ++ statusText status
              ++ "' (" ++ listName ++ ")")
           (StatusMappingResult.issues result))
  /\ (named = [] ->
        chosen = None
        /\ In ("No Trello list found for status '" ++ statusText status
                 ++ "' (" ++ listName ++ ")")
              (StatusMappingResult.issues result))
  /\ (forall issue, In issue (StatusMappingResult.issues result) ->
        In (conflictOf None issue None None) (SyncPlan.conflicts plan)).
Proof.
  intros Hconsistent Hentry Hplan named opened result chosen.
  destruct (createStatusMapping_issues_none Hconsistent lists Hentry)
    as [Hnone [Hsome Hmany]].
  fold named opened in Hnone, Hsome, Hmany. fold result in Hnone, Hsome, Hmany.
  fold chosen in Hnone, Hsome.
  assert (Hcandidates :
            (if Nat.ltb 0 (List.length opened) then opened else named)
            = match opened with [] => named | _ => opened end)
    by (destruct opened; reflexivity).
  split; [|split; [|split; [|split]]].
  - intros listId Hchosen.
    assert (Hdec : named = [] \/ named <> [])
      by (destruct named; [left; reflexivity | right; discriminate]).
    destruct Hdec as [Hnil|Hne].
    { destruct (Hnone Hnil) as [Hc _]. congruence. }
    destruct (Hsome Hne) as [list [Hin [Hget Hleast]]].
    rewrite Hchosen in Hget. injection Hget as ->.
    destruct (candidates_spec lists listName list Hin) as [Hlists [Hname Hopen]].
    fold opened in Hopen.
    exists list. split; [exact Hlists|]. split; [reflexivity|].
    split; [exact Hname|]. rewrite Hcandidates in Hleast. split.
    + intros Hopened. split; [now apply Hopen|].
      destruct opened; [contradiction | exact Hleast].
    + intros Hopened. rewrite Hopened in Hleast. exact Hleast.
  - intros Hne Hchosen. destruct (Hsome Hne) as [list [_ [Hget _]]]. congruence.
  - intros Hlen. apply Hmany. rewrite Hcandidates.
    destruct opened; [simpl in Hlen; lia | exact Hlen].
  - exact Hnone.
  - intros issue Hissue. apply buildPlanOn_inv in Hplan.
    destruct Hplan as [codec [pushed [_ [_ [_ [Hk _]]]]]].
    apply (Permutation_in _ (Permutation_sym Hk)). apply in_or_app. left.
    destruct (prepare_fields host options codec prdResult lists cards labels)
      as [Hstatus [_ [_ [_ [_ [_ Hconflicts]]]]]].
    rewrite Hconflicts, Hstatus. apply in_or_app. left.
    apply in_map_iff. exists issue. split; [reflexivity | exact Hissue].
Qed.

Lemma createStatusMapping_policy_witness :
  exists plan context,
    buildPlanOn Fixture.host (Fixture.options None None None)
      Fixture.emptyDocument Fixture.ambiguousLists [] [] Fixture.noChecklists
    = Ok (plan, context)
    /\ JsMap.get
         (StatusMappingResult.statusToListId
            (createStatusMapping Fixture.host Fixture.ambiguousLists
               (Mapping.statusToList Fixture.mapping))) open
       = Some "list-a"
    /\ In (conflictOf None
             "Multiple Trello lists found for status 'open' (To Do)" None None)
          (SyncPlan.conflicts plan).
Proof.
  destruct (buildPlanOn Fixture.host (Fixture.options None None None)
              Fixture.emptyDocument Fixture.ambiguousLists [] []
              Fixture.noChecklists) as [[plan context]|] eqn:Eplan;
    [|vm_compute in Eplan; discriminate].
  exists plan, context. split; [reflexivity|].
  destruct (@createStatusMapping_policy Fixture.host
              (Fixture.options None None None) Fixture.emptyDocument
              Fixture.ambiguousLists [] [] Fixture.noChecklists plan context
              open "To Do" fixture_consistent (or_introl eq_refl) Eplan)
    as [_ [_ [Hmany [_ Hconflicts]]]].
  split; [vm_compute; reflexivity|].
  apply Hconflicts. apply Hmany. vm_compute. lia.
Defined.

(** ** Incremental runs *)

Lemma prepare_incrementalState (host : Host) (options : SyncPlanOptions.t)
    (codec : StoryId.StoryIdCodec) (prdResult : FormatReadResult.t)
    (lists : list BoardList.t) (cards : list BoardCard.t)
    (labels : list BoardLabel.t) (state : SyncState.t) :
  SyncPlanOptions.state options = Some state ->
  SyncPlanOptions.incremental options <> Some false ->
  PlanLocals.incrementalState
    (prepare host options codec prdResult lists cards labels) = Some state.
Proof.
  intros Hstate Hincremental. unfold prepare.
  destruct (indexStories host (FormatReadResult.stories prdResult)) as [[? ?] ?].
  destruct (parseCards codec cards _) as [? ?].
  destruct (splitDuplicateCards _ _ _) as [[? ?] ?].
  cbn [PlanLocals.incrementalState]. rewrite Hstate.
  destruct (SyncPlanOptions.incremental options) as [[|]|]; congruence.
Qed.

Lemma prepare_direction (host : Host) (options : SyncPlanOptions.t)
    (codec : StoryId.StoryIdCodec) (prdResult : FormatReadResult.t)
    (lists : list BoardList.t) (cards : list BoardCard.t)
    (labels : list BoardLabel.t) :
  let locals := prepare host options codec prdResult lists cards labels in
  PlanLocals.direction locals = Js.orElse (SyncPlanOptions.direction options) TwoWay
  /\ PlanLocals.conflictPrefer locals
     = resolveConflictPrefer (SyncPlanOptions.conflict options)
  /\ PlanLocals.prdResult locals = prdResult.
Proof.
  unfold prepare.
  destruct (indexStories host (FormatReadResult.stories prdResult)) as [[? ?] ?].
  destruct (parseCards codec cards _) as [? ?].
  destruct (splitDuplicateCards _ _ _) as [[? ?] ?].
  repeat split.
Qed.

(** A pair that is not skipped as unchanged is never reported as
    unchanged. *)
Lemma classifyPair_changed (host : Host) (locals : PlanLocals.t)
    (checklistByCardId : JsMap.t string (list BoardChecklist.t))
    (id : string) (story : PrdStory.t) (record : CardRecord.t)
    (entry : PlanEntry) :
  Js.isSome (PlanLocals.incrementalState locals)
  && (isStoryUnchanged locals story && isCardUnchanged locals record) = false ->
  classifyPair host locals checklistByCardId id story record = Ok entry ->
  entry <> noopOf id "Unchanged since last sync".
Proof.
  intros Hchanged. unfold classifyPair, bind. rewrite Hchanged.
  destruct (pairMappings host locals checklistByCardId story record)
    as [[[cardMapping storyMapping] shouldCreate]|]; [|discriminate].
  unfold noopOf, trelloUpdate, prdUpdate, resolveBothChanged.
  repeat match goal with
         | |- context [if ?c then _ else _] => destruct c
         | |- context [match PlanLocals.direction locals with _ => _ end] =>
             destruct (PlanLocals.direction locals)
         end; intros [= <-]; discriminate.
Qed.

(** C3. In an incremental run, a story and its card are unchanged exactly
    when the fingerprint of the story is the recorded one and the id and
    last activity of the card are the recorded ones.  An unchanged pair is
    a no-op of the plan and its checklists are not fetched; any other pair
    has its checklists fetched and is not reported as unchanged. *)
Theorem unchanged_pairs_are_skipped (host : Host)
    (options : SyncPlanOptions.t) (prdResult : FormatReadResult.t)
    (lists : list BoardList.t) (cards : list BoardCard.t)
    (labels : list BoardLabel.t)
    (getCardChecklists : string -> list BoardChecklist.t)
    (codec : StoryId.StoryIdCodec) (plan : SyncPlan.t) (context : SyncContext.t)
    (state : SyncState.t) (id : string) (story : PrdStory.t)
    (card : BoardCard.t) (title : string) :
  StoryId.createStoryIdCodec (codecMapping (SyncPlanOptions.mapping options))
    = Ok codec ->
  buildPlanOn host options prdResult lists cards labels getCardChecklists
    = Ok (plan, context) ->
  SyncPlanOptions.state options = Some state ->
  SyncPlanOptions.incremental options <> Some false ->
  filter (hasId id) (FormatReadResult.stories prdResult) = [story] ->
  filter (parsesTo codec id) cards = [card] ->
  StoryId.parseCardTitle codec (BoardCard.name card) = StoryId.ParseOk id title ->
  let locals := prepare host options codec prdResult lists cards labels in
  let record :=
    {| CardRecord.card := card; CardRecord.storyId := id;
       CardRecord.storyTitle := title |} in
  let unchanged :=
    (exists previous,
        JsMap.get (SyncState.storyIndex state) id = Some previous
        /\ SyncStateStoryEntry.fingerprint previous
           = createStoryFingerprint host story)
    /\ (exists previous,
          JsMap.get (SyncState.cardIndex state) id = Some previous
          /\ SyncStateCardEntry.cardId previous = BoardCard.id card
          /\ SyncStateCardEntry.lastActivityAt previous
             = BoardCard.lastActivityAt card) in
  (isStoryUnchanged locals story && isCardUnchanged locals record = true
   <-> unchanged)
  /\ (unchanged ->
        In {| SyncNoop.id := id; SyncNoop.reason := "Unchanged since last sync" |}
           (SyncPlan.noop plan)
        /\ ~ In card (map CardRecord.card (checklistTargets locals)))
  /\ (~ unchanged ->
        In card (map CardRecord.card (checklistTargets locals))
        /\ ~ In {| SyncNoop.id := id; SyncNoop.reason := "Unchanged since last sync" |}
               (SyncPlan.noop plan)).
Proof.
  intros Hcodec Hplan Hstate Hincremental Hstory Hcard Htitle locals record unchanged.
  pose proof (@prepare_incrementalState host options codec prdResult lists cards
                labels state Hstate Hincremental) as Hinc. fold locals in Hinc.
  destruct (@pair_story host options codec prdResult lists cards labels id story
              Hstory) as [Hget [Hid Hfp]]. fold locals in Hget, Hfp.
  destruct (@pair_record host options codec prdResult lists cards labels id card
              title Hcard Htitle) as [Hunique [Hrecord Hsame]]. fold locals record in Hunique, Hrecord, Hsame.
  assert (Hiff : isStoryUnchanged locals story && isCardUnchanged locals record = true
                 <-> unchanged).
  { unfold isStoryUnchanged, isCardUnchanged, unchanged.
    rewrite Hinc, Hid, Hfp. simpl CardRecord.storyId. simpl CardRecord.card.
    rewrite andb_true_iff. split.
    - intros [Hs Hc]. split.
      + destruct (JsMap.get (SyncState.storyIndex state) id) as [previous|];
          [|discriminate].
        exists previous. apply String.eqb_eq in Hs. auto.
      + destruct (JsMap.get (SyncState.cardIndex state) id) as [previous|];
          [|discriminate].
        exists previous. apply andb_true_iff in Hc. destruct Hc as [H1 H2].
        apply String.eqb_eq in H1, H2. auto.
    - intros [[ps [-> Hs]] [pc [-> [H1 H2]]]]. split.
      + now apply String.eqb_eq.
      + apply andb_true_iff. split; now apply String.eqb_eq. }
  assert (Htarget : In card (map CardRecord.card (checklistTargets locals))
                    <-> isStoryUnchanged locals story
                        && isCardUnchanged locals record = false).
  { unfold checklistTargets. rewrite in_map_iff. split.
    - intros [other [Hother Hin]]. apply filter_In in Hin.
      destruct Hin as [Hin Hkeep]. apply (Hsame other Hin) in Hother. subst other.
      simpl CardRecord.storyId in Hkeep. rewrite Hget, Hinc in Hkeep.
      simpl in Hkeep. now apply negb_true_iff in Hkeep.
    - intros Hchanged. exists record. split; [reflexivity|].
      apply filter_In. split; [exact Hunique|].
      simpl CardRecord.storyId. rewrite Hget, Hinc. simpl.
      now apply negb_true_iff. }
  apply buildPlanOn_inv in Hplan.
  destruct Hplan as [codec' [pushed [Hcodec' [_ [_ [_ [Hn [Hfrom Hto]]]]]]]].
  rewrite Hcodec in Hcodec'. injection Hcodec' as <-.
  fold locals in Hfrom, Hto.
  pose proof (@pair_in_sortedIds host options codec prdResult lists cards labels
                id story Hstory) as Hsorted. fold locals in Hsorted.
  pose proof (@pair_loopBody host options codec prdResult lists cards labels id
                story card title Hstory Hcard Htitle
                (fetchedChecklists locals getCardChecklists)) as Hbody.
  fold locals record in Hbody.
  split; [exact Hiff|]. split.
  - intros Hunchanged. apply Hiff in Hunchanged. split.
    + apply (Permutation_in _ (Permutation_sym Hn)), pushedNoops_In.
      apply (Hto id); [exact Hsorted|]. rewrite Hbody.
      unfold classifyPair. rewrite Hinc, Hunchanged. reflexivity.
    + intros Hin. apply Htarget in Hin. congruence.
  - intros Hchanged.
    assert (Hfalse : isStoryUnchanged locals story
                     && isCardUnchanged locals record = false).
    { destruct (isStoryUnchanged locals story && isCardUnchanged locals record)
        eqn:E; [|reflexivity]. exfalso. apply Hchanged. now apply Hiff. }
    split; [now apply Htarget|].
    intros Hin. apply (Permutation_in _ Hn), pushedNoops_In in Hin.
    destruct (Hfrom _ Hin) as [id' [_ Hbody']].
    pose proof (@loopBody_entryId host locals _ id' _ Hbody') as [Hkey _].
    simpl in Hkey. injection Hkey as <-.
    rewrite Hbody in Hbody'. unfold bind in Hbody'.
    destruct (classifyPair host locals (fetchedChecklists locals getCardChecklists)
                id story record) as [entry|] eqn:Eclass; [|discriminate].
    injection Hbody' as ->.
    apply classifyPair_changed in Eclass.
    + apply Eclass. reflexivity.
    + rewrite Hfalse. apply andb_false_r.
Qed.

Lemma unchanged_pairs_are_skipped_witness :
  exists plan context,
    buildPlanOn Fixture.host Fixture.incrementalOptions Fixture.syncedDocument
      Fixture.lists [Fixture.syncedCard] [] Fixture.noChecklists
    = Ok (plan, context)
    /\ In {| SyncNoop.id := "US-001"; SyncNoop.reason := "Unchanged since last sync" |}
          (SyncPlan.noop plan)
    /\ ~ In Fixture.syncedCard
           (map CardRecord.card
              (checklistTargets
                 (prepare Fixture.host Fixture.incrementalOptions Fixture.codec
                    Fixture.syncedDocument Fixture.lists [Fixture.syncedCard] []))).
Proof.
  destruct (buildPlanOn Fixture.host Fixture.incrementalOptions
              Fixture.syncedDocument Fixture.lists [Fixture.syncedCard] []
              Fixture.noChecklists) as [[plan context]|] eqn:Eplan;
    [|vm_compute in Eplan; discriminate].
  exists plan, context. split; [reflexivity|].
  assert (Hincremental :
            SyncPlanOptions.incremental Fixture.incrementalOptions <> Some false)
    by discriminate.
  destruct (@unchanged_pairs_are_skipped Fixture.host Fixture.incrementalOptions
              Fixture.syncedDocument Fixture.lists [Fixture.syncedCard] []
              Fixture.noChecklists Fixture.codec plan context
              Fixture.syncedState "US-001" Fixture.syncedStory
              Fixture.syncedCard "Title" fixture_codec Eplan eq_refl
              Hincremental eq_refl eq_refl eq_refl)
    as [_ [Hunchanged _]].
  apply Hunchanged. split.
  - eexists. split; [vm_compute; reflexivity | reflexivity].
  - eexists. split; [vm_compute; reflexivity | split; reflexivity].
Defined.

(** ** Both sides changed, and the timestamps do not decide *)

(** What the preference makes of a pair whose timestamps compare equal:
    a conflict, or an update of the preferred side's other store. *)
Lemma resolveBothChanged_tie (host : Host) (locals : PlanLocals.t)
    (id : string) (story : PrdStory.t) (record : CardRecord.t)
    (cardMapping : CardMappingResult.t) (storyMapping : StoryMappingResult.t) :
  compareIsoTimestamps host
    (FormatReadResult.lastModifiedAt (PlanLocals.prdResult locals))
    (BoardCard.lastActivityAt (CardRecord.card record)) = 0%Z ->
  canUpdateCard cardMapping = true ->
  canUpdateStory storyMapping = true ->
  resolveBothChanged host locals id story record cardMapping storyMapping
  = match PlanLocals.conflictPrefer locals with
    | PreferNone =>
        PushConflict
          (conflictOf (Some id) "PRD and Trello updates conflict (equal timestamps)"
             (Some [CardRecord.card record]) (Some story))
    | PreferPrd =>
        trelloUpdate locals id "PRD preferred over Trello (equal timestamps)"
          story record cardMapping
    | PreferTrello =>
        prdUpdate id "Trello preferred over PRD (equal timestamps)"
          storyMapping record
    end.
Proof.
  intros Hcompare Hcard Hstory. unfold resolveBothChanged.
  rewrite Hcompare, Hcard, Hstory. unfold resolveTimestampComparison.
  destruct (PlanLocals.conflictPrefer locals); reflexivity.
Qed.

Section Ties.
Variable host : Host.
Variable options : SyncPlanOptions.t.
Variable prdResult : FormatReadResult.t.
Variable lists : list BoardList.t.
Variable cards : list BoardCard.t.
Variable labels : list BoardLabel.t.
Variable getCardChecklists : string -> list BoardChecklist.t.
Variable codec : StoryId.StoryIdCodec.
Variable plan : SyncPlan.t.
Variable context : SyncContext.t.
Variable id : string.
Variable story : PrdStory.t.
Variable card : BoardCard.t.
Variable title : string.
Variable cardMapping : CardMappingResult.t.
Variable storyMapping : StoryMappingResult.t.
Variable shouldCreateMissingLabels : bool.

Let locals : PlanLocals.t :=
  prepare host options codec prdResult lists cards labels.
Let record : CardRecord.t :=
  {| CardRecord.card := card; CardRecord.storyId := id;
     CardRecord.storyTitle := title |}.

Hypothesis codec_built :
  StoryId.createStoryIdCodec (codecMapping (SyncPlanOptions.mapping options))
  = Ok codec.
Hypothesis plan_built :
  buildPlanOn host options prdResult lists cards labels getCardChecklists
  = Ok (plan, context).
Hypothesis two_way :
  Js.orElse (SyncPlanOptions.direction options) TwoWay = TwoWay.
Hypothesis one_story :
  filter (hasId id) (FormatReadResult.stories prdResult) = [story].
Hypothesis one_card : filter (parsesTo codec id) cards = [card].
Hypothesis card_title :
  StoryId.parseCardTitle codec (BoardCard.name card) = StoryId.ParseOk id title.
Hypothesis not_skipped :
  Js.isSome (PlanLocals.incrementalState locals)
  && (isStoryUnchanged locals story && isCardUnchanged locals record) = false.
Hypothesis mappings :
  pairMappings host locals (fetchedChecklists locals getCardChecklists)
    story record
  = Ok (cardMapping, storyMapping, shouldCreateMissingLabels).
Hypothesis card_delta :
  needsCardUpdate cardMapping shouldCreateMissingLabels = true.
Hypothesis story_delta : needsStoryUpdate host story storyMapping = true.
Hypothesis tie :
  compareIsoTimestamps host (FormatReadResult.lastModifiedAt prdResult)
    (BoardCard.lastActivityAt card) = 0%Z.

Lemma tie_entry :
  loopBody host locals (fetchedChecklists locals getCardChecklists) id
  = Ok (Some
          match resolveConflictPrefer (SyncPlanOptions.conflict options) with
          | PreferNone =>
              PushConflict
                (conflictOf (Some id)
                   "PRD and Trello updates conflict (equal timestamps)"
                   (Some [card]) (Some story))
          | PreferPrd =>
              trelloUpdate locals id
                "PRD preferred over Trello (equal timestamps)"
                story record cardMapping
          | PreferTrello =>
              prdUpdate id "Trello preferred over PRD (equal timestamps)"
                storyMapping record
          end).
Proof.
  rewrite (@pair_loopBody host options codec prdResult lists cards labels id
             story card title one_story one_card card_title).
  fold locals record. unfold classifyPair, bind.
  rewrite not_skipped, mappings, card_delta, story_delta.
  destruct (prepare_direction host options codec prdResult lists cards labels)
    as [Hdirection [Hprefer Hprd]]. fold locals in Hdirection, Hprefer, Hprd.
  rewrite Hdirection, two_way. simpl.
  unfold needsCardUpdate in card_delta. unfold needsStoryUpdate in story_delta.
  apply andb_true_iff in card_delta, story_delta.
  rewrite resolveBothChanged_tie; try tauto.
  - rewrite Hprefer. reflexivity.
  - rewrite Hprd. exact tie.
Qed.

(** The plan of a tie: under [none] the conflict is in the plan; under
    [prd] the update of the board is, and no conflict is keyed by the
    identifier; under [trello] the update of the document is, and no
    conflict is keyed by the identifier. *)
Lemma tie_plan :
  match resolveConflictPrefer (SyncPlanOptions.conflict options) with
  | PreferNone =>
      In (conflictOf (Some id)
            "PRD and Trello updates conflict (equal timestamps)"
            (Some [card]) (Some story))
         (SyncPlan.conflicts plan)
  | PreferPrd =>
      In (SyncUpdate.Trello id "PRD preferred over Trello (equal timestamps)"
            story card
            (CardMappingResult.cardUpdate cardMapping)
            (CardMappingResult.checklist cardMapping)
            (CardMappingResult.checklistNeedsUpdate cardMapping)
            (resolveListMove locals record
               (CardMappingResult.cardUpdate cardMapping)))
         (SyncPlan.updates plan)
      /\ forall c, In c (SyncPlan.conflicts plan) -> keyedBy id c = false
  | PreferTrello =>
      In (SyncUpdate.Prd id "Trello preferred over PRD (equal timestamps)"
            (StoryMappingResult.story storyMapping) card)
         (SyncPlan.updates plan)
      /\ forall c, In c (SyncPlan.conflicts plan) -> keyedBy id c = false
  end.
Proof.
  pose proof tie_entry as Hentry.
  pose proof plan_built as Hplan. apply buildPlanOn_inv in Hplan.
  destruct Hplan as [codec' [pushed [Hcodec' [_ [Hu [Hk [_ [Hfrom Hto]]]]]]]].
  rewrite codec_built in Hcodec'. injection Hcodec' as <-.
  fold locals in Hk, Hfrom, Hto.
  pose proof (@pair_in_sortedIds host options codec prdResult lists cards labels
                id story one_story) as Hsorted. fold locals in Hsorted.
  assert (Hunkeyed : forall c, In c (PlanLocals.conflicts locals) ->
                               keyedBy id c = false).
  { intros c Hin. destruct (keyedBy id c) eqn:Ekey; [|reflexivity]. exfalso.
    destruct (prepared_conflicts host options codec prdResult lists cards labels id)
      as [_ [_ Hkeyed]].
    destruct (Hkeyed c Hin Ekey) as [[_ Hdup]|[_ Hdup]].
    - rewrite one_story in Hdup. simpl in Hdup. lia.
    - rewrite one_card in Hdup. simpl in Hdup. lia. }
  assert (Hquiet : forall entry,
             loopBody host locals (fetchedChecklists locals getCardChecklists) id
             = Ok (Some entry) ->
             (forall c, entry <> PushConflict c) ->
             forall c, In c (SyncPlan.conflicts plan) -> keyedBy id c = false).
  { intros entry Hbody Hnot c Hin. apply (Permutation_in _ Hk) in Hin.
    apply in_app_iff in Hin. destruct Hin as [Hin|Hin]; [now apply Hunkeyed|].
    destruct (keyedBy id c) eqn:Ekey; [|reflexivity]. exfalso.
    apply pushedConflicts_In in Hin. destruct (Hfrom _ Hin) as [id' [_ Hbody']].
    pose proof (@loopBody_entryId host locals _ id' _ Hbody') as [Hid _].
    simpl in Hid. unfold keyedBy in Ekey. rewrite Hid in Ekey.
    apply String.eqb_eq in Ekey. subst id'.
    rewrite Hbody in Hbody'. injection Hbody' as ->. now apply (Hnot c). }
  destruct (resolveConflictPrefer (SyncPlanOptions.conflict options)).
  - apply (Permutation_in _ (Permutation_sym Hk)), in_or_app. right.
    apply pushedConflicts_In. now apply (Hto id).
  - split.
    + apply (Permutation_in _ (Permutation_sym Hu)), pushedUpdates_In.
      now apply (Hto id).
    + apply (Hquiet _ Hentry). intros c. unfold prdUpdate. discriminate.
  - split.
    + apply (Permutation_in _ (Permutation_sym Hu)), pushedUpdates_In.
      now apply (Hto id).
    + apply (Hquiet _ Hentry). intros c. unfold trelloUpdate. discriminate.
Qed.
End Ties.

(** C1. In a two-way run, for a story and its card that both changed and
    that both can be written, when the document's [lastModifiedAt] and the
    card's [lastActivityAt] parse to the same time: under the preference
    [none] the pair is a conflict of the plan; under [prd] the plan updates
    the board and holds no conflict for the identifier; under [trello] the
    plan updates the document (and holds no conflict for the identifier
    either). *)
Theorem equal_timestamps_follow_preference (host : Host)
    (options : SyncPlanOptions.t) (prdResult : FormatReadResult.t)
    (lists : list BoardList.t) (cards : list BoardCard.t)
    (labels : list BoardLabel.t)
    (getCardChecklists : string -> list BoardChecklist.t)
    (codec : StoryId.StoryIdCodec) (plan : SyncPlan.t) (context : SyncContext.t)
    (id : string) (story : PrdStory.t) (card : BoardCard.t) (title : string)
    (cardMapping : CardMappingResult.t) (storyMapping : StoryMappingResult.t)
    (shouldCreateMissingLabels : bool) (time : Z) :
  let locals := prepare host options codec prdResult lists cards labels in
  let record :=
    {| CardRecord.card := card; CardRecord.storyId := id;
       CardRecord.storyTitle := title |} in
  StoryId.createStoryIdCodec (codecMapping (SyncPlanOptions.mapping options))
    = Ok codec ->
  buildPlanOn host options prdResult lists cards labels getCardChecklists
    = Ok (plan, context) ->
  Js.orElse (SyncPlanOptions.direction options) TwoWay = TwoWay ->
  filter (hasId id) (FormatReadResult.stories prdResult) = [story] ->
  filter (parsesTo codec id) cards = [card] ->
  StoryId.parseCardTitle codec (BoardCard.name card) = StoryId.ParseOk id title ->
  Js.isSome (PlanLocals.incrementalState locals)
  && (isStoryUnchanged locals story && isCardUnchanged locals record) = false ->
  pairMappings host locals (fetchedChecklists locals getCardChecklists)
    story record
  = Ok (cardMapping, storyMapping, shouldCreateMissingLabels) ->
  needsCardUpdate cardMapping shouldCreateMissingLabels = true ->
  needsStoryUpdate host story storyMapping = true ->
  DateParse host (FormatReadResult.lastModifiedAt prdResult) = Some time ->
  DateParse host (BoardCard.lastActivityAt card) = Some time ->
  match resolveConflictPrefer (SyncPlanOptions.conflict options) with
  | PreferNone =>
      In (conflictOf (Some id)
            "PRD and Trello updates conflict (equal timestamps)"
            (Some [card]) (Some story))
         (SyncPlan.conflicts plan)
  | PreferPrd =>
      In (SyncUpdate.Trello id "PRD preferred over Trello (equal timestamps)"
            story card
            (CardMappingResult.cardUpdate cardMapping)
            (CardMappingResult.checklist cardMapping)
            (CardMappingResult.checklistNeedsUpdate cardMapping)
            (resolveListMove locals record
               (CardMappingResult.cardUpdate cardMapping)))
         (SyncPlan.updates plan)
      /\ forall c, In c (SyncPlan.conflicts plan) -> keyedBy id c = false
  | PreferTrello =>
      In (SyncUpdate.Prd id "Trello preferred over PRD (equal timestamps)"
            (StoryMappingResult.story storyMapping) card)
         (SyncPlan.updates plan)
      /\ forall c, In c (SyncPlan.conflicts plan) -> keyedBy id c = false
  end.
Proof.
  intros locals record Hcodec Hplan Hdirection Hstory Hcard Htitle Hskip Hmaps
    Hcarddelta Hstorydelta Hdocument Hactivity.
  apply (@tie_plan host options prdResult lists cards labels getCardChecklists
           codec plan context id story card title cardMapping storyMapping
           shouldCreateMissingLabels); try assumption.
  unfold compareIsoTimestamps. rewrite Hdocument, Hactivity. lia.
Qed.

Lemma equal_timestamps_follow_preference_witness :
  exists plan context update,
    buildPlanOn Fixture.host (Fixture.options (Some PreferPrd) None None)
      Fixture.tiedDocument Fixture.lists [Fixture.tiedCard] []
      Fixture.noChecklists = Ok (plan, context)
    /\ In update (SyncPlan.updates plan)
    /\ SyncUpdate.id update = "US-001"
    /\ SyncUpdate.target update = TargetTrello
    /\ forall c, In c (SyncPlan.conflicts plan) -> keyedBy "US-001" c = false.
Proof.
  destruct (buildPlanOn Fixture.host (Fixture.options (Some PreferPrd) None None)
              Fixture.tiedDocument Fixture.lists [Fixture.tiedCard] []
              Fixture.noChecklists) as [[plan context]|] eqn:Eplan;
    [|vm_compute in Eplan; discriminate].
  exists plan, context.
  eassert (Hmaps :
             pairMappings Fixture.host
               (prepare Fixture.host (Fixture.options (Some PreferPrd) None None)
                  Fixture.codec Fixture.tiedDocument Fixture.lists
                  [Fixture.tiedCard] [])
               (fetchedChecklists
                  (prepare Fixture.host (Fixture.options (Some PreferPrd) None None)
                     Fixture.codec Fixture.tiedDocument Fixture.lists
                     [Fixture.tiedCard] [])
                  Fixture.noChecklists)
               Fixture.tiedStory
               {| CardRecord.card := Fixture.tiedCard;
                  CardRecord.storyId := "US-001";
                  CardRecord.storyTitle := "Trello Title" |}
             = Ok (_, _, _)) by (vm_compute; reflexivity).
  pose proof (@equal_timestamps_follow_preference Fixture.host
                (Fixture.options (Some PreferPrd) None None)
                Fixture.tiedDocument Fixture.lists [Fixture.tiedCard] []
                Fixture.noChecklists Fixture.codec plan context "US-001"
                Fixture.tiedStory Fixture.tiedCard "Trello Title" _ _ _
                20260120000000%Z fixture_codec Eplan eq_refl eq_refl eq_refl
                eq_refl eq_refl Hmaps eq_refl eq_refl eq_refl eq_refl) as H.
  simpl resolveConflictPrefer in H. destruct H as [Hupdate Hquiet].
  eexists. split; [reflexivity|]. split; [exact Hupdate|].
  split; [reflexivity|]. split; [reflexivity | exact Hquiet].
Defined.

(** C10. In a two-way run, for a story and its card that both changed and
    that both can be written, when the document's [lastModifiedAt] or the
    card's [lastActivityAt] is not a date, whatever the other one is: under
    the preference [none] the pair is a conflict of the plan; under [prd]
    the plan updates the board; under [trello] the plan updates the
    document; and in the last two cases the plan holds no conflict for the
    identifier. *)
Theorem unparsable_timestamp_follows_preference (host : Host)
    (options : SyncPlanOptions.t) (prdResult : FormatReadResult.t)
    (lists : list BoardList.t) (cards : list BoardCard.t)
    (labels : list BoardLabel.t)
    (getCardChecklists : string -> list BoardChecklist.t)
    (codec : StoryId.StoryIdCodec) (plan : SyncPlan.t) (context : SyncContext.t)
    (id : string) (story : PrdStory.t) (card : BoardCard.t) (title : string)
    (cardMapping : CardMappingResult.t) (storyMapping : StoryMappingResult.t)
    (shouldCreateMissingLabels : bool) :
  let locals := prepare host options codec prdResult lists cards labels in
  let record :=
    {| CardRecord.card := card; CardRecord.storyId := id;
       CardRecord.storyTitle := title |} in
  StoryId.createStoryIdCodec (codecMapping (SyncPlanOptions.mapping options))
    = Ok codec ->
  buildPlanOn host options prdResult lists cards labels getCardChecklists
    = Ok (plan, context) ->
  Js.orElse (SyncPlanOptions.direction options) TwoWay = TwoWay ->
  filter (hasId id) (FormatReadResult.stories prdResult) = [story] ->
  filter (parsesTo codec id) cards = [card] ->
  StoryId.parseCardTitle codec (BoardCard.name card) = StoryId.ParseOk id title ->
  Js.isSome (PlanLocals.incrementalState locals)
  && (isStoryUnchanged locals story && isCardUnchanged locals record) = false ->
  pairMappings host locals (fetchedChecklists locals getCardChecklists)
    story record
  = Ok (cardMapping, storyMapping, shouldCreateMissingLabels) ->
  needsCardUpdate cardMapping shouldCreateMissingLabels = true ->
  needsStoryUpdate host story storyMapping = true ->
  DateParse host (FormatReadResult.lastModifiedAt prdResult) = None
  \/ DateParse host (BoardCard.lastActivityAt card) = None ->
  compareIsoTimestamps host (FormatReadResult.lastModifiedAt prdResult)
    (BoardCard.lastActivityAt card) = 0%Z
  /\ match resolveConflictPrefer (SyncPlanOptions.conflict options) with
     | PreferNone =>
         In (conflictOf (Some id)
               "PRD and Trello updates conflict (equal timestamps)"
               (Some [card]) (Some story))
            (SyncPlan.conflicts plan)
     | PreferPrd =>
         In (SyncUpdate.Trello id "PRD preferred over Trello (equal timestamps)"
               story card
               (CardMappingResult.cardUpdate cardMapping)
               (CardMappingResult.checklist cardMapping)
               (CardMappingResult.checklistNeedsUpdate cardMapping)
               (resolveListMove locals record
                  (CardMappingResult.cardUpdate cardMapping)))
            (SyncPlan.updates plan)
         /\ forall c, In c (SyncPlan.conflicts plan) -> keyedBy id c = false
     | PreferTrello =>
         In (SyncUpdate.Prd id "Trello preferred over PRD (equal timestamps)"
               (StoryMappingResult.story storyMapping) card)
            (SyncPlan.updates plan)
         /\ forall c, In c (SyncPlan.conflicts plan) -> keyedBy id c = false
     end.
Proof.
  intros locals record Hcodec Hplan Hdirection Hstory Hcard Htitle Hskip Hmaps
    Hcarddelta Hstorydelta Hundated.
  assert (Htie : compareIsoTimestamps host
                   (FormatReadResult.lastModifiedAt prdResult)
                   (BoardCard.lastActivityAt card) = 0%Z).
  { unfold compareIsoTimestamps. destruct Hundated as [-> | ->].
    - reflexivity.
    - now destruct (DateParse host (FormatReadResult.lastModifiedAt prdResult)). }
  split; [exact Htie|].
  apply (@tie_plan host options prdResult lists cards labels getCardChecklists
           codec plan context id story card title cardMapping storyMapping
           shouldCreateMissingLabels); assumption.
Qed.

Lemma unparsable_timestamp_follows_preference_witness :
  exists plan context,
    buildPlanOn Fixture.host (Fixture.options None None None)
      Fixture.undatedDocument Fixture.lists [Fixture.tiedCard] []
      Fixture.noChecklists = Ok (plan, context)
    /\ In (conflictOf (Some "US-001")
             "PRD and Trello updates conflict (equal timestamps)"
             (Some [Fixture.tiedCard]) (Some Fixture.tiedStory))
          (SyncPlan.conflicts plan).
Proof.
  destruct (buildPlanOn Fixture.host (Fixture.options None None None)
              Fixture.undatedDocument Fixture.lists [Fixture.tiedCard] []
              Fixture.noChecklists) as [[plan context]|] eqn:Eplan;
    [|vm_compute in Eplan; discriminate].
  exists plan, context. split; [reflexivity|].
  eassert (Hmaps :
             pairMappings Fixture.host
               (prepare Fixture.host (Fixture.options None None None)
                  Fixture.codec Fixture.undatedDocument Fixture.lists
                  [Fixture.tiedCard] [])
               (fetchedChecklists
                  (prepare Fixture.host (Fixture.options None None None)
                     Fixture.codec Fixture.undatedDocument Fixture.lists
                     [Fixture.tiedCard] [])
                  Fixture.noChecklists)
               Fixture.tiedStory
               {| CardRecord.card := Fixture.tiedCard;
                  CardRecord.storyId := "US-001";
                  CardRecord.storyTitle := "Trello Title" |}
             = Ok (_, _, _)) by (vm_compute; reflexivity).
  pose proof (@unparsable_timestamp_follows_preference Fixture.host
                (Fixture.options None None None)
                Fixture.undatedDocument Fixture.lists [Fixture.tiedCard] []
                Fixture.noChecklists Fixture.codec plan context "US-001"
                Fixture.tiedStory Fixture.tiedCard "Trello Title" _ _ _
                fixture_codec Eplan eq_refl eq_refl eq_refl
                eq_refl eq_refl Hmaps eq_refl eq_refl (or_introl eq_refl)) as H.
  destruct H as [_ H]. simpl resolveConflictPrefer in H. exact H.
Defined.

(** ** Card titles *)

Lemma slice_cons (k : nat) (s : string) (c : ascii) (rest : string) :
  Js.slice k s = String c rest -> Js.slice (S k) s = rest.
Proof.
  revert s. induction k as [|k IH]; intros s Hs.
  - cbn in Hs. subst s. reflexivity.
  - destruct s as [|c' s']; [discriminate|]. cbn in Hs. cbn. now apply IH.
Qed.

Lemma slice_length (k : nat) (s : string) :
  length (Js.slice k s) = length s - k.
Proof.
  revert s. induction k as [|k IH]; intros s; [cbn; lia|].
  destruct s as [|c s']; [reflexivity|]. cbn. apply IH.
Qed.

Lemma searchFrom_step (r : Regex.regex) (pos : nat) (s : string) :
  Regex.searchFrom r pos s
  = match Regex.run r pos s Regex.noCaptures with
    | Some (stop, st) => Some (pos, stop, st)
    | None =>
        match s with
        | String _ rest => Regex.searchFrom r (S pos) rest
        | EmptyString => None
        end
    end.
Proof. destruct s; reflexivity. Qed.

(** A search fails when the pattern matches at no position. *)
Lemma searchFrom_None (r : Regex.regex) (input : string) (k : nat) :
  k <= length input ->
  (Regex.searchFrom r k (Js.slice k input) = None
   <-> forall pos, k <= pos <= length input -> matchesAt r input pos = false).
Proof.
  remember (length input - k) as todo eqn:Htodo.
  revert k Htodo. induction todo as [|todo IH]; intros k Htodo Hk.
  - assert (Hend : Js.slice k input = EmptyString).
    { pose proof (slice_length k input) as Hlen.
      destruct (Js.slice k input); [reflexivity | cbn in Hlen; lia]. }
    rewrite searchFrom_step, Hend. split.
    + intros Hnone pos Hpos. assert (pos = k) by lia. subst pos.
      unfold matchesAt. rewrite Hend.
      destruct (Regex.run r k "" Regex.noCaptures) as [[stop st]|];
        [discriminate | reflexivity].
    + intros Hall. specialize (Hall k ltac:(lia)). unfold matchesAt in Hall.
      rewrite Hend in Hall.
      destruct (Regex.run r k "" Regex.noCaptures) as [[stop st]|];
        [discriminate | reflexivity].
  - pose proof (slice_length k input) as Hlen.
    destruct (Js.slice k input) as [|c rest] eqn:Hslice; [cbn in Hlen; lia|].
    pose proof (slice_cons _ _ Hslice) as Hnext.
    rewrite searchFrom_step.
    specialize (IH (S k) ltac:(lia) ltac:(lia)). rewrite Hnext in IH.
    split.
    + intros Hnone pos Hpos.
      destruct (Regex.run r k (String c rest) Regex.noCaptures)
        as [[stop st]|] eqn:Hrun; [discriminate|].
      destruct (Nat.eq_dec pos k) as [->|Hne].
      * unfold matchesAt. rewrite Hslice, Hrun. reflexivity.
      * apply IH; [exact Hnone | lia].
    + intros Hall. pose proof (Hall k ltac:(lia)) as Hk0.
      unfold matchesAt in Hk0. rewrite Hslice in Hk0.
      destruct (Regex.run r k (String c rest) Regex.noCaptures)
        as [[stop st]|]; [discriminate|].
      apply IH. intros pos Hpos. apply Hall. lia.
Qed.

Lemma test_false_iff (r : Regex.regex) (input : string) :
  Regex.test r input = false
  <-> forall pos, pos <= length input -> matchesAt r input pos = false.
Proof.
  unfold Regex.test.
  pose proof (@searchFrom_None r input 0 ltac:(lia)) as Hsearch.
  cbn [Js.slice] in Hsearch. split.
  - intros Htest pos Hpos. apply Hsearch; [|lia].
    destruct (Regex.searchFrom r 0 input); [discriminate | reflexivity].
  - intros Hall. rewrite (proj2 Hsearch); [reflexivity|].
    intros pos Hpos. apply Hall. lia.
Qed.

Lemma exec_None_iff (r : Regex.regex) (input : string) :
  Regex.exec r input = None <-> Regex.test r input = false.
Proof.
  unfold Regex.exec, Regex.test.
  destruct (Regex.searchFrom r 0 input) as [[[start stop] st]|];
    split; intros H; (discriminate || reflexivity).
Qed.

Section Scan.
Variable r : Regex.regex.
Variable input : string.

Let matchAt (pos : nat) (s : string) : option (nat * string) :=
  match Regex.run r pos s Regex.noCaptures with
  | Some (stop, _) => Some (stop - pos, substring pos (stop - pos) input)
  | None => None
  end.

(** A scan finds nothing exactly when a search does. *)
Lemma scanFrom_nil (s : string) (pos : nat) :
  Js.scanFrom matchAt pos s 0 = [] <-> Regex.searchFrom r pos s = None.
Proof.
  revert pos. induction s as [|c rest IH]; intros pos.
  - cbn. unfold matchAt.
    destruct (Regex.run r pos "" Regex.noCaptures) as [[stop st]|];
      split; intros H; (discriminate || reflexivity).
  - rewrite searchFrom_step. cbn [Js.scanFrom]. unfold matchAt at 1.
    destruct (Regex.run r pos (String c rest) Regex.noCaptures)
      as [[stop st]|].
    + split; intros H; discriminate.
    + apply IH.
Qed.

(** What a scan reports is matched by the pattern where it was found. *)
Lemma scanFrom_In (m : string) (todo : nat) :
  forall (k skip : nat),
    todo = length input - k -> k <= length input ->
    In m (Js.scanFrom matchAt k (Js.slice k input) skip) ->
    exists pos stop st,
      pos <= length input
      /\ Regex.run r pos (Js.slice pos input) Regex.noCaptures = Some (stop, st)
      /\ m = substring pos (stop - pos) input.
Proof.
  induction todo as [|todo IH]; intros k skip Htodo Hk Hin.
  - assert (Hend : Js.slice k input = EmptyString).
    { pose proof (slice_length k input) as Hlen.
      destruct (Js.slice k input); [reflexivity | cbn in Hlen; lia]. }
    rewrite Hend in Hin. destruct skip; cbn in Hin; [|contradiction].
    unfold matchAt in Hin.
    destruct (Regex.run r k "" Regex.noCaptures) as [[stop st]|] eqn:Hrun;
      [|contradiction].
    destruct Hin as [<-|[]]. exists k, stop, st. rewrite Hend. auto.
  - pose proof (slice_length k input) as Hlen.
    destruct (Js.slice k input) as [|c rest] eqn:Hslice; [cbn in Hlen; lia|].
    pose proof (slice_cons _ _ Hslice) as Hnext.
    assert (Hrest : forall skip',
               In m (Js.scanFrom matchAt (S k) rest skip') ->
               exists pos stop st,
                 pos <= length input
                 /\ Regex.run r pos (Js.slice pos input) Regex.noCaptures
                    = Some (stop, st)
                 /\ m = substring pos (stop - pos) input).
    { intros skip' Hin'. apply (IH (S k) skip'); [lia | lia |].
      rewrite Hnext. exact Hin'. }
    destruct skip as [|skip]; cbn [Js.scanFrom] in Hin.
    + unfold matchAt at 1 in Hin.
      destruct (Regex.run r k (String c rest) Regex.noCaptures)
        as [[stop st]|] eqn:Hrun.
      * destruct Hin as [<-|Hin]; [|exact (Hrest _ Hin)].
        exists k, stop, st. rewrite Hslice. auto.
      * exact (Hrest _ Hin).
    + exact (Hrest _ Hin).
Qed.
End Scan.

Lemma matchAll_nil_iff (r : Regex.regex) (input : string) :
  Regex.matchAll r input = [] <-> Regex.test r input = false.
Proof.
  unfold Regex.matchAll, Regex.test. rewrite scanFrom_nil.
  destruct (Regex.searchFrom r 0 input); split; intros H;
    (discriminate || reflexivity).
Qed.

Lemma matchAll_In (r : Regex.regex) (input m : string) :
  In m (Regex.matchAll r input) ->
  exists pos stop st,
    pos <= length input
    /\ Regex.run r pos (Js.slice pos input) Regex.noCaptures = Some (stop, st)
    /\ m = substring pos (stop - pos) input.
Proof.
  intros Hin.
  apply (@scanFrom_In r input m (length input - 0) 0 0); [reflexivity | lia |].
  exact Hin.
Qed.

(** C5. [parseCardTitle] on a title: when the identifier pattern matches at
    no position of it, the result is "missing", with no match; when the
    scan for identifiers finds more than one, the result is "ambiguous" and
    carries all of them, each a part of the title that the pattern matches;
    when the scan finds exactly one and the template of card titles does not
    match the title, the result is "missing" again, and carries the one
    identifier found without taking it as the card's. *)
Theorem parseCardTitle_cases (codec : StoryId.StoryIdCodec) (cardTitle : string) :
  let matches := Regex.matchAll (StoryId.idSearchRegex codec) cardTitle in
  ((forall pos, pos <= length cardTitle ->
      matchesAt (StoryId.idSearchRegex codec) cardTitle pos = false) ->
   StoryId.parseCardTitle codec cardTitle
   = StoryId.ParseMissing "No story ID found in card title" [] cardTitle)
  /\ (1 < List.length matches ->
      StoryId.parseCardTitle codec cardTitle
      = StoryId.ParseAmbiguous "Multiple story IDs found in card title"
          matches cardTitle
      /\ forall m, In m matches ->
           exists pos stop st,
             pos <= length cardTitle
             /\ Regex.run (StoryId.idSearchRegex codec) pos
                  (Js.slice pos cardTitle) Regex.noCaptures = Some (stop, st)
             /\ m = substring pos (stop - pos) cardTitle)
  /\ (List.length matches = 1 ->
      Regex.test (StoryId.regex (StoryId.cardTitleSpec codec)) cardTitle = false ->
      StoryId.parseCardTitle codec cardTitle
      = StoryId.ParseMissing "Story ID not in canonical card title format"
          matches cardTitle).
Proof.
  intros matches. split; [|split].
  - intros Hnone. apply test_false_iff, matchAll_nil_iff in Hnone.
    unfold StoryId.parseCardTitle. rewrite Hnone. reflexivity.
  - intros Hmany. split.
    + unfold StoryId.parseCardTitle. fold matches.
      destruct matches as [|m1 [|m2 rest]]; cbn in Hmany; try lia. reflexivity.
    + intros m Hin. exact (matchAll_In _ _ _ Hin).
  - intros Hone Htemplate. apply exec_None_iff in Htemplate.
    unfold StoryId.parseCardTitle. fold matches. rewrite Htemplate.
    destruct matches as [|m1 [|m2 rest]]; cbn in Hone; try lia. reflexivity.
Qed.

Lemma parseCardTitle_cases_witness :
  StoryId.parseCardTitle Fixture.codec "Title only"
  = StoryId.ParseMissing "No story ID found in card title" [] "Title only"
  /\ StoryId.parseCardTitle Fixture.codec "[US-001] Title with US-002"
     = StoryId.ParseAmbiguous "Multiple story IDs found in card title"
         ["US-001"; "US-002"] "[US-001] Title with US-002"
  /\ StoryId.parseCardTitle Fixture.codec "Title [US-001]"
     = StoryId.ParseMissing "Story ID not in canonical card title format"
         ["US-001"] "Title [US-001]".
Proof.
  split; [|split].
  - apply (proj1 (parseCardTitle_cases Fixture.codec "Title only")).
    apply test_false_iff. vm_compute. reflexivity.
  - apply (proj1 (proj2 (parseCardTitle_cases Fixture.codec
                           "[US-001] Title with US-002"))).
    vm_compute. lia.
  - apply (proj2 (proj2 (parseCardTitle_cases Fixture.codec "Title [US-001]")));
      vm_compute; reflexivity.
Defined.

(** ** Matching literal text, digits and the rest of a line *)

Lemma lits_cons (c : ascii) (s : string) :
  Regex.lits (String c s) = Regex.Lit c :: Regex.lits s.
Proof. reflexivity. Qed.

Lemma run_lits (text : string) (k : Regex.regex) (pos : nat) (rest : string)
    (st : Regex.captures) :
  Regex.run (Regex.lits text ++ k)%list pos (text ++ rest) st
  = Regex.run k (pos + length text) rest st.
Proof.
  revert pos. induction text as [|c text IH]; intros pos.
  - cbn. now rewrite Nat.add_0_r.
  - rewrite lits_cons. cbn [List.app Regex.run append length].
    rewrite Ascii.eqb_refl, IH. f_equal. lia.
Qed.

Lemma run_lits_inv (text : string) (k : Regex.regex) (pos : nat) (s : string)
    (st : Regex.captures) (found : nat * Regex.captures) :
  Regex.run (Regex.lits text ++ k)%list pos s st = Some found ->
  exists rest,
    s = text ++ rest /\ Regex.run k (pos + length text) rest st = Some found.
Proof.
  revert pos s. induction text as [|c text IH]; intros pos s Hrun.
  - exists s. cbn in *. now rewrite Nat.add_0_r.
  - rewrite lits_cons in Hrun. cbn [List.app Regex.run] in Hrun.
    destruct s as [|c' s']; [discriminate|].
    destruct (Ascii.eqb c' c) eqn:Hc; [|discriminate].
    apply Ascii.eqb_eq in Hc. subst c'.
    destruct (IH _ _ Hrun) as [rest [-> Hrest]].
    exists rest. split; [reflexivity|]. cbn [length].
    now replace (pos + S (length text)) with (S pos + length text) by lia.
Qed.

Lemma run_lit_other (c : ascii) (text : string) (k : Regex.regex) (pos : nat)
    (c' : ascii) (rest : string) (st : Regex.captures) :
  Ascii.eqb c' c = false ->
  Regex.run (Regex.lits (String c text) ++ k)%list pos (String c' rest) st = None.
Proof. intros Hc. rewrite lits_cons. cbn [List.app Regex.run]. now rewrite Hc. Qed.

Lemma run_lit_empty (c : ascii) (text : string) (k : Regex.regex) (pos : nat)
    (st : Regex.captures) :
  Regex.run (Regex.lits (String c text) ++ k)%list pos "" st = None.
Proof. reflexivity. Qed.

Lemma run_digits (width : nat) (k : Regex.regex) (digits rest : string)
    (pos : nat) (st : Regex.captures) :
  length digits = width -> allDigits digits = true ->
  Regex.run (Regex.DigitsN width :: k) pos (digits ++ rest) st
  = Regex.run k (pos + width) rest st.
Proof.
  revert digits pos. induction width as [|width IH]; intros digits pos Hlen Hall.
  - destruct digits; [|discriminate]. cbn. now rewrite Nat.add_0_r.
  - destruct digits as [|d digits]; [discriminate|].
    cbn in Hall. apply andb_true_iff in Hall. destruct Hall as [Hd Hall].
    injection Hlen as Hlen.
    specialize (IH digits (S pos) Hlen Hall).
    cbn [Regex.run append] in *. rewrite Hd, IH. f_equal. lia.
Qed.

Lemma run_digits_inv (width : nat) (k : Regex.regex) (s : string) (pos : nat)
    (st : Regex.captures) (found : nat * Regex.captures) :
  Regex.run (Regex.DigitsN width :: k) pos s st = Some found ->
  exists digits rest,
    s = digits ++ rest /\ length digits = width /\ allDigits digits = true
    /\ Regex.run k (pos + width) rest st = Some found.
Proof.
  revert s pos. induction width as [|width IH]; intros s pos Hrun.
  - exists "", s. cbn in *. now rewrite Nat.add_0_r.
  - cbn [Regex.run] in Hrun. destruct s as [|c s']; [discriminate|].
    destruct (Js.isDigit c) eqn:Hc; [|discriminate].
    destruct (IH s' (S pos) Hrun) as [digits [rest [-> [Hlen [Hall Hrest]]]]].
    exists (String c digits), rest. cbn. unfold allDigits in *. cbn.
    rewrite Hc, Hall, Hlen.
    replace (pos + S width) with (S pos + width) by lia. auto.
Qed.

Lemma run_eol (pos : nat) (s : string) (st : Regex.captures) :
  Regex.run [Regex.Eol] pos s st
  = match s with EmptyString => Some (pos, st) | _ => None end.
Proof. destruct s; reflexivity. Qed.

(** Literal text up to the end of the input matches that text only. *)
Lemma run_lits_eol (text : string) (pos : nat) (s : string)
    (st : Regex.captures) :
  Regex.run (Regex.lits text ++ [Regex.Eol])%list pos s st
  = if s =? text then Some (pos + length text, st) else None.
Proof.
  destruct (String.eqb_spec s text) as [->|Hne].
  - rewrite <- (append_nil_r text) at 2. rewrite run_lits. reflexivity.
  - destruct (Regex.run (Regex.lits text ++ [Regex.Eol])%list pos s st)
      as [found|] eqn:Hrun; [|reflexivity].
    apply run_lits_inv in Hrun as [rest [-> Hrest]].
    rewrite run_eol in Hrest. destruct rest; [|discriminate].
    now rewrite append_nil_r in Hne.
Qed.

Lemma run_groupClose (k : Regex.regex) (pos : nat) (s : string)
    (st : Regex.captures) :
  Regex.run (Regex.GroupClose :: k) pos s st
  = Regex.run k pos s (Regex.closeGroup pos st).
Proof. destruct s; reflexivity. Qed.

Lemma run_groupOpen (name : string) (k : Regex.regex) (pos : nat) (s : string)
    (st : Regex.captures) :
  Regex.run (Regex.GroupOpen name :: k) pos s st
  = Regex.run k pos s (Regex.openGroup name pos st).
Proof. destruct s; reflexivity. Qed.

Lemma run_lazy_step (k : Regex.regex) (pos : nat) (s : string)
    (st : Regex.captures) :
  Regex.run (Regex.AnyLazy :: k) pos s st
  = match Regex.run k pos s st with
    | Some found => Some found
    | None =>
        match s with
        | String c rest =>
            if Js.isLineTerminator c then None
            else Regex.run (Regex.AnyLazy :: k) (S pos) rest st
        | EmptyString => None
        end
    end.
Proof. destruct s; reflexivity. Qed.

(** The lazy group of the title takes all that stands in front of the text
    the template ends with. *)
Lemma run_lazy_title (title after : string) (pos : nat) (st : Regex.captures) :
  singleLine title = true ->
  Regex.run (Regex.AnyLazy :: Regex.GroupClose
               :: Regex.lits after ++ [Regex.Eol])%list
    pos (title ++ after) st
  = Some (pos + length title + length after,
          Regex.closeGroup (pos + length title) st).
Proof.
  revert pos. induction title as [|c title IH]; intros pos Hline.
  - rewrite run_lazy_step, run_groupClose. cbn [append].
    rewrite run_lits_eol, String.eqb_refl. cbn [length].
    now rewrite Nat.add_0_r.
  - cbn in Hline. apply andb_true_iff in Hline. destruct Hline as [Hc Hline].
    apply negb_true_iff in Hc.
    rewrite run_lazy_step, run_groupClose, run_lits_eol.
    assert (Hlonger : (String c title ++ after =? after) = false).
    { apply String.eqb_neq. intros Heq.
      apply (f_equal length) in Heq. cbn in Heq. rewrite length_append in Heq.
      lia. }
    rewrite Hlonger. cbn [append]. rewrite Hc, IH by exact Hline.
    cbn [length].
    now replace (pos + S (length title)) with (S pos + length title) by lia.
Qed.

Lemma searchFrom_bol (k : Regex.regex) (s : string) (pos : nat) :
  Regex.searchFrom (Regex.Bol :: k) (S pos) s = None.
Proof.
  revert pos. induction s as [|c rest IH]; intros pos; [reflexivity|].
  cbn. apply IH.
Qed.

Lemma substring_middle (front text back : string) :
  substring (length front) (length text) (front ++ text ++ back) = text.
Proof.
  induction front as [|c front IH]; cbn [length append substring].
  - induction text as [|c text IH]; cbn [length append substring].
    + destruct back; reflexivity.
    + now rewrite IH.
  - exact IH.
Qed.

Section Identifiers.
Variable shape : TitleShape.t.

Let idText : string := TitleShape.idText shape.
Let idTail : string := TitleShape.idTail shape.
Let width : nat := TitleShape.width shape.

(** An identifier at the start of a text is matched. *)
Lemma run_idAtoms (k : Regex.regex) (pos : nat) (digits rest : string)
    (st : Regex.captures) :
  length digits = width -> allDigits digits = true ->
  Regex.run (TitleShape.idAtoms shape ++ k)%list pos
    ((idText ++ digits ++ idTail) ++ rest) st
  = Regex.run k (pos + length (idText ++ digits ++ idTail)) rest st.
Proof.
  intros Hlen Hall. unfold TitleShape.idAtoms.
  rewrite <- app_assoc, <- app_comm_cons. fold idText idTail width.
  rewrite !append_assoc, run_lits, run_digits, run_lits by assumption.
  rewrite !length_append, Hlen. f_equal. lia.
Qed.

(** What the pattern of identifiers matches starts with an identifier. *)
Lemma run_idAtoms_inv (k : Regex.regex) (pos : nat) (s : string)
    (st : Regex.captures) (found : nat * Regex.captures) :
  Regex.run (TitleShape.idAtoms shape ++ k)%list pos s st = Some found ->
  exists digits rest,
    s = (idText ++ digits ++ idTail) ++ rest
    /\ length digits = width /\ allDigits digits = true
    /\ Regex.run k (pos + length (idText ++ digits ++ idTail)) rest st
       = Some found.
Proof.
  unfold TitleShape.idAtoms.
  rewrite <- app_assoc, <- app_comm_cons. fold idText idTail width.
  intros Hrun.
  apply run_lits_inv in Hrun as [s1 [-> Hrun]].
  apply run_digits_inv in Hrun as [digits [s2 [-> [Hlen [Hall Hrun]]]]].
  apply run_lits_inv in Hrun as [rest [-> Hrest]].
  exists digits, rest. rewrite !append_assoc. repeat split; auto.
  rewrite !length_append, Hlen.
  now replace (pos + (length idText + (width + length idTail)))
    with (pos + length idText + width + length idTail) by lia.
Qed.

(** Whether the pattern of identifiers matches does not depend on where
    the text stands in the input. *)
Lemma run_idAtoms_anywhere (pos pos' : nat) (s : string)
    (st st' : Regex.captures) :
  Regex.run (TitleShape.idAtoms shape) pos s st = None ->
  Regex.run (TitleShape.idAtoms shape) pos' s st' = None.
Proof.
  intros Hnone.
  destruct (Regex.run (TitleShape.idAtoms shape) pos' s st')
    as [found|] eqn:Hrun; [|reflexivity].
  rewrite <- (app_nil_r (TitleShape.idAtoms shape)) in Hrun, Hnone.
  apply run_idAtoms_inv in Hrun as [digits [rest [-> [Hlen [Hall _]]]]].
  rewrite run_idAtoms in Hnone by assumption. discriminate.
Qed.

Lemma searchFrom_idAtoms_anywhere (pos pos' : nat) (s : string) :
  Regex.searchFrom (TitleShape.idAtoms shape) pos s = None ->
  Regex.searchFrom (TitleShape.idAtoms shape) pos' s = None.
Proof.
  revert pos pos'. induction s as [|c rest IH]; intros pos pos'.
  - cbn [Regex.searchFrom].
    destruct (Regex.run (TitleShape.idAtoms shape) pos "" Regex.noCaptures)
      as [[stop st]|] eqn:Hrun; [discriminate|].
    now rewrite (@run_idAtoms_anywhere pos pos' _ _ Regex.noCaptures Hrun).
  - cbn [Regex.searchFrom].
    destruct (Regex.run (TitleShape.idAtoms shape) pos (String c rest)
                Regex.noCaptures) as [[stop st]|] eqn:Hrun; [discriminate|].
    rewrite (@run_idAtoms_anywhere pos pos' _ _ Regex.noCaptures Hrun).
    apply IH.
Qed.

(** The identifiers: what the anchored pattern accepts. *)
Lemma idRegex_accepts (id : string) :
  Regex.test (Regex.Bol :: TitleShape.idAtoms shape ++ [Regex.Eol])%list id = true ->
  exists digits,
    id = idText ++ digits ++ idTail
    /\ length digits = width /\ allDigits digits = true.
Proof.
  unfold Regex.test. rewrite searchFrom_step.
  destruct (Regex.run (Regex.Bol :: TitleShape.idAtoms shape ++ [Regex.Eol])%list
              0 id Regex.noCaptures) as [[stop st]|] eqn:Hrun.
  - intros _. cbn [Regex.run Nat.eqb] in Hrun.
    apply run_idAtoms_inv in Hrun as [digits [rest [-> [Hlen [Hall Hrest]]]]].
    rewrite run_eol in Hrest. destruct rest; [|discriminate].
    exists digits. rewrite append_nil_r. auto.
  - destruct id; [discriminate|]. now rewrite searchFrom_bol.
Qed.
End Identifiers.

Section TitleScan.
Variable shape : TitleShape.t.
Variable input : string.

Let matchAt (pos : nat) (s : string) : option (nat * string) :=
  match Regex.run (TitleShape.idAtoms shape) pos s Regex.noCaptures with
  | Some (stop, _) => Some (stop - pos, substring pos (stop - pos) input)
  | None => None
  end.

(** The scan finds nothing in a text that lacks the first code unit of the
    identifiers. *)
Lemma scanFrom_lacking (text rest : string) (pos : nat) :
  lacks (TitleShape.idStart shape) text = true ->
  Js.scanFrom matchAt pos (text ++ rest) 0
  = Js.scanFrom matchAt (pos + length text) rest 0.
Proof.
  revert pos. induction text as [|c text IH]; intros pos Hlacks.
  - cbn [append length]. now rewrite Nat.add_0_r.
  - cbn in Hlacks. apply andb_true_iff in Hlacks. destruct Hlacks as [Hc Hlacks].
    apply negb_true_iff in Hc.
    cbn [append Js.scanFrom]. unfold matchAt at 1.
    unfold TitleShape.idAtoms, TitleShape.idText.
    rewrite run_lit_other by exact Hc.
    fold (TitleShape.idText shape). fold (TitleShape.idAtoms shape).
    fold matchAt. rewrite IH by exact Hlacks. cbn [length]. f_equal. lia.
Qed.

(** The scan resumes behind what it was told to pass over. *)
Lemma scanFrom_passing (text rest : string) (pos : nat) :
  Js.scanFrom matchAt pos (text ++ rest) (length text)
  = Js.scanFrom matchAt (pos + length text) rest 0.
Proof.
  revert pos. induction text as [|c text IH]; intros pos.
  - cbn [append length]. now rewrite Nat.add_0_r.
  - cbn [append length Js.scanFrom]. rewrite IH. f_equal. lia.
Qed.

(** The scan finds an identifier where one stands, and resumes behind it. *)
Lemma scanFrom_identifier (digits rest : string) (pos : nat) :
  length digits = TitleShape.width shape -> allDigits digits = true ->
  Js.scanFrom matchAt pos
    ((TitleShape.idText shape ++ digits ++ TitleShape.idTail shape) ++ rest) 0
  = substring pos
      (length (TitleShape.idText shape ++ digits ++ TitleShape.idTail shape))
      input
    :: Js.scanFrom matchAt
         (pos + length (TitleShape.idText shape ++ digits
                          ++ TitleShape.idTail shape))
         rest 0.
Proof.
  intros Hlen Hall.
  set (id := TitleShape.idText shape ++ digits ++ TitleShape.idTail shape).
  assert (Hrun : Regex.run (TitleShape.idAtoms shape) pos (id ++ rest)
                   Regex.noCaptures
                 = Some (pos + length id, Regex.noCaptures)).
  { rewrite <- (app_nil_r (TitleShape.idAtoms shape)). unfold id.
    now rewrite run_idAtoms by assumption. }
  assert (Hstep : matchAt pos (id ++ rest)
                  = Some (length id, substring pos (length id) input)).
  { unfold matchAt. rewrite Hrun.
    now replace (pos + length id - pos) with (length id) by lia. }
  set (tail := TitleShape.idHead shape ++ digits ++ TitleShape.idTail shape).
  assert (Hid : id = String (TitleShape.idStart shape) tail) by reflexivity.
  rewrite Hid in Hstep |- *. cbn [append Js.scanFrom length] in Hstep |- *.
  rewrite Hstep. f_equal. rewrite Nat.sub_succ, Nat.sub_0_r.
  rewrite scanFrom_passing. f_equal. lia.
Qed.
End TitleScan.

(** The one identifier that the scan finds in a formatted title. *)
Lemma matchAll_formatted (shape : TitleShape.t) (digits title : string) :
  let id := TitleShape.idText shape ++ digits ++ TitleShape.idTail shape in
  length digits = TitleShape.width shape -> allDigits digits = true ->
  lacks (TitleShape.idStart shape) (TitleShape.before shape) = true ->
  lacks (TitleShape.idStart shape) (TitleShape.between shape) = true ->
  Regex.test (TitleShape.idAtoms shape) (title ++ TitleShape.after shape) = false ->
  Regex.matchAll (TitleShape.idAtoms shape)
    (TitleShape.before shape ++ id ++ TitleShape.between shape
       ++ title ++ TitleShape.after shape)
  = [id].
Proof.
  intros id Hlen Hall Hbefore Hbetween Htitle. unfold Regex.matchAll.
  rewrite scanFrom_lacking by exact Hbefore.
  unfold id. rewrite scanFrom_identifier by assumption. fold id.
  rewrite scanFrom_lacking by exact Hbetween.
  cbn [Nat.add]. rewrite substring_middle. f_equal.
  apply scanFrom_nil. apply searchFrom_idAtoms_anywhere with (pos := 0).
  unfold Regex.test in Htitle.
  destruct (Regex.searchFrom (TitleShape.idAtoms shape) 0
              (title ++ TitleShape.after shape)); [discriminate | reflexivity].
Qed.

(** ** Splitting at a token *)

Lemma prefix_other (c c' : ascii) (sep rest : string) :
  Ascii.eqb c' c = false -> prefix (String c sep) (String c' rest) = false.
Proof.
  intros Hc. cbn. destruct (ascii_dec c c') as [->|_]; [|reflexivity].
  now rewrite Ascii.eqb_refl in Hc.
Qed.

Lemma prefix_append (sep rest : string) : prefix sep (sep ++ rest) = true.
Proof.
  induction sep as [|c sep IH]; [now destruct rest|].
  cbn. destruct (ascii_dec c c); [exact IH | contradiction].
Qed.

Lemma splitFrom_miss (sep : string) (c : ascii) (rest acc : string) :
  prefix sep (String c rest) = false ->
  Js.splitFrom sep (String c rest) 0 acc
  = Js.splitFrom sep rest 0 (Js.snoc acc c).
Proof. intros Hmiss. cbn [Js.splitFrom]. now rewrite Hmiss. Qed.

Lemma snoc_append (acc : string) (c : ascii) (text : string) :
  Js.snoc acc c ++ text = acc ++ String c text.
Proof. unfold Js.snoc. now rewrite append_assoc. Qed.

(** No token starts in a text that lacks the first code unit of the token. *)
Lemma splitFrom_lacking (c : ascii) (sep text rest acc : string) :
  lacks c text = true ->
  Js.splitFrom (String c sep) (text ++ rest) 0 acc
  = Js.splitFrom (String c sep) rest 0 (acc ++ text).
Proof.
  revert acc. induction text as [|c' text IH]; intros acc Hlacks.
  - now rewrite append_nil_r.
  - cbn in Hlacks. apply andb_true_iff in Hlacks. destruct Hlacks as [Hc Hlacks].
    apply negb_true_iff in Hc. cbn [append].
    rewrite splitFrom_miss by (now apply prefix_other).
    rewrite IH by exact Hlacks. now rewrite snoc_append.
Qed.

Lemma splitFrom_passing (sep text rest acc : string) :
  Js.splitFrom sep (text ++ rest) (length text) acc
  = Js.splitFrom sep rest 0 acc.
Proof.
  induction text as [|c text IH]; [reflexivity|]. cbn [append length Js.splitFrom].
  exact IH.
Qed.

(** A piece ends where the token stands. *)
Lemma splitFrom_token (c : ascii) (sep rest acc : string) :
  Js.splitFrom (String c sep) (String c sep ++ rest) 0 acc
  = acc :: Js.splitFrom (String c sep) rest 0 "".
Proof.
  pose proof (prefix_append (String c sep) rest) as Hprefix.
  cbn [append] in Hprefix |- *. cbn [Js.splitFrom]. rewrite Hprefix.
  cbn [length]. rewrite Nat.sub_succ, Nat.sub_0_r.
  now rewrite splitFrom_passing.
Qed.

Lemma lacks_append (c : ascii) (a b : string) :
  lacks c (a ++ b) = lacks c a && lacks c b.
Proof.
  induction a as [|c' a IH]; [reflexivity|].
  unfold lacks in *. cbn. now rewrite IH, andb_assoc.
Qed.

Lemma allDigits_lacks_brace (digits : string) :
  allDigits digits = true -> lacks "{" digits = true.
Proof.
  induction digits as [|c digits IH]; [reflexivity|].
  unfold allDigits, lacks in *. cbn. intros Hall.
  apply andb_true_iff in Hall. destruct Hall as [Hc Hall].
  rewrite (IH Hall), andb_true_r. apply negb_true_iff.
  destruct (Ascii.eqb_spec c "{") as [->|_]; [discriminate | reflexivity].
Qed.

(** [replaceAll] on a template that holds the token once. *)
Lemma replaceAll_id (before between rest id : string) :
  lacks "{" before = true -> lacks "{" between = true ->
  lacks "{" rest = true ->
  StoryId.replaceAll (before ++ "{id}" ++ between ++ "{title}" ++ rest)
    "{id}" id
  = before ++ id ++ between ++ "{title}" ++ rest.
Proof.
  intros Hbefore Hbetween Hrest.
  unfold StoryId.replaceAll, Js.split.
  rewrite splitFrom_lacking by exact Hbefore.
  rewrite splitFrom_token.
  rewrite splitFrom_lacking by exact Hbetween.
  change ("{title}" ++ rest) with (String "{" ("title}" ++ rest)).
  rewrite splitFrom_miss by reflexivity.
  rewrite (@splitFrom_lacking "{" "id}" "title}" rest) by reflexivity.
  rewrite <- (append_nil_r rest) at 1.
  rewrite splitFrom_lacking by exact Hrest.
  cbn [Js.splitFrom Js.join String.concat].
  rewrite snoc_append. cbn [append]. rewrite !append_assoc. reflexivity.
Qed.

Lemma replaceAll_title (front rest title : string) :
  lacks "{" front = true -> lacks "{" rest = true ->
  StoryId.replaceAll (front ++ "{title}" ++ rest) "{title}" title
  = front ++ title ++ rest.
Proof.
  intros Hfront Hrest. unfold StoryId.replaceAll, Js.split.
  rewrite splitFrom_lacking by exact Hfront.
  rewrite splitFrom_token.
  rewrite <- (append_nil_r rest) at 1.
  rewrite splitFrom_lacking by exact Hrest.
  reflexivity.
Qed.

(** ** The template of card titles on a formatted title *)

Section Formatted.
Variable shape : TitleShape.t.
Variable digits : string.
Variable title : string.

Let id : string :=
  TitleShape.idText shape ++ digits ++ TitleShape.idTail shape.
Let formatted : string :=
  TitleShape.before shape ++ id ++ TitleShape.between shape
    ++ title ++ TitleShape.after shape.
Let template : Regex.regex :=
  (Regex.Bol :: Regex.lits (TitleShape.before shape)
     ++ Regex.GroupOpen "id" :: TitleShape.idAtoms shape
     ++ Regex.GroupClose :: Regex.lits (TitleShape.between shape)
     ++ Regex.GroupOpen "title" :: Regex.AnyLazy :: Regex.GroupClose
     :: Regex.lits (TitleShape.after shape) ++ [Regex.Eol])%list.

Hypothesis digits_width : length digits = TitleShape.width shape.
Hypothesis digits_all : allDigits digits = true.
Hypothesis title_line : singleLine title = true.

Lemma run_template :
  Regex.run template 0 formatted Regex.noCaptures
  = Some (length (TitleShape.before shape) + length id
            + length (TitleShape.between shape) + length title
            + length (TitleShape.after shape),
          {| Regex.opened := [];
             Regex.closed :=
               [ ("title",
                  (length (TitleShape.before shape) + length id
                     + length (TitleShape.between shape),
                   length (TitleShape.before shape) + length id
                     + length (TitleShape.between shape) + length title));
                 ("id",
                  (length (TitleShape.before shape),
                   length (TitleShape.before shape) + length id)) ] |}).
Proof.
  unfold template, formatted. cbn [Regex.run Nat.eqb].
  rewrite run_lits, run_groupOpen. unfold id.
  rewrite run_idAtoms by assumption. fold id.
  rewrite run_groupClose, run_lits, run_groupOpen.
  rewrite run_lazy_title by exact title_line.
  reflexivity.
Qed.

Lemma exec_template :
  exists found,
    Regex.exec template formatted = Some found
    /\ Regex.group "id" found = Some id
    /\ Regex.group "title" found = Some title.
Proof.
  unfold Regex.exec. rewrite searchFrom_step, run_template.
  eexists. split; [reflexivity|].
  unfold Regex.group. cbn [Regex.groups Regex.closed map find fst snd
                             String.eqb Ascii.eqb Bool.eqb option_map].
  split; f_equal.
  - replace (length (TitleShape.before shape) + length id
             - length (TitleShape.before shape)) with (length id) by lia.
    apply substring_middle.
  - replace (length (TitleShape.before shape) + length id
             + length (TitleShape.between shape) + length title
             - (length (TitleShape.before shape) + length id
                + length (TitleShape.between shape)))
      with (length title) by lia.
    unfold formatted.
    replace (TitleShape.before shape ++ id ++ TitleShape.between shape
               ++ title ++ TitleShape.after shape)
      with ((TitleShape.before shape ++ id ++ TitleShape.between shape)
              ++ title ++ TitleShape.after shape)
      by (now rewrite !append_assoc).
    replace (length (TitleShape.before shape) + length id
             + length (TitleShape.between shape))
      with (length (TitleShape.before shape ++ id ++ TitleShape.between shape))
      by (rewrite !length_append; lia).
    apply substring_middle.
Qed.
End Formatted.


(** The codec of the default mapping has the default shape. *)
Lemma fixture_shape : TitleShape.fits Fixture.codec TitleShape.default.
Proof. unfold TitleShape.fits. repeat split; reflexivity. Qed.



(** Nor does a title of two lines come back: the template of card titles
    does not match a card title that holds a line terminator. *)
Lemma round_trip_breaks_at_line_end :
  let title := "a" ++ String "010"%char "b" in
  Regex.test (StoryId.idSearchRegex Fixture.codec) title = false
  /\ Js.trim title = title
  /\ StoryId.formatCardTitle Fixture.codec "US-001" title
     = Ok ("[US-001] " ++ title)
  /\ StoryId.parseCardTitle Fixture.codec ("[US-001] " ++ title)
     = StoryId.ParseMissing "Story ID not in canonical card title format"
         ["US-001"] ("[US-001] " ++ title).
Proof. vm_compute. repeat split; reflexivity. Qed.

(** ** What a run adds to the log *)

Section Logs.
Variable W : Type.
Variable allowed : Call -> bool.

Lemma logsOnly_ret (A : Type) (a : A) : logsOnly allowed (@ret W A a).
Proof. intros w log. exists []. cbn. now rewrite app_nil_r. Qed.

Lemma logsOnly_liftResult (A : Type) (r : Result A) :
  logsOnly allowed (@liftResult W A r).
Proof. intros w log. exists []. cbn. now rewrite app_nil_r. Qed.

Lemma logsOnly_perform (A : Type) (call : Call) (op : W -> W * Result A) :
  allowed call = true -> logsOnly allowed (perform call op).
Proof.
  intros Hcall w log. exists [call]. unfold perform.
  destruct (op w) as [w' r]. cbn. now rewrite Hcall.
Qed.

Lemma logsOnly_bindM (A B : Type) (m : M W A) (k : A -> M W B) :
  logsOnly allowed m -> (forall a, logsOnly allowed (k a)) ->
  logsOnly allowed (bindM m k).
Proof.
  intros Hm Hk w log. unfold bindM.
  destruct (Hm w log) as [first [Hfirst Hallowed]].
  destruct (m (w, log)) as [[w' log'] [a|e]]; cbn in Hfirst; subst log'.
  - destruct (Hk a w' (log ++ first)%list) as [second [Hsecond Hallowed']].
    exists (first ++ second)%list. rewrite Hsecond, app_assoc. split; [reflexivity|].
    now rewrite forallb_app, Hallowed, Hallowed'.
  - exists first. auto.
Qed.

Lemma logsOnly_mapM (A B : Type) (f : A -> M W B) (items : list A) :
  (forall item, logsOnly allowed (f item)) -> logsOnly allowed (mapM f items).
Proof.
  intros Hf. induction items as [|item items IH]; cbn [mapM].
  - apply logsOnly_ret.
  - apply logsOnly_bindM; [apply Hf|]. intros b.
    apply logsOnly_bindM; [exact IH|]. intros bs. apply logsOnly_ret.
Qed.
End Logs.

Section ReadOnlyRuns.
Variable host : Host.
Variable W : Type.
Variable adapters : Adapters.t W.

Lemma buildPlan_reads (options : SyncPlanOptions.t) :
  logsOnly readsOnly (buildPlan host adapters options).
Proof.
  unfold buildPlan.
  apply logsOnly_bindM; [apply logsOnly_liftResult|]. intros codec.
  apply logsOnly_bindM; [now apply logsOnly_perform|]. intros prdResult.
  apply logsOnly_bindM; [now apply logsOnly_perform|]. intros lists.
  apply logsOnly_bindM; [now apply logsOnly_perform|]. intros cards.
  apply logsOnly_bindM; [now apply logsOnly_perform|]. intros labels.
  apply logsOnly_bindM; [|intros results; apply logsOnly_liftResult].
  apply logsOnly_mapM. intros record. now apply logsOnly_perform.
Qed.

Lemma buildSnapshot_reads (context : SyncContext.t)
    (applyResult : SyncApplyResult.t) :
  logsOnly readsOnly (buildSnapshot host adapters context applyResult).
Proof.
  unfold buildSnapshot.
  apply logsOnly_bindM; [|intros cards; apply logsOnly_ret].
  destruct (Nat.ltb 0 _); [|apply logsOnly_ret].
  apply logsOnly_bindM; [now apply logsOnly_perform|].
  intros refreshed. apply logsOnly_ret.
Qed.

Lemma warn_reads (message : string) : logsOnly readsOnly (@warn W message).
Proof. now apply logsOnly_perform. Qed.

Lemma loadSyncState_reads (statePath boardId prdPath mappingSignature : string) :
  logsOnly readsOnly
    (loadSyncState adapters statePath boardId prdPath mappingSignature).
Proof.
  unfold loadSyncState.
  apply logsOnly_bindM; [now apply logsOnly_perform|]. intros read.
  destruct read as [raw| |message].
  - destruct (Adapters.decodeState adapters raw) as [message|message|state].
    + apply logsOnly_bindM; [apply warn_reads | intros; apply logsOnly_ret].
    + apply logsOnly_bindM; [apply warn_reads | intros; apply logsOnly_ret].
    + destruct (validateSyncState state boardId prdPath mappingSignature).
      * apply logsOnly_bindM; [apply warn_reads | intros; apply logsOnly_ret].
      * apply logsOnly_ret.
  - apply logsOnly_ret.
  - apply logsOnly_bindM; [apply warn_reads | intros; apply logsOnly_ret].
Qed.

Lemma syncWithState_dry_run_reads (options : SyncPlanOptions.t) :
  SyncPlanOptions.dryRun options = Some true ->
  logsOnly readsOnly (syncWithState host adapters options).
Proof.
  intros Hdry. unfold syncWithState.
  apply logsOnly_bindM; [apply buildPlan_reads|]. intros [plan context].
  rewrite Hdry. cbn [Js.orElse orb].
  apply logsOnly_bindM; [apply buildSnapshot_reads|]. intros snapshot.
  apply logsOnly_ret.
Qed.

(** A dry run through [syncWithStateFile] reads and warns, and does nothing
    else: it writes neither to the stores nor to the state file. *)
Lemma syncWithStateFile_dry_run_reads (statePath boardId : string)
    (incremental : option bool) (syncOptions : SyncPlanOptions.t) :
  SyncPlanOptions.dryRun syncOptions = Some true ->
  logsOnly readsOnly
    (syncWithStateFile host adapters statePath boardId incremental syncOptions).
Proof.
  intros Hdry. unfold syncWithStateFile.
  apply logsOnly_bindM.
  { destruct (Js.orElse incremental true);
      [apply loadSyncState_reads | apply logsOnly_ret]. }
  intros priorState.
  apply logsOnly_bindM; [now apply syncWithState_dry_run_reads|].
  intros [plan snapshot].
  apply logsOnly_bindM; [|intros; apply logsOnly_ret].
  rewrite Hdry. cbn [Js.orElse negb]. apply logsOnly_ret.
Qed.
End ReadOnlyRuns.

(** ** The state file *)

(** C8, at the run of the test "blocks writes when conflicts exist and
    blockWrites is set", made through [syncWithStateFile] and not as a dry
    run: the plan holds a conflict, so the writes are suppressed and no call
    writes to the board or to the document; the state file is written all
    the same, with the state of the stores as they stand. *)
Theorem blocked_run_writes_state :
  exists world log plan state,
    syncWithStateFile Fixture.host Memory.adapters Memory.statePath "board-1"
      None (Fixture.options None (Some true) None) (Memory.blocked, [])
    = ((world, log), Ok (plan, state))
    /\ writesBlocked (Fixture.options None (Some true) None) plan = true
    /\ filter Memory.isStoreWrite log = []
    /\ filter (Memory.isStateWrite Memory.statePath) log
       = [CallWriteFile Memory.statePath
            (Memory.encodeState state ++ String "010"%char EmptyString)]
    /\ JsMap.get (Memory.files world) Memory.statePath
       = Some (Memory.encodeState state ++ String "010"%char EmptyString)
    /\ Memory.document world = Memory.document Memory.blocked
    /\ Memory.boardCards world = Memory.boardCards Memory.blocked.
Proof.
  destruct (syncWithStateFile Fixture.host Memory.adapters Memory.statePath
              "board-1" None (Fixture.options None (Some true) None)
              (Memory.blocked, []))
    as [[world log] [[plan state]|failure]] eqn:Erun;
    [|vm_compute in Erun; discriminate].
  exists world, log, plan, state. split; [reflexivity|].
  vm_compute in Erun.
  injection Erun as Hworld Hlog Hplan Hstate. subst world log plan state.
  vm_compute. repeat split; reflexivity.
Qed.

(** What the state written by the blocked run does to the run that follows
    it: the pending update of US-002 and the conflict of US-001 are gone
    from the plan, both pairs being taken as unchanged since the last
    synchronisation, although neither store was written to. *)
Lemma blocked_run_hides_pending_changes :
  exists world log plan state world' log' plan' state',
    syncWithStateFile Fixture.host Memory.adapters Memory.statePath "board-1"
      None (Fixture.options None (Some true) None) (Memory.blocked, [])
    = ((world, log), Ok (plan, state))
    /\ map SyncUpdate.id (SyncPlan.updates plan) = ["US-002"]
    /\ map SyncConflict.id (SyncPlan.conflicts plan) = [Some "US-001"]
    /\ syncWithStateFile Fixture.host (Memory.adaptersReading state)
         Memory.statePath "board-1" None
         (Fixture.options None (Some true) None) (world, [])
       = ((world', log'), Ok (plan', state'))
    /\ SyncPlan.updates plan' = []
    /\ SyncPlan.conflicts plan' = []
    /\ SyncPlan.noop plan'
       = [ {| SyncNoop.id := "US-001";
              SyncNoop.reason := "Unchanged since last sync" |};
           {| SyncNoop.id := "US-002";
              SyncNoop.reason := "Unchanged since last sync" |} ].
Proof.
  destruct (syncWithStateFile Fixture.host Memory.adapters Memory.statePath
              "board-1" None (Fixture.options None (Some true) None)
              (Memory.blocked, []))
    as [[world log] [[plan state]|failure]] eqn:Erun;
    [|vm_compute in Erun; discriminate].
  exists world, log, plan, state.
  destruct (syncWithStateFile Fixture.host (Memory.adaptersReading state)
              Memory.statePath "board-1" None
              (Fixture.options None (Some true) None) (world, []))
    as [[world' log'] [[plan' state']|failure]] eqn:Enext.
  - exists world', log', plan', state'.
    vm_compute in Erun.
    injection Erun as Hworld Hlog Hplan Hstate. subst world log plan state.
    vm_compute in Enext.
    injection Enext as Hworld Hlog Hplan Hstate. subst world' log' plan' state'.
    repeat split; reflexivity.
  - vm_compute in Erun.
    injection Erun as Hworld Hlog Hplan Hstate. subst world log plan state.
    vm_compute in Enext. discriminate.
Qed.

(** ** Escaped text as a pattern *)

Lemma parse_escaped_char (c : ascii) (fuel : nat) (rest : string) :
  Regex.isSyntaxChar c = true ->
  Regex.parse (S fuel) (String Regex.backslash (String c rest))
  = option_map (cons (Regex.Lit c)) (Regex.parse fuel rest).
Proof.
  destruct c as [[] [] [] [] [] [] [] []]; intros Hc;
    try discriminate Hc; reflexivity.
Qed.

Lemma parse_plain_char (c : ascii) (fuel : nat) (rest : string) :
  Regex.isSyntaxChar c = false ->
  Regex.parse (S fuel) (String c rest)
  = option_map (cons (Regex.Lit c)) (Regex.parse fuel rest).
Proof.
  destruct c as [[] [] [] [] [] [] [] []]; intros Hc;
    try discriminate Hc; reflexivity.
Qed.

Lemma parse_empty (fuel : nat) : Regex.parse fuel "" = Some [].
Proof. destruct fuel; reflexivity. Qed.

(** Escaped text in front of a pattern contributes the text, one literal a
    code unit, and one unit of fuel a literal. *)
Lemma parse_escaped (text rest : string) (fuel : nat) :
  Regex.parse (length text + fuel) (StoryId.escapeRegExp text ++ rest)
  = option_map (List.app (Regex.lits text)) (Regex.parse fuel rest).
Proof.
  induction text as [|c text IH].
  - cbn. now destruct (Regex.parse fuel rest).
  - cbn [StoryId.escapeRegExp length Nat.add].
    destruct (Regex.isSyntaxChar c) eqn:Hc; cbn [append].
    + rewrite parse_escaped_char by exact Hc. rewrite IH.
      now destruct (Regex.parse fuel rest).
    + rewrite parse_plain_char by exact Hc. rewrite IH.
      now destruct (Regex.parse fuel rest).
Qed.

Lemma escapeRegExp_length (text : string) :
  length text <= length (StoryId.escapeRegExp text).
Proof.
  induction text as [|c text IH]; [reflexivity|].
  cbn [StoryId.escapeRegExp].
  destruct (Regex.isSyntaxChar c); cbn [length]; lia.
Qed.

Lemma run_anchored (text : string) (s : string) :
  Regex.test (Regex.Bol :: Regex.lits text ++ [Regex.Eol])%list s = (s =? text).
Proof.
  unfold Regex.test. rewrite searchFrom_step.
  cbn [Regex.run Nat.eqb]. rewrite run_lits_eol.
  destruct (s =? text); [reflexivity|].
  destruct s; [reflexivity|]. now rewrite searchFrom_bol.
Qed.

(** Text escaped by [escapeRegExp] and put between [^] and [$] is a
    pattern, and the pattern matches that text and no other. *)
Theorem escapeRegExp_literal (text : string) :
  exists pattern,
    Regex.compile ("^" ++ StoryId.escapeRegExp text ++ "$") = Ok pattern
    /\ forall s, Regex.test pattern s = (s =? text).
Proof.
  exists (Regex.Bol :: Regex.lits text ++ [Regex.Eol])%list.
  split; [|intros s; apply run_anchored].
  unfold Regex.compile.
  pose proof (escapeRegExp_length text) as Hlen.
  cbn [append length].
  replace (length (StoryId.escapeRegExp text ++ "$"))
    with (length text + S (length (StoryId.escapeRegExp text) - length text))
    by (rewrite length_append; cbn [length]; lia).
  cbn [Regex.parse]. rewrite parse_escaped.
  assert (Hend : forall fuel, Regex.parse (S fuel) "$" = Some [Regex.Eol])
    by (intros fuel; cbn; now rewrite parse_empty).
  rewrite Hend. reflexivity.
Qed.

(** ** [split], [join] and [replaceAll] *)

Lemma prefix_inv (sep s : string) :
  prefix sep s = true -> exists rest, s = sep ++ rest.
Proof.
  revert s. induction sep as [|c sep IH]; intros s Hprefix.
  - exists s. reflexivity.
  - destruct s as [|c' s]; [discriminate|]. cbn in Hprefix.
    destruct (ascii_dec c c') as [<-|]; [|discriminate].
    destruct (IH _ Hprefix) as [rest ->]. exists rest. reflexivity.
Qed.

Lemma prefix_false (sep s : string) :
  (forall rest, s <> sep ++ rest) -> prefix sep s = false.
Proof.
  intros Hnot. destruct (prefix sep s) eqn:Hprefix; [|reflexivity].
  apply prefix_inv in Hprefix as [rest ->]. now destruct (Hnot rest).
Qed.

Lemma splitFrom_nonempty (sep s : string) (skip : nat) (acc : string) :
  Js.splitFrom sep s skip acc <> [].
Proof.
  revert skip acc. induction s as [|c s IH]; intros skip acc.
  - destruct skip; discriminate.
  - destruct skip as [|skip]; cbn [Js.splitFrom]; [|apply IH].
    destruct (prefix sep (String c s)); [discriminate | apply IH].
Qed.

Lemma concat_cons (sep piece : string) (pieces : list string) :
  pieces <> [] ->
  String.concat sep (piece :: pieces) = piece ++ sep ++ String.concat sep pieces.
Proof. destruct pieces; [contradiction | reflexivity]. Qed.

(** Joining the pieces with the separator gives the text back. *)
Lemma join_splitFrom (c : ascii) (sep : string) (todo : nat) :
  forall (s acc : string),
    length s <= todo ->
    Js.join (Js.splitFrom (String c sep) s 0 acc) (String c sep) = acc ++ s.
Proof.
  unfold Js.join.
  induction todo as [|todo IH]; intros s acc Hlen.
  - destruct s; [|cbn in Hlen; lia]. cbn. now rewrite append_nil_r.
  - destruct s as [|c' s]; [cbn; now rewrite append_nil_r|].
    cbn [length] in Hlen.
    destruct (prefix (String c sep) (String c' s)) eqn:Hprefix.
    + apply prefix_inv in Hprefix as [rest Hrest]. rewrite Hrest.
      rewrite splitFrom_token.
      rewrite concat_cons by apply splitFrom_nonempty.
      rewrite IH; [reflexivity|].
      apply (f_equal length) in Hrest. cbn [length append] in Hrest.
      rewrite length_append in Hrest. lia.
    + rewrite splitFrom_miss by exact Hprefix.
      rewrite IH by lia. apply snoc_append.
Qed.

Lemma join_chars (s : string) : Js.join (Js.chars s) "" = s.
Proof.
  unfold Js.join. induction s as [|c s IH]; [reflexivity|].
  cbn [Js.chars]. destruct s as [|c' s]; [reflexivity|].
  rewrite concat_cons by discriminate. rewrite IH. reflexivity.
Qed.

(** Where the separator stands nowhere in the text, the text is the one
    piece. *)
Lemma splitFrom_absent (c : ascii) (sep : string) (s acc : string) :
  (forall front back, s <> front ++ String c sep ++ back) ->
  Js.splitFrom (String c sep) s 0 acc = [acc ++ s].
Proof.
  revert acc. induction s as [|c' s IH]; intros acc Habsent.
  - now rewrite append_nil_r.
  - rewrite splitFrom_miss.
    + rewrite IH; [now rewrite snoc_append|].
      intros front back ->. apply (Habsent (String c' front) back). reflexivity.
    + apply prefix_false. intros rest Hrest. apply (Habsent "" rest). exact Hrest.
Qed.

(** [replaceAll] leaves the value as it is when the replacement is the
    text searched for, and when the text searched for, not empty, stands
    nowhere in the value. *)
Theorem replaceAll_unchanged (value search : string) :
  StoryId.replaceAll value search search = value
  /\ forall replacement,
       search <> "" ->
       (forall front back, value <> front ++ search ++ back) ->
       StoryId.replaceAll value search replacement = value.
Proof.
  unfold StoryId.replaceAll, Js.split. split.
  - destruct search as [|c sep]; [apply join_chars|].
    now rewrite (@join_splitFrom c sep (length value) value "").
  - intros replacement Hsearch Habsent.
    destruct search as [|c sep]; [contradiction|].
    rewrite splitFrom_absent by exact Habsent. reflexivity.
Qed.

Lemma replaceAll_unchanged_witness :
  StoryId.replaceAll "[{id}] {title}" "{id}" "{id}" = "[{id}] {title}"
  /\ StoryId.replaceAll "US-001" "{prefix}" "US" = "US-001".
Proof.
  split.
  - apply (proj1 (replaceAll_unchanged "[{id}] {title}" "{id}")).
  - apply (proj2 (replaceAll_unchanged "US-001" "{prefix}")); [discriminate|].
    intros front back Heq.
    assert (Hlen : length "US-001" = length (front ++ "{prefix}" ++ back))
      by now rewrite <- Heq.
    rewrite !length_append in Hlen. cbn in Hlen. lia.
Defined.

(** ** The tokens of an [idPattern] *)

Lemma numberTokenAt_other (c : ascii) (rest : string) :
  Ascii.eqb c "{" = false -> StoryId.numberTokenAt (String c rest) = None.
Proof.
  intros Hc. unfold StoryId.numberTokenAt. cbn [StoryId.dropPrefix].
  rewrite eqb_sym, Hc. reflexivity.
Qed.

Lemma scanFrom_skipping (A : Type) (matchAt : nat -> string -> option (nat * A))
    (text rest : string) (pos : nat) :
  Js.scanFrom matchAt pos (text ++ rest) (length text)
  = Js.scanFrom matchAt (pos + length text) rest 0.
Proof.
  revert pos. induction text as [|c text IH]; intros pos.
  - cbn [append length]. now rewrite Nat.add_0_r.
  - cbn [append length Js.scanFrom]. rewrite IH. f_equal. lia.
Qed.

Lemma numberScan_lacking (text rest : string) (pos : nat) :
  lacks "{" text = true ->
  Js.scanFrom (fun _ s => StoryId.numberTokenAt s) pos (text ++ rest) 0
  = Js.scanFrom (fun _ s => StoryId.numberTokenAt s) (pos + length text) rest 0.
Proof.
  revert pos. induction text as [|c text IH]; intros pos Hlacks.
  - cbn [append length]. now rewrite Nat.add_0_r.
  - cbn in Hlacks. apply andb_true_iff in Hlacks. destruct Hlacks as [Hc Hlacks].
    apply negb_true_iff in Hc. cbn [append Js.scanFrom].
    rewrite numberTokenAt_other by exact Hc.
    rewrite IH by exact Hlacks. cbn [length]. f_equal. lia.
Qed.

Lemma numberMatches_lacking (pattern : string) :
  lacks "{" pattern = true -> StoryId.numberMatches pattern = [].
Proof.
  intros Hlacks. unfold StoryId.numberMatches.
  rewrite <- (append_nil_r pattern), numberScan_lacking by exact Hlacks.
  reflexivity.
Qed.

(** The plain number token where it stands in a pattern. *)
Lemma numberScan_plain (rest : string) (pos : nat) :
  Js.scanFrom (fun _ s => StoryId.numberTokenAt s) pos ("{number}" ++ rest) 0
  = ("{number}", None)
    :: Js.scanFrom (fun _ s => StoryId.numberTokenAt s) (pos + 8) rest 0.
Proof.
  change ("{number}" ++ rest) with (String "{" ("number}" ++ rest)).
  cbn [Js.scanFrom].
  change (StoryId.numberTokenAt (String "{" ("number}" ++ rest)))
    with (Some (8, ("{number}", @None string))).
  cbv iota beta. f_equal.
  change (8 - 1) with (length "number}").
  rewrite scanFrom_skipping. f_equal. cbn. lia.
Qed.

Lemma split_lacking (c : ascii) (sep text : string) :
  lacks c text = true -> Js.split text (String c sep) = [text].
Proof.
  intros Hlacks. unfold Js.split.
  rewrite <- (append_nil_r text) at 1.
  rewrite splitFrom_lacking by exact Hlacks. reflexivity.
Qed.

(** [createStoryIdCodec] rejects an [idPattern] that holds no brace, for
    want of a number token, and one that holds the number token and no
    other brace, for want of the prefix token. *)
Theorem createStoryIdCodec_rejects_idPattern (mapping : StoryId.StoryIdMapping) :
  (lacks "{" (StoryId.idPattern mapping) = true ->
   StoryId.createStoryIdCodec mapping
   = Throw (StoryIdFormatError "idPattern must include a {number} token"))
  /\ (forall front back,
        StoryId.idPattern mapping = front ++ "{number}" ++ back ->
        lacks "{" front = true -> lacks "{" back = true ->
        StoryId.createStoryIdCodec mapping
        = Throw (StoryIdFormatError "idPattern must include a {prefix} token"))
  /\ (forall front middle back,
        StoryId.idPattern mapping
        = front ++ "{number}" ++ middle ++ "{number}" ++ back ->
        lacks "{" front = true -> lacks "{" middle = true ->
        lacks "{" back = true ->
        StoryId.createStoryIdCodec mapping
        = Throw (StoryIdFormatError
                   "idPattern must include only one {number} token")).
Proof.
  unfold StoryId.createStoryIdCodec, StoryId.parseIdPattern. split; [|split].
  - intros Hlacks. rewrite numberMatches_lacking by exact Hlacks. reflexivity.
  - intros front back -> Hfront Hback. unfold StoryId.numberMatches.
    rewrite numberScan_lacking by exact Hfront.
    rewrite numberScan_plain.
    rewrite <- (append_nil_r back) at 1.
    rewrite numberScan_lacking by exact Hback.
    cbn [Js.scanFrom]. change (StoryId.numberTokenAt "") with (@None (nat * (string * option string))).
    cbv iota beta.
    unfold StoryId.includes, StoryId.PREFIX_TOKEN, Js.split.
    rewrite splitFrom_lacking by exact Hfront.
    change ("{number}" ++ back) with (String "{" ("number}" ++ back)).
    rewrite splitFrom_miss by reflexivity.
    rewrite (@splitFrom_lacking "{" "prefix}" "number}" back) by reflexivity.
    rewrite <- (append_nil_r back) at 1.
    rewrite splitFrom_lacking by exact Hback.
    reflexivity.
  - intros front middle back -> Hfront Hmiddle Hback. unfold StoryId.numberMatches.
    rewrite numberScan_lacking by exact Hfront.
    rewrite numberScan_plain.
    rewrite numberScan_lacking by exact Hmiddle.
    rewrite numberScan_plain.
    reflexivity.
Qed.

Lemma createStoryIdCodec_rejects_idPattern_witness :
  StoryId.createStoryIdCodec
    {| StoryId.storyPrefix := "US"; StoryId.idPattern := "US-7";
       StoryId.cardTitleFormat := "[{id}] {title}" |}
  = Throw (StoryIdFormatError "idPattern must include a {number} token")
  /\ StoryId.createStoryIdCodec
       {| StoryId.storyPrefix := "US"; StoryId.idPattern := "US-{number}";
          StoryId.cardTitleFormat := "[{id}] {title}" |}
     = Throw (StoryIdFormatError "idPattern must include a {prefix} token")
  /\ StoryId.createStoryIdCodec
       {| StoryId.storyPrefix := "US"; StoryId.idPattern := "{number}-{number}";
          StoryId.cardTitleFormat := "[{id}] {title}" |}
     = Throw (StoryIdFormatError "idPattern must include only one {number} token").
Proof.
  split; [|split].
  - apply (proj1 (createStoryIdCodec_rejects_idPattern _)). reflexivity.
  - apply (proj1 (proj2 (createStoryIdCodec_rejects_idPattern _)) "US-" "");
      reflexivity.
  - apply (proj2 (proj2 (createStoryIdCodec_rejects_idPattern _)) "" "-" "");
      reflexivity.
Defined.

(** [parseCardTitleFormat] rejects a format that holds no brace, and a
    format that holds one of the two tokens and no other brace. *)
Theorem parseCardTitleFormat_rejects (format idRegexSource : string) :
  let rejected :=
    Throw (StoryIdFormatError
             "cardTitleFormat must include exactly one {id} and one {title} token") in
  (lacks "{" format = true ->
   StoryId.parseCardTitleFormat format idRegexSource = rejected)
  /\ (forall front back,
        format = front ++ "{id}" ++ back ->
        lacks "{" front = true -> lacks "{" back = true ->
        StoryId.parseCardTitleFormat format idRegexSource = rejected)
  /\ (forall front back,
        format = front ++ "{title}" ++ back ->
        lacks "{" front = true -> lacks "{" back = true ->
        StoryId.parseCardTitleFormat format idRegexSource = rejected).
Proof.
  intros rejected. unfold StoryId.parseCardTitleFormat.
  unfold StoryId.CARD_ID_TOKEN, StoryId.CARD_TITLE_TOKEN. split; [|split].
  - intros Hlacks. rewrite !split_lacking by exact Hlacks. reflexivity.
  - intros front back -> Hfront Hback.
    assert (Htitle : Js.split (front ++ "{id}" ++ back) "{title}"
                     = [front ++ "{id}" ++ back]).
    { unfold Js.split. rewrite splitFrom_lacking by exact Hfront.
      change ("{id}" ++ back) with (String "{" ("id}" ++ back)).
      rewrite splitFrom_miss by reflexivity.
      rewrite (@splitFrom_lacking "{" "title}" "id}" back) by reflexivity.
      rewrite <- (append_nil_r back) at 1.
      rewrite splitFrom_lacking by exact Hback.
      cbn [Js.splitFrom]. rewrite snoc_append. cbn [append].
      now rewrite !append_assoc. }
    rewrite Htitle. cbn [List.length Nat.sub Nat.eqb negb].
    now rewrite orb_true_r.
  - intros front back -> Hfront Hback.
    assert (Hid : Js.split (front ++ "{title}" ++ back) "{id}"
                  = [front ++ "{title}" ++ back]).
    { unfold Js.split. rewrite splitFrom_lacking by exact Hfront.
      change ("{title}" ++ back) with (String "{" ("title}" ++ back)).
      rewrite splitFrom_miss by reflexivity.
      rewrite (@splitFrom_lacking "{" "id}" "title}" back) by reflexivity.
      rewrite <- (append_nil_r back) at 1.
      rewrite splitFrom_lacking by exact Hback.
      cbn [Js.splitFrom]. rewrite snoc_append. cbn [append].
      now rewrite !append_assoc. }
    rewrite Hid. reflexivity.
Qed.

Lemma parseCardTitleFormat_rejects_witness :
  StoryId.parseCardTitleFormat "{id}: no title" "US-7"
  = Throw (StoryIdFormatError
             "cardTitleFormat must include exactly one {id} and one {title} token").
Proof.
  apply (proj1 (proj2 (parseCardTitleFormat_rejects "{id}: no title" "US-7"))
           "" ": no title"); reflexivity.
Defined.

(** ** What [parseCardTitle] returns *)

Lemma trimEnd_idempotent (s : string) : Js.trimEnd (Js.trimEnd s) = Js.trimEnd s.
Proof.
  induction s as [|c s IH]; [reflexivity|]. cbn [Js.trimEnd].
  destruct (Js.isWhiteSpace c && (Js.trimEnd s =? "")) eqn:Hdrop; [reflexivity|].
  cbn [Js.trimEnd]. rewrite IH, Hdrop. reflexivity.
Qed.

Lemma trimStart_head (s : string) :
  match Js.trimStart s with
  | String c _ => Js.isWhiteSpace c = false
  | EmptyString => True
  end.
Proof.
  induction s as [|c s IH]; [exact I|]. cbn [Js.trimStart].
  destruct (Js.isWhiteSpace c) eqn:Hc; [exact IH | exact Hc].
Qed.

(** Trimming what is trimmed changes nothing. *)
Lemma trim_idempotent (s : string) : Js.trim (Js.trim s) = Js.trim s.
Proof.
  unfold Js.trim. pose proof (trimStart_head s) as Hhead.
  destruct (Js.trimStart s) as [|c rest]; [reflexivity|].
  cbn [Js.trimEnd]. rewrite Hhead. cbn [andb Js.trimStart]. rewrite Hhead.
  cbn [Js.trimEnd]. rewrite Hhead. cbn [andb]. now rewrite trimEnd_idempotent.
Qed.

(** Whatever the codec and the card title: [parseCardTitle] returns an
    identifier only when the scan for identifiers finds exactly one, the
    identifier is not empty, and the title that comes with it has no white
    space at either end; a result that is not "ok" carries the card title as
    it was given and all the matches of the scan. *)
Theorem parseCardTitle_results (codec : StoryId.StoryIdCodec) (cardTitle : string) :
  match StoryId.parseCardTitle codec cardTitle with
  | StoryId.ParseOk id title =>
      id <> "" /\ Js.trim title = title
      /\ List.length (Regex.matchAll (StoryId.idSearchRegex codec) cardTitle) = 1
  | StoryId.ParseMissing _ matches title =>
      title = cardTitle
      /\ matches = Regex.matchAll (StoryId.idSearchRegex codec) cardTitle
      /\ List.length matches <= 1
  | StoryId.ParseAmbiguous _ matches title =>
      title = cardTitle
      /\ matches = Regex.matchAll (StoryId.idSearchRegex codec) cardTitle
      /\ 1 < List.length matches
  end.
Proof.
  unfold StoryId.parseCardTitle.
  destruct (Regex.matchAll (StoryId.idSearchRegex codec) cardTitle)
    as [|m1 [|m2 rest]].
  - cbn. auto.
  - destruct (Regex.exec (StoryId.regex (StoryId.cardTitleSpec codec)) cardTitle)
      as [found|]; [|cbn; auto].
    destruct (Regex.group "id" found) as [id|]; [|cbn; auto].
    cbn [Js.truthyOpt]. unfold Js.truthy.
    destruct (String.eqb_spec id "") as [->|Hid]; cbn [negb]; [cbn; auto|].
    cbn [Js.orElse]. split; [exact Hid|]. split; [apply trim_idempotent|].
    reflexivity.
  - cbn. repeat split; lia.
Qed.

(** ** Decimal numerals *)

Lemma allDigits_string_of_uint (u : Decimal.uint) :
  allDigits (NilEmpty.string_of_uint u) = true.
Proof. induction u; cbn; auto. Qed.

Lemma allDigits_showNat (n : nat) : allDigits (Js.showNat n) = true.
Proof. apply allDigits_string_of_uint. Qed.

Lemma showNat_nonempty (n : nat) : Js.showNat n <> "".
Proof.
  unfold Js.showNat. intros Hempty.
  assert (Hnil : Nat.to_uint n = Decimal.Nil)
    by (destruct (Nat.to_uint n); (reflexivity || discriminate)).
  pose proof (DecimalNat.Unsigned.of_to n) as Hback. rewrite Hnil in Hback.
  cbn in Hback. subst n. discriminate.
Qed.

Lemma parseDigits_from (u : Decimal.uint) (acc : nat) :
  (fix go (s : string) (acc : nat) : nat :=
     match s with
     | EmptyString => acc
     | String c rest => go rest (10 * acc + (Js.code c - 48))
     end) (NilEmpty.string_of_uint u) acc
  = Nat.of_uint_acc u acc.
Proof.
  revert acc.
  induction u as [|u IH|u IH|u IH|u IH|u IH|u IH|u IH|u IH|u IH|u IH];
    intros acc; [reflexivity|..];
    cbn [NilEmpty.string_of_uint Nat.of_uint_acc]; rewrite IH;
    rewrite Nat.tail_mul_spec; f_equal; cbn; lia.
Qed.

(** Reading a numeral back gives the number. *)
Lemma parseDigits_showNat (n : nat) : Js.parseDigits (Js.showNat n) = n.
Proof.
  unfold Js.parseDigits, Js.showNat. rewrite parseDigits_from.
  apply DecimalNat.Unsigned.of_to.
Qed.

Lemma padStart0_digits (raw : string) (width : nat) :
  allDigits raw = true -> allDigits (Js.padStart0 raw width) = true.
Proof.
  intros Hraw. unfold Js.padStart0.
  induction (width - length raw) as [|k IH]; [exact Hraw|].
  cbn. exact IH.
Qed.

Lemma padStart0_length (raw : string) (width : nat) :
  length raw <= width -> length (Js.padStart0 raw width) = width.
Proof.
  intros Hfits. unfold Js.padStart0. rewrite length_append.
  assert (Hzeros : forall k, length (string_of_list_ascii (repeat "0"%char k)) = k)
    by (induction k as [|k IH]; cbn; [reflexivity | now rewrite IH]).
  rewrite Hzeros. lia.
Qed.

Lemma spanDigits_append (digits : string) (c : ascii) (rest : string) :
  allDigits digits = true -> Js.isDigit c = false ->
  Js.spanDigits (digits ++ String c rest) = (digits, String c rest).
Proof.
  intros Hdigits Hc. induction digits as [|d digits IH].
  - cbn. now rewrite Hc.
  - cbn in Hdigits. apply andb_true_iff in Hdigits. destruct Hdigits as [Hd Hdigits].
    cbn [append Js.spanDigits]. rewrite Hd, (IH Hdigits). reflexivity.
Qed.

Lemma spanUntil_digits (digits rest : string) :
  allDigits digits = true ->
  Regex.spanUntil "}" (digits ++ String "}" rest) = Some (digits, rest).
Proof.
  intros Hdigits. induction digits as [|d digits IH]; [reflexivity|].
  cbn in Hdigits. apply andb_true_iff in Hdigits. destruct Hdigits as [Hd Hdigits].
  cbn [append Regex.spanUntil]. rewrite (IH Hdigits).
  destruct (Ascii.eqb_spec d "}") as [->|_]; [discriminate | reflexivity].
Qed.

Lemma scanFrom_found (A : Type) (matchAt : nat -> string -> option (nat * A))
    (pos : nat) (c : ascii) (s : string) (len : nat) (a : A) :
  matchAt pos (String c s) = Some (len, a) ->
  Js.scanFrom matchAt pos (String c s) 0
  = a :: Js.scanFrom matchAt (S pos) s (len - 1).
Proof. intros Hmatch. cbn [Js.scanFrom]. now rewrite Hmatch. Qed.

(** The number token with a width where it stands in a pattern. *)
Lemma numberScan_padded (digits rest : string) (pos : nat) :
  allDigits digits = true -> digits <> "" ->
  Js.scanFrom (fun _ s => StoryId.numberTokenAt s) pos
    (("{number:" ++ digits ++ "}") ++ rest) 0
  = ("{number:" ++ digits ++ "}", Some digits)
    :: Js.scanFrom (fun _ s => StoryId.numberTokenAt s)
         (pos + length ("{number:" ++ digits ++ "}")) rest 0.
Proof.
  intros Hdigits Hnonempty.
  assert (Htoken : StoryId.numberTokenAt (("{number:" ++ digits ++ "}") ++ rest)
                   = Some (9 + length digits,
                           ("{number:" ++ digits ++ "}", Some digits))).
  { unfold StoryId.numberTokenAt. rewrite !append_assoc.
    cbn [append StoryId.dropPrefix Ascii.eqb Bool.eqb].
    rewrite spanDigits_append by (exact Hdigits || reflexivity).
    destruct digits; [contradiction | reflexivity]. }
  change (("{number:" ++ digits ++ "}") ++ rest)
    with (String "{" (("number:" ++ digits ++ "}") ++ rest)) in Htoken |- *.
  rewrite (@scanFrom_found _ (fun _ s => StoryId.numberTokenAt s) pos _ _ _ _ Htoken).
  f_equal.
  replace (9 + length digits - 1) with (length ("number:" ++ digits ++ "}"))
    by (rewrite !length_append; cbn; lia).
  rewrite scanFrom_skipping. f_equal. cbn [length append]. lia.
Qed.

(** ** Texts that lack a code unit *)

Lemma lacks_cons (c d : ascii) (s : string) :
  lacks c (String d s) = negb (Ascii.eqb d c) && lacks c s.
Proof. reflexivity. Qed.

Lemma lacks_false_in (c : ascii) (front back : string) :
  lacks c (front ++ String c back) = false.
Proof.
  rewrite lacks_append, lacks_cons, Ascii.eqb_refl. cbn.
  now rewrite andb_false_r.
Qed.

Lemma append_cut (front rest front' rest' : string) :
  front ++ rest = front' ++ rest' -> length front <= length front' ->
  exists extra, front' = front ++ extra /\ rest = extra ++ rest'.
Proof.
  revert front'. induction front as [|c front IH]; intros front' Heq Hlen.
  - exists front'. auto.
  - destruct front' as [|c' front']; [cbn in Hlen; lia|].
    cbn in Heq, Hlen. injection Heq as <- Heq.
    destruct (IH front' Heq ltac:(lia)) as [extra [-> ->]].
    exists extra. auto.
Qed.

(** A separator does not start where one of its code units would fall into
    a text that lacks it. *)
Lemma prefix_lacking (head : string) (c : ascii) (tail start text : string) :
  lacks c text = true -> length start <= length head ->
  prefix (head ++ String c tail) (start ++ text) = false.
Proof.
  intros Hlacks Hlen.
  destruct (prefix (head ++ String c tail) (start ++ text)) eqn:Hprefix;
    [|reflexivity].
  apply prefix_inv in Hprefix as [rest Hrest]. rewrite append_assoc in Hrest.
  apply append_cut in Hrest as [extra [_ Htext]]; [|exact Hlen].
  rewrite Htext in Hlacks.
  change (String c tail ++ rest) with (String c (tail ++ rest)) in Hlacks.
  now rewrite lacks_false_in in Hlacks.
Qed.

(** The pieces go on behind a text in which the separator starts nowhere. *)
Lemma splitFrom_through (sep text rest acc : string) :
  (forall k, k < length text -> prefix sep (Js.slice k text ++ rest) = false) ->
  Js.splitFrom sep (text ++ rest) 0 acc = Js.splitFrom sep rest 0 (acc ++ text).
Proof.
  revert acc. induction text as [|c text IH]; intros acc Hmiss.
  - now rewrite append_nil_r.
  - cbn [append]. rewrite splitFrom_miss.
    + rewrite IH; [now rewrite snoc_append|].
      intros k Hk. apply (Hmiss (S k)). cbn [length]. lia.
    + apply (Hmiss 0). cbn [length]. lia.
Qed.

Lemma splitFrom_whole (c : ascii) (sep text : string) :
  lacks c text = true -> Js.splitFrom (String c sep) text 0 "" = [text].
Proof.
  intros Hlacks. rewrite <- (append_nil_r text) at 1.
  rewrite splitFrom_lacking by exact Hlacks. reflexivity.
Qed.

(** [replaceAll] where the text searched for stands once. *)
Lemma replaceAll_once (c : ascii) (sep text rest replacement : string) :
  lacks c text = true ->
  Js.splitFrom (String c sep) rest 0 "" = [rest] ->
  StoryId.replaceAll (text ++ String c sep ++ rest) (String c sep) replacement
  = text ++ replacement ++ rest.
Proof.
  intros Hlacks Hrest. unfold StoryId.replaceAll, Js.split.
  rewrite splitFrom_lacking by exact Hlacks.
  rewrite splitFrom_token, Hrest. reflexivity.
Qed.

Lemma escapeRegExp_append (a b : string) :
  StoryId.escapeRegExp (a ++ b)
  = StoryId.escapeRegExp a ++ StoryId.escapeRegExp b.
Proof.
  induction a as [|c a IH]; [reflexivity|]. cbn [append StoryId.escapeRegExp].
  rewrite IH. now destruct (Regex.isSyntaxChar c).
Qed.

Lemma escapeRegExp_lacks (c : ascii) (text : string) :
  Ascii.eqb Regex.backslash c = false ->
  lacks c text = true -> lacks c (StoryId.escapeRegExp text) = true.
Proof.
  intros Hc. induction text as [|d text IH]; [reflexivity|].
  rewrite lacks_cons. intros Hlacks. apply andb_true_iff in Hlacks.
  destruct Hlacks as [Hd Hlacks]. cbn [StoryId.escapeRegExp].
  destruct (Regex.isSyntaxChar d); rewrite !lacks_cons, ?Hc, Hd, (IH Hlacks);
    reflexivity.
Qed.

(** ** The codec of a mapping of the common form *)

Lemma scanFrom_missed (A : Type) (matchAt : nat -> string -> option (nat * A))
    (pos : nat) (c : ascii) (s : string) :
  matchAt pos (String c s) = None ->
  Js.scanFrom matchAt pos (String c s) 0 = Js.scanFrom matchAt (S pos) s 0.
Proof. intros Hmiss. cbn [Js.scanFrom]. now rewrite Hmiss. Qed.

Lemma plainText_lacks (text : string) :
  MappingParts.plainText text = true ->
  lacks "{" text = true /\ lacks "_" text = true.
Proof. intros H. now apply andb_true_iff in H. Qed.

(** Equations between texts, up to the bracketing of [++]. *)
Ltac same_text :=
  repeat (progress (rewrite ?snoc_append, ?append_assoc; cbn [append]));
  reflexivity.

Section Parts.
Variable parts : MappingParts.t.
Hypothesis parts_plain : MappingParts.plain parts = true.

Let P : string := MappingParts.storyPrefix parts.
Let A : string := MappingParts.front parts.
Let B : string := MappingParts.middle parts.
Let C : string := MappingParts.back parts.
Let W : string := Js.showNat (MappingParts.width parts).

Lemma parts_texts :
  (lacks "{" P = true /\ lacks "_" P = true)
  /\ (lacks "{" A = true /\ lacks "_" A = true)
  /\ (lacks "{" B = true /\ lacks "_" B = true)
  /\ (lacks "{" C = true /\ lacks "_" C = true)
  /\ (lacks "{" (MappingParts.before parts) = true
      /\ lacks "_" (MappingParts.before parts) = true)
  /\ (lacks "{" (MappingParts.between parts) = true
      /\ lacks "_" (MappingParts.between parts) = true)
  /\ (lacks "{" (MappingParts.after parts) = true
      /\ lacks "_" (MappingParts.after parts) = true)
  /\ 0 < MappingParts.width parts.
Proof.
  pose proof parts_plain as H.
  unfold MappingParts.plain, MappingParts.plainText in H.
  repeat match type of H with
         | (_ && _ = true) =>
             apply andb_true_iff in H; let H' := fresh "H" in destruct H as [H H']
         end.
  repeat match goal with
         | Hand : (_ && _ = true) |- _ =>
             apply andb_true_iff in Hand; destruct Hand
         end.
  match goal with
  | Hw : Nat.ltb 0 _ = true |- _ => apply Nat.ltb_lt in Hw
  end.
  unfold P, A, B, C. repeat split; assumption.
Qed.

Lemma numberToken_lacks_tail :
  lacks "{" ("number:" ++ W ++ "}") = true.
Proof.
  rewrite !lacks_append.
  rewrite (@allDigits_lacks_brace W (allDigits_showNat _)). reflexivity.
Qed.

Lemma numberMatches_parts :
  StoryId.numberMatches (MappingParts.idPattern parts)
  = [(MappingParts.numberToken parts, Some W)].
Proof.
  destruct parts_texts as [_ [[HA _] [[HB _] [[HC _] _]]]].
  unfold StoryId.numberMatches, MappingParts.idPattern, MappingParts.numberToken.
  fold A B C W.
  rewrite numberScan_lacking by exact HA.
  change ("{prefix}" ++ B ++ ("{number:" ++ W ++ "}") ++ C)
    with (String "{" ("prefix}" ++ B ++ ("{number:" ++ W ++ "}") ++ C)).
  rewrite scanFrom_missed by reflexivity.
  rewrite (@numberScan_lacking "prefix}") by reflexivity.
  rewrite numberScan_lacking by exact HB.
  rewrite numberScan_padded by (apply allDigits_showNat || apply showNat_nonempty).
  rewrite <- (append_nil_r C) at 1.
  rewrite numberScan_lacking by exact HC.
  reflexivity.
Qed.

Lemma includes_parts :
  StoryId.includes (MappingParts.idPattern parts) StoryId.PREFIX_TOKEN = true.
Proof.
  destruct parts_texts as [_ [[HA _] _]].
  unfold StoryId.includes, StoryId.PREFIX_TOKEN, Js.split, MappingParts.idPattern.
  fold A. rewrite splitFrom_lacking by exact HA. rewrite splitFrom_token.
  pose proof (@splitFrom_nonempty "{prefix}"
                (MappingParts.middle parts ++ MappingParts.numberToken parts
                   ++ MappingParts.back parts) 0 "") as Hrest.
  destruct (Js.splitFrom "{prefix}" _ 0 ""); [contradiction | reflexivity].
Qed.

(** The pattern with its two tokens replaced. *)
Lemma tokenized_parts (forPrefix forNumber : string) :
  lacks "{" forPrefix = true ->
  StoryId.replaceAll
    (StoryId.replaceAll (MappingParts.idPattern parts) StoryId.PREFIX_TOKEN
       forPrefix)
    (MappingParts.numberToken parts) forNumber
  = A ++ forPrefix ++ B ++ forNumber ++ C.
Proof.
  intros Hfor.
  destruct parts_texts as [_ [[HA _] [[HB _] [[HC _] _]]]].
  unfold StoryId.PREFIX_TOKEN, MappingParts.idPattern, MappingParts.numberToken.
  fold A B C W.
  rewrite replaceAll_once; [|exact HA|].
  - change ("{number:" ++ W ++ "}") with (String "{" ("number:" ++ W ++ "}")).
    replace (A ++ forPrefix ++ B ++ String "{" ("number:" ++ W ++ "}") ++ C)
      with ((A ++ forPrefix ++ B) ++ String "{" ("number:" ++ W ++ "}") ++ C)
      by (now rewrite !append_assoc).
    rewrite replaceAll_once.
    + now rewrite !append_assoc.
    + now rewrite !lacks_append, HA, Hfor, HB.
    + apply splitFrom_whole. exact HC.
  - rewrite splitFrom_lacking by exact HB.
    change (("{number:" ++ W ++ "}") ++ C)
      with (String "{" (("number:" ++ W ++ "}") ++ C)).
    rewrite splitFrom_miss by reflexivity.
    rewrite splitFrom_lacking by exact numberToken_lacks_tail.
    rewrite <- (append_nil_r C) at 1.
    rewrite splitFrom_lacking by exact HC.
    cbn [Js.splitFrom]. rewrite snoc_append. f_equal. same_text.
Qed.

(** The first placeholder stands nowhere in or around the second. *)
Lemma prefixPlaceholder_absent (text rest : string) :
  lacks "_" text = true -> lacks "_" rest = true ->
  Js.splitFrom "__STORY_PREFIX__" (text ++ "__STORY_NUMBER__" ++ rest) 0 ""
  = [text ++ "__STORY_NUMBER__" ++ rest].
Proof.
  intros Htext Hrest.
  rewrite splitFrom_lacking by exact Htext.
  rewrite splitFrom_through.
  - rewrite <- (append_nil_r rest) at 1.
    rewrite splitFrom_lacking by exact Hrest.
    cbn [Js.splitFrom]. f_equal. same_text.
  - intros k Hk.
    do 16 (destruct k as [|k];
           [first [ reflexivity
                  | apply (@prefix_lacking "__STORY" "_" "PREFIX__"
                             (Js.slice _ "__STORY_NUMBER__") rest Hrest);
                    cbn; lia ]|]).
    cbn in Hk. lia.
Qed.

Lemma regexSource_parts :
  StoryId.replaceAll
    (StoryId.replaceAll
       (StoryId.escapeRegExp
          (A ++ "__STORY_PREFIX__" ++ B ++ "__STORY_NUMBER__" ++ C))
       "__STORY_PREFIX__" (StoryId.escapeRegExp P))
    "__STORY_NUMBER__" (String Regex.backslash ("d{" ++ W ++ "}"))
  = MappingParts.regexSource parts.
Proof.
  destruct parts_texts as [[_ HP] [[_ HA] [[_ HB] [[_ HC] _]]]].
  assert (Hunder : Ascii.eqb Regex.backslash "_" = false) by reflexivity.
  pose proof (@escapeRegExp_lacks _ P Hunder HP) as HeP.
  pose proof (@escapeRegExp_lacks _ A Hunder HA) as HeA.
  pose proof (@escapeRegExp_lacks _ B Hunder HB) as HeB.
  pose proof (@escapeRegExp_lacks _ C Hunder HC) as HeC.
  rewrite !escapeRegExp_append.
  change (StoryId.escapeRegExp "__STORY_PREFIX__") with "__STORY_PREFIX__".
  change (StoryId.escapeRegExp "__STORY_NUMBER__") with "__STORY_NUMBER__".
  rewrite replaceAll_once;
    [|exact HeA | now apply prefixPlaceholder_absent].
  replace (StoryId.escapeRegExp A ++ StoryId.escapeRegExp P
             ++ StoryId.escapeRegExp B ++ "__STORY_NUMBER__"
             ++ StoryId.escapeRegExp C)
    with ((StoryId.escapeRegExp A ++ StoryId.escapeRegExp P
             ++ StoryId.escapeRegExp B) ++ "__STORY_NUMBER__"
            ++ StoryId.escapeRegExp C)
    by (now rewrite !append_assoc).
  rewrite replaceAll_once.
  - unfold MappingParts.regexSource. fold A P B C W. now rewrite !append_assoc.
  - now rewrite !lacks_append, HeA, HeP, HeB.
  - apply splitFrom_whole. exact HeC.
Qed.

Lemma padding_positive (X : Type) (width : nat) (rejected accepted : X) :
  0 < width ->
  match Some width with
  | Some O => rejected
  | _ => accepted
  end = accepted.
Proof. destruct width; [lia | reflexivity]. Qed.

Lemma parse_digitsN (digits rest : string) (fuel : nat) :
  allDigits digits = true -> digits <> "" ->
  Regex.parse (S fuel)
    (String Regex.backslash ("d{" ++ digits ++ String "}" rest))
  = option_map (cons (Regex.DigitsN (Js.parseDigits digits)))
      (Regex.parse fuel rest).
Proof.
  intros Hdigits Hnonempty.
  change (Regex.parse (S fuel)
            (String Regex.backslash ("d{" ++ digits ++ String "}" rest)))
    with (match Regex.spanUntil "}" (digits ++ String "}" rest) with
          | Some (count, rest') =>
              if forallb Js.isDigit (list_ascii_of_string count)
                 && negb (count =? "")
              then option_map (cons (Regex.DigitsN (Js.parseDigits count)))
                     (Regex.parse fuel rest')
              else None
          | None => None
          end).
  rewrite spanUntil_digits by exact Hdigits.
  fold (allDigits digits). rewrite Hdigits.
  apply String.eqb_neq in Hnonempty. rewrite Hnonempty. reflexivity.
Qed.

(** The source of the pattern of identifiers in front of more source. *)
Lemma parse_regexSource (suffix : string) (fuel : nat) :
  Regex.parse
    (length (MappingParts.idText parts) + S (length C + fuel))
    (MappingParts.regexSource parts ++ suffix)
  = option_map (List.app (MappingParts.idAtoms parts)) (Regex.parse fuel suffix).
Proof.
  unfold MappingParts.regexSource. fold A P B C W.
  replace ((StoryId.escapeRegExp A ++ StoryId.escapeRegExp P
              ++ StoryId.escapeRegExp B
              ++ String Regex.backslash ("d{" ++ W ++ "}")
              ++ StoryId.escapeRegExp C) ++ suffix)
    with (StoryId.escapeRegExp (MappingParts.idText parts)
            ++ String Regex.backslash
                 ("d{" ++ W ++ String "}" (StoryId.escapeRegExp C ++ suffix)))
    by (unfold MappingParts.idText; fold A P B;
        rewrite !escapeRegExp_append; same_text).
  rewrite parse_escaped.
  rewrite parse_digitsN by (apply allDigits_showNat || apply showNat_nonempty).
  rewrite parse_escaped. unfold W. rewrite parseDigits_showNat.
  unfold MappingParts.idAtoms. fold C.
  destruct (Regex.parse fuel suffix) as [atoms|]; [|reflexivity].
  cbn [option_map]. now rewrite <- app_assoc.
Qed.

Lemma regexSource_length :
  length (MappingParts.idText parts) + S (length C)
  <= length (MappingParts.regexSource parts).
Proof.
  unfold MappingParts.regexSource, MappingParts.idText. fold A P B C W.
  rewrite !length_append. cbn [length].
  pose proof (escapeRegExp_length A). pose proof (escapeRegExp_length P).
  pose proof (escapeRegExp_length B). pose proof (escapeRegExp_length C).
  lia.
Qed.

Lemma compile_idSearch :
  Regex.compile (MappingParts.regexSource parts)
  = Ok (MappingParts.idAtoms parts).
Proof.
  unfold Regex.compile. pose proof regexSource_length as Hlen.
  replace (length (MappingParts.regexSource parts))
    with (length (MappingParts.idText parts)
          + S (length C + (length (MappingParts.regexSource parts)
                           - (length (MappingParts.idText parts) + S (length C)))))
    by lia.
  rewrite <- (append_nil_r (MappingParts.regexSource parts)) at 2.
  rewrite parse_regexSource, parse_empty. cbn [option_map].
  now rewrite app_nil_r.
Qed.

Lemma parse_eol (fuel : nat) : Regex.parse (S fuel) "$" = Some [Regex.Eol].
Proof. cbn. now rewrite parse_empty. Qed.

Lemma compile_idRegex :
  Regex.compile ("^" ++ MappingParts.regexSource parts ++ "$")
  = Ok (Regex.Bol :: MappingParts.idAtoms parts ++ [Regex.Eol])%list.
Proof.
  unfold Regex.compile. pose proof regexSource_length as Hlen.
  change ("^" ++ MappingParts.regexSource parts ++ "$")
    with (String "^" (MappingParts.regexSource parts ++ "$")).
  cbn [length].
  replace (length (MappingParts.regexSource parts ++ "$"))
    with (length (MappingParts.idText parts)
          + S (length C
               + S (length (MappingParts.regexSource parts)
                    - (length (MappingParts.idText parts) + S (length C)))))
    by (rewrite length_append; cbn [length]; lia).
  change (Regex.parse (S ?fuel) (String "^" ?rest))
    with (option_map (cons Regex.Bol) (Regex.parse fuel rest)).
  rewrite parse_regexSource, parse_eol. reflexivity.
Qed.

Lemma allDigits_lacks (c : ascii) (digits : string) :
  Js.isDigit c = false -> allDigits digits = true -> lacks c digits = true.
Proof.
  intros Hc. induction digits as [|d digits IH]; [reflexivity|].
  unfold allDigits. cbn [list_ascii_of_string forallb]. intros Hall.
  apply andb_true_iff in Hall. destruct Hall as [Hd Hall].
  rewrite lacks_cons, (IH Hall), andb_true_r. apply negb_true_iff.
  destruct (Ascii.eqb_spec d c) as [->|_]; [congruence | reflexivity].
Qed.

Lemma regexSource_lacks : lacks "_" (MappingParts.regexSource parts) = true.
Proof.
  destruct parts_texts as [[_ HP] [[_ HA] [[_ HB] [[_ HC] _]]]].
  assert (Hunder : Ascii.eqb Regex.backslash "_" = false) by reflexivity.
  unfold MappingParts.regexSource. fold A P B C W.
  change (String Regex.backslash ("d{" ++ W ++ "}"))
    with (String Regex.backslash "d{" ++ W ++ "}").
  rewrite !lacks_append.
  rewrite (@escapeRegExp_lacks _ A Hunder HA), (@escapeRegExp_lacks _ P Hunder HP),
    (@escapeRegExp_lacks _ B Hunder HB), (@escapeRegExp_lacks _ C Hunder HC).
  rewrite (@allDigits_lacks "_" W) by (reflexivity || apply allDigits_showNat).
  reflexivity.
Qed.

(** The placeholder of the identifier stands nowhere in or around the
    placeholder of the title. *)
Lemma idPlaceholder_absent (text rest : string) :
  lacks "_" text = true -> lacks "_" rest = true ->
  Js.splitFrom "__CARD_ID__" (text ++ "__CARD_TITLE__" ++ rest) 0 ""
  = [text ++ "__CARD_TITLE__" ++ rest].
Proof.
  intros Htext Hrest.
  rewrite splitFrom_lacking by exact Htext.
  rewrite splitFrom_through.
  - rewrite <- (append_nil_r rest) at 1.
    rewrite splitFrom_lacking by exact Hrest.
    cbn [Js.splitFrom]. f_equal. same_text.
  - intros k Hk.
    do 14 (destruct k as [|k];
           [first [ reflexivity
                  | apply (@prefix_lacking "__CARD" "_" "ID__"
                             (Js.slice _ "__CARD_TITLE__") rest Hrest);
                    cbn; lia ]|]).
    cbn in Hk. lia.
Qed.

Lemma split_format_id (before between after : string) :
  lacks "{" before = true -> lacks "{" between = true ->
  lacks "{" after = true ->
  Js.split (before ++ "{id}" ++ between ++ "{title}" ++ after) "{id}"
  = [before; between ++ "{title}" ++ after].
Proof.
  intros Hbefore Hbetween Hafter. unfold Js.split.
  rewrite splitFrom_lacking by exact Hbefore.
  rewrite splitFrom_token.
  rewrite splitFrom_lacking by exact Hbetween.
  change ("{title}" ++ after) with (String "{" ("title}" ++ after)).
  rewrite splitFrom_miss by reflexivity.
  rewrite (@splitFrom_lacking "{" "id}" "title}" after) by reflexivity.
  rewrite <- (append_nil_r after) at 1.
  rewrite splitFrom_lacking by exact Hafter.
  cbn [Js.splitFrom]. same_text.
Qed.

Lemma split_format_title (before between after : string) :
  lacks "{" before = true -> lacks "{" between = true ->
  lacks "{" after = true ->
  Js.split (before ++ "{id}" ++ between ++ "{title}" ++ after) "{title}"
  = [before ++ "{id}" ++ between; after].
Proof.
  intros Hbefore Hbetween Hafter. unfold Js.split.
  rewrite splitFrom_lacking by exact Hbefore.
  change ("{id}" ++ between ++ "{title}" ++ after)
    with (String "{" ("id}" ++ between ++ "{title}" ++ after)).
  rewrite splitFrom_miss by reflexivity.
  rewrite (@splitFrom_lacking "{" "title}" "id}") by reflexivity.
  rewrite splitFrom_lacking by exact Hbetween.
  rewrite splitFrom_token.
  rewrite splitFrom_whole by exact Hafter.
  same_text.
Qed.

Lemma parse_cardSource (fuel : nat) :
  Regex.parse
    (S (length (MappingParts.before parts)
        + S (length (MappingParts.idText parts)
             + S (length C
                  + S (length (MappingParts.between parts)
                       + S (S (S (length (MappingParts.after parts)
                                  + S fuel))))))))
    ("^" ++ (StoryId.escapeRegExp (MappingParts.before parts)
               ++ ("(?<id>" ++ MappingParts.regexSource parts ++ ")")
               ++ StoryId.escapeRegExp (MappingParts.between parts)
               ++ "(?<title>.*?)"
               ++ StoryId.escapeRegExp (MappingParts.after parts)) ++ "$")
  = Some (StoryId.regex (StoryId.cardTitleSpec (MappingParts.codec parts))).
Proof.
  set (eBefore := StoryId.escapeRegExp (MappingParts.before parts)).
  set (eBetween := StoryId.escapeRegExp (MappingParts.between parts)).
  set (eAfter := StoryId.escapeRegExp (MappingParts.after parts)).
  replace ("^" ++ (eBefore ++ ("(?<id>" ++ MappingParts.regexSource parts ++ ")")
                     ++ eBetween ++ "(?<title>.*?)" ++ eAfter) ++ "$")
    with (String "^"
            (eBefore
               ++ "(?<id>"
               ++ MappingParts.regexSource parts
               ++ String ")" (eBetween ++ "(?<title>.*?)" ++ eAfter ++ "$")))
    by same_text.
  change (Regex.parse (S ?fuel) (String "^" ?rest))
    with (option_map (cons Regex.Bol) (Regex.parse fuel rest)).
  unfold eBefore. rewrite parse_escaped.
  change (Regex.parse (S ?fuel) ("(?<id>" ++ ?rest))
    with (option_map (cons (Regex.GroupOpen "id")) (Regex.parse fuel rest)).
  rewrite parse_regexSource.
  change (Regex.parse (S ?fuel) (String ")" ?rest))
    with (option_map (cons Regex.GroupClose) (Regex.parse fuel rest)).
  unfold eBetween. rewrite parse_escaped.
  change (Regex.parse (S (S (S ?fuel))) ("(?<title>.*?)" ++ ?rest))
    with (option_map (cons (Regex.GroupOpen "title"))
            (option_map (cons Regex.AnyLazy)
               (option_map (cons Regex.GroupClose) (Regex.parse fuel rest)))).
  unfold eAfter. rewrite parse_escaped, parse_eol.
  reflexivity.
Qed.

Lemma parseCardTitleFormat_parts :
  StoryId.parseCardTitleFormat (MappingParts.cardTitleFormat parts)
    (MappingParts.regexSource parts)
  = Ok (StoryId.cardTitleSpec (MappingParts.codec parts)).
Proof.
  destruct parts_texts
    as [_ [_ [_ [_ [[Hbefore Hbefore'] [[Hbetween Hbetween']
                                          [[Hafter Hafter'] _]]]]]]].
  assert (Hunder : Ascii.eqb Regex.backslash "_" = false) by reflexivity.
  pose proof (@escapeRegExp_lacks _ _ Hunder Hbefore') as HeBefore.
  pose proof (@escapeRegExp_lacks _ _ Hunder Hbetween') as HeBetween.
  pose proof (@escapeRegExp_lacks _ _ Hunder Hafter') as HeAfter.
  unfold StoryId.parseCardTitleFormat, MappingParts.cardTitleFormat.
  unfold StoryId.CARD_ID_TOKEN, StoryId.CARD_TITLE_TOKEN.
  rewrite split_format_id, split_format_title by assumption.
  cbn [List.length Nat.sub Nat.eqb negb orb].
  rewrite replaceAll_id by assumption.
  replace (MappingParts.before parts ++ "__CARD_ID__"
             ++ MappingParts.between parts ++ "{title}"
             ++ MappingParts.after parts)
    with ((MappingParts.before parts ++ "__CARD_ID__"
             ++ MappingParts.between parts) ++ "{title}"
            ++ MappingParts.after parts)
    by (now rewrite !append_assoc).
  rewrite replaceAll_title;
    [| now rewrite !lacks_append, Hbefore, Hbetween | exact Hafter].
  rewrite !escapeRegExp_append.
  change (StoryId.escapeRegExp "__CARD_ID__") with "__CARD_ID__".
  change (StoryId.escapeRegExp "__CARD_TITLE__") with "__CARD_TITLE__".
  rewrite !append_assoc.
  rewrite replaceAll_once;
    [| exact HeBefore | now apply idPlaceholder_absent].
  set (group := "(?<id>" ++ MappingParts.regexSource parts ++ ")").
  replace (StoryId.escapeRegExp (MappingParts.before parts) ++ group
             ++ StoryId.escapeRegExp (MappingParts.between parts)
             ++ "__CARD_TITLE__"
             ++ StoryId.escapeRegExp (MappingParts.after parts))
    with ((StoryId.escapeRegExp (MappingParts.before parts) ++ group
             ++ StoryId.escapeRegExp (MappingParts.between parts))
            ++ "__CARD_TITLE__"
            ++ StoryId.escapeRegExp (MappingParts.after parts))
    by (now rewrite !append_assoc).
  rewrite replaceAll_once.
  - unfold Regex.compile, bind.
    set (source := "^" ++ ((StoryId.escapeRegExp (MappingParts.before parts)
                              ++ group
                              ++ StoryId.escapeRegExp (MappingParts.between parts))
                             ++ "(?<title>.*?)"
                             ++ StoryId.escapeRegExp (MappingParts.after parts))
                       ++ "$").
    assert (Hsource :
              source
              = "^" ++ (StoryId.escapeRegExp (MappingParts.before parts)
                          ++ ("(?<id>" ++ MappingParts.regexSource parts ++ ")")
                          ++ StoryId.escapeRegExp (MappingParts.between parts)
                          ++ "(?<title>.*?)"
                          ++ StoryId.escapeRegExp (MappingParts.after parts))
                  ++ "$")
      by (unfold source, group; now rewrite !append_assoc).
    assert (Hfuel :
              exists slack,
                length source
                = S (length (MappingParts.before parts)
                     + S (length (MappingParts.idText parts)
                          + S (length C
                               + S (length (MappingParts.between parts)
                                    + S (S (S (length (MappingParts.after parts)
                                               + S slack)))))))).
    { rewrite Hsource. pose proof regexSource_length as Hlen.
      pose proof (escapeRegExp_length (MappingParts.before parts)).
      pose proof (escapeRegExp_length (MappingParts.between parts)).
      pose proof (escapeRegExp_length (MappingParts.after parts)).
      exists (length source
              - (8 + length (MappingParts.before parts)
                 + length (MappingParts.idText parts) + length C
                 + length (MappingParts.between parts)
                 + length (MappingParts.after parts))).
      rewrite Hsource. cbn [append length]. rewrite !length_append.
      cbn [length]. rewrite !length_append. cbn [length]. lia. }
    destruct Hfuel as [slack Hfuel]. rewrite Hfuel, Hsource.
    rewrite parse_cardSource. reflexivity.
  - unfold group. rewrite !lacks_append, HeBefore, HeBetween, regexSource_lacks.
    reflexivity.
  - apply splitFrom_whole. exact HeAfter.
Qed.

(** [parseIdPattern] on the pattern of the mapping. *)
Lemma parseIdPattern_parts :
  StoryId.parseIdPattern (MappingParts.idPattern parts) P
  = Ok (StoryId.idPatternSpec (MappingParts.codec parts)).
Proof.
  destruct parts_texts as [_ [_ [_ [_ [_ [_ [_ Hwidth]]]]]]].
  unfold StoryId.parseIdPattern.
  rewrite numberMatches_parts, includes_parts. cbn [negb option_map].
  assert (HW : Js.parseDigits W = MappingParts.width parts)
    by apply parseDigits_showNat.
  rewrite !HW. rewrite padding_positive by exact Hwidth.
  rewrite tokenized_parts by reflexivity.
  cbv beta iota. fold W. rewrite regexSource_parts.
  unfold MappingParts.codec. cbn [StoryId.idPatternSpec]. fold P.
  reflexivity.
Qed.

(** [createStoryIdCodec] on the mapping. *)
Lemma createStoryIdCodec_parts :
  StoryId.createStoryIdCodec (MappingParts.mapping parts)
  = Ok (MappingParts.codec parts).
Proof.
  unfold StoryId.createStoryIdCodec, MappingParts.mapping.
  cbn [StoryId.idPattern StoryId.storyPrefix StoryId.cardTitleFormat].
  fold P. rewrite parseIdPattern_parts. cbn [bind].
  change (StoryId.regexSource (StoryId.idPatternSpec (MappingParts.codec parts)))
    with (MappingParts.regexSource parts).
  rewrite compile_idRegex, compile_idSearch. cbn [bind].
  rewrite parseCardTitleFormat_parts. reflexivity.
Qed.
End Parts.

(** The default mapping has the common form, and its codec is the one the
    planner is run on. *)
Lemma default_parts :
  MappingParts.mapping MappingParts.default = Fixture.idMapping
  /\ MappingParts.codec MappingParts.default = Fixture.codec.
Proof. split; reflexivity. Qed.

(** An identifier of the mapping is accepted by the pattern of identifiers. *)
Lemma idRegex_accepts_parts (parts : MappingParts.t) (digits : string) :
  length digits = MappingParts.width parts -> allDigits digits = true ->
  Regex.test (StoryId.idRegex (MappingParts.codec parts))
    (MappingParts.idText parts ++ digits ++ MappingParts.back parts) = true.
Proof.
  intros Hlen Hdigits. unfold Regex.test. rewrite searchFrom_step.
  cbn [MappingParts.codec StoryId.idRegex Regex.run Nat.eqb].
  unfold MappingParts.idAtoms. rewrite <- app_assoc, <- app_comm_cons.
  rewrite run_lits, run_digits by assumption.
  rewrite <- (append_nil_r (MappingParts.back parts)) at 2.
  rewrite run_lits, run_eol. reflexivity.
Qed.



Lemma formatId_parts (parts : MappingParts.t) (value : nat) :
  MappingParts.plain parts = true ->
  StoryId.formatId (MappingParts.codec parts) value
  = if Nat.ltb (MappingParts.width parts) (length (Js.showNat value))
    then Throw (StoryIdFormatError
                  ("Story number " ++ Js.showNat value
                     ++ " exceeds padding length "
                     ++ Js.showNat (MappingParts.width parts)))
    else Ok (MappingParts.idOf parts value).
Proof.
  intros Hplain. unfold StoryId.formatId.
  cbn [MappingParts.codec StoryId.idPatternSpec StoryId.padding
         StoryId.template StoryId.prefix StoryId.numberToken].
  destruct (Nat.ltb (MappingParts.width parts) (length (Js.showNat value)));
    [reflexivity|].
  destruct (@parts_texts parts Hplain) as [[HP _] _].
  rewrite (@tokenized_parts parts Hplain) by assumption.
  unfold MappingParts.idOf, MappingParts.idText. now rewrite !append_assoc.
Qed.




(** * Comparing stories, and the state of the last run *)

(** ** Lists of strings *)

Lemma areArraysEqual_eq (l r : list string) :
  areArraysEqual String.eqb l r = true <-> l = r.
Proof.
  revert r. induction l as [|x l IH]; intros [|y r]; cbn [areArraysEqual];
    split; try congruence; try discriminate.
  - intros H. apply andb_true_iff in H as [Hx Hl].
    apply String.eqb_eq in Hx. apply IH in Hl. congruence.
  - intros [= -> ->]. rewrite String.eqb_refl. now apply IH.
Qed.

Lemma areSetsEqual_sorted (host : Host) (l r : list string) :
  areSetsEqual host l r = true <-> sortStrings host l = sortStrings host r.
Proof. unfold areSetsEqual. apply areArraysEqual_eq. Qed.

(** [areSetsEqual] compares its arguments as bags, not as sets: under a
    consistent comparator that tells different strings apart, it answers
    [true] exactly when one list is a rearrangement of the other, so a
    string that occurs twice on one side has to occur twice on the other. *)
Theorem areSetsEqual_permutation (host : Host) (left right : list string) :
  Consistent host ->
  Discerning host ->
  areSetsEqual host left right = true <-> Permutation left right.
Proof.
  intros [Htotal Htrans] Hdiscern. rewrite areSetsEqual_sorted.
  unfold sortStrings. split.
  - intros Hsorted.
    rewrite <- (sort_perm (localeCompare host) left), Hsorted.
    apply sort_perm.
  - intros Hperm.
    exact (sort_perm_eq (localeCompare host) Htotal Htrans Hdiscern Hperm).
Qed.

Lemma areSetsEqual_permutation_witness :
  areSetsEqual Fixture.host ["US-002"; "US-001"; "US-002"]
    ["US-002"; "US-002"; "US-001"] = true
  /\ ~ Permutation ["US-001"; "US-001"] ["US-001"].
Proof.
  split.
  - apply (areSetsEqual_permutation ["US-002"; "US-001"; "US-002"]
             ["US-002"; "US-002"; "US-001"]
             fixture_consistent fixture_discerning).
    apply perm_skip, perm_swap.
  - intros Hperm.
    apply (areSetsEqual_permutation ["US-001"; "US-001"] ["US-001"]
             fixture_consistent fixture_discerning) in Hperm.
    vm_compute in Hperm. discriminate.
Defined.

(** Two stories that [storiesEquivalent] takes for the same have the same
    fingerprint, whatever the comparator: a story that needs no update
    from its card is recorded as it stands in the document. *)
Theorem storiesEquivalent_fingerprint (host : Host) (left right : PrdStory.t) :
  storiesEquivalent host left right = true ->
  createStoryFingerprint host left = createStoryFingerprint host right.
Proof.
  unfold storiesEquivalent. intros H.
  apply andb_true_iff in H as [H Hcriteria].
  apply andb_true_iff in H as [H Hdepends].
  apply andb_true_iff in H as [H Hdescription].
  apply andb_true_iff in H as [H Hstatus].
  apply andb_true_iff in H as [Hid Htitle].
  apply String.eqb_eq in Hid, Htitle, Hdescription.
  apply areArraysEqual_eq in Hcriteria. apply areSetsEqual_sorted in Hdepends.
  assert (Hsame : PrdStory.status left = PrdStory.status right)
    by (destruct (PrdStory.status left), (PrdStory.status right);
        (reflexivity || discriminate)).
  unfold createStoryFingerprint.
  now rewrite Hid, Htitle, Hdescription, Hcriteria, Hdepends, Hsame.
Qed.

Lemma storiesEquivalent_fingerprint_witness :
  createStoryFingerprint Fixture.host
    {| PrdStory.id := "US-003"; PrdStory.title := "Title";
       PrdStory.status := done; PrdStory.dependsOn := ["US-002"; "US-001"];
       PrdStory.description := "Text"; PrdStory.acceptanceCriteria := ["One"] |}
  = createStoryFingerprint Fixture.host
      {| PrdStory.id := "US-003"; PrdStory.title := "Title";
         PrdStory.status := done; PrdStory.dependsOn := ["US-001"; "US-002"];
         PrdStory.description := "Text"; PrdStory.acceptanceCriteria := ["One"] |}.
Proof.
  apply storiesEquivalent_fingerprint. vm_compute. reflexivity.
Defined.

(** ** The latest activity *)

Lemma latestActivity_cons (host : Host) (start : IsoTimestamp)
    (record : SyncStateCardRecord.t) (cards : list SyncStateCardRecord.t) :
  latestActivity host start (record :: cards)
  = latestActivity host
      (if (start =? "")
          || (0 <? compareIsoTimestamps host (activityOf record) start)%Z
       then activityOf record else start)
      cards.
Proof. reflexivity. Qed.

(** A start that is not a date and not empty is never replaced. *)
Lemma latestActivity_stuck (host : Host) (cards : list SyncStateCardRecord.t)
    (start : IsoTimestamp) :
  start <> "" -> DateParse host start = None ->
  latestActivity host start cards = start.
Proof.
  intros Hstart Hparse. induction cards as [|record cards IH]; [reflexivity|].
  rewrite latestActivity_cons. apply String.eqb_neq in Hstart.
  rewrite Hstart. unfold compareIsoTimestamps. rewrite Hparse.
  destruct (DateParse host (activityOf record)); exact IH.
Qed.

(** From a start that is a date, over cards whose activities are dates,
    the loop ends on the latest of them. *)
Lemma latestActivity_dated (host : Host) (cards : list SyncStateCardRecord.t) :
  DateParse host "" = None ->
  (forall record, In record cards ->
     exists t, DateParse host (activityOf record) = Some t) ->
  forall (start : IsoTimestamp) (ts : Z),
    DateParse host start = Some ts ->
    exists latest,
      DateParse host (latestActivity host start cards) = Some latest
      /\ (ts <= latest)%Z
      /\ (forall record t,
            In record cards -> DateParse host (activityOf record) = Some t ->
            (t <= latest)%Z)
      /\ (latestActivity host start cards = start
          \/ In (latestActivity host start cards) (map activityOf cards)).
Proof.
  intros Hempty. induction cards as [|record cards IH]; intros Hcards start ts Hstart.
  - exists ts. cbn. split; [exact Hstart|]. split; [lia|].
    split; [intros ? ? [] | now left].
  - rewrite latestActivity_cons.
    destruct (Hcards record (or_introl eq_refl)) as [ta Hta].
    assert (Hrest : forall r, In r cards ->
                      exists t, DateParse host (activityOf r) = Some t)
      by (intros r Hr; apply Hcards; now right).
    assert (Hne : (start =? "") = false).
    { apply String.eqb_neq. intros ->. congruence. }
    rewrite Hne. unfold compareIsoTimestamps. rewrite Hta, Hstart. cbn [orb].
    destruct (0 <? ta - ts)%Z eqn:Hnewer.
    + apply Z.ltb_lt in Hnewer.
      destruct (IH Hrest (activityOf record) ta Hta)
        as [latest [Hlatest [Hle [Hall Hfrom]]]].
      exists latest. split; [exact Hlatest|]. split; [lia|]. split.
      * intros r t [<-|Hr] Ht; [|eauto]. rewrite Hta in Ht.
        injection Ht as <-. exact Hle.
      * right. destruct Hfrom as [->|Hin]; [now left | now right].
    + apply Z.ltb_ge in Hnewer.
      destruct (IH Hrest start ts Hstart)
        as [latest [Hlatest [Hle [Hall Hfrom]]]].
      exists latest. split; [exact Hlatest|]. split; [exact Hle|]. split.
      * intros r t [<-|Hr] Ht; [|eauto]. rewrite Hta in Ht.
        injection Ht as <-. lia.
      * destruct Hfrom as [Hsame|Hin]; [now left | right; now right].
Qed.


(** ** The indices of a state *)

Lemma fold_set_get (A V : Type) (key : A -> string) (value : A -> V)
    (items : list A) :
  forall (m : JsMap.t string V) (id : string),
    JsMap.get
      (fold_left (fun m item => JsMap.set m (key item) (value item)) items m) id
    = match find (fun item => key item =? id) (List.rev items) with
      | Some item => Some (value item)
      | None => JsMap.get m id
      end.
Proof.
  induction items as [|item items IH]; intros m id; simpl; [reflexivity|].
  rewrite IH, find_app. simpl.
  destruct (find (fun item => key item =? id) (List.rev items)); [reflexivity|].
  destruct (key item =? id) eqn:E.
  - apply String.eqb_eq in E. subst id. apply get_set_same.
  - apply String.eqb_neq in E. now apply get_set_other.
Qed.

Lemma fold_set_keys (A V : Type) (key : A -> string) (value : A -> V)
    (items : list A) :
  forall (m : JsMap.t string V),
    NoDup (JsMap.keys m) ->
    NoDup (JsMap.keys
             (fold_left (fun m item => JsMap.set m (key item) (value item))
                items m)).
Proof.
  induction items as [|item items IH]; intros m Hm; simpl; [exact Hm|].
  apply IH. now apply keys_set_NoDup.
Qed.

Lemma find_rev_member (A : Type) (p : A -> bool) (l : list A) (x : A) :
  In x l -> p x = true -> exists y, find p (List.rev l) = Some y.
Proof.
  intros Hin Hp. destruct (find p (List.rev l)) as [y|] eqn:E; [eauto|].
  exfalso. apply find_none with (x := x) in E; [congruence|].
  now apply in_rev in Hin.
Qed.

Lemma storyIndex_get (host : Host) (boardId prdPath : string)
    (mapping : Mapping.t) (stories : list PrdStory.t)
    (cards : list SyncStateCardRecord.t)
    (lastSeenTrelloActivity lastRunAt : option IsoTimestamp) (id : string) :
  JsMap.get
    (SyncState.storyIndex
       (createSyncState host boardId prdPath mapping stories cards
          lastSeenTrelloActivity lastRunAt)) id
  = option_map (storyEntryOf host) (find (hasId id) (List.rev stories)).
Proof.
  unfold createSyncState. cbn [SyncState.storyIndex].
  rewrite (fold_set_get PrdStory.id (storyEntryOf host)). unfold hasId.
  now destruct (find (fun item => PrdStory.id item =? id) (List.rev stories)).
Qed.

Lemma cardIndex_get (host : Host) (boardId prdPath : string)
    (mapping : Mapping.t) (stories : list PrdStory.t)
    (cards : list SyncStateCardRecord.t)
    (lastSeenTrelloActivity lastRunAt : option IsoTimestamp) (id : string) :
  JsMap.get
    (SyncState.cardIndex
       (createSyncState host boardId prdPath mapping stories cards
          lastSeenTrelloActivity lastRunAt)) id
  = option_map cardEntryOf (find (stateRecordOf id) (List.rev cards)).
Proof.
  unfold createSyncState. cbn [SyncState.cardIndex].
  rewrite (fold_set_get SyncStateCardRecord.storyId cardEntryOf).
  unfold stateRecordOf.
  now destruct (find (fun item => SyncStateCardRecord.storyId item =? id)
                  (List.rev cards)).
Qed.


(** ** A run on what the last run recorded *)

(** A state made from the stories a run read and from the card records it
    kept marks every one of these stories and records as unchanged, for a
    run that reads the same stories and the same cards: each pair of a
    story and its card is then skipped as unchanged. *)
Theorem recorded_run_is_unchanged (host : Host)
    (first second : SyncPlanOptions.t) (codec : StoryId.StoryIdCodec)
    (prdResult : FormatReadResult.t) (lists : list BoardList.t)
    (cards : list BoardCard.t) (labels : list BoardLabel.t)
    (boardId prdPath : string) (mapping : Mapping.t)
    (lastSeenTrelloActivity lastRunAt : option IsoTimestamp) :
  SyncPlanOptions.state second
  = Some (createSyncState host boardId prdPath mapping
            (FormatReadResult.stories prdResult)
            (snapshotCards
               (PlanLocals.uniqueCardRecords
                  (prepare host first codec prdResult lists cards labels)))
            lastSeenTrelloActivity lastRunAt) ->
  SyncPlanOptions.incremental second <> Some false ->
  forall (story : PrdStory.t) (record : CardRecord.t),
    In story (FormatReadResult.stories prdResult) ->
    In record
      (PlanLocals.uniqueCardRecords
         (prepare host second codec prdResult lists cards labels)) ->
    isStoryUnchanged (prepare host second codec prdResult lists cards labels)
      story = true
    /\ isCardUnchanged (prepare host second codec prdResult lists cards labels)
         record = true
    /\ forall checklistByCardId id,
         classifyPair host
           (prepare host second codec prdResult lists cards labels)
           checklistByCardId id story record
         = Ok (noopOf id "Unchanged since last sync").
Proof.
  intros Hstate Hincremental story record Hstory Hrecord.
  set (locals := prepare host second codec prdResult lists cards labels) in *.
  set (earlier := prepare host first codec prdResult lists cards labels) in *.
  set (state := createSyncState _ _ _ _ _ _ _ _) in Hstate.
  assert (Hincr : PlanLocals.incrementalState locals = Some state)
    by now apply prepare_incrementalState.
  assert (Hsame : PlanLocals.uniqueCardRecords earlier
                  = PlanLocals.uniqueCardRecords locals).
  { destruct (prepare_fields host first codec prdResult lists cards labels)
      as [_ [_ [R1 [G1 [_ [U1 _]]]]]].
    destruct (prepare_fields host second codec prdResult lists cards labels)
      as [_ [_ [R2 [G2 [_ [U2 _]]]]]].
    fold earlier in R1, G1, U1. fold locals in R2, G2, U2.
    rewrite U1, U2, G1, G2, R1, R2. reflexivity. }
  assert (Hs : isStoryUnchanged locals story = true).
  { unfold isStoryUnchanged. rewrite Hincr.
    unfold state. rewrite storyIndex_get.
    destruct (prepare_stories host second codec prdResult lists cards labels)
      as [_ [_ [Hfps _]]]. fold locals in Hfps. rewrite Hfps.
    destruct (@find_rev_member _ (hasId (PrdStory.id story))
                (FormatReadResult.stories prdResult) story Hstory)
      as [last Hlast]; [apply String.eqb_refl|].
    rewrite Hlast. cbn. apply String.eqb_refl. }
  assert (Hc : isCardUnchanged locals record = true).
  { unfold isCardUnchanged. rewrite Hincr.
    unfold state. rewrite cardIndex_get, Hsame.
    destruct (find (stateRecordOf (CardRecord.storyId record))
                (List.rev (snapshotCards (PlanLocals.uniqueCardRecords locals))))
      as [found|] eqn:Efound.
    - apply find_some in Efound. destruct Efound as [Hin Hid].
      apply in_rev in Hin. unfold snapshotCards in Hin.
      apply in_map_iff in Hin. destruct Hin as [other [<- Hother]].
      unfold stateRecordOf in Hid. cbn in Hid. apply String.eqb_eq in Hid.
      destruct (@unique_records host second codec prdResult lists cards labels
                  other Hother) as [recs [Hrecs ->]].
      destruct (@unique_records host second codec prdResult lists cards labels
                  record Hrecord) as [recs' [Hrecs' ->]].
      rewrite Hid in Hrecs. rewrite Hrecs in Hrecs'.
      injection Hrecs' as ->. cbn. now rewrite !String.eqb_refl.
    - exfalso.
      apply find_none
        with (x := {| SyncStateCardRecord.storyId := CardRecord.storyId record;
                      SyncStateCardRecord.card := CardRecord.card record |})
        in Efound.
      + unfold stateRecordOf in Efound. cbn in Efound.
        now rewrite String.eqb_refl in Efound.
      + apply in_rev. rewrite rev_involutive. unfold snapshotCards.
        apply in_map_iff. exists record. auto. }
  split; [exact Hs|]. split; [exact Hc|].
  intros checklistByCardId id. unfold classifyPair.
  now rewrite Hincr, Hs, Hc.
Qed.

Lemma recorded_run_is_unchanged_witness :
  classifyPair Fixture.host
    (prepare Fixture.host Fixture.incrementalOptions Fixture.codec
       Fixture.syncedDocument Fixture.lists [Fixture.syncedCard] [])
    JsMap.empty "US-001" Fixture.syncedStory
    {| CardRecord.card := Fixture.syncedCard; CardRecord.storyId := "US-001";
       CardRecord.storyTitle := "Title" |}
  = Ok (noopOf "US-001" "Unchanged since last sync").
Proof.
  apply (@recorded_run_is_unchanged Fixture.host
           (Fixture.options None None None) Fixture.incrementalOptions
           Fixture.codec Fixture.syncedDocument Fixture.lists
           [Fixture.syncedCard] [] "board" "prd.json" Fixture.mapping None None).
  - vm_compute. reflexivity.
  - discriminate.
  - left. reflexivity.
  - vm_compute. left. reflexivity.
Defined.
(** * The plan as a whole *)

(** ** What the loop comes to *)

Section Outcomes.
Variable host : Host.
Variable locals : PlanLocals.t.
Variable checklistByCardId : JsMap.t string (list BoardChecklist.t).

(** A loop that ends has gone through every identifier without an
    exception, and has pushed what each turn came to, in their order. *)
Lemma runLoop_outcomes (ids : list string) :
  forall plan plan',
    runLoop host locals checklistByCardId ids plan = Ok plan' ->
    exists outcomes,
      Forall2 (fun id outcome =>
                 loopBody host locals checklistByCardId id = Ok outcome)
        ids outcomes
      /\ plan' = fold_left pushEntry (pushedBy outcomes) plan.
Proof.
  induction ids as [|id ids IH]; intros plan plan'.
  - intros [= <-]. exists []. split; [constructor | reflexivity].
  - rewrite runLoop_cons.
    destruct (loopBody host locals checklistByCardId id) as [[entry|]|e] eqn:E;
      [| |discriminate]; intros Hrun; apply IH in Hrun;
      destruct Hrun as [outcomes [Hall Hplan]].
    + exists (Some entry :: outcomes). split; [now constructor | exact Hplan].
    + exists (None :: outcomes). split; [now constructor | exact Hplan].
Qed.

Lemma pushedBy_In (ids : list string) (outcomes : list (option PlanEntry))
    (entry : PlanEntry) :
  Forall2 (fun id outcome =>
             loopBody host locals checklistByCardId id = Ok outcome)
    ids outcomes ->
  In entry (pushedBy outcomes) ->
  exists id, In id ids
             /\ loopBody host locals checklistByCardId id = Ok (Some entry).
Proof.
  induction 1 as [|id outcome ids outcomes Hbody Hall IH]; cbn; [tauto|].
  rewrite in_app_iff. intros [Hin|Hin].
  - destruct outcome as [e|]; [|destruct Hin].
    destruct Hin as [->|[]]. exists id. auto.
  - destruct (IH Hin) as [id' [Hid' Hbody']]. exists id'. auto.
Qed.

Lemma pushedBy_covers (ids : list string) (outcomes : list (option PlanEntry))
    (id : string) :
  Forall2 (fun id outcome =>
             loopBody host locals checklistByCardId id = Ok outcome)
    ids outcomes ->
  In id ids ->
  exists outcome,
    loopBody host locals checklistByCardId id = Ok outcome
    /\ forall entry, outcome = Some entry -> In entry (pushedBy outcomes).
Proof.
  induction 1 as [|id' outcome ids outcomes Hbody Hall IH]; [intros []|].
  intros [<-|Hin].
  - exists outcome. split; [exact Hbody|]. intros entry ->. cbn. now left.
  - destruct (IH Hin) as [o [Ho Hpushed]]. exists o. split; [exact Ho|].
    intros entry He. cbn. apply in_or_app. right. auto.
Qed.

(** Distinct identifiers give entries with distinct identifiers. *)
Lemma pushedBy_NoDup (ids : list string) (outcomes : list (option PlanEntry)) :
  Forall2 (fun id outcome =>
             loopBody host locals checklistByCardId id = Ok outcome)
    ids outcomes ->
  NoDup ids ->
  NoDup (map entryId (pushedBy outcomes)).
Proof.
  induction 1 as [|id outcome ids outcomes Hbody Hall IH]; cbn; [constructor|].
  intros Hnd. apply NoDup_cons_iff in Hnd. destruct Hnd as [Hfresh Hnd].
  destruct outcome as [entry|]; cbn; [|auto].
  constructor; [|auto]. intros Hin. apply in_map_iff in Hin.
  destruct Hin as [other [Hsame Hother]].
  destruct (@pushedBy_In ids outcomes other Hall Hother) as [id' [Hid' Hbody']].
  apply loopBody_entryId in Hbody. apply loopBody_entryId in Hbody'.
  destruct Hbody as [Hentry _]. destruct Hbody' as [Hentry' _].
  assert (id' = id) by congruence. subst id'. contradiction.
Qed.

End Outcomes.

(** [classifyAll], when it returns. *)
Lemma classifyAll_outcomes (host : Host) (locals : PlanLocals.t)
    (checklistResults : list (list BoardChecklist.t))
    (plan : SyncPlan.t) (context : SyncContext.t) :
  classifyAll host locals checklistResults = Ok (plan, context) ->
  exists outcomes,
    Forall2 (fun id outcome =>
               loopBody host locals
                 (indexChecklists (checklistTargets locals) checklistResults) id
               = Ok outcome)
      (sortedIds host locals) outcomes
    /\ plan = sortPlan host
                (fold_left pushEntry (pushedBy outcomes) (initialPlan locals))
    /\ context
       = {| SyncContext.prdStories :=
              FormatReadResult.stories (PlanLocals.prdResult locals);
            SyncContext.cardRecords := PlanLocals.uniqueCardRecords locals |}.
Proof.
  unfold classifyAll, bind. fold (initialPlan locals).
  destruct (runLoop host locals _ (sortedIds host locals) (initialPlan locals))
    as [looped|] eqn:Eloop; [|discriminate].
  intros [= <- <-]. apply runLoop_outcomes in Eloop.
  destruct Eloop as [outcomes [Hall ->]]. exists outcomes. auto.
Qed.

Lemma pushedBy_buckets (host : Host) (locals : PlanLocals.t)
    (pushed : list PlanEntry) :
  let plan := sortPlan host (fold_left pushEntry pushed (initialPlan locals)) in
  Permutation (SyncPlan.creates plan) (pushedCreates pushed)
  /\ Permutation (SyncPlan.updates plan) (pushedUpdates pushed)
  /\ Permutation (SyncPlan.conflicts plan)
       (PlanLocals.conflicts locals ++ pushedConflicts pushed)
  /\ Permutation (SyncPlan.noop plan) (pushedNoops pushed).
Proof.
  cbv zeta.
  destruct (sortPlan_perm host (fold_left pushEntry pushed (initialPlan locals)))
    as [Hc [Hu [Hk Hn]]].
  destruct (fold_pushEntry_buckets pushed (initialPlan locals))
    as [Hc' [Hu' [Hk' Hn']]].
  rewrite Hc' in Hc. rewrite Hu' in Hu. rewrite Hk' in Hk. rewrite Hn' in Hn.
  cbn in Hc, Hu, Hk, Hn. auto.
Qed.

(** [buildPlan] on the data read, when it returns. *)
Lemma buildPlanOn_outcomes (host : Host) (options : SyncPlanOptions.t)
    (prdResult : FormatReadResult.t) (lists : list BoardList.t)
    (cards : list BoardCard.t) (labels : list BoardLabel.t)
    (getCardChecklists : string -> list BoardChecklist.t)
    (plan : SyncPlan.t) (context : SyncContext.t) :
  buildPlanOn host options prdResult lists cards labels getCardChecklists
    = Ok (plan, context) ->
  exists codec outcomes,
    StoryId.createStoryIdCodec (codecMapping (SyncPlanOptions.mapping options))
      = Ok codec
    /\ Forall2 (fun id outcome =>
                  loopBody host
                    (prepare host options codec prdResult lists cards labels)
                    (fetchedChecklists
                       (prepare host options codec prdResult lists cards labels)
                       getCardChecklists) id
                  = Ok outcome)
         (sortedIds host (prepare host options codec prdResult lists cards labels))
         outcomes
    /\ plan = sortPlan host
                (fold_left pushEntry (pushedBy outcomes)
                   (initialPlan
                      (prepare host options codec prdResult lists cards labels)))
    /\ context
       = {| SyncContext.prdStories := FormatReadResult.stories prdResult;
            SyncContext.cardRecords :=
              PlanLocals.uniqueCardRecords
                (prepare host options codec prdResult lists cards labels) |}.
Proof.
  unfold buildPlanOn, bind.
  change {| StoryId.storyPrefix := Mapping.storyPrefix (SyncPlanOptions.mapping options);
            StoryId.idPattern := Mapping.idPattern (SyncPlanOptions.mapping options);
            StoryId.cardTitleFormat :=
              Mapping.cardTitleFormat (SyncPlanOptions.mapping options) |}
    with (codecMapping (SyncPlanOptions.mapping options)).
  destruct (StoryId.createStoryIdCodec (codecMapping (SyncPlanOptions.mapping options)))
    as [codec|]; [|discriminate].
  intros Hall.
  apply classifyAll_outcomes in Hall.
  destruct Hall as [outcomes [Hall [Hplan Hcontext]]].
  exists codec, outcomes. split; [reflexivity|]. split; [exact Hall|].
  split; [exact Hplan|]. rewrite Hcontext.
  destruct (prepare_direction host options codec prdResult lists cards labels)
    as [_ [_ ->]]. reflexivity.
Qed.

(** ** One turn of the loop *)

(** A turn for an identifier that is not in conflict and that a story or
    a card carries pushes an entry. *)
Lemma loopBody_some (host : Host) (locals : PlanLocals.t)
    (checklistByCardId : JsMap.t string (list BoardChecklist.t))
    (id : string) (outcome : option PlanEntry) :
  loopBody host locals checklistByCardId id = Ok outcome ->
  JsSet.has (PlanLocals.conflictedIds locals) id = false ->
  JsMap.get (PlanLocals.prdById locals) id <> None
  \/ JsMap.get (recordById locals) id <> None ->
  exists entry, outcome = Some entry.
Proof.
  unfold loopBody, bind. intros Hbody Hfree Hcarried. rewrite Hfree in Hbody.
  destruct (JsMap.get (PlanLocals.prdById locals) id) as [story|];
    destruct (JsMap.get (recordById locals) id) as [record|].
  - destruct (classifyPair host locals checklistByCardId id story record);
      [|discriminate]. injection Hbody as <-. eauto.
  - destruct (classifyStoryOnly host locals id story); [|discriminate].
    injection Hbody as <-. eauto.
  - injection Hbody as <-. eauto.
  - destruct Hcarried as [H|H]; contradiction.
Qed.

(** No turn of a one-way run pushes an entry for the store the run
    leaves alone. *)
Lemma loopBody_target (host : Host) (locals : PlanLocals.t)
    (checklistByCardId : JsMap.t string (list BoardChecklist.t))
    (id : string) (entry : PlanEntry) (target : SyncTarget) :
  loopBody host locals checklistByCardId id = Ok (Some entry) ->
  entryTarget entry = Some target ->
  sparedTarget (PlanLocals.direction locals) <> Some target.
Proof.
  unfold loopBody, bind.
  destruct (JsSet.has (PlanLocals.conflictedIds locals) id); [discriminate|].
  destruct (JsMap.get (PlanLocals.prdById locals) id) as [story|];
    destruct (JsMap.get (recordById locals) id) as [record|];
    [| | |discriminate].
  - unfold classifyPair, bind.
    destruct (Js.isSome (PlanLocals.incrementalState locals)
              && (isStoryUnchanged locals story && isCardUnchanged locals record));
      [intros [= <-]; discriminate|].
    destruct (pairMappings host locals checklistByCardId story record)
      as [[[cardMapping storyMapping] shouldCreate]|]; [|discriminate].
    unfold noopOf, trelloUpdate, prdUpdate, resolveBothChanged.
    destruct (PlanLocals.direction locals);
      repeat match goal with
             | |- context [if ?c then _ else _] => destruct c
             end;
      intros [= <-]; cbn; congruence.
  - unfold classifyStoryOnly, bind, noopOf.
    destruct (PlanLocals.direction locals);
      try (intros [= <-]; discriminate);
      (destruct (buildCardMapping _ _ _ _ _ _ _ _ _); [|discriminate]);
      (destruct (Nat.ltb 0 _); intros [= <-]; cbn; congruence).
  - unfold classifyCardOnly, noopOf.
    destruct (PlanLocals.direction locals);
      repeat match goal with
             | |- context [if ?c then _ else _] => destruct c
             end;
      intros [= <-]; cbn; congruence.
Qed.

(** ** The entries of a plan and their identifiers *)

Lemma pushed_ids_perm (pushed : list PlanEntry) :
  Permutation (map entryId pushed)
    (map Some (map SyncCreate.id (pushedCreates pushed))
       ++ map Some (map SyncUpdate.id (pushedUpdates pushed))
       ++ map Some (map SyncNoop.id (pushedNoops pushed))
       ++ map SyncConflict.id (pushedConflicts pushed)).
Proof.
  induction pushed as [|entry pushed IH]; [reflexivity|].
  destruct entry as [c|u|k|n]; cbn [map entryId pushedCreates pushedUpdates
                                    pushedNoops pushedConflicts flat_map List.app].
  - now apply perm_skip.
  - now apply Permutation_cons_app.
  - rewrite !app_assoc. apply Permutation_cons_app. now rewrite <- !app_assoc.
  - rewrite app_assoc. apply Permutation_cons_app. now rewrite <- app_assoc.
Qed.

Lemma distinct_apart (A : Type) (front back : list A) (x : A) :
  NoDup (front ++ back) -> In x front -> In x back -> False.
Proof.
  induction front as [|a front IH]; cbn; [tauto|].
  intros Hnd. apply NoDup_cons_iff in Hnd. destruct Hnd as [Hfresh Hnd].
  intros [->|Hfront] Hback; [|now apply IH].
  apply Hfresh, in_or_app. now right.
Qed.

Lemma conflictIds_In (plan : SyncPlan.t) (id : string) :
  In id (conflictIds plan)
  <-> exists conflict,
        In conflict (SyncPlan.conflicts plan)
        /\ SyncConflict.id conflict = Some id.
Proof.
  unfold conflictIds. rewrite in_flat_map. split.
  - intros [conflict [Hin Hid]]. exists conflict. split; [exact Hin|].
    destruct (SyncConflict.id conflict) as [id'|]; [|destruct Hid].
    destruct Hid as [->|[]]. reflexivity.
  - intros [conflict [Hin Hid]]. exists conflict. split; [exact Hin|].
    rewrite Hid. now left.
Qed.

Lemma keyedBy_id (id : string) (conflict : SyncConflict.t) :
  keyedBy id conflict = true <-> SyncConflict.id conflict = Some id.
Proof.
  unfold keyedBy. destruct (SyncConflict.id conflict) as [id'|].
  - rewrite String.eqb_eq. split; congruence.
  - split; discriminate.
Qed.

Section PlanFacts.
Variable host : Host.
Variable options : SyncPlanOptions.t.
Variable codec : StoryId.StoryIdCodec.
Variable prdResult : FormatReadResult.t.
Variable lists : list BoardList.t.
Variable cards : list BoardCard.t.
Variable labels : list BoardLabel.t.
Variable checklistByCardId : JsMap.t string (list BoardChecklist.t).
Variable outcomes : list (option PlanEntry).

Let locals : PlanLocals.t :=
  prepare host options codec prdResult lists cards labels.

Hypothesis turns :
  Forall2 (fun id outcome =>
             loopBody host locals checklistByCardId id = Ok outcome)
    (sortedIds host locals) outcomes.

Let plan : SyncPlan.t :=
  sortPlan host (fold_left pushEntry (pushedBy outcomes) (initialPlan locals)).

Let pushedIds : list string :=
  (map SyncCreate.id (pushedCreates (pushedBy outcomes))
     ++ map SyncUpdate.id (pushedUpdates (pushedBy outcomes))
     ++ map SyncNoop.id (pushedNoops (pushedBy outcomes)))%list.

Lemma sortedIds_NoDup : NoDup (sortedIds host locals).
Proof.
  unfold sortedIds, sortStrings.
  apply (Permutation_NoDup (Permutation_sym (sort_perm (localeCompare host) _))).
  apply JsSet_ofList_NoDup.
Qed.

Lemma plannedIds_perm : Permutation (plannedIds plan) pushedIds.
Proof.
  destruct (pushedBy_buckets host locals (pushedBy outcomes))
    as [Hc [Hu [_ Hn]]]. cbv zeta in Hc, Hu, Hn. fold plan in Hc, Hu, Hn.
  unfold plannedIds, pushedIds.
  repeat apply Permutation_app; now apply Permutation_map.
Qed.

Lemma pushed_distinct :
  NoDup (map Some pushedIds
           ++ map SyncConflict.id (pushedConflicts (pushedBy outcomes))).
Proof.
  unfold pushedIds. rewrite !map_app, <- !app_assoc.
  apply (Permutation_NoDup (pushed_ids_perm (pushedBy outcomes))).
  eapply pushedBy_NoDup; [exact turns | exact sortedIds_NoDup].
Qed.

Lemma plannedIds_NoDup : NoDup (plannedIds plan).
Proof.
  apply (Permutation_NoDup (Permutation_sym plannedIds_perm)).
  pose proof pushed_distinct as Hnd. apply NoDup_app_remove_r in Hnd.
  now apply NoDup_map_inv in Hnd.
Qed.

(** The identifier of a conflict found before the loop is in conflict. *)
Lemma prepared_conflict_id (conflict : SyncConflict.t) (id : string) :
  In conflict (PlanLocals.conflicts locals) ->
  SyncConflict.id conflict = Some id ->
  JsSet.has (PlanLocals.conflictedIds locals) id = true.
Proof.
  intros Hin Hid. apply JsSet_has_true.
  apply (conflictedIds_iff host options codec prdResult lists cards labels).
  destruct (prepared_conflicts host options codec prdResult lists cards labels id)
    as [_ [_ Hkeyed]].
  destruct (Hkeyed conflict Hin) as [[_ H]|[_ H]]; [now apply keyedBy_id | |];
    auto.
Qed.

Lemma planned_not_in_conflict (id : string) :
  In id (plannedIds plan) -> ~ In id (conflictIds plan).
Proof.
  intros Hplanned Hconflict.
  apply (Permutation_in _ plannedIds_perm) in Hplanned.
  apply conflictIds_In in Hconflict. destruct Hconflict as [conflict [Hin Hid]].
  destruct (pushedBy_buckets host locals (pushedBy outcomes))
    as [_ [_ [Hk _]]]. cbv zeta in Hk. fold plan in Hk.
  apply (Permutation_in _ Hk) in Hin. apply in_app_or in Hin.
  destruct Hin as [Hbefore|Hpushed].
  - pose proof (@prepared_conflict_id _ _ Hbefore Hid) as Hconflicted.
    assert (Hentry : exists entry,
               In entry (pushedBy outcomes) /\ entryId entry = Some id).
    { unfold pushedIds in Hplanned. rewrite !in_app_iff, !in_map_iff in Hplanned.
      destruct Hplanned as [[c [<- Hc]]|[[u [<- Hu]]|[n [<- Hn]]]].
      - exists (PushCreate c). split; [now apply pushedCreates_In | reflexivity].
      - exists (PushUpdate u). split; [now apply pushedUpdates_In | reflexivity].
      - exists (PushNoop n). split; [now apply pushedNoops_In | reflexivity]. }
    destruct Hentry as [entry [Hentry Hsame]].
    destruct (@pushedBy_In _ _ _ _ _ _ turns Hentry) as [id' [_ Hbody]].
    apply loopBody_entryId in Hbody. destruct Hbody as [Hid' Hfree].
    assert (id' = id) by congruence. subst id'. congruence.
  - pose proof pushed_distinct as Hnd.
    apply (distinct_apart _ _ (Some id) Hnd).
    + apply in_map_iff. exists id. auto.
    + apply in_map_iff. exists conflict. auto.
Qed.

(** An identifier of the loop that a story or a card carries is planned
    or in conflict. *)
Lemma carried_id_accounted (id : string) :
  In id (sortedIds host locals) ->
  JsMap.get (PlanLocals.prdById locals) id <> None
  \/ JsMap.get (recordById locals) id <> None ->
  In id (plannedIds plan) \/ In id (conflictIds plan).
Proof.
  intros Hid Hcarried.
  destruct (pushedBy_buckets host locals (pushedBy outcomes))
    as [_ [_ [Hk _]]]. cbv zeta in Hk. fold plan in Hk.
  destruct (JsSet.has (PlanLocals.conflictedIds locals) id) eqn:Hconflicted.
  - right. apply conflictIds_In.
    apply JsSet_has_true in Hconflicted.
    apply (conflictedIds_iff host options codec prdResult lists cards labels)
      in Hconflicted.
    destruct (prepared_conflicts host options codec prdResult lists cards labels id)
      as [Hstories [Hcards _]]. fold locals in Hstories, Hcards.
    assert (Hfound : exists reason,
               List.length (filter (keyedFor id reason)
                              (PlanLocals.conflicts locals)) = 1).
    { destruct Hconflicted as [H|H]; eauto. }
    destruct Hfound as [reason Hone].
    destruct (filter (keyedFor id reason) (PlanLocals.conflicts locals))
      as [|conflict rest] eqn:Efilter; [discriminate|].
    assert (Hin : In conflict (filter (keyedFor id reason)
                                 (PlanLocals.conflicts locals)))
      by (rewrite Efilter; now left).
    apply filter_In in Hin. destruct Hin as [Hin Hkeyed].
    unfold keyedFor in Hkeyed. apply andb_true_iff in Hkeyed.
    destruct Hkeyed as [Hkeyed _]. apply keyedBy_id in Hkeyed.
    exists conflict. split; [|exact Hkeyed].
    apply (Permutation_in _ (Permutation_sym Hk)), in_or_app. now left.
  - destruct (@pushedBy_covers _ _ _ _ _ _ turns Hid) as [outcome [Hbody Hpushed]].
    destruct (@loopBody_some _ _ _ _ _ Hbody Hconflicted Hcarried) as [entry ->].
    specialize (Hpushed entry eq_refl).
    apply loopBody_entryId in Hbody. destruct Hbody as [Hentry _].
    destruct entry as [c|u|k|n]; cbn in Hentry.
    + left. apply (Permutation_in _ (Permutation_sym plannedIds_perm)).
      unfold pushedIds. apply in_or_app. left. apply in_map_iff.
      exists c. split; [congruence | now apply pushedCreates_In].
    + left. apply (Permutation_in _ (Permutation_sym plannedIds_perm)).
      unfold pushedIds. apply in_or_app. right. apply in_or_app. left.
      apply in_map_iff.
      exists u. split; [congruence | now apply pushedUpdates_In].
    + right. apply conflictIds_In. exists k. split; [|exact Hentry].
      apply (Permutation_in _ (Permutation_sym Hk)), in_or_app. right.
      now apply pushedConflicts_In.
    + left. apply (Permutation_in _ (Permutation_sym plannedIds_perm)).
      unfold pushedIds. apply in_or_app. right. apply in_or_app. right.
      apply in_map_iff.
      exists n. split; [congruence | now apply pushedNoops_In].
Qed.
End PlanFacts.

(** ** Where the identifiers of the loop come from *)

Section Carried.
Variable host : Host.
Variable options : SyncPlanOptions.t.
Variable codec : StoryId.StoryIdCodec.
Variable prdResult : FormatReadResult.t.
Variable lists : list BoardList.t.
Variable cards : list BoardCard.t.
Variable labels : list BoardLabel.t.

Let locals : PlanLocals.t :=
  prepare host options codec prdResult lists cards labels.

Lemma story_id_carried (story : PrdStory.t) :
  In story (FormatReadResult.stories prdResult) ->
  In (PrdStory.id story) (sortedIds host locals)
  /\ JsMap.get (PlanLocals.prdById locals) (PrdStory.id story) <> None.
Proof.
  intros Hstory.
  destruct (prepare_stories host options codec prdResult lists cards labels)
    as [Hget _]. fold locals in Hget.
  assert (Hsome : JsMap.get (PlanLocals.prdById locals) (PrdStory.id story)
                  <> None).
  { rewrite Hget. intros Hnone.
    apply find_none with (x := story) in Hnone; [|exact Hstory].
    unfold hasId in Hnone. now rewrite String.eqb_refl in Hnone. }
  split; [|exact Hsome].
  unfold sortedIds, sortStrings. apply sort_In, JsSet_ofList_In, in_or_app.
  left. apply has_true. unfold JsMap.has.
  now destruct (JsMap.get (PlanLocals.prdById locals) (PrdStory.id story)).
Qed.

Lemma unique_record_carried (record : CardRecord.t) :
  In record (PlanLocals.uniqueCardRecords locals) ->
  In (CardRecord.storyId record) (sortedIds host locals)
  /\ JsMap.get (recordById locals) (CardRecord.storyId record) <> None.
Proof.
  intros Hrecord. split.
  - unfold sortedIds, sortStrings. apply sort_In, JsSet_ofList_In, in_or_app.
    right. now apply in_map.
  - unfold recordById. rewrite recordById_fold.
    destruct (@find_rev_member _ (recordOf (CardRecord.storyId record))
                (PlanLocals.uniqueCardRecords locals) record Hrecord)
      as [last ->]; [apply String.eqb_refl | discriminate].
Qed.

(** A card whose title parses shares its identifier with another card, or
    gives the record of its identifier. *)
Lemma card_id_carried (card : BoardCard.t) (id title : string) :
  In card cards ->
  StoryId.parseCardTitle codec (BoardCard.name card) = StoryId.ParseOk id title ->
  1 < List.length (filter (parsesTo codec id) cards)
  \/ (In id (sortedIds host locals)
      /\ JsMap.get (recordById locals) id <> None).
Proof.
  intros Hcard Hparse.
  set (record := {| CardRecord.card := card; CardRecord.storyId := id;
                    CardRecord.storyTitle := title |}).
  destruct (prepare_fields host options codec prdResult lists cards labels)
    as [_ [_ [_ [_ [_ [Hunique _]]]]]].
  destruct (prepare_buckets host options codec prdResult lists cards labels)
    as [_ Hget]. fold locals in Hunique, Hget.
  assert (Hmember : In record (filter (recordOf id)
                                 (flat_map (recordOfCard codec) cards))).
  { apply filter_In. split; [|apply String.eqb_refl].
    apply in_flat_map. exists card. split; [exact Hcard|].
    unfold recordOfCard. rewrite Hparse. now left. }
  specialize (Hget id). rewrite <- (recordOfCard_count codec id cards).
  destruct (filter (recordOf id) (flat_map (recordOfCard codec) cards))
    as [|first [|second rest]] eqn:Ebucket.
  - destruct Hmember.
  - right. destruct Hmember as [->|[]].
    assert (Hin : In record (PlanLocals.uniqueCardRecords locals)).
    { rewrite Hunique, in_flat_map. exists (id, [record]).
      split; [now apply get_Some_In | now left]. }
    exact (unique_record_carried record Hin).
  - left. cbn. lia.
Qed.

(** An identifier of the loop is the identifier of a story or the one a
    card parses to. *)
Lemma sortedIds_source (id : string) :
  In id (sortedIds host locals) ->
  In id (map PrdStory.id (FormatReadResult.stories prdResult))
  \/ exists card title,
       In card cards
       /\ StoryId.parseCardTitle codec (BoardCard.name card)
          = StoryId.ParseOk id title.
Proof.
  unfold sortedIds, sortStrings. rewrite sort_In, JsSet_ofList_In, in_app_iff.
  intros [Hstory|Hrecord].
  - left. apply has_true in Hstory. unfold JsMap.has in Hstory.
    destruct (prepare_stories host options codec prdResult lists cards labels)
      as [Hget _]. fold locals in Hget. rewrite Hget in Hstory.
    destruct (find (hasId id) (FormatReadResult.stories prdResult))
      as [story|] eqn:Efind; [|discriminate].
    apply find_some in Efind. destruct Efind as [Hin Hid].
    apply in_map_iff. exists story. split; [now apply String.eqb_eq | exact Hin].
  - right. apply in_map_iff in Hrecord. destruct Hrecord as [record [<- Hin]].
    destruct (@unique_records host options codec prdResult lists cards labels
                record Hin) as [recs [Hrecs ->]].
    destruct (prepare_buckets host options codec prdResult lists cards labels)
      as [_ Hget]. fold locals in Hget. rewrite Hget in Hrecs.
    assert (Hmember : In record (flat_map (recordOfCard codec) cards)).
    { destruct (filter (recordOf (CardRecord.storyId record))
                  (flat_map (recordOfCard codec) cards)) as [|x xs] eqn:Ef;
        [discriminate|].
      assert (Hx : In record (x :: xs)) by (injection Hrecs as -> ->; now left).
      rewrite <- Ef in Hx. now apply filter_In in Hx. }
    apply in_flat_map in Hmember. destruct Hmember as [card [Hcard Hsource]].
    unfold recordOfCard in Hsource.
    destruct (StoryId.parseCardTitle codec (BoardCard.name card))
      as [id' title| |] eqn:Eparse; cbn in Hsource; try contradiction.
    destruct Hsource as [<-|[]]. exists card, title. auto.
Qed.
End Carried.

(** ** The plans that [buildPlan] returns *)

(** A one-way run plans nothing for the store it reads from: from the
    document to the board, every create and every update of the plan is
    for the board, and the other way round they are all for the document. *)
Theorem one_way_plan_spares_its_source (host : Host)
    (options : SyncPlanOptions.t) (prdResult : FormatReadResult.t)
    (lists : list BoardList.t) (cards : list BoardCard.t)
    (labels : list BoardLabel.t)
    (getCardChecklists : string -> list BoardChecklist.t)
    (plan : SyncPlan.t) (context : SyncContext.t) :
  buildPlanOn host options prdResult lists cards labels getCardChecklists
    = Ok (plan, context) ->
  (SyncPlanOptions.direction options = Some PrdToTrello ->
   Forall (fun create => SyncCreate.target create = TargetTrello)
     (SyncPlan.creates plan)
   /\ Forall (fun update => SyncUpdate.target update = TargetTrello)
        (SyncPlan.updates plan))
  /\ (SyncPlanOptions.direction options = Some TrelloToPrd ->
      Forall (fun create => SyncCreate.target create = TargetPrd)
        (SyncPlan.creates plan)
      /\ Forall (fun update => SyncUpdate.target update = TargetPrd)
           (SyncPlan.updates plan)).
Proof.
  intros Hbuilt. apply buildPlanOn_outcomes in Hbuilt.
  destruct Hbuilt as [codec [outcomes [_ [Hturns [-> _]]]]].
  set (locals := prepare host options codec prdResult lists cards labels) in *.
  destruct (pushedBy_buckets host locals (pushedBy outcomes))
    as [Hc [Hu _]]. cbv zeta in Hc, Hu.
  destruct (prepare_direction host options codec prdResult lists cards labels)
    as [Hdirection _]. fold locals in Hdirection.
  assert (Hspared : forall entry target,
             In entry (pushedBy outcomes) ->
             entryTarget entry = Some target ->
             sparedTarget (Js.orElse (SyncPlanOptions.direction options) TwoWay)
             <> Some target).
  { intros entry target Hentry Htarget.
    destruct (@pushedBy_In _ _ _ _ _ _ Hturns Hentry) as [id [_ Hbody]].
    rewrite <- Hdirection. exact (loopBody_target _ _ _ _ Hbody Htarget). }
  split; intros Hway; rewrite Hway in Hspared; cbn in Hspared;
    split; apply Forall_forall.
  - intros create Hin. apply (Permutation_in _ Hc), pushedCreates_In in Hin.
    specialize (Hspared _ (SyncCreate.target create) Hin eq_refl).
    destruct (SyncCreate.target create); congruence.
  - intros update Hin. apply (Permutation_in _ Hu), pushedUpdates_In in Hin.
    specialize (Hspared _ (SyncUpdate.target update) Hin eq_refl).
    destruct (SyncUpdate.target update); congruence.
  - intros create Hin. apply (Permutation_in _ Hc), pushedCreates_In in Hin.
    specialize (Hspared _ (SyncCreate.target create) Hin eq_refl).
    destruct (SyncCreate.target create); congruence.
  - intros update Hin. apply (Permutation_in _ Hu), pushedUpdates_In in Hin.
    specialize (Hspared _ (SyncUpdate.target update) Hin eq_refl).
    destruct (SyncUpdate.target update); congruence.
Qed.

(** Every bucket of a plan comes back in the order of the comparator, by
    identifier, the conflicts by their identifier or else by their
    reason. *)
Theorem plan_buckets_are_sorted (host : Host)
    (options : SyncPlanOptions.t) (prdResult : FormatReadResult.t)
    (lists : list BoardList.t) (cards : list BoardCard.t)
    (labels : list BoardLabel.t)
    (getCardChecklists : string -> list BoardChecklist.t)
    (plan : SyncPlan.t) (context : SyncContext.t) :
  Consistent host ->
  buildPlanOn host options prdResult lists cards labels getCardChecklists
    = Ok (plan, context) ->
  StronglySorted
    (fun left right => precedes host (SyncCreate.id left) (SyncCreate.id right))
    (SyncPlan.creates plan)
  /\ StronglySorted
       (fun left right => precedes host (SyncUpdate.id left) (SyncUpdate.id right))
       (SyncPlan.updates plan)
  /\ StronglySorted
       (fun left right => precedes host (conflictKey left) (conflictKey right))
       (SyncPlan.conflicts plan)
  /\ StronglySorted
       (fun left right => precedes host (SyncNoop.id left) (SyncNoop.id right))
       (SyncPlan.noop plan).
Proof.
  intros [Htotal Htrans] Hbuilt. apply buildPlanOn_outcomes in Hbuilt.
  destruct Hbuilt as [codec [outcomes [_ [_ [-> _]]]]].
  unfold sortPlan. cbn [SyncPlan.creates SyncPlan.updates SyncPlan.conflicts
                        SyncPlan.noop].
  repeat split; apply sort_sorted; intros; unfold precedes in *; eauto.
Qed.

(** No identifier is planned twice: the creates, updates and no-ops of a
    plan have pairwise different identifiers, and none of them is the
    identifier of a conflict of the plan. *)
Theorem plan_identifiers_are_distinct (host : Host)
    (options : SyncPlanOptions.t) (prdResult : FormatReadResult.t)
    (lists : list BoardList.t) (cards : list BoardCard.t)
    (labels : list BoardLabel.t)
    (getCardChecklists : string -> list BoardChecklist.t)
    (plan : SyncPlan.t) (context : SyncContext.t) :
  buildPlanOn host options prdResult lists cards labels getCardChecklists
    = Ok (plan, context) ->
  NoDup (plannedIds plan)
  /\ forall id, In id (plannedIds plan) -> ~ In id (conflictIds plan).
Proof.
  intros Hbuilt. apply buildPlanOn_outcomes in Hbuilt.
  destruct Hbuilt as [codec [outcomes [_ [Hturns [-> _]]]]]. split.
  - exact (@plannedIds_NoDup _ _ _ _ _ _ _ _ _ Hturns).
  - intros id. exact (@planned_not_in_conflict _ _ _ _ _ _ _ _ _ Hturns id).
Qed.

(** Nothing is left out of a plan and nothing is made up.  The identifier
    of every story of the document, and the identifier every card parses
    to, is planned or is the identifier of a conflict; a card whose title
    does not parse is reported in a conflict of its own; and every planned
    identifier is the identifier of a story or the one a card parses to. *)
Theorem plan_accounts_for_stories_and_cards (host : Host)
    (options : SyncPlanOptions.t) (prdResult : FormatReadResult.t)
    (lists : list BoardList.t) (cards : list BoardCard.t)
    (labels : list BoardLabel.t)
    (getCardChecklists : string -> list BoardChecklist.t)
    (plan : SyncPlan.t) (context : SyncContext.t) :
  buildPlanOn host options prdResult lists cards labels getCardChecklists
    = Ok (plan, context) ->
  exists codec,
    StoryId.createStoryIdCodec (codecMapping (SyncPlanOptions.mapping options))
      = Ok codec
    /\ (forall story,
          In story (FormatReadResult.stories prdResult) ->
          In (PrdStory.id story) (plannedIds plan)
          \/ In (PrdStory.id story) (conflictIds plan))
    /\ (forall card,
          In card cards ->
          match StoryId.parseCardTitle codec (BoardCard.name card) with
          | StoryId.ParseOk id _ =>
              In id (plannedIds plan) \/ In id (conflictIds plan)
          | StoryId.ParseMissing reason _ _
          | StoryId.ParseAmbiguous reason _ _ =>
              In (conflictOf None reason (Some [card]) None)
                (SyncPlan.conflicts plan)
          end)
    /\ (forall id,
          In id (plannedIds plan) ->
          In id (map PrdStory.id (FormatReadResult.stories prdResult))
          \/ exists card title,
               In card cards
               /\ StoryId.parseCardTitle codec (BoardCard.name card)
                  = StoryId.ParseOk id title).
Proof.
  intros Hbuilt. apply buildPlanOn_outcomes in Hbuilt.
  destruct Hbuilt as [codec [outcomes [Hcodec [Hturns [-> _]]]]].
  exists codec. split; [exact Hcodec|].
  set (locals := prepare host options codec prdResult lists cards labels) in *.
  set (plan := sortPlan host _).
  destruct (pushedBy_buckets host locals (pushedBy outcomes))
    as [_ [_ [Hk _]]]. cbv zeta in Hk. fold plan in Hk.
  split; [|split].
  - intros story Hstory.
    destruct (story_id_carried host options codec prdResult lists cards labels
                story Hstory) as [Hid Hget].
    apply (@carried_id_accounted _ _ _ _ _ _ _ _ _ Hturns _ Hid). now left.
  - intros card Hcard.
    destruct (StoryId.parseCardTitle codec (BoardCard.name card))
      as [id title|reason title matches|reason title matches] eqn:Eparse.
    + destruct (card_id_carried host options codec prdResult lists cards labels
                  card Hcard Eparse) as [Hcrowd|[Hid Hget]].
      * right. apply conflictIds_In.
        destruct (prepared_conflicts host options codec prdResult lists cards
                    labels id) as [_ [Hcards _]].
        fold locals in Hcards. specialize (Hcards Hcrowd).
        destruct (filter (keyedFor id "Duplicate story ID across Trello cards")
                    (PlanLocals.conflicts locals))
          as [|conflict rest] eqn:Efilter; [discriminate|].
        assert (Hin : In conflict
                        (filter (keyedFor id "Duplicate story ID across Trello cards")
                           (PlanLocals.conflicts locals)))
          by (rewrite Efilter; now left).
        apply filter_In in Hin. destruct Hin as [Hin Hkeyed].
        unfold keyedFor in Hkeyed. apply andb_true_iff in Hkeyed.
        destruct Hkeyed as [Hkeyed _]. apply keyedBy_id in Hkeyed.
        exists conflict. split; [|exact Hkeyed].
        apply (Permutation_in _ (Permutation_sym Hk)), in_or_app. now left.
      * apply (@carried_id_accounted _ _ _ _ _ _ _ _ _ Hturns _ Hid). now right.
    + apply (Permutation_in _ (Permutation_sym Hk)), in_or_app. left.
      destruct (prepare_fields host options codec prdResult lists cards labels)
        as [_ [_ [_ [_ [_ [_ Hconflicts]]]]]].
      fold locals in Hconflicts. rewrite Hconflicts, !in_app_iff.
      right. right. left. apply in_flat_map. exists card.
      split; [exact Hcard|]. unfold conflictOfCard. rewrite Eparse. now left.
    + apply (Permutation_in _ (Permutation_sym Hk)), in_or_app. left.
      destruct (prepare_fields host options codec prdResult lists cards labels)
        as [_ [_ [_ [_ [_ [_ Hconflicts]]]]]].
      fold locals in Hconflicts. rewrite Hconflicts, !in_app_iff.
      right. right. left. apply in_flat_map. exists card.
      split; [exact Hcard|]. unfold conflictOfCard. rewrite Eparse. now left.
  - intros id Hplanned.
    apply (Permutation_in _ (@plannedIds_perm _ _ _ _ _ _ _ _)) in Hplanned.
    assert (Hentry : exists entry,
               In entry (pushedBy outcomes) /\ entryId entry = Some id).
    { rewrite !in_app_iff, !in_map_iff in Hplanned.
      destruct Hplanned as [[c [<- Hc]]|[[u [<- Hu]]|[n [<- Hn]]]].
      - exists (PushCreate c). split; [now apply pushedCreates_In | reflexivity].
      - exists (PushUpdate u). split; [now apply pushedUpdates_In | reflexivity].
      - exists (PushNoop n). split; [now apply pushedNoops_In | reflexivity]. }
    destruct Hentry as [entry [Hentry Hsame]].
    destruct (@pushedBy_In _ _ _ _ _ _ Hturns Hentry) as [id' [Hid' Hbody]].
    apply loopBody_entryId in Hbody. destruct Hbody as [Hthis _].
    assert (id' = id) by congruence. subst id'.
    exact (sortedIds_source host options codec prdResult lists cards labels
             id Hid').
Qed.

Lemma one_way_plan_spares_its_source_witness :
  exists plan context,
    buildPlanOn Fixture.host (Runs.options PrdToTrello None None)
      Runs.document Fixture.lists Runs.cards [] Fixture.noChecklists
    = Ok (plan, context)
    /\ Forall (fun create => SyncCreate.target create = TargetTrello)
         (SyncPlan.creates plan)
    /\ Forall (fun update => SyncUpdate.target update = TargetTrello)
         (SyncPlan.updates plan)
    /\ List.length (SyncPlan.creates plan) = 1
    /\ List.length (SyncPlan.updates plan) = 1.
Proof.
  destruct (buildPlanOn Fixture.host (Runs.options PrdToTrello None None)
              Runs.document Fixture.lists Runs.cards [] Fixture.noChecklists)
    as [[plan context]|] eqn:Eplan; [|vm_compute in Eplan; discriminate].
  exists plan, context. split; [reflexivity|].
  destruct (@one_way_plan_spares_its_source Fixture.host
              (Runs.options PrdToTrello None None) Runs.document Fixture.lists
              Runs.cards [] Fixture.noChecklists plan context Eplan)
    as [Hboard _].
  destruct (Hboard eq_refl) as [Hcreates Hupdates].
  split; [exact Hcreates|]. split; [exact Hupdates|].
  vm_compute in Eplan. injection Eplan as <- _. split; reflexivity.
Defined.

Lemma plan_buckets_are_sorted_witness :
  exists plan context,
    buildPlanOn Fixture.host (Runs.options TwoWay None None)
      Runs.document Fixture.lists Runs.cards [] Fixture.noChecklists
    = Ok (plan, context)
    /\ StronglySorted
         (fun left right =>
            precedes Fixture.host (SyncCreate.id left) (SyncCreate.id right))
         (SyncPlan.creates plan)
    /\ List.length (SyncPlan.creates plan) = 2.
Proof.
  destruct (buildPlanOn Fixture.host (Runs.options TwoWay None None)
              Runs.document Fixture.lists Runs.cards [] Fixture.noChecklists)
    as [[plan context]|] eqn:Eplan; [|vm_compute in Eplan; discriminate].
  exists plan, context. split; [reflexivity|].
  destruct (@plan_buckets_are_sorted Fixture.host
              (Runs.options TwoWay None None) Runs.document Fixture.lists
              Runs.cards [] Fixture.noChecklists plan context
              fixture_consistent Eplan) as [Hcreates _].
  split; [exact Hcreates|].
  vm_compute in Eplan. injection Eplan as <- _. reflexivity.
Defined.

Lemma plan_identifiers_are_distinct_witness :
  exists plan context,
    buildPlanOn Fixture.host (Runs.options TwoWay None None)
      Runs.document Fixture.lists Runs.cards [] Fixture.noChecklists
    = Ok (plan, context)
    /\ NoDup (plannedIds plan)
    /\ List.length (plannedIds plan) = 3.
Proof.
  destruct (buildPlanOn Fixture.host (Runs.options TwoWay None None)
              Runs.document Fixture.lists Runs.cards [] Fixture.noChecklists)
    as [[plan context]|] eqn:Eplan; [|vm_compute in Eplan; discriminate].
  exists plan, context. split; [reflexivity|].
  destruct (@plan_identifiers_are_distinct Fixture.host
              (Runs.options TwoWay None None) Runs.document Fixture.lists
              Runs.cards [] Fixture.noChecklists plan context Eplan)
    as [Hdistinct _].
  split; [exact Hdistinct|].
  vm_compute in Eplan. injection Eplan as <- _. reflexivity.
Defined.

Lemma plan_accounts_for_stories_and_cards_witness :
  exists plan context,
    buildPlanOn Fixture.host (Runs.options TwoWay None None)
      Runs.document Fixture.lists Runs.cards [] Fixture.noChecklists
    = Ok (plan, context)
    /\ (In "US-002" (plannedIds plan) \/ In "US-002" (conflictIds plan)).
Proof.
  destruct (buildPlanOn Fixture.host (Runs.options TwoWay None None)
              Runs.document Fixture.lists Runs.cards [] Fixture.noChecklists)
    as [[plan context]|] eqn:Eplan; [|vm_compute in Eplan; discriminate].
  exists plan, context. split; [reflexivity|].
  destruct (@plan_accounts_for_stories_and_cards Fixture.host
              (Runs.options TwoWay None None) Runs.document Fixture.lists
              Runs.cards [] Fixture.noChecklists plan context Eplan)
    as [codec [_ [Hstories _]]].
  apply (Hstories (Fixture.story "US-002" "Second" "Second description")).
  right. left. reflexivity.
Defined.
(** * What a run does to the stores *)

(** ** Computations and their results *)

Section Yields.
Variable W : Type.

Lemma yields_any (A : Type) (m : M W A) : yields m (fun _ => True).
Proof. intros s s' a _. exact I. Qed.

Lemma yields_ret (A : Type) (a : A) (Q : A -> Prop) :
  Q a -> yields (@ret W A a) Q.
Proof. intros Ha s s' a' [= _ <-]. exact Ha. Qed.

Lemma yields_liftResult (A : Type) (r : Result A) :
  yields (@liftResult W A r) (fun a => r = Ok a).
Proof. intros s s' a [= _ ->]. reflexivity. Qed.

Lemma yields_bindM (A B : Type) (m : M W A) (k : A -> M W B)
    (P : A -> Prop) (Q : B -> Prop) :
  yields m P -> (forall a, P a -> yields (k a) Q) -> yields (bindM m k) Q.
Proof.
  intros Hm Hk s s' b. unfold bindM.
  destruct (m s) as [s1 [a|e]] eqn:E; [|discriminate].
  intros Hrun. exact (Hk a (Hm _ _ _ E) _ _ _ Hrun).
Qed.

Lemma yields_weaken (A : Type) (m : M W A) (P Q : A -> Prop) :
  yields m P -> (forall a, P a -> Q a) -> yields m Q.
Proof. intros Hm Himp s s' a Hrun. exact (Himp a (Hm _ _ _ Hrun)). Qed.

Variable allowed : Call -> bool.

Lemma logsOnly_weaken (A : Type) (stricter : Call -> bool) (m : M W A) :
  (forall call, stricter call = true -> allowed call = true) ->
  logsOnly stricter m -> logsOnly allowed m.
Proof.
  intros Himp Hm w log. destruct (Hm w log) as [added [Hlog Hall]].
  exists added. split; [exact Hlog|].
  rewrite forallb_forall in *. auto.
Qed.

(** The rule of [logsOnly_bindM] when what comes next depends on what the
    first computation returned. *)
Lemma logsOnly_bindM_yields (A B : Type) (m : M W A) (k : A -> M W B)
    (P : A -> Prop) :
  logsOnly allowed m -> yields m P ->
  (forall a, P a -> logsOnly allowed (k a)) ->
  logsOnly allowed (bindM m k).
Proof.
  intros Hm Hyields Hk w log. unfold bindM.
  destruct (Hm w log) as [first [Hfirst Hallowed]].
  destruct (m (w, log)) as [[w' log'] [a|e]] eqn:E; cbn in Hfirst; subst log'.
  - destruct (Hk a (Hyields _ _ _ E) w' (log ++ first)%list)
      as [second [Hsecond Hallowed']].
    exists (first ++ second)%list. rewrite Hsecond, app_assoc.
    split; [reflexivity|]. now rewrite forallb_app, Hallowed, Hallowed'.
  - exists first. auto.
Qed.

Lemma logsOnly_foldM (A S : Type) (f : S -> A -> M W S) (items : list A) :
  (forall acc item, In item items -> logsOnly allowed (f acc item)) ->
  forall acc, logsOnly allowed (foldM f items acc).
Proof.
  induction items as [|item items IH]; intros Hf acc; cbn [foldM].
  - apply logsOnly_ret.
  - apply logsOnly_bindM; [apply Hf; now left|]. intros acc'.
    apply IH. intros acc'' item' Hin. apply Hf. now right.
Qed.
End Yields.

(** ** The plan [buildPlan] returns *)

(** The planner of the engine returns what [classifyAll] makes of the data
    the adapters gave. *)
Lemma buildPlan_yields (host : Host) (W : Type) (adapters : Adapters.t W)
    (options : SyncPlanOptions.t) :
  yields (buildPlan host adapters options)
    (fun built =>
       exists codec prdResult lists cards labels checklistResults,
         classifyAll host
           (prepare host options codec prdResult lists cards labels)
           checklistResults
         = Ok built).
Proof.
  unfold buildPlan.
  eapply yields_bindM; [apply yields_any|]. intros codec _.
  eapply yields_bindM; [apply yields_any|]. intros prdResult _.
  eapply yields_bindM; [apply yields_any|]. intros lists _.
  eapply yields_bindM; [apply yields_any|]. intros cards _.
  eapply yields_bindM; [apply yields_any|]. intros labels _.
  eapply yields_bindM; [apply yields_any|]. intros results _.
  eapply yields_weaken; [apply yields_liftResult|].
  intros built Hbuilt. exists codec, prdResult, lists, cards, labels, results.
  exact Hbuilt.
Qed.

(** A one-way plan is for one store only. *)
Lemma classifyAll_one_way (host : Host) (locals : PlanLocals.t)
    (checklistResults : list (list BoardChecklist.t))
    (plan : SyncPlan.t) (context : SyncContext.t) :
  classifyAll host locals checklistResults = Ok (plan, context) ->
  (PlanLocals.direction locals = PrdToTrello -> plansOnlyFor TargetTrello plan)
  /\ (PlanLocals.direction locals = TrelloToPrd -> plansOnlyFor TargetPrd plan).
Proof.
  intros Hall. apply classifyAll_outcomes in Hall.
  destruct Hall as [outcomes [Hturns [-> _]]].
  destruct (pushedBy_buckets host locals (pushedBy outcomes))
    as [Hc [Hu _]]. cbv zeta in Hc, Hu.
  assert (Hspared : forall entry target,
             In entry (pushedBy outcomes) ->
             entryTarget entry = Some target ->
             sparedTarget (PlanLocals.direction locals) <> Some target).
  { intros entry target Hentry Htarget.
    destruct (@pushedBy_In _ _ _ _ _ _ Hturns Hentry) as [id [_ Hbody]].
    exact (loopBody_target _ _ _ _ Hbody Htarget). }
  split; intros Hway; rewrite Hway in Hspared; cbn in Hspared;
    split; apply Forall_forall.
  - intros create Hin. apply (Permutation_in _ Hc), pushedCreates_In in Hin.
    specialize (Hspared _ (SyncCreate.target create) Hin eq_refl).
    destruct (SyncCreate.target create); congruence.
  - intros update Hin. apply (Permutation_in _ Hu), pushedUpdates_In in Hin.
    specialize (Hspared _ (SyncUpdate.target update) Hin eq_refl).
    destruct (SyncUpdate.target update); congruence.
  - intros create Hin. apply (Permutation_in _ Hc), pushedCreates_In in Hin.
    specialize (Hspared _ (SyncCreate.target create) Hin eq_refl).
    destruct (SyncCreate.target create); congruence.
  - intros update Hin. apply (Permutation_in _ Hu), pushedUpdates_In in Hin.
    specialize (Hspared _ (SyncUpdate.target update) Hin eq_refl).
    destruct (SyncUpdate.target update); congruence.
Qed.

Lemma buildPlan_one_way (host : Host) (W : Type) (adapters : Adapters.t W)
    (options : SyncPlanOptions.t) :
  yields (buildPlan host adapters options)
    (fun built =>
       (SyncPlanOptions.direction options = Some PrdToTrello ->
        plansOnlyFor TargetTrello (fst built))
       /\ (SyncPlanOptions.direction options = Some TrelloToPrd ->
           plansOnlyFor TargetPrd (fst built))).
Proof.
  eapply yields_weaken; [apply buildPlan_yields|].
  intros [plan context]
    [codec [prdResult [lists [cards [labels [results Hall]]]]]].
  apply classifyAll_one_way in Hall.
  destruct (prepare_direction host options codec prdResult lists cards labels)
    as [Hdirection _]. cbv zeta in Hdirection. rewrite Hdirection in Hall.
  destruct Hall as [Hboard Hdocument]. cbn [fst].
  split; intros Hway; rewrite Hway in *; auto.
Qed.

(** ** Applying a plan *)

Lemma sparesDocument_reads (call : Call) :
  readsOnly call = true -> sparesDocument call = true.
Proof. now destruct call. Qed.

Lemma sparesBoard_reads (call : Call) :
  readsOnly call = true -> sparesBoard call = true.
Proof. now destruct call. Qed.

Lemma no_document_entries (plan : SyncPlan.t) :
  plansOnlyFor TargetTrello plan ->
  filter (fun c => negb (isTrelloCreate c)) (SyncPlan.creates plan) = []
  /\ filter (fun u => negb (isTrelloUpdate u)) (SyncPlan.updates plan) = [].
Proof.
  intros [Hcreates Hupdates]. rewrite Forall_forall in Hcreates, Hupdates.
  split; apply filter_none.
  - intros c Hin. specialize (Hcreates c Hin). now destruct c.
  - intros u Hin. specialize (Hupdates u Hin). now destruct u.
Qed.

Lemma no_board_entries (plan : SyncPlan.t) :
  plansOnlyFor TargetPrd plan ->
  filter isTrelloCreate (SyncPlan.creates plan) = []
  /\ filter isTrelloUpdate (SyncPlan.updates plan) = [].
Proof.
  intros [Hcreates Hupdates]. rewrite Forall_forall in Hcreates, Hupdates.
  split; apply filter_none.
  - intros c Hin. specialize (Hcreates c Hin). now destruct c.
  - intros u Hin. specialize (Hupdates u Hin). now destruct u.
Qed.

Section ApplyFacts.
Variable host : Host.
Variable W : Type.
Variable adapters : Adapters.t W.

(** The label pass keeps the conflicts and the no-ops of the plan, and
    the store each of its entries is for. *)
Lemma refreshLabels_yields (plan : SyncPlan.t) (options : SyncPlanOptions.t) :
  yields (refreshLabels host adapters plan options)
    (fun refreshed =>
       SyncPlan.conflicts refreshed = SyncPlan.conflicts plan
       /\ SyncPlan.noop refreshed = SyncPlan.noop plan
       /\ map SyncCreate.id (SyncPlan.creates refreshed)
          = map SyncCreate.id (SyncPlan.creates plan)
       /\ map SyncUpdate.id (SyncPlan.updates refreshed)
          = map SyncUpdate.id (SyncPlan.updates plan)
       /\ forall target, plansOnlyFor target plan -> plansOnlyFor target refreshed).
Proof.
  unfold refreshLabels.
  eapply yields_bindM; [apply yields_any|]. intros labels _.
  eapply yields_bindM; [apply yields_any|]. intros [labelNameToId labelIdToName] _.
  apply yields_ret. cbn [SyncPlan.conflicts SyncPlan.noop SyncPlan.creates
                         SyncPlan.updates].
  split; [reflexivity|]. split; [reflexivity|].
  split; [|split].
  - rewrite map_map. apply map_ext. now intros [].
  - rewrite map_map. apply map_ext. intros []; cbn; [|reflexivity].
    now destruct (negb _).
  - intros target [Hcreates Hupdates]. split; cbn [SyncPlan.creates SyncPlan.updates].
    + apply Forall_map. eapply Forall_impl; [|exact Hcreates]. now intros [].
    + apply Forall_map. eapply Forall_impl; [|exact Hupdates].
      intros []; cbn; [|auto]. now destruct (negb _).
Qed.

Lemma refreshLabels_logs (allowed : Call -> bool) (plan : SyncPlan.t)
    (options : SyncPlanOptions.t) :
  allowed CallGetLabels = true ->
  (forall input, allowed (CallCreateLabel input) = true) ->
  logsOnly allowed (refreshLabels host adapters plan options).
Proof.
  intros Hget Hcreate. unfold refreshLabels.
  apply logsOnly_bindM; [now apply logsOnly_perform|]. intros labels.
  apply logsOnly_bindM.
  - apply logsOnly_foldM. intros [labelNameToId labelIdToName] labelName _.
    apply logsOnly_bindM; [now apply logsOnly_perform|]. intros created.
    apply logsOnly_ret.
  - intros [labelNameToId labelIdToName]. apply logsOnly_ret.
Qed.

(** What [applyPlan] returns keeps the conflicts of the plan. *)
Lemma applyPlan_yields (plan : SyncPlan.t) (context : SyncContext.t)
    (options : SyncPlanOptions.t) :
  yields (applyPlan host adapters plan context options)
    (fun applied =>
       SyncPlan.conflicts (snd applied) = SyncPlan.conflicts plan
       /\ SyncPlan.noop (snd applied) = SyncPlan.noop plan
       /\ map SyncCreate.id (SyncPlan.creates (snd applied))
          = map SyncCreate.id (SyncPlan.creates plan)
       /\ map SyncUpdate.id (SyncPlan.updates (snd applied))
          = map SyncUpdate.id (SyncPlan.updates plan)).
Proof.
  unfold applyPlan.
  eapply yields_bindM with
    (P := fun refreshed =>
            SyncPlan.conflicts refreshed = SyncPlan.conflicts plan
            /\ SyncPlan.noop refreshed = SyncPlan.noop plan
            /\ map SyncCreate.id (SyncPlan.creates refreshed)
               = map SyncCreate.id (SyncPlan.creates plan)
            /\ map SyncUpdate.id (SyncPlan.updates refreshed)
               = map SyncUpdate.id (SyncPlan.updates plan)).
  - destruct (_ && _).
    + eapply yields_weaken; [apply refreshLabels_yields|]. cbn beta. tauto.
    + apply yields_ret. auto.
  - intros refreshed Hkept.
    eapply yields_bindM; [apply yields_any|]. intros afterCreates _.
    eapply yields_bindM; [apply yields_any|]. intros [updated touched] _.
    eapply yields_bindM; [apply yields_any|]. intros updatedStories _.
    apply yields_ret. exact Hkept.
Qed.

(** A plan that is for the board only is applied without writing the
    document. *)
Lemma applyPlan_spares_document (plan : SyncPlan.t) (context : SyncContext.t)
    (options : SyncPlanOptions.t) :
  plansOnlyFor TargetTrello plan ->
  logsOnly sparesDocument (applyPlan host adapters plan context options).
Proof.
  intros Hplan. unfold applyPlan.
  apply logsOnly_bindM_yields with (P := plansOnlyFor TargetTrello).
  - destruct (_ && _); [now apply refreshLabels_logs | apply logsOnly_ret].
  - destruct (_ && _).
    + eapply yields_weaken; [apply refreshLabels_yields|].
      intros refreshed [_ [_ [_ [_ Hkept]]]]. auto.
    + now apply yields_ret.
  - intros refreshed Hrefreshed.
    apply logsOnly_bindM.
    { apply logsOnly_foldM. intros [updated touched] create _.
      destruct create as [id reason story cardInput checklist|];
        [|apply logsOnly_ret].
      apply logsOnly_bindM; [now apply logsOnly_perform|]. intros card.
      destruct (Nat.ltb 0 _); [|apply logsOnly_ret].
      apply logsOnly_bindM; [now apply logsOnly_perform|]. intros.
      apply logsOnly_ret. }
    intros afterCreates. apply logsOnly_bindM.
    { apply logsOnly_foldM. intros [updated touched] update _.
      destruct update as [id reason story card cardUpdate checklist needs move|];
        [|apply logsOnly_ret].
      apply logsOnly_bindM.
      - destruct (hasUpdateFields cardUpdate); [|apply logsOnly_ret].
        apply logsOnly_bindM; [now apply logsOnly_perform|]. intros.
        apply logsOnly_ret.
      - intros updated'. destruct needs; [|apply logsOnly_ret].
        apply logsOnly_bindM; [now apply logsOnly_perform|]. intros.
        apply logsOnly_ret. }
    intros [updated touched].
    destruct (no_document_entries Hrefreshed) as [-> ->]. cbn.
    apply logsOnly_bindM; [apply logsOnly_ret|]. intros. apply logsOnly_ret.
Qed.

(** A plan that is for the document only is applied without writing the
    board. *)
Lemma applyPlan_spares_board (plan : SyncPlan.t) (context : SyncContext.t)
    (options : SyncPlanOptions.t) :
  plansOnlyFor TargetPrd plan ->
  logsOnly sparesBoard (applyPlan host adapters plan context options).
Proof.
  intros Hplan. unfold applyPlan.
  destruct (no_board_entries Hplan) as [Hcreates Hupdates].
  rewrite Hcreates, Hupdates. cbn [List.length].
  change (Nat.ltb 0 0) with false. cbn [orb]. rewrite andb_false_r.
  destruct Hplan as [Hc Hu]. rewrite Forall_forall in Hc, Hu.
  apply logsOnly_bindM_yields with (P := fun refreshed => refreshed = plan);
    [apply logsOnly_ret | now apply yields_ret |]. intros ? ->.
  apply logsOnly_bindM.
  { apply logsOnly_foldM. intros [updated touched] create Hin.
    specialize (Hc create Hin).
    destruct create; [discriminate | apply logsOnly_ret]. }
  intros afterCreates. apply logsOnly_bindM.
  { apply logsOnly_foldM. intros [updated touched] update Hin.
    specialize (Hu update Hin).
    destruct update; [discriminate | apply logsOnly_ret]. }
  intros [updated touched]. apply logsOnly_bindM; [|intros; apply logsOnly_ret].
  destruct (Nat.ltb 0 _); [|apply logsOnly_ret].
  apply logsOnly_bindM; [now apply logsOnly_perform|]. intros.
  apply logsOnly_ret.
Qed.
End ApplyFacts.

(** ** Whole runs *)

Section RunFacts.
Variable host : Host.
Variable W : Type.
Variable adapters : Adapters.t W.

Lemma buildSnapshot_yields (context : SyncContext.t) :
  yields
    (buildSnapshot host adapters context
       {| SyncApplyResult.updatedStories := SyncContext.prdStories context;
          SyncApplyResult.updatedCardsByStoryId := JsMap.empty;
          SyncApplyResult.checklistTouchedCardIds := [] |})
    (fun snapshot =>
       SyncSnapshot.stories snapshot = SyncContext.prdStories context
       /\ SyncSnapshot.cards snapshot
          = snapshotCards (SyncContext.cardRecords context)).
Proof.
  unfold buildSnapshot. cbn.
  eapply yields_bindM with
    (P := fun cards => cards = snapshotCards (SyncContext.cardRecords context)).
  - now apply yields_ret.
  - intros cards ->. now apply yields_ret.
Qed.

(** After the plan is built, a run in one direction goes on without
    writing to its source. *)
Lemma one_way_run (allowed : Call -> bool) (target : SyncTarget)
    (options : SyncPlanOptions.t) :
  (forall call, readsOnly call = true -> allowed call = true) ->
  (forall plan context run,
     plansOnlyFor target plan ->
     logsOnly allowed (applyPlan host adapters plan context run)) ->
  yields (buildPlan host adapters options)
    (fun built => plansOnlyFor target (fst built)) ->
  logsOnly allowed (sync host adapters options)
  /\ logsOnly allowed (syncWithState host adapters options).
Proof.
  intros Hreads Hpply Hbuilt.
  assert (Hplan : logsOnly allowed (buildPlan host adapters options))
    by (eapply logsOnly_weaken; [exact Hreads | apply buildPlan_reads]).
  assert (Hsnapshot : forall context applyResult,
             logsOnly allowed (buildSnapshot host adapters context applyResult))
    by (intros; eapply logsOnly_weaken; [exact Hreads | apply buildSnapshot_reads]).
  split.
  - unfold sync. eapply logsOnly_bindM_yields; [exact Hplan | exact Hbuilt|].
    intros [plan context] Htarget. cbn [fst] in Htarget.
    destruct (Js.orElse _ false); [apply logsOnly_ret|].
    destruct (writesBlocked options plan); [apply logsOnly_ret|].
    apply logsOnly_bindM; [now apply Hpply|]. intros. apply logsOnly_ret.
  - unfold syncWithState.
    eapply logsOnly_bindM_yields; [exact Hplan | exact Hbuilt|].
    intros [plan context] Htarget. cbn [fst] in Htarget.
    destruct (_ || _).
    + apply logsOnly_bindM; [apply Hsnapshot|]. intros. apply logsOnly_ret.
    + apply logsOnly_bindM; [now apply Hpply|]. intros [applyResult applied].
      apply logsOnly_bindM; [apply Hsnapshot|]. intros. apply logsOnly_ret.
Qed.

Lemma syncWithStateFile_logs (allowed : Call -> bool)
    (statePath boardId : string) (incremental : option bool)
    (syncOptions : SyncPlanOptions.t) :
  (forall call, readsOnly call = true -> allowed call = true) ->
  (forall path, allowed (CallMkdir path) = true) ->
  (forall path content, allowed (CallWriteFile path content) = true) ->
  (forall options,
     SyncPlanOptions.direction options = SyncPlanOptions.direction syncOptions ->
     logsOnly allowed (syncWithState host adapters options)) ->
  logsOnly allowed
    (syncWithStateFile host adapters statePath boardId incremental syncOptions).
Proof.
  intros Hreads Hmkdir Hwrite Hsync. unfold syncWithStateFile.
  apply logsOnly_bindM.
  { destruct (Js.orElse incremental true); [|apply logsOnly_ret].
    eapply logsOnly_weaken; [exact Hreads | apply loadSyncState_reads]. }
  intros priorState. apply logsOnly_bindM; [now apply Hsync|].
  intros [plan snapshot]. apply logsOnly_bindM; [|intros; apply logsOnly_ret].
  destruct (negb _); [|apply logsOnly_ret]. unfold saveSyncState.
  apply logsOnly_bindM; [now apply logsOnly_perform|]. intros.
  now apply logsOnly_perform.
Qed.
End RunFacts.

(** A run in one direction never writes to the store it reads from,
    through [sync], [syncWithState] or [syncWithStateFile]: from the
    document to the board no call writes the document, and from the board
    to the document no call creates a label or a card, updates a card or
    writes a checklist. *)
Theorem one_way_run_spares_its_source (host : Host) (W : Type)
    (adapters : Adapters.t W) (options : SyncPlanOptions.t)
    (statePath boardId : string) (incremental : option bool) :
  (SyncPlanOptions.direction options = Some PrdToTrello ->
   logsOnly sparesDocument (sync host adapters options)
   /\ logsOnly sparesDocument (syncWithState host adapters options)
   /\ logsOnly sparesDocument
        (syncWithStateFile host adapters statePath boardId incremental options))
  /\ (SyncPlanOptions.direction options = Some TrelloToPrd ->
      logsOnly sparesBoard (sync host adapters options)
      /\ logsOnly sparesBoard (syncWithState host adapters options)
      /\ logsOnly sparesBoard
           (syncWithStateFile host adapters statePath boardId incremental
              options)).
Proof.
  assert (Hboard : forall run,
             SyncPlanOptions.direction run = Some PrdToTrello ->
             logsOnly sparesDocument (sync host adapters run)
             /\ logsOnly sparesDocument (syncWithState host adapters run)).
  { intros run Hway.
    apply one_way_run with (target := TargetTrello).
    - exact sparesDocument_reads.
    - intros plan context run'. apply applyPlan_spares_document.
    - eapply yields_weaken; [apply buildPlan_one_way|].
      intros built [Hbuilt _]. auto. }
  assert (Hdocument : forall run,
             SyncPlanOptions.direction run = Some TrelloToPrd ->
             logsOnly sparesBoard (sync host adapters run)
             /\ logsOnly sparesBoard (syncWithState host adapters run)).
  { intros run Hway.
    apply one_way_run with (target := TargetPrd).
    - exact sparesBoard_reads.
    - intros plan context run'. apply applyPlan_spares_board.
    - eapply yields_weaken; [apply buildPlan_one_way|].
      intros built [_ Hbuilt]. auto. }
  split; intros Hway.
  - destruct (Hboard options Hway) as [Hsync Hstate].
    split; [exact Hsync|]. split; [exact Hstate|].
    apply syncWithStateFile_logs; try reflexivity;
      [exact sparesDocument_reads|].
    intros run Hsame. apply Hboard. congruence.
  - destruct (Hdocument options Hway) as [Hsync Hstate].
    split; [exact Hsync|]. split; [exact Hstate|].
    apply syncWithStateFile_logs; try reflexivity;
      [exact sparesBoard_reads|].
    intros run Hsame. apply Hdocument. congruence.
Qed.

Lemma one_way_run_spares_its_source_witness :
  logsOnly sparesDocument
    (sync Fixture.host Memory.adapters (Runs.options PrdToTrello None None))
  /\ logsOnly sparesBoard
       (sync Fixture.host Memory.adapters (Runs.options TrelloToPrd None None)).
Proof.
  split.
  - exact (proj1 (proj1 (@one_way_run_spares_its_source Fixture.host Memory.t
                           Memory.adapters (Runs.options PrdToTrello None None)
                           Memory.statePath "board" None)
                    eq_refl)).
  - exact (proj1 (proj2 (@one_way_run_spares_its_source Fixture.host Memory.t
                           Memory.adapters (Runs.options TrelloToPrd None None)
                           Memory.statePath "board" None)
                    eq_refl)).
Defined.

(** When [blockWrites] is set, a plan that comes back with conflicts was
    not applied: whatever the stores and the log the run starts from, a run
    of [sync] or of [syncWithState] that returns such a plan has only read
    the stores. *)
Theorem blocked_run_only_reads (host : Host) (W : Type)
    (adapters : Adapters.t W) (options : SyncPlanOptions.t)
    (w w' : W) (log log' : list Call) :
  (forall plan,
     sync host adapters options (w, log) = ((w', log'), Ok plan) ->
     writesBlocked options plan = true ->
     exists added,
       log' = (log ++ added)%list /\ forallb readsOnly added = true)
  /\ (forall plan snapshot,
        syncWithState host adapters options (w, log)
        = ((w', log'), Ok (plan, snapshot)) ->
        writesBlocked options plan = true ->
        exists added,
          log' = (log ++ added)%list /\ forallb readsOnly added = true).
Proof.
  assert (Hblocked : forall plan applied,
             SyncPlan.conflicts applied = SyncPlan.conflicts plan ->
             writesBlocked options applied = writesBlocked options plan).
  { intros plan applied Hsame. unfold writesBlocked. now rewrite Hsame. }
  destruct (buildPlan_reads host adapters options w log)
    as [added [Hlog Hreads]].
  split.
  - intros plan. unfold sync, bindM.
    destruct (buildPlan host adapters options (w, log))
      as [[w1 log1] [[built context]|e]]; [|discriminate].
    cbn in Hlog. subst log1.
    destruct (Js.orElse (SyncPlanOptions.dryRun options) false).
    { intros [= <- <- <-] _. eauto. }
    destruct (writesBlocked options built) eqn:Ebuilt.
    { intros [= <- <- <-] _. eauto. }
    destruct (applyPlan host adapters built context options
                (w1, (log ++ added)%list))
      as [s2 [applied|e]] eqn:Eapply; [|discriminate].
    intros [= _ <-] Hstop.
    apply applyPlan_yields in Eapply. destruct Eapply as [Hsame _].
    rewrite (Hblocked _ _ Hsame) in Hstop. congruence.
  - intros plan snapshot. unfold syncWithState, bindM.
    destruct (buildPlan host adapters options (w, log))
      as [[w1 log1] [[built context]|e]]; [|discriminate].
    cbn in Hlog. subst log1.
    destruct (Js.orElse (SyncPlanOptions.dryRun options) false
              || writesBlocked options built) eqn:Eskip.
    + destruct (buildSnapshot_reads host adapters context
                  {| SyncApplyResult.updatedStories :=
                       SyncContext.prdStories context;
                     SyncApplyResult.updatedCardsByStoryId := JsMap.empty;
                     SyncApplyResult.checklistTouchedCardIds := [] |}
                  w1 (log ++ added)%list) as [more [Hmore Hreads']].
      destruct (buildSnapshot host adapters context _ (w1, (log ++ added)%list))
        as [[w2 log2] [taken|e]]; [|discriminate].
      cbn in Hmore. subst log2. intros [= <- <- <- <-] _.
      exists (added ++ more)%list. rewrite app_assoc.
      split; [reflexivity|]. now rewrite forallb_app, Hreads, Hreads'.
    + apply orb_false_iff in Eskip. destruct Eskip as [_ Ebuilt].
      destruct (applyPlan host adapters built context options
                  (w1, (log ++ added)%list))
        as [s2 [[applyResult applied]|e]] eqn:Eapply; [|discriminate].
      apply applyPlan_yields in Eapply. destruct Eapply as [Hsame _].
      cbn [snd] in Hsame.
      destruct (buildSnapshot host adapters context applyResult s2)
        as [s3 [taken|e]]; [|discriminate].
      intros [= _ <- _] Hstop.
      rewrite (Hblocked _ _ Hsame) in Hstop. congruence.
Qed.

Lemma blocked_run_only_reads_witness :
  exists w' log' plan added,
    sync Fixture.host Memory.adapters (Fixture.options None (Some true) None)
      (Memory.blocked, [])
    = ((w', log'), Ok plan)
    /\ writesBlocked (Fixture.options None (Some true) None) plan = true
    /\ log' = ([] ++ added)%list
    /\ forallb readsOnly added = true.
Proof.
  destruct (sync Fixture.host Memory.adapters
              (Fixture.options None (Some true) None) (Memory.blocked, []))
    as [[w' log'] [plan|e]] eqn:Erun; [|vm_compute in Erun; discriminate].
  assert (Hblocked : writesBlocked (Fixture.options None (Some true) None) plan
                     = true).
  { pose proof Erun as Ecomputed. vm_compute in Ecomputed.
    injection Ecomputed as _ _ Hplan. rewrite <- Hplan. reflexivity. }
  destruct (proj1 (@blocked_run_only_reads Fixture.host Memory.t Memory.adapters
                     (Fixture.options None (Some true) None)
                     Memory.blocked w' [] log')
              plan Erun Hblocked) as [added [Hlog Hreads]].
  exists w', log', plan, added. auto.
Defined.



(** ** The stories written to the document *)

Section PrdChanges.
Variable host : Host.
Variable stories changes : list PrdStory.t.

Let existingIds : JsSet.t := JsSet.ofList (map PrdStory.id stories).

Let note (created : JsSet.t) (story : PrdStory.t) : JsSet.t :=
  if negb (JsSet.has existingIds (PrdStory.id story))
  then JsSet.add created (PrdStory.id story) else created.

Lemma changes_fold (rest : list PrdStory.t) :
  forall (updatedById : JsMap.t string PrdStory.t) (created : JsSet.t),
    fold_left
      (fun '(updatedById, created) story =>
         (JsMap.set updatedById (PrdStory.id story) story,
          if negb (JsSet.has existingIds (PrdStory.id story))
          then JsSet.add created (PrdStory.id story) else created))
      rest (updatedById, created)
    = (fold_left (fun m story => JsMap.set m (PrdStory.id story) story)
         rest updatedById,
       fold_left note rest created).
Proof.
  induction rest as [|story rest IH]; intros updatedById created;
    [reflexivity|].
  cbn [fold_left]. apply IH.
Qed.

Lemma created_spec (rest : list PrdStory.t) :
  forall created,
    NoDup created ->
    NoDup (fold_left note rest created)
    /\ forall id,
         In id (fold_left note rest created)
         <-> In id created
             \/ (In id (map PrdStory.id rest)
                 /\ ~ In id (map PrdStory.id stories)).
Proof.
  induction rest as [|story rest IH]; intros created Hnd; cbn [fold_left map].
  - split; [exact Hnd|]. intros id. cbn. tauto.
  - assert (Hnote : NoDup (note created story)).
    { unfold note. destruct (negb _); [now apply JsSet_add_NoDup | exact Hnd]. }
    destruct (IH _ Hnote) as [Hnd' Hin]. split; [exact Hnd'|].
    intros id. rewrite Hin. unfold note.
    destruct (JsSet.has existingIds (PrdStory.id story)) eqn:Eold; cbn [negb].
    + apply JsSet_has_true in Eold. apply -> JsSet_ofList_In in Eold. cbn [In].
      split; [tauto|]. intros [H|[[<-|H] Hnew]]; tauto.
    + assert (Hfresh : ~ In (PrdStory.id story) (map PrdStory.id stories)).
      { intros H. apply JsSet_ofList_In, JsSet_has_true in H.
        fold existingIds in H. congruence. }
      rewrite JsSet_add_In. cbn [In]. split.
      * intros [[H| ->]|[H Hnew]]; auto.
      * intros [H|[[<-|H] Hnew]]; auto.
Qed.

(** The last change that carries the identifier [id]. *)
Let lastChange (id : string) : option PrdStory.t :=
  find (hasId id) (List.rev changes).

Lemma lastChange_id (id : string) (change : PrdStory.t) :
  lastChange id = Some change -> PrdStory.id change = id /\ In change changes.
Proof.
  intros Hfind. apply find_some in Hfind. destruct Hfind as [Hin Hid].
  split; [now apply String.eqb_eq | now apply in_rev].
Qed.

Lemma applyPrdChanges_unfold :
  applyPrdChanges host stories changes
  = (map (fun story => Js.orElse (lastChange (PrdStory.id story)) story) stories
       ++ flat_map (fun id => match lastChange id with
                              | Some story => [story]
                              | None => []
                              end)
            (sortStrings host (fold_left note changes [])))%list.
Proof.
  unfold applyPrdChanges. fold existingIds. rewrite changes_fold.
  f_equal.
  - apply map_ext. intros story.
    rewrite (fold_set_get PrdStory.id (fun story => story)). unfold lastChange, hasId.
    now destruct (find _ _).
  - apply flat_map_ext. intros id.
    rewrite (fold_set_get PrdStory.id (fun story => story)). unfold lastChange, hasId.
    now destruct (find _ _).
Qed.

Lemma created_stories (ids : list string) :
  (forall id, In id ids -> In id (map PrdStory.id changes)) ->
  map PrdStory.id
    (flat_map (fun id => match lastChange id with
                         | Some story => [story]
                         | None => []
                         end) ids)
  = ids.
Proof.
  induction ids as [|id ids IH]; intros Hids; [reflexivity|].
  cbn [flat_map]. rewrite map_app, IH by (intros; apply Hids; now right).
  assert (Hid : In id (map PrdStory.id changes)) by (apply Hids; now left).
  apply in_map_iff in Hid. destruct Hid as [change [Hsame Hin]].
  destruct (@find_rev_member _ (hasId id) changes change Hin) as [last Hlast];
    [now apply String.eqb_eq|].
  fold (lastChange id) in Hlast. rewrite Hlast.
  apply lastChange_id in Hlast. destruct Hlast as [Hid _].
  cbn [map List.app]. now rewrite Hid.
Qed.
End PrdChanges.

(** [applyPrdChanges] keeps the stories of the document in their places
    and under their identifiers, and appends the identifiers that are new,
    each once, in the order of the comparator.  A story of the result is
    the last change that carries its identifier when there is one, and a
    story of the document otherwise. *)
Theorem applyPrdChanges_result (host : Host) (stories changes : list PrdStory.t) :
  exists created,
    map PrdStory.id (applyPrdChanges host stories changes)
    = (map PrdStory.id stories ++ created)%list
    /\ NoDup created
    /\ (forall id,
          In id created
          <-> In id (map PrdStory.id changes)
              /\ ~ In id (map PrdStory.id stories))
    /\ (Consistent host -> StronglySorted (precedes host) created)
    /\ forall story,
         In story (applyPrdChanges host stories changes) ->
         match find (hasId (PrdStory.id story)) (List.rev changes) with
         | Some change => story = change
         | None => In story stories
         end.
Proof.
  set (existingIds := JsSet.ofList (map PrdStory.id stories)).
  set (note := fun (created : JsSet.t) (story : PrdStory.t) =>
                 if negb (JsSet.has existingIds (PrdStory.id story))
                 then JsSet.add created (PrdStory.id story) else created).
  destruct (created_spec stories changes (NoDup_nil string)) as [Hnd Hin].
  fold existingIds in Hnd, Hin. fold note in Hnd, Hin.
  exists (sortStrings host (fold_left note changes [])).
  rewrite applyPrdChanges_unfold. fold existingIds. fold note.
  assert (Hsorted : forall id,
             In id (sortStrings host (fold_left note changes []))
             <-> In id (map PrdStory.id changes)
                 /\ ~ In id (map PrdStory.id stories)).
  { intros id. unfold sortStrings. rewrite sort_In, Hin. cbn [In]. tauto. }
  split; [|split; [|split; [|split]]].
  - rewrite map_app. f_equal.
    + rewrite map_map. apply map_ext_in. intros story _.
      destruct (find (hasId (PrdStory.id story)) (List.rev changes))
        as [change|] eqn:Efind; [|reflexivity].
      cbn [Js.orElse]. now apply lastChange_id in Efind.
    + apply created_stories. intros id Hid. now apply Hsorted in Hid.
  - unfold sortStrings.
    exact (Permutation_NoDup (Permutation_sym (sort_perm (localeCompare host) _))
             Hnd).
  - exact Hsorted.
  - intros [Htotal Htrans]. unfold sortStrings. now apply sort_sorted.
  - intros story Hstory. apply in_app_or in Hstory.
    destruct Hstory as [Hkept|Hnew].
    + apply in_map_iff in Hkept. destruct Hkept as [old [<- Hold]].
      destruct (find (hasId (PrdStory.id old)) (List.rev changes))
        as [change|] eqn:Efind; cbn [Js.orElse].
      * pose proof Efind as Hid. apply lastChange_id in Hid.
        destruct Hid as [Hid _]. now rewrite Hid, Efind.
      * now rewrite Efind.
    + apply in_flat_map in Hnew. destruct Hnew as [id [_ Hfound]].
      destruct (find (hasId id) (List.rev changes)) as [change|] eqn:Efind;
        [|destruct Hfound].
      destruct Hfound as [<-|[]].
      pose proof Efind as Hid. apply lastChange_id in Hid.
      destruct Hid as [Hid _]. now rewrite Hid, Efind.
Qed.

Lemma applyPrdChanges_result_witness :
  exists created,
    map PrdStory.id
      (applyPrdChanges Fixture.host
         [Fixture.story "US-002" "Two" ""; Fixture.story "US-001" "One" ""]
         [Fixture.story "US-009" "Nine" ""; Fixture.story "US-001" "First" "";
          Fixture.story "US-003" "Three" ""])
    = (["US-002"; "US-001"] ++ created)%list
    /\ StronglySorted (precedes Fixture.host) created.
Proof.
  destruct (applyPrdChanges_result Fixture.host
              [Fixture.story "US-002" "Two" ""; Fixture.story "US-001" "One" ""]
              [Fixture.story "US-009" "Nine" ""; Fixture.story "US-001" "First" "";
               Fixture.story "US-003" "Three" ""])
    as [created [Hids [_ [_ [Hsorted _]]]]].
  exists created. split; [exact Hids | exact (Hsorted fixture_consistent)].
Defined.
(** * The state file *)

(** ** Maps rebuilt entry by entry *)

Lemma set_fresh (V : Type) (m : JsMap.t string V) (k : string) (v : V) :
  JsMap.get m k = None -> JsMap.set m k v = (m ++ [(k, v)])%list.
Proof.
  induction m as [|[k' v'] m IH]; cbn; [reflexivity|].
  destruct (k' =? k); [discriminate|]. intros Hnone. now rewrite IH.
Qed.

Lemma rebuilt_from (V U : Type) (value : U -> V) (m : list (string * U)) :
  forall pre : JsMap.t string V,
    NoDup (JsMap.keys pre ++ map fst m) ->
    fold_left (fun acc entry => JsMap.set acc (fst entry) (value (snd entry)))
      m pre
    = (pre ++ map (fun entry => (fst entry, value (snd entry))) m)%list.
Proof.
  induction m as [|[k u] m IH]; intros pre Hnd; cbn [fold_left map].
  - now rewrite app_nil_r.
  - cbn [fst snd]. rewrite set_fresh.
    + rewrite IH.
      * now rewrite <- app_assoc.
      * unfold JsMap.keys. rewrite map_app, <- app_assoc. exact Hnd.
    + apply get_None_keys. intros Hin.
      apply (distinct_apart _ _ k Hnd); [exact Hin | now left].
Qed.

Lemma rebuilt (V : Type) (m : JsMap.t string V) :
  NoDup (JsMap.keys m) ->
  fold_left (fun acc entry => JsMap.set acc (fst entry) (snd entry)) m JsMap.empty
  = m.
Proof.
  intros Hnd.
  rewrite (rebuilt_from (fun v : V => v) m JsMap.empty) by exact Hnd.
  cbn [JsMap.empty List.app]. rewrite <- (map_id m) at 2.
  apply map_ext. now intros [].
Qed.

(** ** Reading back what was written *)

Lemma forEach_stories (m : JsMap.t string SyncStateStoryEntry.t) :
  forall parsed,
    StateStore.forEach StateStore.parseStoryEntry
      (map (fun '(id, entry) =>
              (id, StateStore.Members
                     [ ("fingerprint",
                        StateStore.Text (SyncStateStoryEntry.fingerprint entry)) ]))
         m)
      parsed
    = StateStore.Valid
        (fold_left (fun acc entry => JsMap.set acc (fst entry) (snd entry))
           m parsed).
Proof.
  induction m as [|[id [fingerprint]] m IH]; intros parsed; [reflexivity|].
  cbn [map StateStore.forEach]. cbn. apply IH.
Qed.

Lemma forEach_cards (m : JsMap.t string SyncStateCardEntry.t) :
  forall parsed,
    StateStore.forEach StateStore.parseCardEntry
      (map (fun '(id, entry) =>
              (id, StateStore.Members
                     [ ("cardId",
                        StateStore.Text (SyncStateCardEntry.cardId entry));
                       ("lastActivityAt",
                        StateStore.Text
                          (SyncStateCardEntry.lastActivityAt entry)) ]))
         m)
      parsed
    = StateStore.Valid
        (fold_left (fun acc entry => JsMap.set acc (fst entry) (snd entry))
           m parsed).
Proof.
  induction m as [|[id [cardId lastActivityAt]] m IH]; intros parsed;
    [reflexivity|].
  cbn [map StateStore.forEach]. cbn. apply IH.
Qed.



(** ** What a parsed state holds *)

Lemma requireString_inv (value : option StateStore.Value) (label text : string) :
  StateStore.requireString value label = StateStore.Valid text ->
  value = Some (StateStore.Text text).
Proof.
  unfold StateStore.requireString.
  destruct value as [[| | |s| |]|]; try discriminate. now intros [= ->].
Qed.

Lemma requirePlainObject_inv (value : option StateStore.Value) (label : string)
    (members : StateStore.PlainObject) :
  StateStore.requirePlainObject value label = StateStore.Valid members ->
  value = Some (StateStore.Members members).
Proof.
  unfold StateStore.requirePlainObject.
  destruct value as [[| | | | |m]|]; try discriminate. now intros [= ->].
Qed.

Lemma has_set (V : Type) (m : JsMap.t string V) (k id : string) (v : V) :
  JsMap.has (JsMap.set m k v) id = true <-> JsMap.has m id = true \/ id = k.
Proof. now rewrite !has_true, keys_set_In. Qed.

Lemma forEach_stories_inv (entries : list (string * StateStore.Value)) :
  forall acc parsed,
    StateStore.forEach StateStore.parseStoryEntry entries acc
    = StateStore.Valid parsed ->
    (forall id entry,
       JsMap.get parsed id = Some entry ->
       JsMap.get acc id = Some entry
       \/ exists item,
            In (id, StateStore.Members item) entries
            /\ StateStore.member item "fingerprint"
               = Some (StateStore.Text (SyncStateStoryEntry.fingerprint entry)))
    /\ (forall id, JsMap.has parsed id = true
                   <-> JsMap.has acc id = true \/ In id (map fst entries)).
Proof.
  induction entries as [|[id0 value] entries IH]; intros acc parsed.
  - intros [= <-]. split; [auto|]. intros id. cbn. tauto.
  - cbn [StateStore.forEach]. unfold StateStore.andThen at 1.
    destruct (StateStore.parseStoryEntry acc (id0, value)) as [next|] eqn:Eentry;
      [|discriminate].
    unfold StateStore.parseStoryEntry, StateStore.andThen in Eentry.
    destruct (StateStore.requirePlainObject (Some value) _) as [item|] eqn:Eitem;
      [|discriminate].
    apply requirePlainObject_inv in Eitem. injection Eitem as ->.
    destruct (StateStore.requireString (StateStore.member item "fingerprint") _)
      as [fingerprint|] eqn:Efp; [|discriminate].
    apply requireString_inv in Efp. injection Eentry as <-.
    intros Hrest. apply IH in Hrest. destruct Hrest as [Hget Hhas]. split.
    + intros id entry Hentry. destruct (Hget id entry Hentry) as [Hnext|Hlater].
      * destruct (String.eqb_spec id0 id) as [->|Hne].
        -- rewrite get_set_same in Hnext. injection Hnext as <-.
           right. exists item. split; [now left | exact Efp].
        -- rewrite get_set_other in Hnext by exact Hne. now left.
      * right. destruct Hlater as [item' [Hin Hfp]]. exists item'.
        split; [now right | exact Hfp].
    + intros id. rewrite Hhas, has_set. cbn [map fst In].
      split; [intros [[H|H]|H] | intros [H|[H|H]]]; auto.
Qed.

Lemma forEach_cards_inv (entries : list (string * StateStore.Value)) :
  forall acc parsed,
    StateStore.forEach StateStore.parseCardEntry entries acc
    = StateStore.Valid parsed ->
    (forall id entry,
       JsMap.get parsed id = Some entry ->
       JsMap.get acc id = Some entry
       \/ exists item,
            In (id, StateStore.Members item) entries
            /\ StateStore.member item "cardId"
               = Some (StateStore.Text (SyncStateCardEntry.cardId entry))
            /\ StateStore.member item "lastActivityAt"
               = Some (StateStore.Text
                         (SyncStateCardEntry.lastActivityAt entry)))
    /\ (forall id, JsMap.has parsed id = true
                   <-> JsMap.has acc id = true \/ In id (map fst entries)).
Proof.
  induction entries as [|[id0 value] entries IH]; intros acc parsed.
  - intros [= <-]. split; [auto|]. intros id. cbn. tauto.
  - cbn [StateStore.forEach]. unfold StateStore.andThen at 1.
    destruct (StateStore.parseCardEntry acc (id0, value)) as [next|] eqn:Eentry;
      [|discriminate].
    unfold StateStore.parseCardEntry, StateStore.andThen in Eentry.
    destruct (StateStore.requirePlainObject (Some value) _) as [item|] eqn:Eitem;
      [|discriminate].
    apply requirePlainObject_inv in Eitem. injection Eitem as ->.
    destruct (StateStore.requireString (StateStore.member item "cardId") _)
      as [cardId|] eqn:Ecard; [|discriminate].
    destruct (StateStore.requireString (StateStore.member item "lastActivityAt") _)
      as [activity|] eqn:Eactivity; [|discriminate].
    apply requireString_inv in Ecard, Eactivity. injection Eentry as <-.
    intros Hrest. apply IH in Hrest. destruct Hrest as [Hget Hhas]. split.
    + intros id entry Hentry. destruct (Hget id entry Hentry) as [Hnext|Hlater].
      * destruct (String.eqb_spec id0 id) as [->|Hne].
        -- rewrite get_set_same in Hnext. injection Hnext as <-.
           right. exists item. split; [now left | split; assumption].
        -- rewrite get_set_other in Hnext by exact Hne. now left.
      * right. destruct Hlater as [item' [Hin Hfields]]. exists item'.
        split; [now right | exact Hfields].
    + intros id. rewrite Hhas, has_set. cbn [map fst In].
      split; [intros [[H|H]|H] | intros [H|[H|H]]]; auto.
Qed.



(** ** Loading and saving *)

(** [loadSyncState] never throws.  It reads the file once; it returns a
    state only when the text of the file decodes to that state and the
    state is of the expected board, document and mapping, as far as these
    are given; otherwise it returns nothing, silently when the file does
    not exist and with one warning that names the file in any other case. *)
Theorem loadSyncState_outcome (W : Type) (adapters : Adapters.t W)
    (statePath boardId prdPath mappingSignature : string)
    (w : W) (log : list Call) :
  exists w' added result,
    loadSyncState adapters statePath boardId prdPath mappingSignature (w, log)
    = ((w', (log ++ added)%list), Ok result)
    /\ match result with
       | Some state =>
           added = [CallReadFile statePath]
           /\ (exists raw,
                 snd (Adapters.readFile adapters statePath w) = FileText raw
                 /\ Adapters.decodeState adapters raw = DecodedState state)
           /\ (boardId <> "" -> SyncState.boardId state = boardId)
           /\ (prdPath <> "" -> SyncState.prdPath state = prdPath)
           /\ (mappingSignature <> "" ->
               SyncState.mappingSignature state = mappingSignature)
       | None =>
           (added = [CallReadFile statePath]
            /\ snd (Adapters.readFile adapters statePath w) = FileMissing)
           \/ exists reason,
                added = [ CallReadFile statePath;
                          CallWarn ("Ignoring sync state at " ++ statePath
                                      ++ ": " ++ reason) ]
       end.
Proof.
  unfold loadSyncState, bindM, perform, warn, ret, Js.push.
  destruct (Adapters.readFile adapters statePath w) as [w1 read] eqn:Eread.
  cbn [snd]. destruct read as [raw| |message].
  - destruct (Adapters.decodeState adapters raw) as [message|message|state]
      eqn:Edecode.
    + eexists w1, _, None.
      split; [unfold perform, Js.push; rewrite <- app_assoc; reflexivity|].
      cbn. right.
      exists ("invalid JSON (" ++ message ++ ")"). reflexivity.
    + eexists w1, _, None.
      split; [unfold perform, Js.push; rewrite <- app_assoc; reflexivity|].
      cbn. right.
      exists message. reflexivity.
    + destruct (validateSyncState state boardId prdPath mappingSignature)
        as [message|] eqn:Evalid.
      * eexists w1, _, None.
        split; [unfold perform, Js.push; rewrite <- app_assoc; reflexivity|].
      cbn. right.
        exists message. reflexivity.
      * exists w1, [CallReadFile statePath], (Some state).
        split; [reflexivity|]. split; [reflexivity|].
        split; [exists raw; auto|].
        unfold validateSyncState in Evalid.
        destruct (Js.truthy boardId
                  && negb (SyncState.boardId state =? boardId)) eqn:Eboard;
          [discriminate|].
        destruct (Js.truthy prdPath
                  && negb (SyncState.prdPath state =? prdPath)) eqn:Eprd;
          [discriminate|].
        destruct (Js.truthy mappingSignature
                  && negb (SyncState.mappingSignature state =? mappingSignature))
          eqn:Esignature; [discriminate|].
        assert (Hsame : forall expected actual,
                   Js.truthy expected && negb (actual =? expected) = false ->
                   expected <> "" -> actual = expected).
        { intros expected actual Hcheck Hgiven.
          apply truthy_true in Hgiven. rewrite Hgiven in Hcheck.
          cbn in Hcheck. apply negb_false_iff, String.eqb_eq in Hcheck.
          exact Hcheck. }
        repeat split; apply Hsame; assumption.
  - exists w1, [CallReadFile statePath], None. split; [reflexivity|].
    left. split; reflexivity.
  - eexists w1, _, None.
    split; [unfold perform, Js.push; rewrite <- app_assoc; reflexivity|].
      cbn. right.
    exists ("failed to read (" ++ message ++ ")"). reflexivity.
Qed.

(** The state a run records is accepted by the next run.  When
    [saveSyncState] has written the state [createSyncState] made for a
    board, a document and a mapping, the file system gives the written
    text back and that text decodes to the state, then [loadSyncState]
    for the same board, document and mapping reads the file and returns
    the state, without a warning. *)
Theorem saved_state_is_loaded_back (host : Host) (W : Type)
    (adapters : Adapters.t W) (statePath boardId prdPath : string)
    (mapping : Mapping.t) (stories : list PrdStory.t)
    (cards : list SyncStateCardRecord.t)
    (lastSeenTrelloActivity lastRunAt : option IsoTimestamp)
    (w saved read : W) (log written : list Call) :
  saveSyncState adapters statePath
    (createSyncState host boardId prdPath mapping stories cards
       lastSeenTrelloActivity lastRunAt)
    (w, log)
  = ((saved, written), Ok tt) ->
  Adapters.readFile adapters statePath saved
  = (read,
     FileText
       (Adapters.encodeState adapters
          (createSyncState host boardId prdPath mapping stories cards
             lastSeenTrelloActivity lastRunAt)
        ++ String "010"%char "")) ->
  Adapters.decodeState adapters
    (Adapters.encodeState adapters
       (createSyncState host boardId prdPath mapping stories cards
          lastSeenTrelloActivity lastRunAt)
     ++ String "010"%char "")
  = DecodedState
      (createSyncState host boardId prdPath mapping stories cards
         lastSeenTrelloActivity lastRunAt) ->
  written
  = (log ++ [ CallMkdir (Adapters.dirname adapters statePath);
              CallWriteFile statePath
                (Adapters.encodeState adapters
                   (createSyncState host boardId prdPath mapping stories cards
                      lastSeenTrelloActivity lastRunAt)
                 ++ String "010"%char "") ])%list
  /\ loadSyncState adapters statePath boardId prdPath
       (createMappingSignature host mapping) (saved, written)
     = ((read, (written ++ [CallReadFile statePath])%list),
        Ok (Some (createSyncState host boardId prdPath mapping stories cards
                    lastSeenTrelloActivity lastRunAt))).
Proof.
  set (state := createSyncState host boardId prdPath mapping stories cards
                  lastSeenTrelloActivity lastRunAt).
  intros Hsave Hread Hdecode. split.
  - unfold saveSyncState, bindM, perform, Js.push in Hsave.
    destruct (Adapters.mkdir adapters (Adapters.dirname adapters statePath) w)
      as [w1 [[]|e]]; [|discriminate].
    destruct (Adapters.writeFile adapters statePath _ w1) as [w2 result].
    injection Hsave as _ <- _. now rewrite <- app_assoc.
  - unfold loadSyncState, bindM, perform, ret, Js.push.
    rewrite Hread, Hdecode.
    assert (Hvalid : validateSyncState state boardId prdPath
                       (createMappingSignature host mapping) = None).
    { unfold validateSyncState, state, createSyncState.
      cbn [SyncState.boardId SyncState.prdPath SyncState.mappingSignature].
      now rewrite !String.eqb_refl, !andb_false_r. }
    now rewrite Hvalid.
Qed.

Lemma saved_state_is_loaded_back_witness :
  exists saved written read,
    saveSyncState (Memory.adaptersReading Fixture.syncedState) Memory.statePath
      Fixture.syncedState (Memory.blocked, [])
    = ((saved, written), Ok tt)
    /\ loadSyncState (Memory.adaptersReading Fixture.syncedState)
         Memory.statePath "board" "prd.json"
         (createMappingSignature Fixture.host Fixture.mapping) (saved, written)
       = ((read, (written ++ [CallReadFile Memory.statePath])%list),
          Ok (Some Fixture.syncedState)).
Proof.
  destruct (saveSyncState (Memory.adaptersReading Fixture.syncedState)
              Memory.statePath Fixture.syncedState (Memory.blocked, []))
    as [[saved written] [[]|e]] eqn:Esave; [|vm_compute in Esave; discriminate].
  exists saved, written, saved. split; [reflexivity|].
  apply (@saved_state_is_loaded_back Fixture.host Memory.t
           (Memory.adaptersReading Fixture.syncedState) Memory.statePath
           "board" "prd.json" Fixture.mapping [Fixture.syncedStory]
           [ {| SyncStateCardRecord.storyId := "US-001";
                SyncStateCardRecord.card := Fixture.syncedCard |} ]
           None None Memory.blocked saved saved [] written Esave).
  - pose proof Esave as Ecomputed. vm_compute in Ecomputed.
    injection Ecomputed as <- _. vm_compute. reflexivity.
  - vm_compute. reflexivity.
Defined.
(** * A story and the card that carries it *)

(** ** Labels *)

Lemma filter_perm (A : Type) (p : A -> bool) (l l' : list A) :
  Permutation l l' -> Permutation (filter p l) (filter p l').
Proof.
  induction 1 as [|x l l' _ IH|x y l|l l' l'' _ IH _ IH']; cbn.
  - constructor.
  - destruct (p x); [now constructor | exact IH].
  - destruct (p x), (p y); try reflexivity. apply perm_swap.
  - now transitivity (filter p l').
Qed.

Lemma trim_blank (s : string) : Js.trim s <> "" -> s <> "".
Proof. intros Htrim ->. now apply Htrim. Qed.

Lemma append_nonempty (front back : string) : back <> "" -> front ++ back <> "".
Proof.
  intros Hback Hnil. apply (f_equal String.length) in Hnil.
  rewrite length_append in Hnil. destruct back; [congruence | cbn in Hnil; lia].
Qed.

Lemma slice_append (front back : string) :
  Js.slice (String.length front) (front ++ back) = back.
Proof. induction front as [|c front IH]; [now destruct back | exact IH]. Qed.

Section Labels.
Variable labelPrefix : string.
Variable labelNameToId labelIdToName : JsMap.t string string.
Variable dependsOn : list string.

Hypothesis known : labelsKnown labelPrefix labelNameToId labelIdToName dependsOn.
Hypothesis named : forall dependency,
  In dependency dependsOn -> Js.trim dependency <> "".

Lemma dependencyLabels_known (rest : list string) :
  (forall dependency, In dependency rest -> In dependency dependsOn) ->
  forall desired missing,
    fold_left (addDependency labelPrefix labelNameToId) rest (desired, missing)
    = ((desired ++ map (labelIdOf labelPrefix labelNameToId) rest)%list, missing).
Proof.
  induction rest as [|dependency rest IH]; intros Hrest desired missing;
    cbn [fold_left map].
  - now rewrite app_nil_r.
  - destruct (known dependency (Hrest dependency (or_introl eq_refl)))
      as [labelId [Hget [Hid _]]].
    unfold addDependency at 2. rewrite Hget. cbn [Js.truthyOpt].
    apply truthy_true in Hid. rewrite Hid. cbn [negb Js.orElse].
    rewrite IH by (intros; apply Hrest; now right).
    unfold Js.push, labelIdOf. rewrite Hget, <- app_assoc. reflexivity.
Qed.

(** The label of a dependency is not taken for another label. *)
Lemma dependency_label (dependency : string) :
  In dependency dependsOn ->
  JsMap.get labelIdToName (labelIdOf labelPrefix labelNameToId dependency)
  = Some (labelPrefix ++ dependency)
  /\ otherLabel labelPrefix labelIdToName
       (labelIdOf labelPrefix labelNameToId dependency) = false.
Proof.
  intros Hin. destruct (known dependency Hin) as [labelId [Hget [_ Hname]]].
  unfold labelIdOf, otherLabel. rewrite Hget. cbn [Js.orElse].
  rewrite Hname. split; [reflexivity|]. cbn [Js.truthyOpt Js.orElse].
  unfold Js.startsWith. rewrite prefix_append.
  assert (Hne : labelPrefix ++ dependency <> "")
    by (apply append_nonempty, trim_blank, named, Hin).
  apply truthy_true in Hne. now rewrite Hne.
Qed.

Lemma other_labels_kept (others labelIds : list string) :
  forallb (otherLabel labelPrefix labelIdToName) others = true ->
  Permutation labelIds
    (others ++ map (labelIdOf labelPrefix labelNameToId) dependsOn) ->
  Permutation (filter (otherLabel labelPrefix labelIdToName) labelIds) others.
Proof.
  intros Hothers Hperm.
  rewrite (filter_perm _ Hperm), filter_app.
  rewrite (filter_none (otherLabel labelPrefix labelIdToName)
             (map (labelIdOf labelPrefix labelNameToId) dependsOn)).
  - rewrite app_nil_r. rewrite forallb_forall in Hothers.
    clear Hperm. induction others as [|other others IH]; [constructor|].
    cbn [filter]. rewrite (Hothers other) by now left.
    constructor. apply IH. intros x Hx. apply Hothers. now right.
  - intros labelId Hin. apply in_map_iff in Hin.
    destruct Hin as [dependency [<- Hin]]. now apply dependency_label.
Qed.

(** The dependencies [buildStoryMapping] reads off the labels of a card. *)
Let read (labelIds : list string) : list string :=
  filter (fun name => negb (Js.trim name =? ""))
    (map (fun name => Js.slice (String.length labelPrefix) (Js.orElse name ""))
       (filter (fun name => Js.truthyOpt name
                            && Js.startsWith (Js.orElse name "") labelPrefix)
          (map (fun labelId => JsMap.get labelIdToName labelId) labelIds))).

Lemma read_perm (l l' : list string) :
  Permutation l l' -> Permutation (read l) (read l').
Proof.
  intros Hperm. unfold read.
  apply filter_perm, Permutation_map, filter_perm, Permutation_map, Hperm.
Qed.

Lemma read_app (l l' : list string) : read (l ++ l') = (read l ++ read l')%list.
Proof. unfold read. now rewrite map_app, filter_app, map_app, filter_app. Qed.

Lemma read_others (others : list string) :
  forallb (otherLabel labelPrefix labelIdToName) others = true ->
  read others = [].
Proof.
  induction others as [|other others IH]; [reflexivity|].
  cbn [forallb]. intros Hall. apply andb_true_iff in Hall.
  destruct Hall as [Hother Hall].
  change (other :: others) with ([other] ++ others)%list.
  rewrite read_app, (IH Hall), app_nil_r. unfold read. cbn [map filter].
  unfold otherLabel in Hother.
  destruct (Js.truthyOpt (JsMap.get labelIdToName other)); [|reflexivity].
  cbn [negb orb] in Hother. apply negb_true_iff in Hother.
  now rewrite Hother.
Qed.

Lemma read_dependencies (rest : list string) :
  (forall dependency, In dependency rest -> In dependency dependsOn) ->
  read (map (labelIdOf labelPrefix labelNameToId) rest) = rest.
Proof.
  induction rest as [|dependency rest IH]; intros Hrest; [reflexivity|].
  cbn [map].
  change (labelIdOf labelPrefix labelNameToId dependency
            :: map (labelIdOf labelPrefix labelNameToId) rest)
    with ([labelIdOf labelPrefix labelNameToId dependency]
            ++ map (labelIdOf labelPrefix labelNameToId) rest)%list.
  rewrite read_app, IH by (intros; apply Hrest; now right).
  assert (Hin : In dependency dependsOn) by (apply Hrest; now left).
  destruct (dependency_label dependency Hin) as [Hname _].
  unfold read. cbn [map filter]. rewrite Hname. cbn [Js.truthyOpt Js.orElse].
  assert (Hne : labelPrefix ++ dependency <> "")
    by (apply append_nonempty, trim_blank, named, Hin).
  apply truthy_true in Hne. rewrite Hne. unfold Js.startsWith.
  rewrite prefix_append. cbn [andb map filter Js.orElse]. rewrite slice_append.
  pose proof (named dependency Hin) as Hnamed.
  apply String.eqb_neq in Hnamed. rewrite Hnamed. reflexivity.
Qed.

Lemma read_labels (others labelIds : list string) :
  forallb (otherLabel labelPrefix labelIdToName) others = true ->
  Permutation labelIds
    (others ++ map (labelIdOf labelPrefix labelNameToId) dependsOn) ->
  Permutation (read labelIds) dependsOn.
Proof.
  intros Hothers Hperm. rewrite (read_perm Hperm), read_app.
  rewrite (read_others _ Hothers), read_dependencies by auto. reflexivity.
Qed.
End Labels.

(** ** Checklists *)

Lemma areChecklistItemsEqual_same (left right : list BoardChecklistItemInput.t) :
  map (fun item => (BoardChecklistItemInput.name item,
                    BoardChecklistItemInput.checked item)) left
  = map (fun item => (BoardChecklistItemInput.name item,
                      BoardChecklistItemInput.checked item)) right ->
  areChecklistItemsEqual left right = true.
Proof.
  unfold areChecklistItemsEqual. revert right.
  induction left as [|l left IH]; intros [|r right]; cbn [map areArraysEqual];
    try discriminate; [reflexivity|].
  intros [= Hname Hchecked Hrest]. rewrite Hname, Hchecked, String.eqb_refl.
  rewrite Bool.eqb_reflx. now apply IH.
Qed.

Lemma areArraysEqual_refl (l : list string) : areArraysEqual String.eqb l l = true.
Proof. now apply areArraysEqual_eq. Qed.

(** The checklists of a card that carry the criteria of a story ask for no
    update, and give the criteria back. *)
Lemma carried_checklists (story : PrdStory.t) (checklistName : string)
    (checklists : option (list BoardChecklist.t)) (issues : list string) :
  checklistsCarry story checklistName checklists ->
  match checklists with
  | Some checklists =>
      let selection := selectChecklist checklists checklistName in
      if Js.truthyOpt (ChecklistSelection.issue selection)
      then (false, Js.push issues (Js.orElse (ChecklistSelection.issue selection) ""))
      else
        let existingItems :=
          map (fun item =>
                 {| BoardChecklistItemInput.name := BoardChecklistItem.name item;
                    BoardChecklistItemInput.checked :=
                      BoardChecklistItem.checked item |})
              (match ChecklistSelection.checklist selection with
               | Some existing => BoardChecklist.items existing
               | None => []
               end) in
        if Nat.eqb (List.length existingItems) 0
           && Nat.eqb (List.length
                         (BoardChecklistInput.items
                            (buildChecklistInput story checklistName))) 0
           && negb (Js.isSome (ChecklistSelection.checklist selection))
        then (false, issues)
        else (negb (areChecklistItemsEqual existingItems
                      (BoardChecklistInput.items
                         (buildChecklistInput story checklistName))), issues)
  | None =>
      (Nat.ltb 0 (List.length
                    (BoardChecklistInput.items
                       (buildChecklistInput story checklistName))), issues)
  end = (false, issues)
  /\ match checklists with
     | Some checklists =>
         let selection := selectChecklist checklists checklistName in
         if Js.truthyOpt (ChecklistSelection.issue selection)
         then (@nil string,
               Js.push issues (Js.orElse (ChecklistSelection.issue selection) ""))
         else (map BoardChecklistItem.name
                 (match ChecklistSelection.checklist selection with
                  | Some existing => BoardChecklist.items existing
                  | None => []
                  end), issues)
     | None => ([], issues)
     end = (PrdStory.acceptanceCriteria story, issues).
Proof.
  unfold checklistsCarry, buildChecklistInput.
  cbn [BoardChecklistInput.items].
  destruct checklists as [checklists|].
  - unfold selectChecklist.
    destruct (filter (fun checklist => BoardChecklist.name checklist =? checklistName)
                checklists) as [|checklist [|second rest]]; [| |contradiction].
    + intros ->. cbn. auto.
    + intros Hitems. cbn [List.length Nat.ltb Nat.leb Js.head
                          ChecklistSelection.issue ChecklistSelection.checklist
                          Js.truthyOpt Js.isSome negb].
      cbv zeta. rewrite andb_false_r. split.
      * rewrite areChecklistItemsEqual_same; [reflexivity|].
        rewrite !map_map. cbn [BoardChecklistItemInput.name
                               BoardChecklistItemInput.checked].
        exact Hitems.
      * f_equal. apply (f_equal (map fst)) in Hitems.
        rewrite !map_map in Hitems. cbn [fst itemText] in Hitems.
        rewrite map_id in Hitems. exact Hitems.
  - intros ->. cbn. auto.
Qed.

(** ** The two mappings *)

Section Carried.
Variable host : Host.
Variable story : PrdStory.t.
Variable mapping : Mapping.t.
Variable statusMapping : StatusMappingResult.t.
Variable labelNameToId labelIdToName : JsMap.t string string.
Variable storyIdCodec : StoryId.StoryIdCodec.
Variable record : CardRecord.t.
Variable checklists : option (list BoardChecklist.t).
Variable others : list string.

Let card : BoardCard.t := CardRecord.card record.
Let labelPrefix : string := Mapping.dependsOnLabelPrefix mapping.

Hypothesis consistent : Consistent host.
Hypothesis discerning : Discerning host.
Hypothesis same_id : CardRecord.storyId record = PrdStory.id story.
Hypothesis same_title : CardRecord.storyTitle record = PrdStory.title story.
Hypothesis same_name :
  StoryId.formatCardTitle storyIdCodec (PrdStory.id story) (PrdStory.title story)
  = Ok (BoardCard.name card).
Hypothesis same_description :
  BoardCard.description card = PrdStory.description story.
Hypothesis same_list :
  JsMap.get (StatusMappingResult.statusToListId statusMapping)
    (PrdStory.status story) = Some (BoardCard.listId card).
Hypothesis list_named : BoardCard.listId card <> "".
Hypothesis same_status :
  JsMap.get (StatusMappingResult.listIdToStatus statusMapping)
    (BoardCard.listId card) = Some (PrdStory.status story).
Hypothesis known :
  labelsKnown labelPrefix labelNameToId labelIdToName (PrdStory.dependsOn story).
Hypothesis named : forall dependency,
  In dependency (PrdStory.dependsOn story) -> Js.trim dependency <> "".
Hypothesis distinct : NoDup (PrdStory.dependsOn story).
Hypothesis other_labels :
  forallb (otherLabel labelPrefix labelIdToName) others = true.
Hypothesis same_labels :
  Permutation (BoardCard.labelIds card)
    (others ++ map (labelIdOf labelPrefix labelNameToId) (PrdStory.dependsOn story)).
Hypothesis same_criteria :
  checklistsCarry story (Mapping.acceptanceCriteriaChecklistName mapping)
    checklists.

Lemma resolveLabelIds_carried :
  resolveLabelIds host story mapping labelNameToId labelIdToName (Some card)
  = (sortStrings host
       (filter (otherLabel labelPrefix labelIdToName) (BoardCard.labelIds card)
          ++ map (labelIdOf labelPrefix labelNameToId) (PrdStory.dependsOn story)),
     [])
  /\ areSetsEqual host (BoardCard.labelIds card)
       (sortStrings host
          (filter (otherLabel labelPrefix labelIdToName) (BoardCard.labelIds card)
             ++ map (labelIdOf labelPrefix labelNameToId)
                  (PrdStory.dependsOn story)))
     = true.
Proof.
  split.
  - unfold resolveLabelIds, dependencyLabels. fold labelPrefix.
    rewrite (dependencyLabels_known known) by auto. reflexivity.
  - apply areSetsEqual_sorted. unfold sortStrings.
    destruct consistent as [Htotal Htrans].
    apply (sort_perm_eq (localeCompare host) Htotal Htrans discerning).
    rewrite sort_perm, (other_labels_kept known named _ other_labels same_labels).
    exact same_labels.
Qed.

(** The card asks for no update. *)
Lemma buildCardMapping_carried :
  exists cardMapping,
    buildCardMapping host story mapping statusMapping labelNameToId
      labelIdToName storyIdCodec (Some card) checklists
    = Ok cardMapping
    /\ hasUpdateFields (CardMappingResult.cardUpdate cardMapping) = false
    /\ CardMappingResult.checklistNeedsUpdate cardMapping = false
    /\ CardMappingResult.issues cardMapping = []
    /\ CardMappingResult.missingLabels cardMapping = [].
Proof.
  unfold buildCardMapping. destruct resolveLabelIds_carried as [-> Hlabels].
  rewrite same_list, same_name. cbn [bind Js.truthyOpt Js.orElse].
  apply truthy_true in list_named. rewrite list_named. cbn [negb].
  destruct (carried_checklists story
              (Mapping.acceptanceCriteriaChecklistName mapping) checklists []
              same_criteria) as [Hneeds _].
  cbv zeta in Hneeds. rewrite Hneeds.
  eexists. split; [reflexivity|].
  cbn [CardMappingResult.cardUpdate CardMappingResult.checklistNeedsUpdate
       CardMappingResult.issues CardMappingResult.missingLabels
       BoardCardInput.name BoardCardInput.description].
  rewrite !String.eqb_refl, same_description, String.eqb_refl, Hlabels.
  cbn. auto.
Qed.

(** The card maps back to the story. *)
Lemma buildStoryMapping_carried :
  storiesEquivalent host story
    (StoryMappingResult.story
       (buildStoryMapping host record mapping statusMapping labelIdToName
          checklists))
  = true
  /\ StoryMappingResult.issues
       (buildStoryMapping host record mapping statusMapping labelIdToName
          checklists)
     = [].
Proof.
  unfold buildStoryMapping. fold card. rewrite same_status.
  cbn [Js.isSome negb Js.orElse].
  destruct (carried_checklists story
              (Mapping.acceptanceCriteriaChecklistName mapping) checklists []
              same_criteria) as [_ Hcriteria].
  cbv zeta in Hcriteria. cbv zeta. rewrite Hcriteria.
  cbn [StoryMappingResult.story StoryMappingResult.issues].
  split; [|reflexivity].
  unfold storiesEquivalent.
  cbn [PrdStory.id PrdStory.title PrdStory.status PrdStory.description
       PrdStory.dependsOn PrdStory.acceptanceCriteria].
  rewrite same_id, same_title, same_description, !String.eqb_refl.
  rewrite areArraysEqual_refl.
  assert (Hstatus : statusEqb (PrdStory.status story) (PrdStory.status story)
                    = true) by now destruct (PrdStory.status story).
  rewrite Hstatus. cbn [andb]. rewrite andb_true_r.
  apply areSetsEqual_sorted. unfold sortStrings.
  destruct consistent as [Htotal Htrans].
  apply (sort_perm_eq (localeCompare host) Htotal Htrans discerning).
  rewrite sort_perm.
  pose proof (read_labels known named _ other_labels same_labels) as Hread.
  fold labelPrefix. cbv zeta in Hread.
  rewrite JsSet_ofList_id.
  - symmetry. exact Hread.
  - exact (Permutation_NoDup (Permutation_sym Hread) distinct).
Qed.
End Carried.

(** A card that carries a story is in sync with it.  When the title of
    the card is the title formatted for the story and parses back to it,
    the description is the same, the list of the card and the status of
    the story are bound to each other, the labels of the card are the
    labels of the dependencies of the story and labels that stand for no
    dependency, and the checklist of the card holds the acceptance
    criteria, then the card needs no update, it maps back to a story
    equivalent to the story, and the pair is a no-op of the plan. *)
Theorem carried_story_is_in_sync (host : Host) (locals : PlanLocals.t)
    (checklistByCardId : JsMap.t string (list BoardChecklist.t))
    (id : string) (story : PrdStory.t) (record : CardRecord.t)
    (others : list string) :
  Consistent host ->
  Discerning host ->
  PlanLocals.incrementalState locals = None ->
  CardRecord.storyId record = PrdStory.id story ->
  CardRecord.storyTitle record = PrdStory.title story ->
  StoryId.formatCardTitle (PlanLocals.storyIdCodec locals) (PrdStory.id story)
    (PrdStory.title story)
  = Ok (BoardCard.name (CardRecord.card record)) ->
  BoardCard.description (CardRecord.card record) = PrdStory.description story ->
  JsMap.get (StatusMappingResult.statusToListId (PlanLocals.statusMapping locals))
    (PrdStory.status story)
  = Some (BoardCard.listId (CardRecord.card record)) ->
  BoardCard.listId (CardRecord.card record) <> "" ->
  JsMap.get (StatusMappingResult.listIdToStatus (PlanLocals.statusMapping locals))
    (BoardCard.listId (CardRecord.card record))
  = Some (PrdStory.status story) ->
  labelsKnown (Mapping.dependsOnLabelPrefix (PlanLocals.mapping locals))
    (PlanLocals.labelNameToId locals) (PlanLocals.labelIdToName locals)
    (PrdStory.dependsOn story) ->
  (forall dependency,
     In dependency (PrdStory.dependsOn story) -> Js.trim dependency <> "") ->
  NoDup (PrdStory.dependsOn story) ->
  forallb (otherLabel (Mapping.dependsOnLabelPrefix (PlanLocals.mapping locals))
             (PlanLocals.labelIdToName locals)) others = true ->
  Permutation (BoardCard.labelIds (CardRecord.card record))
    (others
       ++ map (labelIdOf (Mapping.dependsOnLabelPrefix (PlanLocals.mapping locals))
                 (PlanLocals.labelNameToId locals))
            (PrdStory.dependsOn story)) ->
  checklistsCarry story
    (Mapping.acceptanceCriteriaChecklistName (PlanLocals.mapping locals))
    (JsMap.get checklistByCardId (BoardCard.id (CardRecord.card record))) ->
  (exists cardMapping,
     buildCardMapping host story (PlanLocals.mapping locals)
       (PlanLocals.statusMapping locals) (PlanLocals.labelNameToId locals)
       (PlanLocals.labelIdToName locals) (PlanLocals.storyIdCodec locals)
       (Some (CardRecord.card record))
       (JsMap.get checklistByCardId (BoardCard.id (CardRecord.card record)))
     = Ok cardMapping
     /\ hasUpdateFields (CardMappingResult.cardUpdate cardMapping) = false
     /\ CardMappingResult.checklistNeedsUpdate cardMapping = false)
  /\ storiesEquivalent host story
       (StoryMappingResult.story
          (buildStoryMapping host record (PlanLocals.mapping locals)
             (PlanLocals.statusMapping locals) (PlanLocals.labelIdToName locals)
             (JsMap.get checklistByCardId
                (BoardCard.id (CardRecord.card record)))))
     = true
  /\ classifyPair host locals checklistByCardId id story record
     = Ok (noopOf id "Story and card in sync").
Proof.
  intros Hconsistent Hdiscerning Hfull Hid Htitle Hname Hdescription Hlist
    Hnamed Hstatus Hknown Hdeps Hdistinct Hothers Hlabels Hcriteria.
  destruct (@buildCardMapping_carried host story (PlanLocals.mapping locals)
              (PlanLocals.statusMapping locals) (PlanLocals.labelNameToId locals)
              (PlanLocals.labelIdToName locals) (PlanLocals.storyIdCodec locals)
              record
              (JsMap.get checklistByCardId (BoardCard.id (CardRecord.card record)))
              others Hconsistent Hdiscerning Hname Hdescription Hlist Hnamed
              Hknown Hdeps Hothers Hlabels Hcriteria)
    as [cardMapping [Hcard [Hfields [Hchecklist [Hissues Hmissing]]]]].
  destruct (@buildStoryMapping_carried host story (PlanLocals.mapping locals)
              (PlanLocals.statusMapping locals) (PlanLocals.labelNameToId locals)
              (PlanLocals.labelIdToName locals) record
              (JsMap.get checklistByCardId (BoardCard.id (CardRecord.card record)))
              others Hconsistent Hdiscerning Hid Htitle Hdescription Hlist Hstatus
              Hknown Hdeps Hdistinct Hothers Hlabels Hcriteria)
    as [Hequivalent Hclean].
  split; [exists cardMapping; auto|]. split; [exact Hequivalent|].
  unfold classifyPair. rewrite Hfull. cbn [Js.isSome andb].
  unfold pairMappings. rewrite Hcard. cbn [bind].
  assert (Hsame : applyMissingLabelIssues locals cardMapping = cardMapping).
  { unfold applyMissingLabelIssues. rewrite Hmissing. cbn.
    now rewrite andb_false_r. }
  rewrite Hsame, Hmissing. cbn [List.length].
  change (Nat.ltb 0 0) with false. rewrite !andb_false_r. cbn [andb].
  unfold needsCardUpdate, needsStoryUpdate, canUpdateCard, canUpdateStory.
  rewrite Hfields, Hchecklist, Hissues, Hclean, Hequivalent. reflexivity.
Qed.

Lemma carried_story_is_in_sync_witness :
  classifyPair Fixture.host Runs.dependentLocals JsMap.empty "US-004"
    Runs.dependentStory
    {| CardRecord.card := Runs.dependentCard; CardRecord.storyId := "US-004";
       CardRecord.storyTitle := "Fourth" |}
  = Ok (noopOf "US-004" "Story and card in sync").
Proof.
  apply (@carried_story_is_in_sync Fixture.host Runs.dependentLocals JsMap.empty
           "US-004" Runs.dependentStory
           {| CardRecord.card := Runs.dependentCard;
              CardRecord.storyId := "US-004";
              CardRecord.storyTitle := "Fourth" |}
           ["label-keep"] fixture_consistent fixture_discerning).
  - reflexivity.
  - reflexivity.
  - reflexivity.
  - reflexivity.
  - reflexivity.
  - reflexivity.
  - discriminate.
  - reflexivity.
  - intros dependency [<-|[]]. exists "label-001".
    split; [reflexivity|]. split; [discriminate | reflexivity].
  - intros dependency [<-|[]]. vm_compute. discriminate.
  - repeat constructor. intros [].
  - reflexivity.
  - vm_compute. apply Permutation_refl.
  - vm_compute. reflexivity.
Defined.
(** * What [applyPlan] writes *)

Section Traces.
Variable W : Type.

Lemma traces_ret (A : Type) (a : A) (P : A -> list Call -> Prop) :
  P a [] -> traces (@ret W A a) P.
Proof.
  intros Ha w log s' a' [= <- <-]. exists []. cbn. now rewrite app_nil_r.
Qed.

Lemma traces_perform (A : Type) (call : Call) (op : W -> W * Result A)
    (P : A -> list Call -> Prop) :
  (forall a, P a [call]) -> traces (perform call op) P.
Proof.
  intros Hcall w log s' a. unfold perform. destruct (op w) as [w' r].
  intros [= <- ->]. exists [call]. split; [reflexivity | apply Hcall].
Qed.

Lemma traces_bindM (A B : Type) (m : M W A) (k : A -> M W B)
    (P : A -> list Call -> Prop) (Q : A -> B -> list Call -> Prop)
    (R : B -> list Call -> Prop) :
  traces m P ->
  (forall a, traces (k a) (Q a)) ->
  (forall a b first second,
     P a first -> Q a b second -> R b (first ++ second)%list) ->
  traces (bindM m k) R.
Proof.
  intros Hm Hk Hjoin w log s' b. unfold bindM.
  destruct (m (w, log)) as [[w1 log1] [a|e]] eqn:Em; [|discriminate].
  destruct (Hm _ _ _ _ Em) as [first [Hfirst Pa]]. cbn in Hfirst. subst log1.
  intros Hrun. destruct (Hk a _ _ _ _ Hrun) as [second [Hsecond Qb]].
  exists (first ++ second)%list. rewrite Hsecond, app_assoc. eauto.
Qed.

Lemma traces_weaken (A : Type) (m : M W A) (P Q : A -> list Call -> Prop) :
  traces m P -> (forall a added, P a added -> Q a added) -> traces m Q.
Proof.
  intros Hm Himp w log s' a Hrun.
  destruct (Hm _ _ _ _ Hrun) as [added [Hlog Pa]]. eauto.
Qed.

(** A loop writes what its turns write, one after the other. *)
Lemma traces_foldM (A S : Type) (f : S -> A -> M W S) (want : A -> list Written)
    (items : list A) :
  (forall acc item,
     traces (f acc item) (fun _ added => flat_map written added = want item)) ->
  forall acc,
    traces (foldM f items acc)
      (fun _ added => flat_map written added = flat_map want items).
Proof.
  intros Hf. induction items as [|item items IH]; intros acc; cbn [foldM].
  - now apply traces_ret.
  - eapply traces_bindM; [apply Hf | intros acc'; apply IH|].
    cbn beta. intros _ _ first second Hfirst Hsecond.
    now rewrite flat_map_app, Hfirst, Hsecond.
Qed.
End Traces.

Lemma board_entries_kept (A B : Type) (isBoard : A -> bool) (story : A -> B)
    (refresh : A -> A) (entries : list A) :
  (forall entry, isBoard (refresh entry) = isBoard entry) ->
  (forall entry, isBoard entry = false -> refresh entry = entry) ->
  map story (filter (fun entry => negb (isBoard entry)) (map refresh entries))
  = map story (filter (fun entry => negb (isBoard entry)) entries).
Proof.
  intros Hkind Hkept. induction entries as [|entry entries IH]; [reflexivity|].
  cbn [map filter]. rewrite Hkind.
  destruct (isBoard entry) eqn:Eboard; cbn [negb]; [exact IH|].
  cbn [map]. now rewrite IH, Hkept.
Qed.

Section Writes.
Variable host : Host.
Variable W : Type.
Variable adapters : Adapters.t W.

Lemma refreshLabels_traces (plan : SyncPlan.t) (options : SyncPlanOptions.t) :
  traces (refreshLabels host adapters plan options)
    (fun refreshed added =>
       (exists created, flat_map written added = map WroteLabel created)
       /\ prdChangesOf refreshed = prdChangesOf plan).
Proof.
  unfold refreshLabels.
  eapply traces_bindM with
    (P := fun _ added => flat_map written added = [])
    (Q := fun _ refreshed added =>
            (exists created, flat_map written added = map WroteLabel created)
            /\ prdChangesOf refreshed = prdChangesOf plan).
  - now apply traces_perform.
  - intros labels.
    eapply traces_bindM with
      (Q := fun _ refreshed added =>
              flat_map written added = []
              /\ prdChangesOf refreshed = prdChangesOf plan).
    + apply traces_foldM with (want := fun name => [WroteLabel (labelInput name)]).
      intros [labelNameToId labelIdToName] labelName.
      eapply traces_bindM with
        (P := fun _ added =>
                flat_map written added = [WroteLabel (labelInput labelName)])
        (Q := fun _ _ added => flat_map written added = []).
      * now apply traces_perform.
      * intros created. now apply traces_ret.
      * cbn beta. intros _ _ first second Hfirst Hsecond.
        now rewrite flat_map_app, Hfirst, Hsecond.
    + intros [labelNameToId labelIdToName]. apply traces_ret.
      split; [reflexivity|].
      unfold prdChangesOf. cbn [SyncPlan.creates SyncPlan.updates]. f_equal.
      * apply board_entries_kept; intros [] ; try reflexivity; discriminate.
      * apply board_entries_kept.
        -- intros [id reason story card cardUpdate checklist needs move|];
             [|reflexivity].
           now destruct (negb (areSetsEqual host _ _)).
        -- intros []; [discriminate | reflexivity].
    + cbn beta. intros _ refreshed first second Hfirst [Hsecond Hchanges].
      split; [|exact Hchanges].
      rewrite flat_map_app, Hfirst, Hsecond, app_nil_r.
      match goal with
      | |- context [flat_map _ ?names] =>
          exists (map labelInput names); rewrite map_map;
          clear; induction names as [|name rest IHn]; [reflexivity|];
          cbn [flat_map map List.app]; now rewrite IHn
      end.
  - cbn beta. intros _ refreshed first second Hfirst [[created Hsecond] Hchanges].
    split; [|exact Hchanges].
    exists created. now rewrite flat_map_app, Hfirst, Hsecond.
Qed.

Lemma applyCreates_traces (creates : list SyncCreate.t)
    (start : JsMap.t string BoardCard.t * JsSet.t) :
  traces
    (foldM
       (fun '(updatedCardsByStoryId, checklistTouchedCardIds) create =>
          match create with
          | SyncCreate.Trello id _ _ cardInput checklist =>
              await card :=
                perform (CallCreateCard cardInput)
                  (Adapters.createCard adapters cardInput) in
              let updatedCardsByStoryId :=
                JsMap.set updatedCardsByStoryId id card in
              if Nat.ltb 0 (List.length (BoardChecklistInput.items checklist))
              then
                await _ :=
                  perform (CallUpsertChecklist (BoardCard.id card) checklist)
                    (Adapters.upsertChecklist adapters (BoardCard.id card) checklist) in
                ret (updatedCardsByStoryId,
                     JsSet.add checklistTouchedCardIds (BoardCard.id card))
              else ret (updatedCardsByStoryId, checklistTouchedCardIds)
          | SyncCreate.Prd _ _ _ _ =>
              ret (updatedCardsByStoryId, checklistTouchedCardIds)
          end)
       creates start)
    (fun _ added => flat_map written added = flat_map createWrites creates).
Proof.
  apply traces_foldM. intros [cardsById touched] [id reason story input checklist|];
    [|now apply traces_ret].
  eapply traces_bindM with
    (P := fun _ added => flat_map written added = [WroteCard input])
    (Q := fun _ _ added =>
            flat_map written added
            = if Nat.ltb 0 (List.length (BoardChecklistInput.items checklist))
              then [WroteChecklist checklist] else []).
  - now apply traces_perform.
  - intros card. cbv zeta.
    destruct (Nat.ltb 0 (List.length (BoardChecklistInput.items checklist)));
      [|now apply traces_ret].
    eapply traces_bindM with
      (P := fun _ added => flat_map written added = [WroteChecklist checklist])
      (Q := fun _ _ added => flat_map written added = []).
    + now apply traces_perform.
    + intros ?. now apply traces_ret.
    + cbn beta. intros _ _ first second Hfirst Hsecond.
      now rewrite flat_map_app, Hfirst, Hsecond.
  - cbn beta. intros _ _ first second Hfirst Hsecond.
    now rewrite flat_map_app, Hfirst, Hsecond.
Qed.

Lemma applyUpdates_traces (updates : list SyncUpdate.t)
    (start : JsMap.t string BoardCard.t * JsSet.t) :
  traces
    (foldM
       (fun '(updatedCardsByStoryId, checklistTouchedCardIds) update =>
          match update with
          | SyncUpdate.Trello id _ _ card cardUpdate checklist
              checklistNeedsUpdate _ =>
              await updatedCardsByStoryId :=
                (if hasUpdateFields cardUpdate
                 then
                   await updated :=
                     perform (CallUpdateCard (BoardCard.id card) cardUpdate)
                       (Adapters.updateCard adapters (BoardCard.id card) cardUpdate) in
                   ret (JsMap.set updatedCardsByStoryId id updated)
                 else ret updatedCardsByStoryId) in
              if checklistNeedsUpdate
              then
                await _ :=
                  perform (CallUpsertChecklist (BoardCard.id card) checklist)
                    (Adapters.upsertChecklist adapters (BoardCard.id card) checklist) in
                ret (updatedCardsByStoryId,
                     JsSet.add checklistTouchedCardIds (BoardCard.id card))
              else ret (updatedCardsByStoryId, checklistTouchedCardIds)
          | SyncUpdate.Prd _ _ _ _ =>
              ret (updatedCardsByStoryId, checklistTouchedCardIds)
          end)
       updates start)
    (fun _ added => flat_map written added = flat_map updateWrites updates).
Proof.
  apply traces_foldM.
  intros [cardsById touched]
    [id reason story card cardUpdate checklist needs move|];
    [|now apply traces_ret].
  eapply traces_bindM with
    (P := fun _ added =>
            flat_map written added
            = if hasUpdateFields cardUpdate
              then [WroteUpdate (BoardCard.id card) cardUpdate] else [])
    (Q := fun _ _ added =>
            flat_map written added
            = if needs then [WroteChecklist checklist] else []).
  - destruct (hasUpdateFields cardUpdate); [|now apply traces_ret].
    eapply traces_bindM with
      (P := fun _ added =>
              flat_map written added = [WroteUpdate (BoardCard.id card) cardUpdate])
      (Q := fun _ _ added => flat_map written added = []).
    + now apply traces_perform.
    + intros ?. now apply traces_ret.
    + cbn beta. intros _ _ first second Hfirst Hsecond.
      now rewrite flat_map_app, Hfirst, Hsecond.
  - intros cardsById'. destruct needs; [|now apply traces_ret].
    eapply traces_bindM with
      (P := fun _ added => flat_map written added = [WroteChecklist checklist])
      (Q := fun _ _ added => flat_map written added = []).
    + now apply traces_perform.
    + intros ?. now apply traces_ret.
    + cbn beta. intros _ _ first second Hfirst Hsecond.
      now rewrite flat_map_app, Hfirst, Hsecond.
  - cbn beta. intros _ _ first second Hfirst Hsecond.
    unfold updateWrites. now rewrite flat_map_app, Hfirst, Hsecond.
Qed.

End Writes.

(** X28.  What a run of [applyPlan] that returns has written is what the
    plan it gives back lists, in this order: the labels it created, then
    for every create for the board the card and, when it has items, its
    checklist, then for every update for the board the update of the card
    when it has a field and the checklist when it needs one, then, when the
    plan has an entry for the document, the stories of the document with
    these entries applied, written once to the path of the options.
    Nothing else is written; the stories the run reports are the ones it
    wrote, or those of the context when it wrote none; and when no label
    may be created the plan is applied as it came and no label is
    written. *)
Theorem applyPlan_writes_the_plan (host : Host) (W : Type)
    (adapters : Adapters.t W) (plan : SyncPlan.t) (context : SyncContext.t)
    (options : SyncPlanOptions.t) (w : W) (log : list Call)
    (s' : W * list Call) (applyResult : SyncApplyResult.t)
    (applied : SyncPlan.t) :
  applyPlan host adapters plan context options (w, log)
  = (s', Ok (applyResult, applied)) ->
  let documentWrites :=
    if Nat.ltb 0 (List.length (prdChangesOf plan))
    then [WroteStories (SyncPlanOptions.prdPath options)
            (applyPrdChanges host (SyncContext.prdStories context)
               (prdChangesOf plan))]
    else [] in
  exists added created,
    snd s' = (log ++ added)%list
    /\ flat_map written added
       = (map WroteLabel created
            ++ flat_map createWrites (SyncPlan.creates applied)
            ++ flat_map updateWrites (SyncPlan.updates applied)
            ++ documentWrites)%list
    /\ SyncApplyResult.updatedStories applyResult
       = (if Nat.ltb 0 (List.length (prdChangesOf plan))
          then applyPrdChanges host (SyncContext.prdStories context)
                 (prdChangesOf plan)
          else SyncContext.prdStories context)
    /\ (resolveCreateMissingLabels (SyncPlanOptions.conflict options) = false ->
        created = [] /\ applied = plan).
Proof.
  intros Hrun documentWrites.
  set (reported := fun changes : list PrdStory.t =>
         if Nat.ltb 0 (List.length changes)
         then applyPrdChanges host (SyncContext.prdStories context) changes
         else SyncContext.prdStories context).
  set (documentOf := fun changes : list PrdStory.t =>
         if Nat.ltb 0 (List.length changes)
         then [WroteStories (SyncPlanOptions.prdPath options)
                 (applyPrdChanges host (SyncContext.prdStories context) changes)]
         else []).
  assert (Htraces :
    traces (applyPlan host adapters plan context options)
      (fun result added =>
         exists created,
           flat_map written added
           = (map WroteLabel created
                ++ flat_map createWrites (SyncPlan.creates (snd result))
                ++ flat_map updateWrites (SyncPlan.updates (snd result))
                ++ documentOf (prdChangesOf plan))%list
           /\ SyncApplyResult.updatedStories (fst result)
              = reported (prdChangesOf plan)
           /\ (resolveCreateMissingLabels (SyncPlanOptions.conflict options)
               = false -> created = [] /\ snd result = plan))).
  { unfold applyPlan.
    eapply traces_bindM with
      (P := fun refreshed added =>
              (exists created,
                 flat_map written added = map WroteLabel created
                 /\ (resolveCreateMissingLabels (SyncPlanOptions.conflict options)
                     = false -> created = [] /\ refreshed = plan))
              /\ prdChangesOf refreshed = prdChangesOf plan)
      (Q := fun refreshed result added =>
              flat_map written added
              = (flat_map createWrites (SyncPlan.creates refreshed)
                   ++ flat_map updateWrites (SyncPlan.updates refreshed)
                   ++ documentOf (prdChangesOf refreshed))%list
              /\ SyncApplyResult.updatedStories (fst result)
                 = reported (prdChangesOf refreshed)
              /\ snd result = refreshed).
    - destruct (resolveCreateMissingLabels (SyncPlanOptions.conflict options));
        cbn [andb].
      + destruct (_ || _).
        * eapply traces_weaken; [apply refreshLabels_traces|].
          cbn beta. intros refreshed added [[created Hlabels] Hchanges].
          split; [|exact Hchanges]. exists created. split; [exact Hlabels|].
          discriminate.
        * apply traces_ret. split; [|reflexivity]. exists []. split;
            [reflexivity | discriminate].
      + apply traces_ret. split; [|reflexivity]. exists []. now split.
    - intros refreshed.
      eapply traces_bindM with
        (P := fun _ added =>
                flat_map written added
                = flat_map createWrites (SyncPlan.creates refreshed))
        (Q := fun _ result added =>
                flat_map written added
                = (flat_map updateWrites (SyncPlan.updates refreshed)
                     ++ documentOf (prdChangesOf refreshed))%list
                /\ SyncApplyResult.updatedStories (fst result)
                   = reported (prdChangesOf refreshed)
                /\ snd result = refreshed);
        [apply applyCreates_traces| |].
      + intros afterCreates.
        eapply traces_bindM with
          (P := fun _ added =>
                  flat_map written added
                  = flat_map updateWrites (SyncPlan.updates refreshed))
          (Q := fun _ result added =>
                  flat_map written added = documentOf (prdChangesOf refreshed)
                  /\ SyncApplyResult.updatedStories (fst result)
                     = reported (prdChangesOf refreshed)
                  /\ snd result = refreshed);
          [apply applyUpdates_traces| |].
        * intros [cardsById touched]. fold (prdChangesOf refreshed).
          eapply traces_bindM with
            (P := fun updatedStories added =>
                    flat_map written added = documentOf (prdChangesOf refreshed)
                    /\ updatedStories = reported (prdChangesOf refreshed))
            (Q := fun updatedStories result added =>
                    flat_map written added = []
                    /\ SyncApplyResult.updatedStories (fst result)
                       = updatedStories
                    /\ snd result = refreshed).
          -- unfold documentOf, reported.
             destruct (Nat.ltb 0 (List.length (prdChangesOf refreshed)));
               [|now apply traces_ret].
             cbv zeta.
             eapply traces_bindM with
               (P := fun _ added =>
                       flat_map written added
                       = [WroteStories (SyncPlanOptions.prdPath options)
                            (applyPrdChanges host
                               (SyncContext.prdStories context)
                               (prdChangesOf refreshed))])
               (Q := fun _ updatedStories added =>
                       flat_map written added = []
                       /\ updatedStories
                          = applyPrdChanges host
                              (SyncContext.prdStories context)
                              (prdChangesOf refreshed)).
             ++ now apply traces_perform.
             ++ intros ?. now apply traces_ret.
             ++ cbn beta. intros _ updatedStories first second Hfirst
                  [Hsecond Hstories].
                split; [|exact Hstories].
                now rewrite flat_map_app, Hfirst, Hsecond.
          -- intros updatedStories. now apply traces_ret.
          -- cbn beta. intros updatedStories result first second
               [Hfirst Hstories] [Hsecond [Hresult Hplan]].
             rewrite flat_map_app, Hfirst, Hsecond, app_nil_r.
             rewrite Hresult, Hstories. auto.
        * cbn beta. intros _ result first second Hfirst
            [Hsecond [Hstories Hplan]].
          rewrite flat_map_app, Hfirst, Hsecond. auto.
      + cbn beta. intros _ result first second Hfirst
          [Hsecond [Hstories Hplan]].
        rewrite flat_map_app, Hfirst, Hsecond. auto.
    - cbn beta. intros refreshed result first second
        [[created [Hlabels Hoff]] Hchanges] [Hsecond [Hstories Hplan]].
      exists created. rewrite flat_map_app, Hlabels, Hsecond, Hstories, Hplan.
      rewrite Hchanges. auto. }
  destruct (Htraces _ _ _ _ Hrun) as [added [Hlog [created Hwritten]]].
  exists added, created. cbn [fst snd] in Hwritten.
  subst documentWrites documentOf reported. cbn beta in Hwritten. tauto.
Qed.

Lemma applyPlan_writes_the_plan_witness :
  exists plan context s1 s' applyResult applied added created,
    Plans.planned = (s1, Ok (plan, context))
    /\ applyPlan Fixture.host Memory.adapters plan context
         (Runs.options TwoWay None None) s1
       = (s', Ok (applyResult, applied))
    /\ snd s' = (snd s1 ++ added)%list
    /\ flat_map written added
       = (map WroteLabel created
            ++ flat_map createWrites (SyncPlan.creates applied)
            ++ flat_map updateWrites (SyncPlan.updates applied)
            ++ (if Nat.ltb 0 (List.length (prdChangesOf plan))
                then [WroteStories "prd.json"
                        (applyPrdChanges Fixture.host
                           (SyncContext.prdStories context) (prdChangesOf plan))]
                else []))%list.
Proof.
  destruct Plans.planned as [[w1 log1] [[plan context]|e]] eqn:Eplan;
    [|vm_compute in Eplan; discriminate].
  destruct (applyPlan Fixture.host Memory.adapters plan context
              (Runs.options TwoWay None None) (w1, log1))
    as [s' [[applyResult applied]|e]] eqn:Eapply.
  - destruct (@applyPlan_writes_the_plan Fixture.host Memory.t Memory.adapters
                plan context (Runs.options TwoWay None None) w1 log1 s'
                applyResult applied Eapply)
      as [added [created [Hlog [Hwritten _]]]].
    exists plan, context, (w1, log1), s', applyResult, applied, added, created.
    auto.
  - pose proof Eplan as Ecomputed. vm_compute in Ecomputed.
    injection Ecomputed as Hw Hlog Hplan Hcontext.
    rewrite <- Hw, <- Hlog, <- Hplan, <- Hcontext in Eapply.
    vm_compute in Eapply. discriminate.
Defined.
(** * The labels [applyPlan] creates *)

Lemma createdLabels_app (first second : list Call) :
  createdLabels (first ++ second) = (createdLabels first ++ createdLabels second)%list.
Proof. apply flat_map_app. Qed.

Lemma createdLabels_spared (added : list Call) :
  forallb sparesLabels added = true -> createdLabels added = [].
Proof.
  induction added as [|call added IH]; [reflexivity|]. cbn [forallb].
  intros Hall. apply andb_true_iff in Hall. destruct Hall as [Hcall Hall].
  destruct call; try discriminate; cbn; auto.
Qed.

Lemma createdLabels_inputs (names : list string) :
  createdLabels (map (fun name => CallCreateLabel (labelInput name)) names)
  = map labelInput names.
Proof.
  induction names as [|name names IH]; [reflexivity|]. cbn. now f_equal.
Qed.

Lemma bindM_split (W A B : Type) (m : M W A) (k : A -> M W B)
    (s s' : W * list Call) (r : Result B) :
  bindM m k s = (s', r) ->
  (exists s1 a, m s = (s1, Ok a) /\ k a s1 = (s', r))
  \/ (exists e, m s = (s', Throw e) /\ r = Throw e).
Proof.
  unfold bindM. destruct (m s) as [s1 [a|e]].
  - intros Hk. left. eauto.
  - intros [= <- <-]. right. eauto.
Qed.

Lemma dependency_names (prefix : string) (dependencies : list string) :
  forall names,
    fold_left (fun names dependency => JsSet.add names (prefix ++ dependency))
      dependencies names
    = fold_left JsSet.add (map (fun dependency => prefix ++ dependency) dependencies)
        names.
Proof.
  induction dependencies as [|dependency rest IH]; intros names; [reflexivity|].
  cbn [fold_left map]. apply IH.
Qed.

Lemma desired_names (prefix : string) (stories : list PrdStory.t) :
  forall start,
    NoDup start ->
    let desired :=
      fold_left
        (fun names story =>
           fold_left
             (fun names dependency => JsSet.add names (prefix ++ dependency))
             (PrdStory.dependsOn story) names)
        stories start in
    NoDup desired
    /\ forall name,
         In name desired
         <-> In name start
             \/ exists story dependency,
                  In story stories /\ In dependency (PrdStory.dependsOn story)
                  /\ name = prefix ++ dependency.
Proof.
  induction stories as [|story stories IH]; intros start Hstart; cbn [fold_left].
  - split; [exact Hstart|]. intros name. split; [now left|].
    intros [Hin|[story [dependency [[] _]]]]. exact Hin.
  - rewrite dependency_names.
    destruct (JsSet_ofList_spec
                (map (fun dependency => prefix ++ dependency)
                   (PrdStory.dependsOn story)) Hstart) as [Hdistinct Hin].
    destruct (IH _ Hdistinct) as [Hall Hmember]. cbv zeta in Hall, Hmember.
    split; [exact Hall|]. intros name. rewrite Hmember, Hin, in_map_iff.
    split.
    + intros [[Hold|[dependency [<- Hdep]]]|[other [dependency [Ho [Hd ->]]]]].
      * now left.
      * right. exists story, dependency. cbn. auto.
      * right. exists other, dependency. cbn. auto.
    + intros [Hold|[other [dependency [[<-|Ho] [Hd ->]]]]].
      * left. now left.
      * left. right. eauto.
      * right. eauto.
Qed.

Lemma labelNames_has (labels : list BoardLabel.t) (name : string) :
  JsMap.has
    (fold_left (fun m label => JsMap.set m (BoardLabel.name label) (BoardLabel.id label))
       labels JsMap.empty) name = true
  <-> In name (map BoardLabel.name labels).
Proof.
  unfold JsMap.has.
  rewrite (@fold_set_get BoardLabel.t string BoardLabel.name BoardLabel.id labels
             JsMap.empty name).
  split.
  - destruct (find _ _) as [label|] eqn:Efind; [|discriminate]. intros _.
    apply find_some in Efind. destruct Efind as [Hin Hname].
    apply String.eqb_eq in Hname. subst name.
    apply in_map. now apply in_rev.
  - intros Hin. apply in_map_iff in Hin. destruct Hin as [label [<- Hin]].
    destruct (@find_rev_member _ (fun item => BoardLabel.name item =? BoardLabel.name label)
                labels label Hin (String.eqb_refl _)) as [found ->].
    reflexivity.
Qed.

Section LabelPass.
Variable host : Host.
Variable W : Type.
Variable adapters : Adapters.t W.

(** The loop over the missing names asks for them one after the other and
    stops at the first that fails. *)
Lemma createLabels_log (names : list string) :
  forall (maps : JsMap.t string string * JsMap.t string string)
         (w : W) (log : list Call) (s' : W * list Call)
         (r : Result (JsMap.t string string * JsMap.t string string)),
    foldM
      (fun '(labelNameToId, labelIdToName) labelName =>
         let input := {| BoardLabelInput.name := labelName;
                         BoardLabelInput.color := None |} in
         await created :=
           perform (CallCreateLabel input) (Adapters.createLabel adapters input) in
         ret (JsMap.set labelNameToId (BoardLabel.name created) (BoardLabel.id created),
              JsMap.set labelIdToName (BoardLabel.id created) (BoardLabel.name created)))
      names maps (w, log) = (s', r) ->
    exists asked rest,
      names = (asked ++ rest)%list
      /\ snd s'
         = (log ++ map (fun name => CallCreateLabel (labelInput name)) asked)%list
      /\ (forall final, r = Ok final -> rest = []).
Proof.
  induction names as [|name names IH]; intros [nameToId idToName] w log s' r;
    cbn [foldM].
  - intros [= <- <-]. exists [], []. cbn. rewrite app_nil_r. auto.
  - intros Hrun. apply bindM_split in Hrun.
    destruct Hrun as [[[w1 log1] [maps' [Hturn Hrest]]]|[e [Hturn ->]]].
    + cbv zeta in Hturn. unfold bindM, perform in Hturn.
      destruct (Adapters.createLabel adapters _ w) as [w2 [created|e]];
        [|discriminate].
      cbn in Hturn. injection Hturn as <- <- <-.
      destruct (IH _ _ _ _ _ Hrest) as [asked [rest [-> [Hlog Hdone]]]].
      exists (name :: asked), rest. split; [reflexivity|].
      split; [|exact Hdone].
      rewrite Hlog. unfold Js.push. rewrite <- app_assoc. reflexivity.
    + cbv zeta in Hturn. unfold bindM, perform in Hturn.
      destruct (Adapters.createLabel adapters _ w) as [w2 [created|e']].
      * discriminate.
      * injection Hturn as <- _. exists [name], names.
        split; [reflexivity|]. split; [reflexivity | discriminate].
Qed.

Lemma refreshLabels_creates (plan : SyncPlan.t) (options : SyncPlanOptions.t)
    (w w1 : W) (labels : list BoardLabel.t) (log : list Call)
    (s' : W * list Call) (r : Result SyncPlan.t) :
  Adapters.getLabels adapters w = (w1, Ok labels) ->
  refreshLabels host adapters plan options (w, log) = (s', r) ->
  exists added names,
    snd s' = (log ++ added)%list
    /\ createdLabels added = map labelInput names
    /\ NoDup names
    /\ (forall name,
          In name names ->
          wantedLabel (SyncPlanOptions.mapping options) plan name
          /\ ~ In name (map BoardLabel.name labels))
    /\ (forall refreshed,
          r = Ok refreshed ->
          forall name,
            wantedLabel (SyncPlanOptions.mapping options) plan name ->
            In name (map BoardLabel.name labels) \/ In name names).
Proof.
  intros Hlabels Hrun. unfold refreshLabels in Hrun. cbv zeta in Hrun.
  apply bindM_split in Hrun.
  destruct Hrun as [[[w2 log2] [labels' [Hread Hrest]]]|[e [Hread _]]];
    unfold perform in Hread; rewrite Hlabels in Hread; [|discriminate].
  injection Hread as <- <- <-.
  apply bindM_split in Hrest.
  set (prefix := Mapping.dependsOnLabelPrefix (SyncPlanOptions.mapping options))
    in *.
  destruct (@desired_names prefix
              (map createStory (filter isTrelloCreate (SyncPlan.creates plan)))
              [] (NoDup_nil _)) as [Hfirst Hfirst_in].
  cbv zeta in Hfirst, Hfirst_in.
  destruct (@desired_names prefix
              (map updateStory (filter isTrelloUpdate (SyncPlan.updates plan)))
              _ Hfirst) as [Hdesired Hdesired_in].
  cbv zeta in Hdesired, Hdesired_in.
  match type of Hdesired with NoDup ?d => set (desired := d) in * end.
  assert (Hwanted : forall name,
            In name desired
            <-> wantedLabel (SyncPlanOptions.mapping options) plan name).
  { intros name. rewrite Hdesired_in, Hfirst_in. unfold wantedLabel, boardStories.
    fold prefix. split.
    - intros [[[]|[story [dependency [Hs H]]]]|[story [dependency [Hs H]]]];
        exists story, dependency; (split; [|exact H]); apply in_or_app; auto.
    - intros [story [dependency [Hs H]]]. apply in_app_or in Hs.
      destruct Hs as [Hs|Hs]; [left; right | right]; eauto. }
  set (missing :=
         filter (fun name =>
                   negb (JsMap.has
                           (fold_left
                              (fun m label =>
                                 JsMap.set m (BoardLabel.name label)
                                   (BoardLabel.id label)) labels JsMap.empty)
                           name))
           (sortStrings host desired)) in *.
  assert (Hmissing : NoDup missing).
  { apply NoDup_filter. unfold sortStrings.
    apply (Permutation_NoDup (Permutation_sym (sort_perm (localeCompare host) _))).
    exact Hdesired. }
  assert (Hmissing_in : forall name,
            In name missing
            <-> wantedLabel (SyncPlanOptions.mapping options) plan name
                /\ ~ In name (map BoardLabel.name labels)).
  { intros name. unfold missing. rewrite filter_In. unfold sortStrings.
    rewrite sort_In, Hwanted, negb_true_iff, <- labelNames_has.
    split; intros [Hw Hn]; (split; [exact Hw|]).
    - now rewrite Hn.
    - now destruct (JsMap.has _ name). }
  destruct Hrest as [[[w3 log3] [maps [Hloop Hend]]]|[e [Hloop ->]]].
  - destruct (createLabels_log _ _ _ _ Hloop) as [asked [rest [Hsplit [Hlog Hdone]]]].
    rewrite (Hdone maps eq_refl), app_nil_r in Hsplit. subst asked.
    destruct maps as [nameToId idToName]. injection Hend as <- _.
    cbn [snd] in Hlog.
    eexists (_ :: _)%list, missing. split.
    { rewrite Hlog. unfold Js.push. rewrite <- app_assoc. reflexivity. }
    split.
    { change (createdLabels
                (map (fun name => CallCreateLabel (labelInput name)) missing)
              = map labelInput missing). apply createdLabels_inputs. }
    split; [exact Hmissing|]. split.
    + intros name Hin. now apply Hmissing_in.
    + intros _ _ name Hname.
      destruct (in_dec string_dec name (map BoardLabel.name labels));
        [now left | right]. now apply Hmissing_in.
  - destruct (createLabels_log _ _ _ _ Hloop) as [asked [rest [Hsplit [Hlog _]]]].
    cbn [snd] in Hlog.
    eexists (_ :: _)%list, asked. split.
    { rewrite Hlog. unfold Js.push. rewrite <- app_assoc. reflexivity. }
    split.
    { change (createdLabels
                (map (fun name => CallCreateLabel (labelInput name)) asked)
              = map labelInput asked). apply createdLabels_inputs. }
    rewrite Hsplit in Hmissing.
    split; [exact (NoDup_app_remove_r _ _ Hmissing)|]. split.
    + intros name Hin. apply Hmissing_in. rewrite Hsplit.
      apply in_or_app. now left.
    + discriminate.
Qed.
End LabelPass.

(** X29.  The labels a run of [applyPlan] asks the board to create, whether
    the run returns or throws, when the board answers [getLabels] with
    [labels]: each has no colour and a name of its own, the name of a
    dependency label of a story that the plan sends to the board, and no
    label of the board had that name; none is asked for unless missing
    labels are to be created.  When the run returns and missing labels are
    to be created, every dependency label of a story that the plan sends to
    the board was on the board or has been asked for. *)
Theorem applyPlan_creates_the_missing_labels (host : Host) (W : Type)
    (adapters : Adapters.t W) (plan : SyncPlan.t) (context : SyncContext.t)
    (options : SyncPlanOptions.t) (w w1 : W) (labels : list BoardLabel.t)
    (log : list Call) (s' : W * list Call)
    (r : Result (SyncApplyResult.t * SyncPlan.t)) :
  Adapters.getLabels adapters w = (w1, Ok labels) ->
  applyPlan host adapters plan context options (w, log) = (s', r) ->
  exists added names,
    snd s' = (log ++ added)%list
    /\ createdLabels added = map labelInput names
    /\ NoDup names
    /\ (forall name,
          In name names ->
          resolveCreateMissingLabels (SyncPlanOptions.conflict options) = true
          /\ wantedLabel (SyncPlanOptions.mapping options) plan name
          /\ ~ In name (map BoardLabel.name labels))
    /\ (forall result,
          r = Ok result ->
          resolveCreateMissingLabels (SyncPlanOptions.conflict options) = true ->
          forall name,
            wantedLabel (SyncPlanOptions.mapping options) plan name ->
            In name (map BoardLabel.name labels) \/ In name names).
Proof.
  intros Hlabels Hrun. unfold applyPlan in Hrun. cbv zeta in Hrun.
  apply bindM_split in Hrun.
  assert (Hpass :
    forall s1 r1,
      (if resolveCreateMissingLabels (SyncPlanOptions.conflict options)
          && (Nat.ltb 0 (List.length (filter isTrelloCreate (SyncPlan.creates plan)))
              || Nat.ltb 0 (List.length (filter isTrelloUpdate (SyncPlan.updates plan))))
       then refreshLabels host adapters plan options
       else ret plan) (w, log) = (s1, r1) ->
      exists added names,
        snd s1 = (log ++ added)%list
        /\ createdLabels added = map labelInput names
        /\ NoDup names
        /\ (forall name,
              In name names ->
              resolveCreateMissingLabels (SyncPlanOptions.conflict options) = true
              /\ wantedLabel (SyncPlanOptions.mapping options) plan name
              /\ ~ In name (map BoardLabel.name labels))
        /\ (forall refreshed,
              r1 = Ok refreshed ->
              resolveCreateMissingLabels (SyncPlanOptions.conflict options) = true ->
              forall name,
                wantedLabel (SyncPlanOptions.mapping options) plan name ->
                In name (map BoardLabel.name labels) \/ In name names)).
  { intros s1 r1.
    destruct (resolveCreateMissingLabels (SyncPlanOptions.conflict options));
      cbn [andb].
    - destruct (Nat.ltb 0 (List.length (filter isTrelloCreate (SyncPlan.creates plan))))
        eqn:Ecreates;
        [|destruct (Nat.ltb 0 (List.length
                                 (filter isTrelloUpdate (SyncPlan.updates plan))))
            eqn:Eupdates]; cbn [orb].
      1, 2: intros Hpass;
        destruct (@refreshLabels_creates host W adapters plan options w w1 labels
                    log s1 r1 Hlabels Hpass)
          as [added [names [Hlog [Hcreated [Hdistinct [Hsound Hall]]]]]];
        exists added, names;
        (split; [exact Hlog|]); (split; [exact Hcreated|]);
        (split; [exact Hdistinct|]);
        (split; [intros name Hin; split; [reflexivity | now apply Hsound]|]);
        intros refreshed Hr _; exact (Hall refreshed Hr).
      intros [= <- <-]. exists [], []. cbn [snd]. rewrite app_nil_r.
      split; [reflexivity|]. split; [reflexivity|]. split; [constructor|].
      split; [intros ? []|].
      intros _ _ _ name [story [dependency [Hstory _]]]. exfalso.
      unfold boardStories in Hstory.
      destruct (filter isTrelloCreate (SyncPlan.creates plan)); [|discriminate].
      destruct (filter isTrelloUpdate (SyncPlan.updates plan)); [|discriminate].
      exact Hstory.
    - intros [= <- <-]. exists [], []. cbn [snd]. rewrite app_nil_r.
      split; [reflexivity|]. split; [reflexivity|]. split; [constructor|].
      split; [intros ? []|]. discriminate. }
  destruct Hrun as [[[w2 log2] [refreshed [Hfirst Hrest]]]|[e [Hfirst ->]]].
  - destruct (Hpass _ _ Hfirst)
      as [added [names [Hlog [Hcreated [Hdistinct [Hsound Hall]]]]]].
    cbn [snd] in Hlog. subst log2.
    match type of Hrest with
    | ?rest _ = _ => assert (Hspared : logsOnly sparesLabels rest)
    end.
    { clear Hpass Hfirst Hrest. apply logsOnly_bindM.
      { apply logsOnly_foldM. intros [updated touched] create _.
        destruct create as [id reason story cardInput checklist|];
          [|apply logsOnly_ret].
        apply logsOnly_bindM; [now apply logsOnly_perform|]. intros card.
        destruct (Nat.ltb 0 _); [|apply logsOnly_ret].
        apply logsOnly_bindM; [now apply logsOnly_perform|]. intros.
        apply logsOnly_ret. }
      intros afterCreates. apply logsOnly_bindM.
      { apply logsOnly_foldM. intros [updated touched] update _.
        destruct update as [id reason story card cardUpdate checklist needs move|];
          [|apply logsOnly_ret].
        apply logsOnly_bindM.
        - destruct (hasUpdateFields cardUpdate); [|apply logsOnly_ret].
          apply logsOnly_bindM; [now apply logsOnly_perform|]. intros.
          apply logsOnly_ret.
        - intros updated'. destruct needs; [|apply logsOnly_ret].
          apply logsOnly_bindM; [now apply logsOnly_perform|]. intros.
          apply logsOnly_ret. }
      intros [updated touched].
      apply logsOnly_bindM; [|intros; apply logsOnly_ret].
      destruct (Nat.ltb 0 _); [|apply logsOnly_ret].
      apply logsOnly_bindM; [now apply logsOnly_perform|]. intros.
      apply logsOnly_ret. }
    destruct (Hspared w2 (log ++ added)%list) as [later [Hlater Hnone]].
    rewrite Hrest in Hlater. cbn [fst] in Hlater.
    exists (added ++ later)%list, names.
    split; [now rewrite Hlater, app_assoc|].
    split; [now rewrite createdLabels_app, (createdLabels_spared _ Hnone),
              app_nil_r|].
    split; [exact Hdistinct|]. split; [exact Hsound|].
    intros result _. exact (Hall refreshed eq_refl).
  - destruct (Hpass _ _ Hfirst)
      as [added [names [Hlog [Hcreated [Hdistinct [Hsound _]]]]]].
    exists added, names. split; [exact Hlog|]. split; [exact Hcreated|].
    split; [exact Hdistinct|]. split; [exact Hsound | discriminate].
Qed.

Lemma applyPlan_creates_the_missing_labels_witness :
  exists plan context s1 s' r added names,
    LabelRun.planned = (s1, Ok (plan, context))
    /\ applyPlan Fixture.host Memory.adapters plan context
         (Runs.options TwoWay None None) s1 = (s', r)
    /\ snd s' = (snd s1 ++ added)%list
    /\ createdLabels added = map labelInput names
    /\ NoDup names
    /\ forall name,
         In name names ->
         wantedLabel Fixture.mapping plan name
         /\ ~ In name (map BoardLabel.name (Memory.boardLabels (fst s1))).
Proof.
  destruct LabelRun.planned as [[w1 log1] [[plan context]|e]] eqn:Eplan;
    [|vm_compute in Eplan; discriminate].
  destruct (applyPlan Fixture.host Memory.adapters plan context
              (Runs.options TwoWay None None) (w1, log1)) as [s' r] eqn:Eapply.
  destruct (@applyPlan_creates_the_missing_labels Fixture.host Memory.t
              Memory.adapters plan context (Runs.options TwoWay None None)
              w1 w1 (Memory.boardLabels w1) log1 s' r eq_refl Eapply)
    as [added [names [Hlog [Hcreated [Hdistinct [Hsound _]]]]]].
  exists plan, context, (w1, log1), s', r, added, names.
  repeat (split; [assumption || reflexivity|]).
  intros name Hin. now apply Hsound.
Defined.
(** * When planning fails *)

Lemma buildCardMapping_ok (host : Host) (story : PrdStory.t)
    (mapping : Mapping.t) (statusMapping : StatusMappingResult.t)
    (labelNameToId labelIdToName : JsMap.t string string)
    (codec : StoryId.StoryIdCodec) (card : option BoardCard.t)
    (checklists : option (list BoardChecklist.t)) :
  Regex.test (StoryId.idRegex codec) (PrdStory.id story) = true ->
  exists cardMapping,
    buildCardMapping host story mapping statusMapping labelNameToId
      labelIdToName codec card checklists
    = Ok cardMapping.
Proof.
  intros Hid. unfold buildCardMapping, StoryId.formatCardTitle.
  destruct (resolveLabelIds host story mapping labelNameToId labelIdToName card)
    as [merged missing].
  rewrite Hid. cbn [negb bind].
  match goal with
  | |- exists r, (let '(needs, issues) := ?pair in _) = _ =>
      destruct pair as [needs issues]
  end.
  eexists. reflexivity.
Qed.

Lemma buildCardMapping_throws (host : Host) (story : PrdStory.t)
    (mapping : Mapping.t) (statusMapping : StatusMappingResult.t)
    (labelNameToId labelIdToName : JsMap.t string string)
    (codec : StoryId.StoryIdCodec) (card : option BoardCard.t)
    (checklists : option (list BoardChecklist.t)) :
  Regex.test (StoryId.idRegex codec) (PrdStory.id story) = false ->
  buildCardMapping host story mapping statusMapping labelNameToId
    labelIdToName codec card checklists
  = Throw (StoryIdFormatError
             ("Story ID '" ++ PrdStory.id story ++ "' does not match idPattern")).
Proof.
  intros Hid. unfold buildCardMapping, StoryId.formatCardTitle.
  destruct (resolveLabelIds host story mapping labelNameToId labelIdToName card)
    as [merged missing].
  rewrite Hid. reflexivity.
Qed.

Section Turns.
Variable host : Host.
Variable locals : PlanLocals.t.
Variable checklistByCardId : JsMap.t string (list BoardChecklist.t).

(** A turn throws only when the identifier of its story does not fit the
    pattern of identifiers. *)
Lemma loopBody_ok (id : string) :
  (forall story,
     JsMap.get (PlanLocals.prdById locals) id = Some story ->
     Regex.test (StoryId.idRegex (PlanLocals.storyIdCodec locals))
       (PrdStory.id story) = true) ->
  exists outcome, loopBody host locals checklistByCardId id = Ok outcome.
Proof.
  intros Hfits. unfold loopBody.
  destruct (JsSet.has (PlanLocals.conflictedIds locals) id); [eauto|].
  destruct (JsMap.get (PlanLocals.prdById locals) id) as [story|];
    destruct (JsMap.get (recordById locals) id) as [record|]; [| |eauto|eauto].
  - specialize (Hfits story eq_refl). unfold classifyPair, bind.
    destruct (Js.isSome (PlanLocals.incrementalState locals)
              && (isStoryUnchanged locals story && isCardUnchanged locals record));
      [eauto|].
    unfold pairMappings, bind.
    destruct (@buildCardMapping_ok host story (PlanLocals.mapping locals)
                (PlanLocals.statusMapping locals) (PlanLocals.labelNameToId locals)
                (PlanLocals.labelIdToName locals) (PlanLocals.storyIdCodec locals)
                (Some (CardRecord.card record))
                (JsMap.get checklistByCardId (BoardCard.id (CardRecord.card record)))
                Hfits) as [cardMapping ->].
    cbv zeta.
    repeat match goal with
           | |- context [if ?c then _ else _] => destruct c
           | |- context [match PlanLocals.direction locals with _ => _ end] =>
               destruct (PlanLocals.direction locals)
           end; eauto.
  - specialize (Hfits story eq_refl). unfold classifyStoryOnly, bind.
    destruct (PlanLocals.direction locals); [| eauto |];
      (destruct (@buildCardMapping_ok host story (PlanLocals.mapping locals)
                   (PlanLocals.statusMapping locals)
                   (PlanLocals.labelNameToId locals)
                   (PlanLocals.labelIdToName locals)
                   (PlanLocals.storyIdCodec locals) None None Hfits)
         as [cardMapping ->];
       destruct (Nat.ltb 0 _); eauto).
Qed.

Lemma runLoop_ok (ids : list string) :
  (forall id, In id ids ->
     exists outcome, loopBody host locals checklistByCardId id = Ok outcome) ->
  forall plan,
    exists looped, runLoop host locals checklistByCardId ids plan = Ok looped.
Proof.
  induction ids as [|id ids IH]; intros Hturns plan; [eexists; reflexivity|].
  rewrite runLoop_cons.
  destruct (Hturns id (or_introl eq_refl)) as [[entry|] ->];
    apply IH; intros; apply Hturns; now right.
Qed.

Lemma runLoop_fails (ids : list string) :
  (exists id e, In id ids /\ loopBody host locals checklistByCardId id = Throw e) ->
  forall plan,
    exists e, runLoop host locals checklistByCardId ids plan = Throw e.
Proof.
  induction ids as [|id ids IH]; intros [bad [e [Hin Hbad]]] plan;
    [destruct Hin|].
  rewrite runLoop_cons.
  destruct (loopBody host locals checklistByCardId id) as [[entry|]|e'] eqn:Ebody;
    [| |eauto];
    (destruct Hin as [<-|Hin]; [congruence|]; apply IH; eauto).
Qed.
End Turns.


